(** * AssimpImporter: a shallow embedding of the scene conversion

    This development embeds the conversion performed by
    [Source/Falcor/Scene/Importers/AssimpImporter.cpp]: bone validation,
    scene-graph construction, mesh filtering and skinning, mesh-instance
    expansion and keyframe merging.  Every function below is a transcription
    of the C++ function of the same name; loops become structural recursions
    over the array they walk (or fuel-bounded recursions for the one [while]
    loop), and the mutable [ImporterData] is threaded explicitly. *)

From Stdlib Require Import QArith Qround Qabs Qpower Lqa DecimalString.
From stdpp Require Import base option list gmap strings.

(** ** Floating-point values

    A finite value is a rational, and the IEEE special values that the code
    can produce by a division are kept apart.  The [double] arithmetic of the
    animation stage is idealised: its quotients are exact.  The [float]
    arithmetic on the skin weights rounds to single precision and overflows
    ([fadd32], [fdiv32]).  Signed zeros are not modelled. *)
Module Float.

Inductive float : Type :=
| Fin (q : Q)
| Inf (negative : bool)
| NaN.

Definition zero : float := Fin 0.
Definition one : float := Fin 1.

Definition Qneg (q : Q) : bool := negb (Qle_bool 0 q).

(** [a == b] *)
Definition feqb (a b : float) : bool :=
  match a, b with
  | Fin x, Fin y => Qeq_bool x y
  | Inf s, Inf t => Bool.eqb s t
  | _, _ => false
  end.

(** [a < b] *)
Definition fltb (a b : float) : bool :=
  match a, b with
  | Fin x, Fin y => negb (Qle_bool y x)
  | Fin _, Inf s => negb s
  | Inf s, Fin _ => s
  | Inf s, Inf t => s && negb t
  | _, _ => false
  end.

(** [a <= b] *)
Definition fleb (a b : float) : bool :=
  match a, b with
  | Fin x, Fin y => Qle_bool x y
  | Fin _, Inf s => negb s
  | Inf s, Fin _ => s
  | Inf s, Inf t => s || negb t
  | _, _ => false
  end.

(** [std::max(a, b)], that is [(a < b) ? b : a]. *)
Definition fmax (a b : float) : float := if fltb a b then b else a.

Definition fadd (a b : float) : float :=
  match a, b with
  | Fin x, Fin y => Fin (x + y)
  | Fin _, Inf s => Inf s
  | Inf s, Fin _ => Inf s
  | Inf s, Inf t => if Bool.eqb s t then Inf s else NaN
  | _, _ => NaN
  end.

(** [a / b]: a finite value over zero is an infinity, zero over zero and
    infinity over infinity are not numbers. *)
Definition fdiv (a b : float) : float :=
  match a, b with
  | Fin x, Fin y =>
      if Qeq_bool y 0
      then (if Qeq_bool x 0 then NaN else Inf (Qneg x))
      else Fin (x / y)
  | Fin _, Inf _ => Fin 0
  | Inf s, Fin y => Inf (xorb s (Qneg y))
  | _, _ => NaN
  end.

(** *** Single precision *)

(** The integer nearest to [y], the even one of two equally near. *)
Definition rne (y : Q) : Z :=
  let n := Qfloor y in
  match Qcompare (y - inject_Z n) (1 # 2) with
  | Lt => n
  | Gt => (n + 1)%Z
  | Eq => if Z.even n then n else (n + 1)%Z
  end.

(** For a positive [a], the exponent [e] with [2 ^ e <= a < 2 ^ (e + 1)]. *)
Definition log2floor (a : Q) : Z :=
  let k := (Z.log2 (Qnum a) - Z.log2 (Zpos (Qden a)))%Z in
  if Qle_bool (2 ^ k) a then k else (k - 1)%Z.

(** Rounding to the nearest [float] (IEEE 754 binary32), ties to even: 24
    significant bits, the least exponent -126 with the subnormal numbers
    below it, and an infinity for a rounded magnitude of 2^128 or more. *)
Definition round32 (x : Q) : float :=
  if Qeq_bool x 0 then Fin 0 else
  let a := Qabs x in
  let e := Z.max (log2floor a) (-126) in
  let ulp := (2 ^ (e - 23))%Q in
  let r := (inject_Z (rne (a / ulp)) * ulp)%Q in
  if Qle_bool (2 ^ 128) r then Inf (Qneg x)
  else Fin (if Qneg x then - r else r).

(** [a + b] in [float] *)
Definition fadd32 (a b : float) : float :=
  match a, b with
  | Fin x, Fin y => round32 (x + y)
  | _, _ => fadd a b
  end.

(** [a / b] in [float] *)
Definition fdiv32 (a b : float) : float :=
  match a, b with
  | Fin x, Fin y => if Qeq_bool y 0 then fdiv a b else round32 (x / y)
  | _, _ => fdiv a b
  end.

(** [std::numeric_limits<double>::max()] *)
Definition DBL_MAX : Q := inject_Z (2 ^ 1024 - 2 ^ 971).

End Float.
Export Float.

(** ** Errors

    The C++ code leaves a function early by a failed [FALCOR_ASSERT], by
    throwing [ImporterError], or by the [std::out_of_range] of a failed
    [std::map::at].  [OutOfFuel] is only produced by the fuel-bounded model of
    the [while] loop of [createAnimation], when the loop has not finished
    within its budget. *)
Inductive error : Type :=
| AssertFailure
| ImporterError (msg : string)
| OutOfRange
| OutOfFuel.

Inductive result (A : Type) : Type :=
| Ok (a : A)
| Err (e : error).
Arguments Ok {A} a.
Arguments Err {A} e.

#[global] Instance result_ret : MRet result := λ A a, Ok a.
#[global] Instance result_bind : MBind result := λ A B k m,
  match m with
  | Ok a => k a
  | Err e => Err e
  end.

Definition is_Ok {A} (r : result A) : Prop := ∃ a, r = Ok a.

(** Modelled from the spec: [FALCOR_ASSERT] comes from [Core/Assert.h], which
    is not among the sources.  Section 7 of the specification lists the
    internal consistency assertions among the fatal conditions; the macro is
    compiled out of release builds, so whether assertions are checked is the
    parameter [dbg] of every function that contains one. *)
Definition FALCOR_ASSERT (dbg : bool) (cond : bool) : result unit :=
  if dbg && negb cond then Err AssertFailure else Ok tt.

(** A [for] loop over an array whose body may fail. *)
Fixpoint forEach {A S : Type} (body : A → S → result S) (l : list A) (s : S) : result S :=
  match l with
  | [] => Ok s
  | x :: rest => s ← body x s; forEach body rest s
  end.

(** ** The external scene (Assimp's [aiScene])

    Arrays are lists ([mNumX] is the length of [mX]).  A node is identified by
    its address [mAddr], which is what the importer's pointer-keyed map uses. *)

Definition aiVector3D : Type := float * float * float.
(** [aiQuaternion], fields [w, x, y, z]. *)
Definition aiQuaternion : Type := float * float * float * float.
(** [aiMatrix4x4], the sixteen entries [a1 .. d4] in row-major order. *)
Abbreviation aiMatrix4x4 := (list float) (only parsing).

Record aiVectorKey : Type := mk_aiVectorKey {
  vk_mTime : float;
  vk_mValue : aiVector3D
}.

Record aiQuatKey : Type := mk_aiQuatKey {
  qk_mTime : float;
  qk_mValue : aiQuaternion
}.

Record aiNodeAnim : Type := mk_aiNodeAnim {
  mNodeName : string;
  mPositionKeys : list aiVectorKey;
  mRotationKeys : list aiQuatKey;
  mScalingKeys : list aiVectorKey
}.

Record aiAnimation : Type := mk_aiAnimation {
  mDuration : float;
  mTicksPerSecond : float;
  mChannels : list aiNodeAnim;
  mNumMeshChannels : nat
}.

Definition aiFace : Type := list nat.

Record aiVertexWeight : Type := mk_aiVertexWeight {
  mVertexId : nat;
  mWeight : float
}.

Record aiBone : Type := mk_aiBone {
  bone_mName : string;
  mWeights : list aiVertexWeight;
  mOffsetMatrix : aiMatrix4x4
}.

Record aiMesh : Type := mk_aiMesh {
  mesh_mName : string;
  mFaces : list aiFace;
  mNumVertices : nat;
  mTextureCoords0 : option (list aiVector3D);
  mBones : list aiBone;
  mMaterialIndex : nat
}.

#[local] Unset Elimination Schemes.
Inductive aiNode : Type := mk_aiNode {
  mAddr : nat;
  mName : string;
  mTransformation : aiMatrix4x4;
  mParent : option nat;
  mMeshes : list nat;
  mChildren : list aiNode
}.
#[local] Set Elimination Schemes.

(** *** Materials, cameras and lights *)

Inductive aiTextureType : Type :=
| aiTextureType_DIFFUSE
| aiTextureType_SPECULAR
| aiTextureType_EMISSIVE
| aiTextureType_HEIGHT
| aiTextureType_NORMALS
| aiTextureType_DISPLACEMENT
| aiTextureType_UNKNOWN.


Definition aiColor3D : Type := float * float * float.

(** An external material: for every texture type the paths of its textures
    by index, its name (empty when it has none), and the properties
    [createMaterial] asks for, each present or not. *)
Record aiMaterial : Type := mk_aiMaterial {
  mat_textures : aiTextureType → list string;
  mat_name : string;
  mat_opacity : option float;
  mat_bumpScaling : option float;
  mat_shininess : option float;
  mat_refracti : option float;
  mat_colorDiffuse : option aiColor3D;
  mat_colorSpecular : option aiColor3D;
  mat_colorEmissive : option aiColor3D;
  mat_twoSided : option Z;
  mat_baseColorFactor : option aiColor3D;
  mat_metallicFactor : option float;
  mat_roughnessFactor : option float
}.

Inductive aiLightSourceType : Type :=
| aiLightSource_UNDEFINED
| aiLightSource_DIRECTIONAL
| aiLightSource_POINT
| aiLightSource_SPOT
| aiLightSource_AMBIENT
| aiLightSource_AREA.

(** The value of the enumerator, as the warning prints it. *)
Definition aiLightSourceType_code (t : aiLightSourceType) : nat :=
  match t with
  | aiLightSource_UNDEFINED => 0
  | aiLightSource_DIRECTIONAL => 1
  | aiLightSource_POINT => 2
  | aiLightSource_SPOT => 3
  | aiLightSource_AMBIENT => 4
  | aiLightSource_AREA => 5
  end.

Record aiLight : Type := mk_aiLight {
  light_mName : string;
  light_mType : aiLightSourceType;
  light_mPosition : aiVector3D;
  light_mDirection : aiVector3D;
  light_mUp : aiVector3D;
  mColorDiffuse : aiColor3D;
  mColorSpecular : aiColor3D;
  mAngleInnerCone : float;
  mAngleOuterCone : float
}.

Record aiCamera : Type := mk_aiCamera {
  cam_mName : string;
  cam_mPosition : aiVector3D;
  cam_mUp : aiVector3D;
  cam_mLookAt : aiVector3D;
  cam_mAspect : float;
  cam_mHorizontalFOV : float;
  cam_mClipPlaneNear : float;
  cam_mClipPlaneFar : float
}.

(** [mNumMaterials] is kept beside the array of the materials, as the
    stages that only count the materials read it. *)
Record aiScene : Type := mk_aiScene {
  mRootNode : aiNode;
  scene_mMeshes : list aiMesh;
  mNumMaterials : nat;
  scene_mMaterials : list aiMaterial;
  mAnimations : list aiAnimation;
  mNumTextures : nat;
  scene_mCameras : list aiCamera;
  scene_mLights : list aiLight
}.

Definition HasFaces (m : aiMesh) : bool := negb (Nat.eqb (length (mFaces m)) 0).
Definition HasBones (m : aiMesh) : bool := negb (Nat.eqb (length (mBones m)) 0).

(** ** Falcor-side values *)

Abbreviation NodeID := N (only parsing).
Abbreviation MeshID := N (only parsing).

(** Modelled from the spec: [NodeID::kInvalidID] is declared outside the
    sources; it is the reserved identifier distinct from every node
    identifier, the largest 32-bit value. *)
Definition kInvalidID : NodeID := 4294967295%N.

(** Modelled from the spec: [Scene::kMaxBonesPerVertex] is declared outside
    the sources; the fixed maximum of influences per vertex is four (the
    influence arrays are a [uint4] and a [float4]). *)
Definition kMaxBonesPerVertex : nat := 4.

Definition float3 : Type := float * float * float.
Definition quat : Type := float * float * float * float.
Abbreviation mat4 := (list float) (only parsing).

Definition aiCast_vec (v : aiVector3D) : float3 := let '(x, y, z) := v in (x, y, z).
Definition aiCast_quat (q : aiQuaternion) : quat := let '(w, x, y, z) := q in (w, x, y, z).
Definition aiCast_mat (m : aiMatrix4x4) : mat4 := m.

(** Modelled from the spec: the default-constructed [rmcv::mat4] is the
    identity transform. *)
Definition mat4_identity : mat4 :=
  [one; zero; zero; zero;
   zero; one; zero; zero;
   zero; zero; one; zero;
   zero; zero; zero; one].

(** Entry-wise [==] of two matrices; [!=] is its negation. *)
Fixpoint mat_eqb (a b : list float) : bool :=
  match a, b with
  | [], [] => true
  | x :: a', y :: b' => feqb x y && mat_eqb a' b'
  | _, _ => false
  end.
Definition mat_neqb (a b : list float) : bool := negb (mat_eqb a b).

Record Keyframe : Type := mk_Keyframe {
  kf_time : float;
  kf_translation : float3;
  kf_scaling : float3;
  kf_rotation : quat
}.

(** Modelled from the spec: [Animation::Keyframe] is declared outside the
    sources; a fresh keyframe is at time zero with no translation, unit
    scaling and the identity rotation. *)
Definition Keyframe_default : Keyframe :=
  {| kf_time := zero;
     kf_translation := (zero, zero, zero);
     kf_scaling := (one, one, one);
     kf_rotation := (one, zero, zero, zero) |}.

Record Animation : Type := mk_Animation {
  anim_name : string;
  anim_nodeID : NodeID;
  anim_duration : float;
  anim_keyframes : list Keyframe
}.

Record Node : Type := mk_Node {
  n_name : string;
  n_parent : NodeID;
  n_transform : mat4;
  n_localToBindPose : mat4
}.

Record ProcessedMesh : Type := mk_ProcessedMesh {
  pm_name : string;
  pm_faceCount : nat;
  pm_indices : list nat;
  pm_vertexCount : nat;
  pm_texCrds : option (list (float * float));
  pm_boneIDs : option (list (list NodeID));
  pm_boneWeights : option (list (list float));
  pm_material : nat
}.

(** ** The scene builder

    Modelled from the spec: [SceneBuilder] is an external collaborator, an
    append-only store that hands out identifiers in registration order
    (section 6 of the specification).  [addKeyframe] appends to the keyframes
    of a registered animation. *)
Record SceneBuilder : Type := mk_SceneBuilder {
  sb_nodes : list Node;
  sb_meshes : list ProcessedMesh;
  sb_meshInstances : list (NodeID * MeshID);
  sb_animations : list Animation
}.

Definition SceneBuilder_empty : SceneBuilder :=
  {| sb_nodes := []; sb_meshes := []; sb_meshInstances := []; sb_animations := [] |}.

Definition builder_addNode (n : Node) (b : SceneBuilder) : NodeID * SceneBuilder :=
  (N.of_nat (length (sb_nodes b)),
   {| sb_nodes := sb_nodes b ++ [n]; sb_meshes := sb_meshes b;
      sb_meshInstances := sb_meshInstances b; sb_animations := sb_animations b |}).

Definition builder_addProcessedMesh (m : ProcessedMesh) (b : SceneBuilder) : MeshID * SceneBuilder :=
  (N.of_nat (length (sb_meshes b)),
   {| sb_nodes := sb_nodes b; sb_meshes := sb_meshes b ++ [m];
      sb_meshInstances := sb_meshInstances b; sb_animations := sb_animations b |}).

Definition builder_addMeshInstance (nodeID : NodeID) (meshID : MeshID) (b : SceneBuilder) : SceneBuilder :=
  {| sb_nodes := sb_nodes b; sb_meshes := sb_meshes b;
     sb_meshInstances := sb_meshInstances b ++ [(nodeID, meshID)];
     sb_animations := sb_animations b |}.

(** [Animation::create] followed by [builder.addAnimation]: the animation is
    shared between the caller and the builder, so the caller keeps its
    position in the builder's store as the handle. *)
Definition builder_addAnimation (a : Animation) (b : SceneBuilder) : nat * SceneBuilder :=
  (length (sb_animations b),
   {| sb_nodes := sb_nodes b; sb_meshes := sb_meshes b;
      sb_meshInstances := sb_meshInstances b;
      sb_animations := sb_animations b ++ [a] |}).

Definition Animation_addKeyframe (k : Keyframe) (a : Animation) : Animation :=
  {| anim_name := anim_name a; anim_nodeID := anim_nodeID a;
     anim_duration := anim_duration a;
     anim_keyframes := anim_keyframes a ++ [k] |}.

Definition builder_addKeyframe (h : nat) (k : Keyframe) (b : SceneBuilder) : SceneBuilder :=
  {| sb_nodes := sb_nodes b; sb_meshes := sb_meshes b;
     sb_meshInstances := sb_meshInstances b;
     sb_animations := alter (Animation_addKeyframe k) h (sb_animations b) |}.

(** ** The importer's working state ([ImporterData]) *)
Record ImporterData : Type := mk_ImporterData {
  pScene : aiScene;
  builder : SceneBuilder;
  materialMap : gmap nat nat;
  meshMap : gmap nat MeshID;
  modelInstances : list mat4;
  localToBindPoseMatrices : gmap string mat4;
  mAiToFalcorNodeID : gmap nat NodeID;
  mAiNodes : gmap string (list nat);
  warnings : list string
}.

Definition set_builder (b : SceneBuilder) (d : ImporterData) : ImporterData :=
  {| pScene := pScene d; builder := b; materialMap := materialMap d;
     meshMap := meshMap d; modelInstances := modelInstances d;
     localToBindPoseMatrices := localToBindPoseMatrices d;
     mAiToFalcorNodeID := mAiToFalcorNodeID d; mAiNodes := mAiNodes d;
     warnings := warnings d |}.

Definition set_pScene (s : aiScene) (d : ImporterData) : ImporterData :=
  {| pScene := s; builder := builder d; materialMap := materialMap d;
     meshMap := meshMap d; modelInstances := modelInstances d;
     localToBindPoseMatrices := localToBindPoseMatrices d;
     mAiToFalcorNodeID := mAiToFalcorNodeID d; mAiNodes := mAiNodes d;
     warnings := warnings d |}.

Definition set_materialMap (m : gmap nat nat) (d : ImporterData) : ImporterData :=
  {| pScene := pScene d; builder := builder d; materialMap := m;
     meshMap := meshMap d; modelInstances := modelInstances d;
     localToBindPoseMatrices := localToBindPoseMatrices d;
     mAiToFalcorNodeID := mAiToFalcorNodeID d; mAiNodes := mAiNodes d;
     warnings := warnings d |}.

Definition set_meshMap (m : gmap nat MeshID) (d : ImporterData) : ImporterData :=
  {| pScene := pScene d; builder := builder d; materialMap := materialMap d;
     meshMap := m; modelInstances := modelInstances d;
     localToBindPoseMatrices := localToBindPoseMatrices d;
     mAiToFalcorNodeID := mAiToFalcorNodeID d; mAiNodes := mAiNodes d;
     warnings := warnings d |}.

Definition set_localToBindPoseMatrices (m : gmap string mat4) (d : ImporterData) : ImporterData :=
  {| pScene := pScene d; builder := builder d; materialMap := materialMap d;
     meshMap := meshMap d; modelInstances := modelInstances d;
     localToBindPoseMatrices := m;
     mAiToFalcorNodeID := mAiToFalcorNodeID d; mAiNodes := mAiNodes d;
     warnings := warnings d |}.

Definition set_nodeMaps (ids : gmap nat NodeID) (names : gmap string (list nat))
    (d : ImporterData) : ImporterData :=
  {| pScene := pScene d; builder := builder d; materialMap := materialMap d;
     meshMap := meshMap d; modelInstances := modelInstances d;
     localToBindPoseMatrices := localToBindPoseMatrices d;
     mAiToFalcorNodeID := ids; mAiNodes := names;
     warnings := warnings d |}.

(** [logWarning]: the diagnostics sink is a list of messages, oldest first. *)
Definition logWarning (msg : string) (d : ImporterData) : ImporterData :=
  {| pScene := pScene d; builder := builder d; materialMap := materialMap d;
     meshMap := meshMap d; modelInstances := modelInstances d;
     localToBindPoseMatrices := localToBindPoseMatrices d;
     mAiToFalcorNodeID := mAiToFalcorNodeID d; mAiNodes := mAiNodes d;
     warnings := warnings d ++ [msg] |}.

(** The constructor of [ImporterData]: every map starts empty. *)
Definition ImporterData_new (pAiScene : aiScene) (sceneBuilder : SceneBuilder)
    (modelInstances_ : list mat4) : ImporterData :=
  {| pScene := pAiScene; builder := sceneBuilder; materialMap := ∅;
     meshMap := ∅; modelInstances := modelInstances_;
     localToBindPoseMatrices := ∅;
     mAiToFalcorNodeID := ∅; mAiNodes := ∅; warnings := [] |}.

(** [getFalcorNodeID] on a node pointer: [std::map::at] throws when the node is
    not registered. *)
Definition getFalcorNodeID_node (data : ImporterData) (pNode : nat) : result NodeID :=
  match mAiToFalcorNodeID data !! pNode with
  | Some id => Ok id
  | None => Err OutOfRange
  end.

(** [getFalcorNodeID(name, index)]: any exception of the lookup is caught and
    turned into the invalid identifier.  Indexing the instance vector past its
    end is undefined in C++; no caller does so, and the model answers with the
    invalid identifier there. *)
Definition getFalcorNodeID (data : ImporterData) (aiNodeName : string) (index : nat) : NodeID :=
  match mAiNodes data !! aiNodeName with
  | Some l =>
      match l !! index with
      | Some p =>
          match getFalcorNodeID_node data p with
          | Ok id => id
          | Err _ => kInvalidID
          end
      | None => kInvalidID
      end
  | None => kInvalidID
  end.

Definition getNodeInstanceCount (data : ImporterData) (nodeName : string) : result nat :=
  match mAiNodes data !! nodeName with
  | Some l => Ok (length l)
  | None => Err OutOfRange
  end.

Definition addAiNode (dbg : bool) (pNode : aiNode) (falcorNodeID : NodeID)
    (data : ImporterData) : result ImporterData :=
  FALCOR_ASSERT dbg (bool_decide (mAiToFalcorNodeID data !! mAddr pNode = None));;
  let ids := <[mAddr pNode := falcorNodeID]> (mAiToFalcorNodeID data) in
  let names :=
    match mAiNodes data !! mName pNode with
    | None => <[mName pNode := []]> (mAiNodes data)
    | Some _ => mAiNodes data
    end in
  let names := <[mName pNode := default [] (names !! mName pNode) ++ [mAddr pNode]]> names in
  Ok (set_nodeMaps ids names data).

(** ** Animation merger *)

Inductive ImportMode : Type := Default | OBJ | GLTF2.

Definition ImportMode_eqb (a b : ImportMode) : bool :=
  match a, b with
  | Default, Default | OBJ, OBJ | GLTF2, GLTF2 => true
  | _, _ => false
  end.

(** [std::to_string] on an unsigned integer. *)
Definition to_string (n : nat) : string := NilEmpty.string_of_uint (Nat.to_uint n).

(** The cursor is exhausted exactly when the lookup fails. *)
Definition parseAnimationChannel {K V : Type} (mTime : K → float) (mValue : K → V)
    (pKeys : list K) (time : float) (currentIndex : nat) (falcor : V) : bool * nat * V :=
  let count := length pKeys in
  match pKeys !! currentIndex with
  | None => (true, currentIndex, falcor)
  | Some key =>
      if feqb (mTime key) time
      then (count <=? S currentIndex, S currentIndex, mValue key)
      else (count <=? currentIndex, currentIndex, falcor)
  end.

(** The lambda [resetTime].  With an empty array the C++ code reads
    [keys[0]] past the end, which is undefined; the model leaves an empty
    array as it is. *)
Definition resetTime {K : Type} (mTime : K → float) (setTime : float → K → K)
    (dbg : bool) (keys : list K) : result (list K) :=
  match keys !! 1 with
  | Some k1 => FALCOR_ASSERT dbg (fleb zero (mTime k1))
  | None => Ok tt
  end;;
  match keys with
  | k0 :: rest => Ok (if fltb (mTime k0) zero then setTime zero k0 :: rest else keys)
  | [] => Ok keys
  end.

Definition vk_setTime (t : float) (k : aiVectorKey) : aiVectorKey :=
  {| vk_mTime := t; vk_mValue := vk_mValue k |}.
Definition qk_setTime (t : float) (k : aiQuatKey) : aiQuatKey :=
  {| qk_mTime := t; qk_mValue := qk_mValue k |}.

(** The channel is changed in place; the changed channel is the result. *)
Definition resetNegativeKeyframeTimes (dbg : bool) (pAiNode : aiNodeAnim) : result aiNodeAnim :=
  p ← resetTime vk_mTime vk_setTime dbg (mPositionKeys pAiNode);
  r ← resetTime qk_mTime qk_setTime dbg (mRotationKeys pAiNode);
  s ← resetTime vk_mTime vk_setTime dbg (mScalingKeys pAiNode);
  Ok {| mNodeName := mNodeName pAiNode; mPositionKeys := p;
        mRotationKeys := r; mScalingKeys := s |}.

(** The lambda [nextKeyTime] of [createAnimation]. *)
Definition nextKeyTime (dbg : bool) (pAiNode : aiNodeAnim) (pos rot scale : nat) : result float :=
  let time := Fin (- DBL_MAX) in
  let time := match mPositionKeys pAiNode !! pos with
              | Some k => fmax time (vk_mTime k) | None => time end in
  let time := match mRotationKeys pAiNode !! rot with
              | Some k => fmax time (qk_mTime k) | None => time end in
  let time := match mScalingKeys pAiNode !! scale with
              | Some k => fmax time (vk_mTime k) | None => time end in
  FALCOR_ASSERT dbg (negb (feqb time (Fin (- DBL_MAX))));;
  Ok time.

Definition Keyframe_setTime (t : float) (k : Keyframe) : Keyframe :=
  {| kf_time := t; kf_translation := kf_translation k;
     kf_scaling := kf_scaling k; kf_rotation := kf_rotation k |}.

(** The [while (!done)] loop of [createAnimation].  [emit] is what the body
    does with each finished keyframe (in [createAnimation]: append it to every
    animation of the channel); [fuel] bounds the number of iterations. *)
Fixpoint mergeLoop {S : Type} (emit : Keyframe → S → S) (dbg : bool) (fuel : nat)
    (pAiNode : aiNodeAnim) (ticksPerSecond : float)
    (pos rot scale : nat) (keyframe : Keyframe) (s : S) : result S :=
  match fuel with
  | O => Err OutOfFuel
  | Datatypes.S fuel' =>
      time ← nextKeyTime dbg pAiNode pos rot scale;
      FALCOR_ASSERT dbg
        (feqb time zero || fltb (kf_time keyframe) (fdiv time ticksPerSecond));;
      let time_s := fdiv time ticksPerSecond in
      let '(done, pos, translation) :=
        parseAnimationChannel vk_mTime (λ k, aiCast_vec (vk_mValue k))
          (mPositionKeys pAiNode) time pos (kf_translation keyframe) in
      let '(done_r, rot, rotation) :=
        parseAnimationChannel qk_mTime (λ k, aiCast_quat (qk_mValue k))
          (mRotationKeys pAiNode) time rot (kf_rotation keyframe) in
      let done := done_r && done in
      let '(done_s, scale, scaling) :=
        parseAnimationChannel vk_mTime (λ k, aiCast_vec (vk_mValue k))
          (mScalingKeys pAiNode) time scale (kf_scaling keyframe) in
      let done := done_s && done in
      let keyframe :=
        {| kf_time := time_s; kf_translation := translation;
           kf_scaling := scaling; kf_rotation := rotation |} in
      let s := emit keyframe s in
      if done then Ok s else
        mergeLoop emit dbg fuel' pAiNode ticksPerSecond pos rot scale keyframe s
  end.

(** An iteration consumes at least one key when the key times are numbers, so
    one more iteration than there are keys is enough. *)
Definition mergeFuel (pAiNode : aiNodeAnim) : nat :=
  Datatypes.S (length (mPositionKeys pAiNode) + length (mRotationKeys pAiNode)
     + length (mScalingKeys pAiNode)).

Definition ticksPerSecond (pAiAnim : aiAnimation) (importMode : ImportMode) : float :=
  let ticksPerSecond :=
    if negb (feqb (mTicksPerSecond pAiAnim) zero) then mTicksPerSecond pAiAnim else Fin 25 in
  if ImportMode_eqb importMode GLTF2 then Fin 1000 else ticksPerSecond.

Definition durationInSeconds (pAiAnim : aiAnimation) (importMode : ImportMode) : float :=
  fdiv (mDuration pAiAnim) (ticksPerSecond pAiAnim importMode).

(** The inner [for] loop that creates one animation per instance of the
    target node; the result lists the handles of the created animations. *)
Fixpoint createChannelAnimations (data : ImporterData) (name : string)
    (duration : float) (i count : nat) (animations : list nat) (b : SceneBuilder)
    : list nat * SceneBuilder :=
  match count with
  | O => (animations, b)
  | Datatypes.S count' =>
      let pAnimation :=
        {| anim_name := name +:+ "." +:+ to_string i;
           anim_nodeID := getFalcorNodeID data name i;
           anim_duration := duration;
           anim_keyframes := [] |} in
      let '(h, b) := builder_addAnimation pAnimation b in
      createChannelAnimations data name duration (Datatypes.S i) count' (animations ++ [h]) b
  end.

Definition addKeyframeToAll (animations : list nat) (keyframe : Keyframe)
    (b : SceneBuilder) : SceneBuilder :=
  foldl (λ b h, builder_addKeyframe h keyframe b) b animations.

(** The body of the loop over the channels of [createAnimation]. *)
Definition createAnimationChannel (dbg : bool) (pAiAnim : aiAnimation)
    (importMode : ImportMode) (pAiNode : aiNodeAnim) (data : ImporterData)
    : result (aiNodeAnim * ImporterData) :=
  pAiNode ← resetNegativeKeyframeTimes dbg pAiNode;
  count ← getNodeInstanceCount data (mNodeName pAiNode);
  let '(animations, b) :=
    createChannelAnimations data (mNodeName pAiNode)
      (durationInSeconds pAiAnim importMode) 0 count [] (builder data) in
  b ← mergeLoop (addKeyframeToAll animations) dbg (mergeFuel pAiNode) pAiNode
        (ticksPerSecond pAiAnim importMode) 0 0 0 Keyframe_default b;
  Ok (pAiNode, set_builder b data).

Fixpoint createAnimationChannels (dbg : bool) (pAiAnim : aiAnimation)
    (importMode : ImportMode) (channels : list aiNodeAnim) (data : ImporterData)
    : result (list aiNodeAnim * ImporterData) :=
  match channels with
  | [] => Ok ([], data)
  | pAiNode :: rest =>
      '(pAiNode', data) ← createAnimationChannel dbg pAiAnim importMode pAiNode data;
      '(rest', data) ← createAnimationChannels dbg pAiAnim importMode rest data;
      Ok (pAiNode' :: rest', data)
  end.

(** [createAnimation]: the animation is handed over by pointer and its
    channels are written to, so the animation as the call leaves it is part
    of the result. *)
Definition createAnimation (dbg : bool) (data : ImporterData) (pAiAnim : aiAnimation)
    (importMode : ImportMode) : result (aiAnimation * ImporterData) :=
  FALCOR_ASSERT dbg (Nat.eqb (mNumMeshChannels pAiAnim) 0);;
  '(channels, data) ← createAnimationChannels dbg pAiAnim importMode (mChannels pAiAnim) data;
  Ok ({| mDuration := mDuration pAiAnim; mTicksPerSecond := mTicksPerSecond pAiAnim;
         mChannels := channels; mNumMeshChannels := mNumMeshChannels pAiAnim |}, data).

(** Iterating the animations of the scene; the scene's animation array is
    rebuilt from what each call leaves behind. *)
Fixpoint createAnimationsLoop (dbg : bool) (importMode : ImportMode)
    (anims : list aiAnimation) (data : ImporterData)
    : result (list aiAnimation * ImporterData) :=
  match anims with
  | [] => Ok ([], data)
  | pAiAnim :: rest =>
      '(pAiAnim', data) ← createAnimation dbg data pAiAnim importMode;
      '(rest', data) ← createAnimationsLoop dbg importMode rest data;
      Ok (pAiAnim' :: rest', data)
  end.

Definition set_mAnimations (anims : list aiAnimation) (s : aiScene) : aiScene :=
  {| mRootNode := mRootNode s; scene_mMeshes := scene_mMeshes s;
     mNumMaterials := mNumMaterials s; scene_mMaterials := scene_mMaterials s;
     mAnimations := anims; mNumTextures := mNumTextures s;
     scene_mCameras := scene_mCameras s; scene_mLights := scene_mLights s |}.

Definition createAnimations (dbg : bool) (data : ImporterData) (importMode : ImportMode)
    : result ImporterData :=
  '(anims, data) ← createAnimationsLoop dbg importMode (mAnimations (pScene data)) data;
  Ok (set_pScene (set_mAnimations anims (pScene data)) data).

(** ** Mesh processor *)

(** [uint32_t] arithmetic: a result is taken modulo 2^32. *)
Definition wrap32 (n : nat) : nat := N.to_nat (N.of_nat n mod 4294967296)%N.

(** Writes the indices of face [i]; the slot [i * perFaceIndexCount + j] is
    computed in [uint32_t].  Reading a face past its last index and writing
    the vector past its end are undefined in C++; the model leaves the slot
    and the vector as they are there. *)
Definition createIndexList_face (perFaceIndexCount i : nat) (face : aiFace)
    (indices : list nat) : list nat :=
  foldl (λ indices j,
           match face !! j with
           | Some x => <[wrap32 (i * perFaceIndexCount + j) := x]> indices
           | None => indices
           end) indices (seq 0 perFaceIndexCount).

Fixpoint createIndexList_faces (dbg : bool) (perFaceIndexCount i : nat)
    (faces : list aiFace) (indices : list nat) : result (list nat) :=
  match faces with
  | [] => Ok indices
  | face :: rest =>
      FALCOR_ASSERT dbg (Nat.eqb (length face) perFaceIndexCount);;
      createIndexList_faces dbg perFaceIndexCount (S i) rest
        (createIndexList_face perFaceIndexCount i face indices)
  end.

(** [indexCount] is a [uint32_t] product. *)
Definition createIndexList (dbg : bool) (pAiMesh : aiMesh) : result (list nat) :=
  let perFaceIndexCount := length (default [] (mFaces pAiMesh !! 0)) in
  let indexCount := wrap32 (length (mFaces pAiMesh) * perFaceIndexCount) in
  createIndexList_faces dbg perFaceIndexCount 0 (mFaces pAiMesh) (replicate indexCount 0).

Fixpoint createTexCrdList (dbg : bool) (pAiTexCrd : list aiVector3D)
    : result (list (float * float)) :=
  match pAiTexCrd with
  | [] => Ok []
  | (x, y, z) :: rest =>
      FALCOR_ASSERT dbg (feqb z zero);;
      texCrds ← createTexCrdList dbg rest;
      Ok ((x, y) :: texCrds)
  end.

(** *** Skin weights *)

Definition tooManyBones : string :=
  "AssimpImporter: One of the vertices has too many bones attached to it. This bone will be ignored and the animation might not look correct.".

(** The search for the next unused slot of a vertex: [n] slots remain to be
    looked at, starting with slot [j]. *)
Fixpoint slotLoop (n j : nat) (aiBoneID : NodeID) (weight : float)
    (vertexIds : list NodeID) (vertexWeights : list float)
    : list NodeID * list float * bool :=
  match n with
  | O => (vertexIds, vertexWeights, false)
  | S n' =>
      if bool_decide (vertexIds !! j = Some kInvalidID)
      then (<[j := aiBoneID]> vertexIds, <[j := weight]> vertexWeights, true)
      else slotLoop n' (S j) aiBoneID weight vertexIds vertexWeights
  end.

Record SkinData : Type := mk_SkinData {
  skin_weights : list (list float);
  skin_ids : list (list NodeID);
  skin_warnings : list string
}.

(** The body of the loop over the weights of a bone.  A vertex index past the
    vertex count is undefined in C++ and changes nothing here. *)
Definition loadBoneWeight (aiBoneID : NodeID) (aiWeight : aiVertexWeight)
    (sk : SkinData) : SkinData :=
  if feqb (mWeight aiWeight) zero then sk else
  match skin_ids sk !! mVertexId aiWeight, skin_weights sk !! mVertexId aiWeight with
  | Some vertexIds, Some vertexWeights =>
      let '(vertexIds, vertexWeights, emptySlotFound) :=
        slotLoop kMaxBonesPerVertex 0 aiBoneID (mWeight aiWeight) vertexIds vertexWeights in
      {| skin_weights := <[mVertexId aiWeight := vertexWeights]> (skin_weights sk);
         skin_ids := <[mVertexId aiWeight := vertexIds]> (skin_ids sk);
         skin_warnings :=
           if emptySlotFound then skin_warnings sk else skin_warnings sk ++ [tooManyBones] |}
  | _, _ => sk
  end.

Definition loadBone (dbg : bool) (data : ImporterData) (pAiBone : aiBone)
    (sk : SkinData) : result SkinData :=
  (if dbg then
     count ← getNodeInstanceCount data (bone_mName pAiBone);
     FALCOR_ASSERT dbg (Nat.eqb count 1)
   else Ok tt);;
  let aiBoneID := getFalcorNodeID data (bone_mName pAiBone) 0 in
  Ok (foldl (λ sk aiWeight, loadBoneWeight aiBoneID aiWeight sk) sk (mWeights pAiBone)).


(** [f] is the sum of the slots, [w /= f] divides every slot by it; both are
    computed in [float]. *)
Definition weightSum (w : list float) : float := foldl fadd32 zero w.
Definition normalizeWeights (w : list float) : list float :=
  let f := weightSum w in (λ x, fdiv32 x f) <$> w.

Definition loadBones (dbg : bool) (pAiMesh : aiMesh) (data : ImporterData)
    : result SkinData :=
  let vertexCount := mNumVertices pAiMesh in
  let sk := {| skin_weights := replicate vertexCount (replicate kMaxBonesPerVertex zero);
               skin_ids := replicate vertexCount (replicate kMaxBonesPerVertex kInvalidID);
               skin_warnings := [] |} in
  sk ← forEach (loadBone dbg data) (mBones pAiMesh) sk;
  Ok {| skin_weights := normalizeWeights <$> skin_weights sk;
        skin_ids := skin_ids sk;
        skin_warnings := skin_warnings sk |}.

(** The filter at the head of [createMeshes]: the meshes kept, in scene
    order, and the state with the warnings of the skipped ones. *)
Fixpoint filterMeshes (sceneMeshes : list aiMesh) (data : ImporterData)
    : list aiMesh * ImporterData :=
  match sceneMeshes with
  | [] => ([], data)
  | pMesh :: rest =>
      if negb (HasFaces pMesh) then
        filterMeshes rest
          (logWarning ("AssimpImporter: Mesh '" +:+ mesh_mName pMesh +:+ "' has no faces, ignoring.") data)
      else if negb (Nat.eqb (length (default [] (mFaces pMesh !! 0))) 3) then
        filterMeshes rest
          (logWarning ("AssimpImporter: Mesh '" +:+ mesh_mName pMesh +:+ "' is not a triangle mesh, ignoring.") data)
      else
        let '(meshes, data) := filterMeshes rest data in
        (pMesh :: meshes, data)
  end.

(** A default-constructed [SceneBuilder::ProcessedMesh], the content of a
    slot of [processedMeshes] that no task has written yet. *)
Definition ProcessedMesh_default : ProcessedMesh :=
  {| pm_name := ""; pm_faceCount := 0; pm_indices := []; pm_vertexCount := 0;
     pm_texCrds := None; pm_boneIDs := None; pm_boneWeights := None;
     pm_material := 0 |}.

(** The body of the parallel loop for one mesh: the processed mesh and the
    warnings the task logs.  Positions, normals and tangents are handed to the
    builder as they are and are not part of the model. *)
Definition processMeshTask (dbg : bool) (data : ImporterData) (pAiMesh : aiMesh)
    : result (ProcessedMesh * list string) :=
  indexList ← createIndexList dbg pAiMesh;
  texCrds ← match mTextureCoords0 pAiMesh with
            | Some tc =>
                texCrds ← createTexCrdList dbg tc;
                FALCOR_ASSERT dbg (negb (Nat.eqb (length texCrds) 0));;
                Ok (Some texCrds)
            | None => Ok None
            end;
  skin ← (if HasBones pAiMesh then
            sk ← loadBones dbg pAiMesh data;
            Ok (Some (skin_ids sk), Some (skin_weights sk), skin_warnings sk)
          else Ok (None, None, []));
  let '(boneIds, boneWeights, warns) := skin in
  pMaterial ← match materialMap data !! mMaterialIndex pAiMesh with
              | Some m => Ok m
              | None => Err OutOfRange
              end;
  Ok ({| pm_name := mesh_mName pAiMesh;
         pm_faceCount := length (mFaces pAiMesh);
         pm_indices := indexList;
         pm_vertexCount := mNumVertices pAiMesh;
         pm_texCrds := texCrds;
         pm_boneIDs := boneIds;
         pm_boneWeights := boneWeights;
         pm_material := pMaterial |}, warns).

(** The parallel phase.  The tasks share no mutable state but the log, so a
    run is determined by the order in which the tasks complete: [schedule]
    lists the task indices in that order.  Task [i] writes slot [i] of
    [processedMeshes] only. *)
Fixpoint runMeshTasks (dbg : bool) (data : ImporterData) (meshes : list aiMesh)
    (schedule : list nat) (processedMeshes : list ProcessedMesh) (log : list string)
    : result (list ProcessedMesh * list string) :=
  match schedule with
  | [] => Ok (processedMeshes, log)
  | i :: rest =>
      match meshes !! i with
      | Some pAiMesh =>
          '(pm, warns) ← processMeshTask dbg data pAiMesh;
          runMeshTasks dbg data meshes rest (<[i := pm]> processedMeshes) (log ++ warns)
      | None => runMeshTasks dbg data meshes rest processedMeshes log
      end
  end.

(** The sequential commit: [i] counts the processed meshes. *)
Fixpoint commitMeshes (processedMeshes : list ProcessedMesh) (i : nat)
    (data : ImporterData) : ImporterData :=
  match processedMeshes with
  | [] => data
  | mesh :: rest =>
      let '(meshID, b) := builder_addProcessedMesh mesh (builder data) in
      commitMeshes rest (S i) (set_meshMap (<[i := meshID]> (meshMap data)) (set_builder b data))
  end.

Definition createMeshes (dbg : bool) (schedule : list nat) (data : ImporterData)
    : result ImporterData :=
  let '(meshes, data) := filterMeshes (scene_mMeshes (pScene data)) data in
  '(processedMeshes, log) ←
    runMeshTasks dbg data meshes schedule
      (replicate (length meshes) ProcessedMesh_default) [];
  let data := foldl (λ d w, logWarning w d) data log in
  Ok (commitMeshes processedMeshes 0 data).

(** ** Node graph builder *)

Definition isBone (data : ImporterData) (name : string) : bool :=
  bool_decide (is_Some (localToBindPoseMatrices data !! name)).

Definition getLocalToBindPoseMatrix (data : ImporterData) (name : string) : mat4 :=
  if isBone data name
  then default mat4_identity (localToBindPoseMatrices data !! name)
  else mat4_identity.

Fixpoint parseNode (dbg : bool) (pCurrent : aiNode) (hasBoneAncestor : bool)
    (data : ImporterData) {struct pCurrent} : result ImporterData :=
  let name := mName pCurrent in
  let currentIsBone := isBone data name in
  FALCOR_ASSERT dbg (negb currentIsBone || Nat.eqb (length (mMeshes pCurrent)) 0);;
  parent ← match mParent pCurrent with
           | Some p => getFalcorNodeID_node data p
           | None => Ok kInvalidID
           end;
  let n := {| n_name := name; n_parent := parent;
              n_transform := aiCast_mat (mTransformation pCurrent);
              n_localToBindPose := getLocalToBindPoseMatrix data name |} in
  let '(id, b) := builder_addNode n (builder data) in
  data ← addAiNode dbg pCurrent id (set_builder b data);
  forEach (λ child data, parseNode dbg child (currentIsBone || hasBoneAncestor) data)
    (mChildren pCurrent) data.

Definition createBoneList_mesh (pMesh : aiMesh) (boneMatrices : gmap string mat4)
    : gmap string mat4 :=
  if negb (HasBones pMesh) then boneMatrices else
  foldl (λ m bone, <[bone_mName bone := aiCast_mat (mOffsetMatrix bone)]> m)
    boneMatrices (mBones pMesh).

Definition createBoneList (data : ImporterData) : ImporterData :=
  set_localToBindPoseMatrices
    (foldl (λ m pMesh, createBoneList_mesh pMesh m)
       (localToBindPoseMatrices data) (scene_mMeshes (pScene data)))
    data.

Definition createSceneGraph (dbg : bool) (data : ImporterData) : result ImporterData :=
  let data := createBoneList data in
  let pRoot := mRootNode (pScene data) in
  FALCOR_ASSERT dbg (negb (isBone data (mName pRoot)));;
  parseNode dbg pRoot false data.

(** ** Instance expander *)

(** The loop over the requested instance transforms for one mesh of a node. *)
Fixpoint addInstances (nodeID : NodeID) (meshID : MeshID) (instance : nat)
    (instances : list mat4) (b : SceneBuilder) : SceneBuilder :=
  match instances with
  | [] => b
  | m :: rest =>
      let '(instanceNodeID, b) :=
        if mat_neqb m mat4_identity then
          builder_addNode
            {| n_name := "Node" +:+ to_string (N.to_nat nodeID) +:+ ".instance" +:+ to_string instance;
               n_parent := nodeID;
               n_transform := m;
               n_localToBindPose := mat4_identity |} b
        else (nodeID, b) in
      addInstances nodeID meshID (S instance) rest
        (builder_addMeshInstance instanceNodeID meshID b)
  end.

(** The loop over the meshes of one node. *)
Fixpoint addNodeMeshInstances (nodeID : NodeID) (nodeMeshes : list nat)
    (data : ImporterData) : result ImporterData :=
  match nodeMeshes with
  | [] => Ok data
  | mesh :: rest =>
      meshID ← match meshMap data !! mesh with
               | Some id => Ok id
               | None => Err OutOfRange
               end;
      let b :=
        if negb (Nat.eqb (length (modelInstances data)) 0)
        then addInstances nodeID meshID 0 (modelInstances data) (builder data)
        else builder_addMeshInstance nodeID meshID (builder data) in
      addNodeMeshInstances nodeID rest (set_builder b data)
  end.

Fixpoint addMeshInstances (pNode : aiNode) (data : ImporterData) {struct pNode}
    : result ImporterData :=
  nodeID ← getFalcorNodeID_node data (mAddr pNode);
  data ← addNodeMeshInstances nodeID (mMeshes pNode) data;
  forEach addMeshInstances (mChildren pNode) data.

(** ** Material mapper

    Only the bookkeeping of [createAllMaterials] matters to the other stages:
    [materialMap] receives one material per external material index.  The
    material itself is stood for by its index. *)
Definition createAllMaterials (data : ImporterData) : ImporterData :=
  set_materialMap
    (foldl (λ m i, <[i := i]> m) (materialMap data) (seq 0 (mNumMaterials (pScene data))))
    data.

(** ** Validator *)

(** [BoneMeshMap] is a [std::map] from bone name to mesh indices; it is
    iterated in key order, so it is kept as a list sorted by key.
    [boneMap[name].push_back(meshID)]: *)
Fixpoint BoneMeshMap_push (name : string) (meshID : nat)
    (boneMap : list (string * list nat)) : list (string * list nat) :=
  match boneMap with
  | [] => [(name, [meshID])]
  | (k, v) :: rest =>
      if String.eqb name k then (k, v ++ [meshID]) :: rest
      else if String.ltb name k then (name, [meshID]) :: boneMap
      else (k, v) :: BoneMeshMap_push name meshID rest
  end.

Fixpoint createBoneMap_meshes (meshID : nat) (sceneMeshes : list aiMesh)
    (boneMap : list (string * list nat)) : list (string * list nat) :=
  match sceneMeshes with
  | [] => boneMap
  | pMesh :: rest =>
      createBoneMap_meshes (S meshID) rest
        (foldl (λ m bone, BoneMeshMap_push (bone_mName bone) meshID m) boneMap (mBones pMesh))
  end.

Definition createBoneMap (pScene : aiScene) : list (string * list nat) :=
  createBoneMap_meshes 0 (scene_mMeshes pScene) [].

(** The recursive lambda [countNodeMeshs].  A mesh index past the mesh count
    is undefined in C++ and changes nothing here. *)
Fixpoint countNodeMeshs (pNode : aiNode) (meshInstances : list (list aiNode))
    {struct pNode} : list (list aiNode) :=
  let meshInstances :=
    foldl (λ mi mesh, alter (λ l, l ++ [pNode]) mesh mi) meshInstances (mMeshes pNode) in
  foldl (λ mi child, countNodeMeshs child mi) meshInstances (mChildren pNode).

Definition countMeshInstances (pScene : aiScene) : list (list aiNode) :=
  countNodeMeshs (mRootNode pScene) (replicate (length (scene_mMeshes pScene)) []).

Definition multipleInstances (bone : string) : string :=
  "Bone " +:+ bone +:+ " references a mesh with multiple instances.".
Definition differentWorldMatrices (bone : string) : string :=
  "Bone " +:+ bone +:+ " is contained within mesh instances with different world matrices.".

(** The inner loop of [validateBones] over the meshes of one bone; [prev] is
    the mesh looked at in the previous iteration (none when [i = 0]). *)
Fixpoint validateBone (bone : string) (meshInstances : list (list aiNode))
    (prev : option nat) (boneMeshes : list nat) : result unit :=
  match boneMeshes with
  | [] => Ok tt
  | mesh :: rest =>
      let instances := default [] (meshInstances !! mesh) in
      (if negb (Nat.eqb (length instances) 1)
       then Err (ImporterError (multipleInstances bone)) else Ok tt);;
      (match prev with
       | Some mesh' =>
           match instances !! 0, default [] (meshInstances !! mesh') !! 0 with
           | Some node, Some node' =>
               if mat_neqb (mTransformation node) (mTransformation node')
               then Err (ImporterError (differentWorldMatrices bone)) else Ok tt
           | _, _ => Ok tt
           end
       | None => Ok tt
       end);;
      validateBone bone meshInstances (Some mesh) rest
  end.

Fixpoint validateBonesLoop (meshInstances : list (list aiNode))
    (boneMap : list (string * list nat)) : result unit :=
  match boneMap with
  | [] => Ok tt
  | (name, boneMeshes) :: rest =>
      validateBone name meshInstances None boneMeshes;;
      validateBonesLoop meshInstances rest
  end.

Definition validateBones (data : ImporterData) : result unit :=
  let boneMap := createBoneMap (pScene data) in
  let meshInstances := countMeshInstances (pScene data) in
  validateBonesLoop meshInstances boneMap.

Definition validateScene (data : ImporterData) : result ImporterData :=
  let data :=
    if negb (Nat.eqb (mNumTextures (pScene data)) 0)
    then logWarning ("AssimpImporter: Scene has " +:+ to_string (mNumTextures (pScene data))
                       +:+ " embedded textures which Falcor doesn't load.") data
    else data in
  validateBones data;;
  Ok data.

(** ** The import

    [AssimpImporter::import] from the point where the external scene has been
    read, up to the animations.  The import mode is decided from the file
    extension by the caller.  The materials are stood for by their indices
    here; the decoding of the materials and the cameras and lights, which
    follow the animations, are part of [import_traced], which agrees with
    [import] on a scene that has none of them. *)
Definition import (dbg : bool) (schedule : list nat) (pAiScene : aiScene)
    (sceneBuilder : SceneBuilder) (instances : list mat4) (importMode : ImportMode)
    : result ImporterData :=
  let data := ImporterData_new pAiScene sceneBuilder instances in
  data ← validateScene data;
  let data := createAllMaterials data in
  data ← createSceneGraph dbg data;
  data ← createMeshes dbg schedule data;
  data ← addMeshInstances (mRootNode (pScene data)) data;
  data ← createAnimations dbg data importMode;
  Ok data.

(** * Specification-side definitions *)

(** A material without a texture or a property, named "default". *)
Definition blankMaterial : aiMaterial :=
  {| mat_textures := λ _, []; mat_name := "default"; mat_opacity := None;
     mat_bumpScaling := None; mat_shininess := None; mat_refracti := None;
     mat_colorDiffuse := None; mat_colorSpecular := None; mat_colorEmissive := None;
     mat_twoSided := None; mat_baseColorFactor := None; mat_metallicFactor := None;
     mat_roughnessFactor := None |}.

(** ** Keyframe merge *)

(** The sequence of keyframes the loop of [createAnimation] produces for a
    channel, in the order in which they are handed to [addKeyframe]. *)
Definition emitKeyframe (k : Keyframe) (l : list Keyframe) : list Keyframe := l ++ [k].

Definition mergedKeyframes (dbg : bool) (pAiNode : aiNodeAnim) (tps : float)
    : result (list Keyframe) :=
  mergeLoop emitKeyframe dbg (mergeFuel pAiNode) pAiNode tps 0 0 0 Keyframe_default [].

(** All key times of a channel. *)
Definition channelTimes (pAiNode : aiNodeAnim) : list float :=
  (vk_mTime <$> mPositionKeys pAiNode) ++ (qk_mTime <$> mRotationKeys pAiNode)
    ++ (vk_mTime <$> mScalingKeys pAiNode).

(** The times at the three cursors that are not exhausted. *)
Definition pendingTimes (pAiNode : aiNodeAnim) (pos rot scale : nat) : list float :=
  option_list (vk_mTime <$> mPositionKeys pAiNode !! pos)
    ++ option_list (qk_mTime <$> mRotationKeys pAiNode !! rot)
    ++ option_list (vk_mTime <$> mScalingKeys pAiNode !! scale).

(** A key time is a finite double other than the sentinel [-DBL_MAX]. *)
Definition wf_time (t : float) : Prop := ∃ q, t = Fin q ∧ (- DBL_MAX < q)%Q.

(** What [resetTime] is to do to a key array. *)
Definition clampFirst {K : Type} (mTime : K → float) (setTime : float → K → K)
    (keys : list K) : list K :=
  match keys with
  | k0 :: rest => (if fltb (mTime k0) zero then setTime zero k0 else k0) :: rest
  | [] => []
  end.

Definition clampChannel (pAiNode : aiNodeAnim) : aiNodeAnim :=
  {| mNodeName := mNodeName pAiNode;
     mPositionKeys := clampFirst vk_mTime vk_setTime (mPositionKeys pAiNode);
     mRotationKeys := clampFirst qk_mTime qk_setTime (mRotationKeys pAiNode);
     mScalingKeys := clampFirst vk_mTime vk_setTime (mScalingKeys pAiNode) |}.

Definition clampAnimation (pAiAnim : aiAnimation) : aiAnimation :=
  {| mDuration := mDuration pAiAnim; mTicksPerSecond := mTicksPerSecond pAiAnim;
     mChannels := clampChannel <$> mChannels pAiAnim;
     mNumMeshChannels := mNumMeshChannels pAiAnim |}.

(** *** Concrete channels *)

Definition vkey (t v : Z) : aiVectorKey :=
  {| vk_mTime := Fin (inject_Z t); vk_mValue := (Fin (inject_Z v), zero, zero) |}.
Definition qkey (t v : Z) : aiQuatKey :=
  {| qk_mTime := Fin (inject_Z t); qk_mValue := (one, Fin (inject_Z v), zero, zero) |}.

(** Translation keys at ticks 0, 1, 2; rotation keys at ticks 0 and 2; one
    scaling key at tick 0. *)
Definition sparseChannel : aiNodeAnim :=
  {| mNodeName := "joint";
     mPositionKeys := [vkey 0 10; vkey 1 11; vkey 2 12];
     mRotationKeys := [qkey 0 20; qkey 2 22];
     mScalingKeys := [vkey 0 30] |}.

(** An animation of 2 ticks at one tick per second, with that channel. *)
Definition sparseAnimation : aiAnimation :=
  {| mDuration := Fin 2; mTicksPerSecond := Fin 1;
     mChannels := [sparseChannel]; mNumMeshChannels := 0 |}.

Definition kf (t p r s : Z) : Keyframe :=
  {| kf_time := Fin (inject_Z t);
     kf_translation := (Fin (inject_Z p), zero, zero);
     kf_scaling := (Fin (inject_Z s), zero, zero);
     kf_rotation := (one, Fin (inject_Z r), zero, zero) |}.

(** The animation [createAnimation] registers for instance [i] of the node a
    channel targets, once the keyframes [kfs] have been added to it. *)
Definition channelAnimation (data : ImporterData) (name : string) (duration : float)
    (kfs : list Keyframe) (i : nat) : Animation :=
  {| anim_name := name +:+ "." +:+ to_string i;
     anim_nodeID := getFalcorNodeID data name i;
     anim_duration := duration;
     anim_keyframes := kfs |}.

Definition set_animations (l : list Animation) (b : SceneBuilder) : SceneBuilder :=
  {| sb_nodes := sb_nodes b; sb_meshes := sb_meshes b;
     sb_meshInstances := sb_meshInstances b; sb_animations := l |}.

Definition withKeyframes (kfs : list Keyframe) (a : Animation) : Animation :=
  {| anim_name := anim_name a; anim_nodeID := anim_nodeID a;
     anim_duration := anim_duration a;
     anim_keyframes := anim_keyframes a ++ kfs |}.

(** The claim on the last keyframe of a channel, as the specification words
    it: its time is the duration of the animation divided by the rate. *)
Definition lastKeyframeAtDuration (pAiAnim : aiAnimation) (importMode : ImportMode)
    (pAiNode : aiNodeAnim) : Prop :=
  ∀ kfs k,
    mergedKeyframes false (clampChannel pAiNode) (ticksPerSecond pAiAnim importMode) = Ok kfs →
    last kfs = Some k →
    feqb (kf_time k) (fdiv (mDuration pAiAnim) (ticksPerSecond pAiAnim importMode)) = true.

(** All three tracks keyed at ticks 0 and 5, in an animation of 10 ticks that
    declares no rate. *)
Definition steadyChannel : aiNodeAnim :=
  {| mNodeName := "joint";
     mPositionKeys := [vkey 0 10; vkey 5 11];
     mRotationKeys := [qkey 0 20; qkey 5 21];
     mScalingKeys := [vkey 0 30; vkey 5 31] |}.

Definition steadyAnimation : aiAnimation :=
  {| mDuration := Fin 10; mTicksPerSecond := zero;
     mChannels := [steadyChannel]; mNumMeshChannels := 0 |}.

(** A scene graph of one node, "joint", at address 7, registered as node 3. *)
Definition jointData : ImporterData :=
  set_nodeMaps {[7 := 3%N]} {["joint" := [7]]}
    (ImporterData_new
       {| mRootNode := {| mAddr := 7; mName := "joint"; mTransformation := mat4_identity;
                          mParent := None; mMeshes := []; mChildren := [] |};
          scene_mMeshes := []; mNumMaterials := 0; scene_mMaterials := [];
          mAnimations := []; mNumTextures := 0;
          scene_mCameras := []; scene_mLights := [] |}
       SceneBuilder_empty []).

(** ** The external scene as a frame *)

Definition clampScene (s : aiScene) : aiScene :=
  set_mAnimations (clampAnimation <$> mAnimations s) s.


(** One node and one animation whose translation track starts at tick -1. *)
Definition earlyChannel : aiNodeAnim :=
  {| mNodeName := "joint";
     mPositionKeys := [vkey (-1) 10; vkey 5 11];
     mRotationKeys := [qkey 0 20; qkey 5 21];
     mScalingKeys := [vkey 0 30; vkey 5 31] |}.


(** ** Skin weights *)

Definition posF (x : float) : Prop := ∃ q, x = Fin q ∧ (0 < q)%Q.

(** Single precision in numbers: the unit roundoff 2^-24, half the least
    positive value 2^-149, and the values the format is made of, which are
    all multiples of 2^-149. *)
Definition u32 : Q := 1 # 16777216.
Definition eta32 : Q := 1 # 1427247692705959881058285969449495136382746624.
Definition onGrid32 (q : Q) : Prop := ∃ j : Z, (q == inject_Z j * 2 ^ (-149))%Q.

(** 2^125: four weights up to it are added without overflow. *)
Definition maxWeight : Q := 42535295865117307932921825928971026432 # 1.

(** A weight as the external scene holds it: a single-precision number that
    is not negative and not above [maxWeight]. *)
Definition weight32 (x : float) : Prop :=
  ∃ q, x = Fin q ∧ (0 <= q)%Q ∧ (q <= maxWeight)%Q ∧ onGrid32 q.

(** Vertex [v] is declared, with a weight other than zero, by some bone of
    the mesh. *)
Definition influenced (pAiMesh : aiMesh) (v : nat) : Prop :=
  ∃ bone vw, bone ∈ mBones pAiMesh ∧ vw ∈ mWeights bone
             ∧ mVertexId vw = v ∧ feqb (mWeight vw) zero = false.

(** The bone weights of a mesh are well formed: every entry names a vertex
    of the mesh and its weight is a single-precision number from zero to
    [maxWeight]. *)
Definition wf_weights (pAiMesh : aiMesh) : Prop :=
  Forall (λ bone,
            Forall (λ vw, mVertexId vw < mNumVertices pAiMesh ∧ weight32 (mWeight vw))
              (mWeights bone))
    (mBones pAiMesh).

(** The influence arrays before any bone is looked at. *)
Definition skinInit (vertexCount : nat) : SkinData :=
  {| skin_weights := replicate vertexCount (replicate kMaxBonesPerVertex zero);
     skin_ids := replicate vertexCount (replicate kMaxBonesPerVertex kInvalidID);
     skin_warnings := [] |}.

(** The influence arrays after the loop over the bones, before the weights
    are normalized. *)
Definition skinBeforeNormalize (data : ImporterData) (pAiMesh : aiMesh) : SkinData :=
  foldl (λ sk bone,
           foldl (λ sk aiWeight,
                    loadBoneWeight (getFalcorNodeID data (bone_mName bone) 0) aiWeight sk)
             sk (mWeights bone))
    (skinInit (mNumVertices pAiMesh)) (mBones pAiMesh).

(** Slot [k] is the first of the slots [j .. j+n-1] of [ids] that holds the
    invalid identifier. *)
Definition firstFreeSlot (ids : list NodeID) (j n k : nat) : Prop :=
  j ≤ k < j + n ∧ ids !! k = Some kInvalidID
  ∧ ∀ k', j ≤ k' < k → ids !! k' ≠ Some kInvalidID.

Definition noFreeSlot (ids : list NodeID) (j n : nat) : Prop :=
  ∀ k', j ≤ k' < j + n → ids !! k' ≠ Some kInvalidID.

(** What [loadBones] is to do with one weight entry of a bone whose node is
    [id]: nothing for a weight of zero; otherwise the identifier and the
    weight go to the first slot of the vertex that holds the invalid
    identifier, and when no slot does, the arrays stay and a warning is
    logged. *)
Inductive slotStep (id : NodeID) (vw : aiVertexWeight) (sk : SkinData) : SkinData → Prop :=
| slotStep_skip :
    feqb (mWeight vw) zero = true →
    slotStep id vw sk sk
| slotStep_write (iv : list NodeID) (wv : list float) (k : nat) :
    feqb (mWeight vw) zero = false →
    skin_ids sk !! mVertexId vw = Some iv →
    skin_weights sk !! mVertexId vw = Some wv →
    firstFreeSlot iv 0 kMaxBonesPerVertex k →
    slotStep id vw sk
      {| skin_weights := <[mVertexId vw := <[k := mWeight vw]> wv]> (skin_weights sk);
         skin_ids := <[mVertexId vw := <[k := id]> iv]> (skin_ids sk);
         skin_warnings := skin_warnings sk |}
| slotStep_drop (iv : list NodeID) :
    feqb (mWeight vw) zero = false →
    skin_ids sk !! mVertexId vw = Some iv →
    noFreeSlot iv 0 kMaxBonesPerVertex →
    slotStep id vw sk
      {| skin_weights := skin_weights sk;
         skin_ids := skin_ids sk;
         skin_warnings := skin_warnings sk ++ [tooManyBones] |}.

(** The same for a list of entries, each with the node of its bone, taken in
    order. *)
Inductive slotSteps : list (NodeID * aiVertexWeight) → SkinData → SkinData → Prop :=
| slotSteps_nil (sk : SkinData) : slotSteps [] sk sk
| slotSteps_cons (e : NodeID * aiVertexWeight) (l : list (NodeID * aiVertexWeight))
    (sk sk1 sk2 : SkinData) :
    slotStep e.1 e.2 sk sk1 → slotSteps l sk1 sk2 → slotSteps (e :: l) sk sk2.

(** The influences of a mesh in the order in which [loadBones] meets them,
    each with the node identifier its bone resolves to. *)
Definition flatInfluences (data : ImporterData) (pAiMesh : aiMesh)
    : list (NodeID * aiVertexWeight) :=
  mBones pAiMesh ≫= λ bone,
    (λ vw, (getFalcorNodeID data (bone_mName bone) 0, vw)) <$> mWeights bone.

(** *** Concrete meshes *)

Definition triangle : list aiFace := [[0; 1; 2]].

(** Three vertices, one bone that weights vertices 0 and 1 only. *)
Definition partlySkinnedMesh : aiMesh :=
  {| mesh_mName := "arm"; mFaces := triangle; mNumVertices := 3;
     mTextureCoords0 := None;
     mBones := [{| bone_mName := "joint";
                   mWeights := [{| mVertexId := 0; mWeight := Fin 1 |};
                                {| mVertexId := 1; mWeight := Fin (1 # 2) |}];
                   mOffsetMatrix := mat4_identity |}];
     mMaterialIndex := 0 |}.

(** Vertex 0 is claimed by five bones, all mapped to node 3 here. *)
Definition crowdedMesh : aiMesh :=
  {| mesh_mName := "hand"; mFaces := triangle; mNumVertices := 3;
     mTextureCoords0 := None;
     mBones := (λ w, {| bone_mName := "joint";
                        mWeights := [{| mVertexId := 0; mWeight := Fin w |}];
                        mOffsetMatrix := mat4_identity |})
               <$> [1 # 2; 1 # 4; 1 # 8; 1 # 8; 1 # 16]%Q;
     mMaterialIndex := 0 |}.

(** The invariant of the loop over the bones of a mesh with [n] vertices:
    every vertex has [kMaxBonesPerVertex] slots, every slot holds a weight
    of the scene or zero, and a slot that holds a valid identifier holds a
    positive weight. *)
Definition skinInv (n : nat) (sk : SkinData) : Prop :=
  length (skin_ids sk) = n ∧ length (skin_weights sk) = n
  ∧ ∀ v iv wv, skin_ids sk !! v = Some iv → skin_weights sk !! v = Some wv →
      length iv = kMaxBonesPerVertex ∧ length wv = kMaxBonesPerVertex
      ∧ Forall weight32 wv
      ∧ ∀ j x, iv !! j = Some x → x ≠ kInvalidID → ∃ y, wv !! j = Some y ∧ posF y.

(** Vertex [v] has a positive weight in some slot. *)
Definition hasPos (sk : SkinData) (v : nat) : Prop :=
  ∃ wv, skin_weights sk !! v = Some wv ∧ Exists posF wv.

(** ** Mesh filter *)

(** Every face of the mesh is a triangle. *)
Definition uniformTriangles (m : aiMesh) : Prop := Forall (λ f, length f = 3) (mFaces m).

(** The filter as the specification words it: a mesh is kept exactly when it
    has a face and all its faces are triangles. *)
Definition keepsUniformTriangleMeshes (sceneMeshes : list aiMesh) (data : ImporterData) : Prop :=
  ∀ m, m ∈ sceneMeshes →
    (m ∈ (filterMeshes sceneMeshes data).1 ↔ mFaces m ≠ [] ∧ uniformTriangles m).

(** The two checks of the code: the mesh has a face, and its first face has
    three indices. *)
Definition passesFilter (m : aiMesh) : bool :=
  HasFaces m && Nat.eqb (length (default [] (mFaces m !! 0))) 3.

Definition skipWarning (m : aiMesh) : list string :=
  if negb (HasFaces m)
  then ["AssimpImporter: Mesh '" +:+ mesh_mName m +:+ "' has no faces, ignoring."]
  else if negb (Nat.eqb (length (default [] (mFaces m !! 0))) 3)
  then ["AssimpImporter: Mesh '" +:+ mesh_mName m +:+ "' is not a triangle mesh, ignoring."]
  else [].

(** A triangle followed by a quad. *)
Definition mixedMesh : aiMesh :=
  {| mesh_mName := "mixed"; mFaces := [[0; 1; 2]; [0; 1; 2; 3]]; mNumVertices := 4;
     mTextureCoords0 := None; mBones := []; mMaterialIndex := 0 |}.

Definition plainMesh (name : string) : aiMesh :=
  {| mesh_mName := name; mFaces := triangle; mNumVertices := 3;
     mTextureCoords0 := None; mBones := []; mMaterialIndex := 0 |}.

Definition emptyMesh (name : string) : aiMesh :=
  {| mesh_mName := name; mFaces := []; mNumVertices := 3;
     mTextureCoords0 := None; mBones := []; mMaterialIndex := 0 |}.

(** ** Mesh processing and commit *)

(** The processed mesh a task produces ([ProcessedMesh_default] when the task
    fails). *)
Definition pmOf (dbg : bool) (data : ImporterData) (m : aiMesh) : ProcessedMesh :=
  match processMeshTask dbg data m with
  | Ok (pm, _) => pm
  | Err _ => ProcessedMesh_default
  end.

Definition taskOk (dbg : bool) (data : ImporterData) (m : aiMesh) : Prop :=
  ∃ pm w, processMeshTask dbg data m = Ok (pm, w).

Definition taskErr (dbg : bool) (data : ImporterData) (m : aiMesh) : Prop :=
  ∃ e, processMeshTask dbg data m = Err e.

(** What the task of index [i] does to the results collection. *)
Definition writeSlot (dbg : bool) (data : ImporterData) (meshes : list aiMesh)
    (slots : list ProcessedMesh) (i : nat) : list ProcessedMesh :=
  match meshes !! i with
  | Some m => <[i := pmOf dbg data m]> slots
  | None => slots
  end.

Definition set_meshes (l : list ProcessedMesh) (b : SceneBuilder) : SceneBuilder :=
  {| sb_nodes := sb_nodes b; sb_meshes := l;
     sb_meshInstances := sb_meshInstances b; sb_animations := sb_animations b |}.

(** *** Concrete scenes *)

Definition rootWithMeshes (meshes : list nat) : aiNode :=
  {| mAddr := 7; mName := "root"; mTransformation := mat4_identity;
     mParent := None; mMeshes := meshes; mChildren := [] |}.

(** Two triangle meshes, both referenced by the root. *)
Definition twoMeshScene : aiScene :=
  {| mRootNode := rootWithMeshes [0; 1];
     scene_mMeshes := [plainMesh "a"; plainMesh "b"];
     mNumMaterials := 1; scene_mMaterials := [blankMaterial];
     mAnimations := []; mNumTextures := 0;
     scene_mCameras := []; scene_mLights := [] |}.

(** Mesh 0 has no faces; the root references mesh 1, "b". *)
Definition skippedFirstScene : aiScene :=
  {| mRootNode := rootWithMeshes [1];
     scene_mMeshes := [emptyMesh "a"; plainMesh "b"; plainMesh "c"];
     mNumMaterials := 1; scene_mMaterials := [blankMaterial];
     mAnimations := []; mNumTextures := 0; scene_mCameras := []; scene_mLights := [] |}.

(** Mesh 0 has no faces; the root references the last mesh, "b". *)
Definition skippedFirstLastScene : aiScene :=
  {| mRootNode := rootWithMeshes [1];
     scene_mMeshes := [emptyMesh "a"; plainMesh "b"];
     mNumMaterials := 1; scene_mMaterials := [blankMaterial];
     mAnimations := []; mNumTextures := 0; scene_mCameras := []; scene_mLights := [] |}.

(** The state in which [createMeshes] finds the two-mesh scene: materials
    created, graph built. *)
Definition twoMeshData : ImporterData :=
  set_nodeMaps {[7 := 0%N]} {["root" := [7]]}
    (createAllMaterials (ImporterData_new twoMeshScene SceneBuilder_empty [])).

(** ** Instance expansion *)

Definition nonIdentity (m : mat4) : bool := mat_neqb m mat4_identity.

Definition instanceNodeName (nodeID : NodeID) (instance : nat) : string :=
  "Node" +:+ to_string (N.to_nat nodeID) +:+ ".instance" +:+ to_string instance.

Definition instanceNode (nodeID : NodeID) (instance : nat) (m : mat4) : Node :=
  {| n_name := instanceNodeName nodeID instance; n_parent := nodeID;
     n_transform := m; n_localToBindPose := mat4_identity |}.

(** The expansion as the specification words it.  The nodes spawned for one
    mesh of a node: one per transform that is not the identity, [instance]
    being the index of the first transform of the list. *)
Fixpoint instanceNodes (nodeID : NodeID) (instance : nat) (instances : list mat4)
    : list Node :=
  match instances with
  | [] => []
  | m :: rest =>
      if nonIdentity m
      then instanceNode nodeID instance m :: instanceNodes nodeID (S instance) rest
      else instanceNodes nodeID (S instance) rest
  end.

(** The bindings made for one mesh of a node: to the spawned node for a
    transform that is not the identity ([next] is the identifier the next
    spawned node gets), to the node itself for the identity. *)
Fixpoint instanceBindings (nodeID : NodeID) (meshID : MeshID) (next : nat)
    (instances : list mat4) : list (NodeID * MeshID) :=
  match instances with
  | [] => []
  | m :: rest =>
      if nonIdentity m
      then (N.of_nat next, meshID) :: instanceBindings nodeID meshID (S next) rest
      else (nodeID, meshID) :: instanceBindings nodeID meshID next rest
  end.

(** The bindings made for all the meshes of a node, [K] nodes being spawned
    per mesh. *)
Fixpoint nodeBindings (nodeID : NodeID) (next K : nat) (instances : list mat4)
    (meshIDs : list MeshID) : list (NodeID * MeshID) :=
  match meshIDs with
  | [] => []
  | meshID :: rest =>
      instanceBindings nodeID meshID next instances
        ++ nodeBindings nodeID (next + K) K instances rest
  end.

Definition shear : mat4 :=
  [one; zero; zero; Fin 5;
   zero; one; zero; zero;
   zero; zero; one; zero;
   zero; zero; zero; one].

(** The two-mesh scene after [createMeshes], with three requested instance
    transforms: a shear, the identity, the shear again. *)
Definition expandData : ImporterData :=
  {| pScene := twoMeshScene;
     builder := {| sb_nodes := [{| n_name := "root"; n_parent := kInvalidID;
                                   n_transform := mat4_identity;
                                   n_localToBindPose := mat4_identity |}];
                   sb_meshes := [ProcessedMesh_default; ProcessedMesh_default];
                   sb_meshInstances := []; sb_animations := [] |};
     materialMap := {[0 := 0]};
     meshMap := {[0 := 0%N; 1 := 1%N]};
     modelInstances := [shear; mat4_identity; shear];
     localToBindPoseMatrices := ∅;
     mAiToFalcorNodeID := {[7 := 0%N]};
     mAiNodes := {["root" := [7]]};
     warnings := [] |}.

(** ** Bone validation *)

(** The nodes a mesh is attached to. *)
Definition instancesOf (meshInstances : list (list aiNode)) (mesh : nat) : list aiNode :=
  default [] (meshInstances !! mesh).

Definition singlyAttached (meshInstances : list (list aiNode)) (mesh : nat) : Prop :=
  length (instancesOf meshInstances mesh) = 1.

(** The first nodes of the two meshes carry transformation matrices that
    compare equal, entry by entry. *)
Definition sameNodeTransform (meshInstances : list (list aiNode)) (m1 m2 : nat) : Prop :=
  ∀ n1 n2, instancesOf meshInstances m1 !! 0 = Some n1 →
           instancesOf meshInstances m2 !! 0 = Some n2 →
           mat_eqb (mTransformation n1) (mTransformation n2) = true.

Definition pairwiseSameTransform (meshInstances : list (list aiNode)) (meshes : list nat)
    : Prop :=
  ∀ i j m1 m2, i < j → meshes !! i = Some m1 → meshes !! j = Some m2 →
    sameNodeTransform meshInstances m1 m2.

(** What [validateBones] accepts for the meshes of one bone. *)
Definition boneOk (meshInstances : list (list aiNode)) (meshes : list nat) : Prop :=
  Forall (singlyAttached meshInstances) meshes
  ∧ pairwiseSameTransform meshInstances meshes.

(** The checks of the inner loop of [validateBones], as a proposition. *)
Fixpoint chainOk (meshInstances : list (list aiNode)) (prev : option nat)
    (meshes : list nat) : Prop :=
  match meshes with
  | [] => True
  | mesh :: rest =>
      singlyAttached meshInstances mesh
      ∧ match prev with
        | Some mesh' => sameNodeTransform meshInstances mesh mesh'
        | None => True
        end
      ∧ chainOk meshInstances (Some mesh) rest
  end.

(** The world transform of a node is the product of the transformation
    matrices on the path from the root to the node. *)
Definition fmul (a b : float) : float :=
  match a, b with
  | Fin x, Fin y => Fin (x * y)
  | Fin x, Inf s | Inf s, Fin x => if Qeq_bool x 0 then NaN else Inf (xorb s (Qneg x))
  | Inf s, Inf t => Inf (xorb s t)
  | _, _ => NaN
  end.

Definition mat_entry (m : mat4) (row col : nat) : float := default NaN (m !! (4 * row + col)).

Definition mat_mul (a b : mat4) : mat4 :=
  row ← seq 0 4; col ← seq 0 4;
  [foldl (λ acc k, fadd acc (fmul (mat_entry a row k) (mat_entry b k col))) zero (seq 0 4)].

Fixpoint worldTransforms (parentWorld : mat4) (n : aiNode) : list (nat * mat4) :=
  let world := mat_mul parentWorld (mTransformation n) in
  (mAddr n, world) :: flat_map (worldTransforms world) (mChildren n).

Definition worldTransformOf (s : aiScene) (n : aiNode) (world : mat4) : Prop :=
  (mAddr n, world) ∈ worldTransforms mat4_identity (mRootNode s).

(** The two conditions of the specification. *)
Definition attachedMoreThanOnce (s : aiScene) : Prop :=
  ∃ bone meshes mesh, (bone, meshes) ∈ createBoneMap s ∧ mesh ∈ meshes
    ∧ 2 ≤ length (instancesOf (countMeshInstances s) mesh).

Definition instancesDiffer (s : aiScene) : Prop :=
  ∃ bone meshes mesh n1 n2 w1 w2, (bone, meshes) ∈ createBoneMap s ∧ mesh ∈ meshes
    ∧ n1 ∈ instancesOf (countMeshInstances s) mesh
    ∧ n2 ∈ instancesOf (countMeshInstances s) mesh
    ∧ worldTransformOf s n1 w1 ∧ worldTransformOf s n2 w2
    ∧ mat_neqb w1 w2 = true.

(** The claim on validation as the specification words it. *)
Definition validatesAsStated (data : ImporterData) : Prop :=
  (attachedMoreThanOnce (pScene data) ∨ instancesDiffer (pScene data) →
   ∃ msg, validateBones data = Err (ImporterError msg))
  ∧ (¬ attachedMoreThanOnce (pScene data) → ¬ instancesDiffer (pScene data) →
     validateBones data = Ok tt).

(** A skinned mesh that no node references. *)
Definition unattachedSkinScene : aiScene :=
  {| mRootNode := rootWithMeshes [];
     scene_mMeshes := [partlySkinnedMesh];
     mNumMaterials := 1; scene_mMaterials := [blankMaterial];
     mAnimations := []; mNumTextures := 0; scene_mCameras := []; scene_mLights := [] |}.

Definition unattachedSkinData : ImporterData :=
  ImporterData_new unattachedSkinScene SceneBuilder_empty [].

(** Meshes "arm" and "hand" share the bone "joint"; each is attached to one
    node, and the two nodes carry different matrices. *)
Definition sharedBoneScene : aiScene :=
  {| mRootNode :=
       {| mAddr := 7; mName := "root"; mTransformation := mat4_identity;
          mParent := None; mMeshes := [];
          mChildren :=
            [{| mAddr := 8; mName := "left"; mTransformation := mat4_identity;
                mParent := Some 7; mMeshes := [0]; mChildren := [] |};
             {| mAddr := 9; mName := "right"; mTransformation := shear;
                mParent := Some 7; mMeshes := [1]; mChildren := [] |}] |};
     scene_mMeshes := [partlySkinnedMesh; crowdedMesh];
     mNumMaterials := 1; scene_mMaterials := [blankMaterial];
     mAnimations := []; mNumTextures := 0; scene_mCameras := []; scene_mLights := [] |}.

(** ** The node registry *)

(** A second node named "joint", at address 8. *)
Definition secondJoint : aiNode :=
  {| mAddr := 8; mName := "joint"; mTransformation := mat4_identity;
     mParent := Some 7; mMeshes := []; mChildren := [] |}.

(** ** Scene graph *)

(** The nodes of a tree in depth-first pre-order. *)
Fixpoint nodesPreorder (n : aiNode) : list aiNode :=
  n :: flat_map nodesPreorder (mChildren n).

(** [n] names [parent] as its parent, and every node below [n] names the
    node it hangs from. *)
Fixpoint parentsLinked (parent : option nat) (n : aiNode) : bool :=
  bool_decide (mParent n = parent)
  && forallb (parentsLinked (Some (mAddr n))) (mChildren n).

(** The condition the assertion at the head of [parseNode] rules out. *)
Definition boneWithMeshes (data : ImporterData) (n : aiNode) : bool :=
  isBone data (mName n) && negb (Nat.eqb (length (mMeshes n)) 0).

(** [node] is what [parseNode] registers for [m] as node [id]: name and
    transform of [m], the bind-pose matrix of its name, and as parent the
    identifier under which the parent of [m] is registered, which is smaller
    than [id]. *)
Definition registeredAs (data data' : ImporterData) (id : nat) (m : aiNode) (node : Node)
    : Prop :=
  n_name node = mName m
  ∧ n_transform node = mTransformation m
  ∧ n_localToBindPose node = getLocalToBindPoseMatrix data (mName m)
  ∧ match mParent m with
    | None => n_parent node = kInvalidID
    | Some p => mAiToFalcorNodeID data' !! p = Some (n_parent node)
                ∧ (n_parent node < N.of_nat id)%N
    end.

(** Everything but the node store and the node registry is the same. *)
Definition sameButNodes (data data' : ImporterData) : Prop :=
  pScene data' = pScene data
  ∧ materialMap data' = materialMap data
  ∧ meshMap data' = meshMap data
  ∧ modelInstances data' = modelInstances data
  ∧ localToBindPoseMatrices data' = localToBindPoseMatrices data
  ∧ warnings data' = warnings data
  ∧ sb_meshes (builder data') = sb_meshes (builder data)
  ∧ sb_meshInstances (builder data') = sb_meshInstances (builder data)
  ∧ sb_animations (builder data') = sb_animations (builder data).

(** [data'] is [data] with the nodes [pre] registered in this order. *)
Definition graphAdded (data : ImporterData) (pre : list aiNode) (data' : ImporterData)
    : Prop :=
  let base := length (sb_nodes (builder data)) in
  sameButNodes data data'
  ∧ (∀ a, a ∉ mAddr <$> pre →
       mAiToFalcorNodeID data' !! a = mAiToFalcorNodeID data !! a)
  ∧ (∀ name, default [] (mAiNodes data' !! name)
             = default [] (mAiNodes data !! name)
               ++ (mAddr <$> filter (λ m, mName m = name) pre))
  ∧ (∀ name, mAiNodes data' !! name = None
             ↔ mAiNodes data !! name = None ∧ filter (λ m, mName m = name) pre = [])
  ∧ ∃ L, sb_nodes (builder data') = sb_nodes (builder data) ++ L
      ∧ length L = length pre
      ∧ ∀ i m, pre !! i = Some m →
          mAiToFalcorNodeID data' !! mAddr m = Some (N.of_nat (base + i))
          ∧ ∃ node, L !! i = Some node ∧ registeredAs data data' (base + i) m node.

(** What [parseNode] needs of the state it starts in to register the tree
    below [n]. *)
Definition parseReady (n : aiNode) (data : ImporterData) : Prop :=
  parentsLinked (mParent n) n = true
  ∧ NoDup (mAddr <$> nodesPreorder n)
  ∧ (∀ m, m ∈ nodesPreorder n → mAiToFalcorNodeID data !! mAddr m = None)
  ∧ (∀ p, mParent n = Some p →
       ∃ pid, mAiToFalcorNodeID data !! p = Some pid
              ∧ (pid < N.of_nat (length (sb_nodes (builder data))))%N).

(** The children of a node, once the node is registered. *)
Definition forestReady (a : nat) (children : list aiNode) (data : ImporterData) : Prop :=
  forallb (parentsLinked (Some a)) children = true
  ∧ NoDup (mAddr <$> flat_map nodesPreorder children)
  ∧ (∀ m, m ∈ flat_map nodesPreorder children → mAiToFalcorNodeID data !! mAddr m = None)
  ∧ ∃ pid, mAiToFalcorNodeID data !! a = Some pid
           ∧ (pid < N.of_nat (length (sb_nodes (builder data))))%N.

(** The tree that [createSceneGraph] walks is well formed: the root has no
    parent, every other node names the node it hangs from, and no two nodes
    share an address. *)
Definition wf_graph (root : aiNode) : Prop :=
  parentsLinked None root = true ∧ NoDup (mAddr <$> nodesPreorder root).

(** The node registry is empty, as [ImporterData]'s constructor leaves it. *)
Definition noNodesYet (data : ImporterData) : Prop :=
  mAiToFalcorNodeID data = ∅ ∧ mAiNodes data = ∅.

(** No assertion of [createSceneGraph] is violated: the root is no bone and
    no bone node carries a mesh. *)
Definition graphAsserts (data : ImporterData) : bool :=
  negb (isBone (createBoneList data) (mName (mRootNode (pScene data))))
  && forallb (λ m, negb (boneWithMeshes (createBoneList data) m))
       (nodesPreorder (mRootNode (pScene data))).

(** The nodes of the tree that carry the name [name], in pre-order. *)
Definition nodesNamed (name : string) (root : aiNode) : list aiNode :=
  filter (λ m, mName m = name) (nodesPreorder root).

(** All bones of the scene, mesh by mesh. *)
Definition sceneBones (s : aiScene) : list aiBone :=
  scene_mMeshes s ≫= mBones.

(** A joint at the root of a skeleton of two, and a mesh node beside it. *)
Definition skeletonScene : aiScene :=
  {| mRootNode :=
       {| mAddr := 7; mName := "root"; mTransformation := mat4_identity;
          mParent := None; mMeshes := [];
          mChildren :=
            [{| mAddr := 8; mName := "joint"; mTransformation := shear;
                mParent := Some 7; mMeshes := [];
                mChildren :=
                  [{| mAddr := 9; mName := "tip"; mTransformation := mat4_identity;
                      mParent := Some 8; mMeshes := []; mChildren := [] |}] |};
             {| mAddr := 10; mName := "tip"; mTransformation := mat4_identity;
                mParent := Some 7; mMeshes := [0]; mChildren := [] |}] |};
     scene_mMeshes := [partlySkinnedMesh];
     mNumMaterials := 1; scene_mMaterials := [blankMaterial];
     mAnimations := []; mNumTextures := 0; scene_mCameras := []; scene_mLights := [] |}.

Definition skeletonData : ImporterData :=
  ImporterData_new skeletonScene SceneBuilder_empty [].

(** The same skeleton with the mesh attached to the joint itself. *)
Definition meshOnBoneScene : aiScene :=
  {| mRootNode :=
       {| mAddr := 7; mName := "root"; mTransformation := mat4_identity;
          mParent := None; mMeshes := [];
          mChildren :=
            [{| mAddr := 8; mName := "joint"; mTransformation := shear;
                mParent := Some 7; mMeshes := [0]; mChildren := [] |}] |};
     scene_mMeshes := [partlySkinnedMesh];
     mNumMaterials := 1; scene_mMaterials := [blankMaterial];
     mAnimations := []; mNumTextures := 0; scene_mCameras := []; scene_mLights := [] |}.

Definition meshOnBoneData : ImporterData :=
  ImporterData_new meshOnBoneScene SceneBuilder_empty [].

(** ** Mesh processing *)

(** The index count of the first face, which [createIndexList] takes as the
    index count of every face. *)
Definition perFaceIndexCount (pAiMesh : aiMesh) : nat :=
  length (default [] (mFaces pAiMesh !! 0)).

(** The value fits a [uint32_t]. *)
Definition fitsUint32 (n : nat) : Prop := (N.of_nat n < 4294967296)%N.

Definition dropZ (v : aiVector3D) : float * float := let '(x, y, _) := v in (x, y).
Definition zIsZero (v : aiVector3D) : bool := let '(_, _, z) := v in feqb z zero.

(** Two triangles over four vertices, with texture coordinates. *)
Definition quadMesh : aiMesh :=
  {| mesh_mName := "quad"; mFaces := [[0; 1; 2]; [2; 1; 3]]; mNumVertices := 4;
     mTextureCoords0 := Some [(zero, zero, zero); (one, zero, zero);
                              (zero, one, zero); (one, one, zero)];
     mBones := []; mMaterialIndex := 0 |}.


(** Those of vertex [v] whose weight is not zero. *)
Definition influencesOf (data : ImporterData) (pAiMesh : aiMesh) (v : nat)
    : list (NodeID * aiVertexWeight) :=
  filter (λ e, mVertexId e.2 = v ∧ feqb (mWeight e.2) zero = false)
    (flatInfluences data pAiMesh).

(** The first [kMaxBonesPerVertex] elements of [l], filled up with [d]. *)
Definition pad4 {A : Type} (d : A) (l : list A) : list A :=
  take kMaxBonesPerVertex l ++ replicate (kMaxBonesPerVertex - length l) d.

(** ** Instance expansion over the tree *)

(** The mesh references of a tree, node by node in pre-order. *)
Definition meshRefs (root : aiNode) : list nat := nodesPreorder root ≫= mMeshes.

(** [addMeshInstances] finds what it looks up for node [n]: the node is
    registered, and so is every mesh the node references. *)
Definition nodeResolved (data : ImporterData) (n : aiNode) : bool :=
  bool_decide (is_Some (mAiToFalcorNodeID data !! mAddr n))
  && forallb (λ mesh, bool_decide (is_Some (meshMap data !! mesh))) (mMeshes n).

Definition instancesResolved (data : ImporterData) (root : aiNode) : bool :=
  forallb (nodeResolved data) (nodesPreorder root).

(** One binding per mesh reference, to the node that makes the reference. *)
Definition plainBindings (data : ImporterData) (nodes : list aiNode)
    : list (NodeID * MeshID) :=
  nodes ≫= λ n,
    (λ mesh, (default kInvalidID (mAiToFalcorNodeID data !! mAddr n),
              default 0%N (meshMap data !! mesh))) <$> mMeshes n.

(** What the instance expansion adds for [R] mesh references: [K] nodes and
    as many bindings as there are requested transforms, one if there is
    none, per reference; with no requested transform, the bindings [plain]
    and no node. *)
Definition instancesAdded (data : ImporterData) (R : nat)
    (plain : list (NodeID * MeshID)) (data' : ImporterData) : Prop :=
  let N := length (modelInstances data) in
  let K := length (List.filter nonIdentity (modelInstances data)) in
  data' = set_builder (builder data') data
  ∧ sb_meshes (builder data') = sb_meshes (builder data)
  ∧ sb_animations (builder data') = sb_animations (builder data)
  ∧ length (sb_meshInstances (builder data'))
    = length (sb_meshInstances (builder data)) + Nat.max 1 N * R
  ∧ length (sb_nodes (builder data')) = length (sb_nodes (builder data)) + K * R
  ∧ (N = 0 →
     sb_meshInstances (builder data') = sb_meshInstances (builder data) ++ plain
     ∧ sb_nodes (builder data') = sb_nodes (builder data)).

(** The skeleton scene once its graph is built and its mesh committed, with
    no requested instance transform. *)
Definition skeletonBuilt : ImporterData :=
  {| pScene := skeletonScene;
     builder := {| sb_nodes := replicate 4 (instanceNode 0 0 mat4_identity);
                   sb_meshes := [ProcessedMesh_default];
                   sb_meshInstances := []; sb_animations := [] |};
     materialMap := {[0 := 0]};
     meshMap := {[0 := 0%N]};
     modelInstances := [];
     localToBindPoseMatrices := ∅;
     mAiToFalcorNodeID := {[7 := 0%N; 8 := 1%N; 9 := 2%N; 10 := 3%N]};
     mAiNodes := {["root" := [7]; "joint" := [8]; "tip" := [9; 10]]};
     warnings := [] |}.

(** ** Validator *)

(** The nodes of the tree that reference mesh [mesh], in pre-order, once per
    reference. *)
Definition attachments (root : aiNode) (mesh : nat) : list aiNode :=
  nodesPreorder root ≫= λ n, replicate (length (filter (λ m, m = mesh) (mMeshes n))) n.

(** The bone map relates bone [name] to mesh index [mesh]. *)
Definition boneMapRelates (boneMap : list (string * list nat)) (name : string) (mesh : nat)
    : Prop :=
  ∃ meshes, (name, meshes) ∈ boneMap ∧ mesh ∈ meshes.

(** ** Merging aligned tracks *)

(** The keyframe made of the keys [p], [r] and [s] of the three tracks. *)
Definition alignedKeyframe (tps : float) (p : aiVectorKey) (r : aiQuatKey) (s : aiVectorKey)
    : Keyframe :=
  {| kf_time := fdiv (vk_mTime p) tps;
     kf_translation := aiCast_vec (vk_mValue p);
     kf_scaling := aiCast_vec (vk_mValue s);
     kf_rotation := aiCast_quat (qk_mValue r) |}.

Definition alignedKeyframes (tps : float) (ch : aiNodeAnim) : list Keyframe :=
  zip_with (λ p rs, alignedKeyframe tps p rs.1 rs.2)
    (mPositionKeys ch) (zip (mRotationKeys ch) (mScalingKeys ch)).

(** The three tracks have the same number of keys, and the keys of the same
    index carry the same time, a number. *)
Definition alignedTracks (ch : aiNodeAnim) : Prop :=
  length (mRotationKeys ch) = length (mPositionKeys ch)
  ∧ length (mScalingKeys ch) = length (mPositionKeys ch)
  ∧ ∀ i p r s, mPositionKeys ch !! i = Some p → mRotationKeys ch !! i = Some r →
      mScalingKeys ch !! i = Some s →
      wf_time (vk_mTime p)
      ∧ feqb (qk_mTime r) (vk_mTime p) = true
      ∧ feqb (vk_mTime s) (vk_mTime p) = true.

(** ** Material mapper: textures

    [loadTextures] walks the mapping table of the import mode and hands
    every texture it finds to [builder.loadMaterialTexture].  The calls made
    are kept as a list of destination slot and path, oldest first, beside
    the warnings logged; the path is the search path joined with the path
    of the texture. *)

(** [Material::TextureSlot], the slots the tables name. *)
Inductive TextureSlot : Type := BaseColor | Specular | Emissive | Normal.

#[global] Instance TextureSlot_eq_dec : EqDecision TextureSlot.
Proof. solve_decision. Defined.

Record TextureMapping : Type := mk_TextureMapping {
  aiType : aiTextureType;
  aiIndex : nat;
  targetType : TextureSlot
}.

(** [std::replace(s.begin(), s.end(), old, new)] *)
Fixpoint str_replace (old new : Ascii.ascii) (s : string) : string :=
  match s with
  | EmptyString => EmptyString
  | String c rest =>
      String (if Ascii.eqb c old then new else c) (str_replace old new rest)
  end.

Fixpoint str_contains (c : Ascii.ascii) (s : string) : bool :=
  match s with
  | EmptyString => false
  | String c' rest => Ascii.eqb c' c || str_contains c rest
  end.

(** The characters of code 92 and 47. *)
Definition backslash : Ascii.ascii := Ascii.ascii_of_nat 92.
Definition slash : Ascii.ascii := Ascii.ascii_of_nat 47.

Definition emptyTextureName : string :=
  "AssimpImporter: Texture has empty file name, ignoring.".

Section Textures.
(** The last entry of the GLTF2 table is written with a macro of Assimp's
    [pbrmaterial.h], which stands for a texture type and an index. *)
Variable metallicRoughnessTexture : aiTextureType * nat.
(** [operator/] of [std::filesystem::path]; paths are kept as strings. *)
Variable pathAppend : string → string → string.

Definition kTextureMappings (importMode : ImportMode) : list TextureMapping :=
  match importMode with
  | Default =>
      [ {| aiType := aiTextureType_DIFFUSE; aiIndex := 0; targetType := BaseColor |};
        {| aiType := aiTextureType_SPECULAR; aiIndex := 0; targetType := Specular |};
        {| aiType := aiTextureType_EMISSIVE; aiIndex := 0; targetType := Emissive |};
        {| aiType := aiTextureType_NORMALS; aiIndex := 0; targetType := Normal |} ]
  | OBJ =>
      [ {| aiType := aiTextureType_DIFFUSE; aiIndex := 0; targetType := BaseColor |};
        {| aiType := aiTextureType_SPECULAR; aiIndex := 0; targetType := Specular |};
        {| aiType := aiTextureType_EMISSIVE; aiIndex := 0; targetType := Emissive |};
        {| aiType := aiTextureType_HEIGHT; aiIndex := 0; targetType := Normal |};
        {| aiType := aiTextureType_DISPLACEMENT; aiIndex := 0; targetType := Normal |} ]
  | GLTF2 =>
      [ {| aiType := aiTextureType_DIFFUSE; aiIndex := 0; targetType := BaseColor |};
        {| aiType := aiTextureType_EMISSIVE; aiIndex := 0; targetType := Emissive |};
        {| aiType := aiTextureType_NORMALS; aiIndex := 0; targetType := Normal |};
        {| aiType := metallicRoughnessTexture.1; aiIndex := metallicRoughnessTexture.2;
           targetType := Specular |} ]
  end.

(** The body of the loop of [loadTextures]: the calls made so far and the
    warnings logged so far. *)
Definition loadTexture (pAiMaterial : aiMaterial) (searchPath : string)
    (source : TextureMapping) (st : list (TextureSlot * string) * list string)
    : list (TextureSlot * string) * list string :=
  if length (mat_textures pAiMaterial (aiType source)) <? aiIndex source + 1 then st else
  let path :=
    str_replace backslash slash
      (default "" (mat_textures pAiMaterial (aiType source) !! aiIndex source)) in
  if String.eqb path "" then (st.1, st.2 ++ [emptyTextureName])
  else
    let fullPath := pathAppend searchPath path in
    (st.1 ++ [(targetType source, fullPath)], st.2).

Definition loadTextures (pAiMaterial : aiMaterial) (searchPath : string)
    (importMode : ImportMode) : list (TextureSlot * string) * list string :=
  foldl (λ st source, loadTexture pAiMaterial searchPath source st) ([], [])
    (kTextureMappings importMode).
End Textures.

(** What [loadTextures] is to do for one entry of the table: the slot and
    the path under the search path of the texture it loads, if any. *)
Definition textureLoad (pAiMaterial : aiMaterial) (source : TextureMapping)
    : option (TextureSlot * string) :=
  match mat_textures pAiMaterial (aiType source) !! aiIndex source with
  | Some raw =>
      if String.eqb (str_replace backslash slash raw) "" then None
      else Some (targetType source, str_replace backslash slash raw)
  | None => None
  end.

(** The call [loadTextures] makes for a texture: the path handed over is the
    search path joined with the path of the texture. *)
Definition handedOver (pathAppend : string → string → string) (searchPath : string)
    (l : TextureSlot * string) : TextureSlot * string :=
  (l.1, pathAppend searchPath l.2).

(** A material with a bump map and a displacement map, the second under a
    Windows path. *)
Definition bumpyMaterial : aiMaterial :=
  {| mat_textures := λ t,
       match t with
       | aiTextureType_HEIGHT => ["bump.png"]
       | aiTextureType_DISPLACEMENT =>
           [String (Ascii.ascii_of_nat 97) (String backslash "d.png")]
       | aiTextureType_SPECULAR => [""]
       | _ => []
       end;
     mat_name := "rock.DoubleSided.matte";
     mat_opacity := Some (Fin (1 # 4));
     mat_bumpScaling := None;
     mat_shininess := Some (Fin 120);
     mat_refracti := None;
     mat_colorDiffuse := Some (one, zero, zero);
     mat_colorSpecular := None;
     mat_colorEmissive := None;
     mat_twoSided := Some 0%Z;
     mat_baseColorFactor := None;
     mat_metallicFactor := None;
     mat_roughnessFactor := None |}.

(** ** Lights

    The lights of the external scene are handed to [createLights] beside the
    importer's state, and the lights registered with the builder are kept
    as a list beside it, oldest first. *)


Inductive LightKind : Type := DirectionalLight | PointLight.

(** A light as the importer leaves it: its kind and name, and what the
    importer has set on it.  [l_nodeID] is the node the light is bound to by
    [setNodeID], which goes with [setHasAnimation(true)]. *)
Record Light : Type := mk_Light {
  l_kind : LightKind;
  l_name : string;
  l_intensity : option float3;
  l_worldDirection : option float3;
  l_worldPosition : option float3;
  l_openingAngle : option float;
  l_penumbraAngle : option float;
  l_nodeID : option NodeID
}.

Definition Light_create (kind : LightKind) (name : string) : Light :=
  {| l_kind := kind; l_name := name; l_intensity := None; l_worldDirection := None;
     l_worldPosition := None; l_openingAngle := None; l_penumbraAngle := None;
     l_nodeID := None |}.

Definition setIntensity (v : float3) (l : Light) : Light :=
  {| l_kind := l_kind l; l_name := l_name l; l_intensity := Some v;
     l_worldDirection := l_worldDirection l; l_worldPosition := l_worldPosition l;
     l_openingAngle := l_openingAngle l; l_penumbraAngle := l_penumbraAngle l;
     l_nodeID := l_nodeID l |}.

Definition setWorldDirection (v : float3) (l : Light) : Light :=
  {| l_kind := l_kind l; l_name := l_name l; l_intensity := l_intensity l;
     l_worldDirection := Some v; l_worldPosition := l_worldPosition l;
     l_openingAngle := l_openingAngle l; l_penumbraAngle := l_penumbraAngle l;
     l_nodeID := l_nodeID l |}.

Definition setWorldPosition (v : float3) (l : Light) : Light :=
  {| l_kind := l_kind l; l_name := l_name l; l_intensity := l_intensity l;
     l_worldDirection := l_worldDirection l; l_worldPosition := Some v;
     l_openingAngle := l_openingAngle l; l_penumbraAngle := l_penumbraAngle l;
     l_nodeID := l_nodeID l |}.

Definition setOpeningAngle (a : float) (l : Light) : Light :=
  {| l_kind := l_kind l; l_name := l_name l; l_intensity := l_intensity l;
     l_worldDirection := l_worldDirection l; l_worldPosition := l_worldPosition l;
     l_openingAngle := Some a; l_penumbraAngle := l_penumbraAngle l;
     l_nodeID := l_nodeID l |}.

Definition setPenumbraAngle (a : float) (l : Light) : Light :=
  {| l_kind := l_kind l; l_name := l_name l; l_intensity := l_intensity l;
     l_worldDirection := l_worldDirection l; l_worldPosition := l_worldPosition l;
     l_openingAngle := l_openingAngle l; l_penumbraAngle := Some a;
     l_nodeID := l_nodeID l |}.

Definition setNodeID (id : NodeID) (l : Light) : Light :=
  {| l_kind := l_kind l; l_name := l_name l; l_intensity := l_intensity l;
     l_worldDirection := l_worldDirection l; l_worldPosition := l_worldPosition l;
     l_openingAngle := l_openingAngle l; l_penumbraAngle := l_penumbraAngle l;
     l_nodeID := Some id |}.

Definition fneg (a : float) : float :=
  match a with
  | Fin x => Fin (- x)
  | Inf s => Inf (negb s)
  | NaN => NaN
  end.

Definition fsub (a b : float) : float := fadd a (fneg b).

Definition vneg (v : float3) : float3 := let '(x, y, z) := v in (fneg x, fneg y, fneg z).

(** [cross(a, b)] *)
Definition cross (a b : float3) : float3 :=
  let '(ax, ay, az) := a in
  let '(bx, by_, bz) := b in
  (fsub (fmul ay bz) (fmul by_ az),
   fsub (fmul az bx) (fmul bz ax),
   fsub (fmul ax by_) (fmul bx ay)).

(** [aiColor3D::operator==] *)
Definition color_eqb (a b : aiColor3D) : bool :=
  let '(ar, ag, ab) := a in
  let '(br, bg, bb) := b in
  feqb ar br && feqb ag bg && feqb ab bb.

Definition unsupportedLight (pAiLight : aiLight) : string :=
  "AssimpImporter: Light '" +:+ light_mName pAiLight +:+ "' has unsupported type "
    +:+ to_string (aiLightSourceType_code (light_mType pAiLight)) +:+ ", ignoring.".

Section Lights.
(** The vector operations of the math library, and the column write of
    [rmcv::mat4], are taken as they are. *)
Variable normalize : float3 → float3.
Variable vlength : float3 → float.
Variable setCol : nat → float * float * float * float → mat4 → mat4.

Definition addLightCommon (dbg : bool) (pLight : Light) (baseMatrix : mat4)
    (pAiLight : aiLight) (st : ImporterData * list Light)
    : result (ImporterData * list Light) :=
  let '(data, lights) := st in
  FALCOR_ASSERT dbg (color_eqb (mColorDiffuse pAiLight) (mColorSpecular pAiLight));;
  let pLight := setIntensity (aiCast_vec (mColorSpecular pAiLight)) pLight in
  let nodeID := getFalcorNodeID data (light_mName pAiLight) 0 in
  let '(pLight, data) :=
    if negb (N.eqb nodeID kInvalidID) then
      let n := {| n_name := l_name pLight +:+ ".BaseMatrix"; n_parent := nodeID;
                  n_transform := baseMatrix; n_localToBindPose := mat4_identity |} in
      let '(nodeID, b) := builder_addNode n (builder data) in
      (setNodeID nodeID pLight, set_builder b data)
    else (pLight, data) in
  Ok (data, lights ++ [pLight]).

Definition createDirLight (dbg : bool) (pAiLight : aiLight)
    (st : ImporterData * list Light) : result (ImporterData * list Light) :=
  let pLight := Light_create DirectionalLight (light_mName pAiLight) in
  let direction := normalize (aiCast_vec (light_mDirection pAiLight)) in
  let pLight := setWorldDirection direction pLight in
  let '(dx, dy, dz) := vneg direction in
  let base := setCol 2 (dx, dy, dz, zero) mat4_identity in
  addLightCommon dbg pLight base pAiLight st.

Definition createPointLight (dbg : bool) (pAiLight : aiLight)
    (st : ImporterData * list Light) : result (ImporterData * list Light) :=
  let pLight := Light_create PointLight (light_mName pAiLight) in
  let position := aiCast_vec (light_mPosition pAiLight) in
  let direction := aiCast_vec (light_mDirection pAiLight) in
  let up := aiCast_vec (light_mUp pAiLight) in
  let direction :=
    if feqb (vlength direction) zero then (zero, zero, Fin (-1)) else normalize direction in
  let up := if feqb (vlength up) zero then (zero, one, zero) else normalize up in
  let pLight := setWorldPosition position pLight in
  let pLight := setWorldDirection direction pLight in
  let pLight := setOpeningAngle (mAngleOuterCone pAiLight) pLight in
  let pLight :=
    setPenumbraAngle (fsub (mAngleOuterCone pAiLight) (mAngleInnerCone pAiLight)) pLight in
  let '(rx, ry, rz) := cross direction up in
  let '(ux, uy, uz) := up in
  let '(dx, dy, dz) := vneg direction in
  let '(px, py, pz) := position in
  let base := setCol 0 (rx, ry, rz, zero) mat4_identity in
  let base := setCol 1 (ux, uy, uz, zero) base in
  let base := setCol 2 (dx, dy, dz, zero) base in
  let base := setCol 3 (px, py, pz, one) base in
  addLightCommon dbg pLight base pAiLight st.

Definition createLight (dbg : bool) (pAiLight : aiLight)
    (st : ImporterData * list Light) : result (ImporterData * list Light) :=
  match light_mType pAiLight with
  | aiLightSource_DIRECTIONAL => createDirLight dbg pAiLight st
  | aiLightSource_POINT | aiLightSource_SPOT => createPointLight dbg pAiLight st
  | _ => Ok (logWarning (unsupportedLight pAiLight) st.1, st.2)
  end.

Definition createLights (dbg : bool) (mLights : list aiLight)
    (st : ImporterData * list Light) : result (ImporterData * list Light) :=
  forEach (createLight dbg) mLights st.
End Lights.

(** The light types [createLights] has a case for. *)
Definition supportedLight (pAiLight : aiLight) : bool :=
  match light_mType pAiLight with
  | aiLightSource_DIRECTIONAL | aiLightSource_POINT | aiLightSource_SPOT => true
  | _ => false
  end.

(** The name of the light is the name of a node of the scene graph. *)
Definition lightResolved (data : ImporterData) (pAiLight : aiLight) : bool :=
  negb (N.eqb (getFalcorNodeID data (light_mName pAiLight) 0) kInvalidID).

Definition lightKind (pAiLight : aiLight) : LightKind :=
  match light_mType pAiLight with
  | aiLightSource_DIRECTIONAL => DirectionalLight
  | _ => PointLight
  end.

(** The node [addLightCommon] makes for a light whose name is that of a node. *)
Definition baseMatrixNode (data : ImporterData) (pAiLight : aiLight) (transform : mat4)
    : Node :=
  {| n_name := light_mName pAiLight +:+ ".BaseMatrix";
     n_parent := getFalcorNodeID data (light_mName pAiLight) 0;
     n_transform := transform; n_localToBindPose := mat4_identity |}.

(** The node a light is bound to, for the lights [mLights] in order, [next]
    being the identifier the next node gets: a light whose name is that of a
    node is bound to the node made for it, any other light to none. *)
Fixpoint lightBindings (data : ImporterData) (next : nat) (mLights : list aiLight)
    : list (option NodeID) :=
  match mLights with
  | [] => []
  | pAiLight :: rest =>
      if lightResolved data pAiLight
      then Some (N.of_nat next) :: lightBindings data (S next) rest
      else None :: lightBindings data next rest
  end.

(** The assertion of [addLightCommon] holds for the lights it is reached
    for. *)
Definition coloursAgree (mLights : list aiLight) : Prop :=
  Forall (λ l, supportedLight l = true →
               color_eqb (mColorDiffuse l) (mColorSpecular l) = true) mLights.

Definition someLight (name : string) (type : aiLightSourceType) : aiLight :=
  {| light_mName := name; light_mType := type;
     light_mPosition := (zero, zero, zero); light_mDirection := (zero, zero, one);
     light_mUp := (zero, one, zero);
     mColorDiffuse := (one, one, one); mColorSpecular := (one, one, one);
     mAngleInnerCone := zero; mAngleOuterCone := one |}.

(** A spot light named after the node "joint", an area light, and a
    directional light named after no node. *)
Definition threeLights : list aiLight :=
  [someLight "joint" aiLightSource_SPOT; someLight "panel" aiLightSource_AREA;
   someLight "sun" aiLightSource_DIRECTIONAL].

(** ** Material mapper: parameters

    [StandardMaterial] is kept as the record of the parameters
    [createMaterial] reads and writes; a setter replaces the field, a getter
    reads it. *)

Inductive ShadingModel : Type := MetalRough | SpecGloss.

(** Components [x, y, z, w], also read as [r, g, b, a]. *)
Definition float4 : Type := float * float * float * float.

Record StandardMaterial : Type := mk_StandardMaterial {
  sm_name : string;
  sm_shadingModel : ShadingModel;
  sm_baseColor : float4;
  sm_specularParams : float4;
  sm_emissiveColor : float3;
  sm_indexOfRefraction : float;
  sm_doubleSided : bool;
  sm_specularTransmission : float;
  sm_textures : list (TextureSlot * string)
}.

Definition setBaseColor (v : float4) (m : StandardMaterial) : StandardMaterial :=
  {| sm_name := sm_name m; sm_shadingModel := sm_shadingModel m; sm_baseColor := v;
     sm_specularParams := sm_specularParams m; sm_emissiveColor := sm_emissiveColor m;
     sm_indexOfRefraction := sm_indexOfRefraction m; sm_doubleSided := sm_doubleSided m;
     sm_specularTransmission := sm_specularTransmission m; sm_textures := sm_textures m |}.

Definition setSpecularParams (v : float4) (m : StandardMaterial) : StandardMaterial :=
  {| sm_name := sm_name m; sm_shadingModel := sm_shadingModel m;
     sm_baseColor := sm_baseColor m;
     sm_specularParams := v; sm_emissiveColor := sm_emissiveColor m;
     sm_indexOfRefraction := sm_indexOfRefraction m; sm_doubleSided := sm_doubleSided m;
     sm_specularTransmission := sm_specularTransmission m; sm_textures := sm_textures m |}.

Definition setEmissiveColor (v : float3) (m : StandardMaterial) : StandardMaterial :=
  {| sm_name := sm_name m; sm_shadingModel := sm_shadingModel m;
     sm_baseColor := sm_baseColor m;
     sm_specularParams := sm_specularParams m; sm_emissiveColor := v;
     sm_indexOfRefraction := sm_indexOfRefraction m; sm_doubleSided := sm_doubleSided m;
     sm_specularTransmission := sm_specularTransmission m; sm_textures := sm_textures m |}.

Definition setIndexOfRefraction (v : float) (m : StandardMaterial) : StandardMaterial :=
  {| sm_name := sm_name m; sm_shadingModel := sm_shadingModel m;
     sm_baseColor := sm_baseColor m;
     sm_specularParams := sm_specularParams m; sm_emissiveColor := sm_emissiveColor m;
     sm_indexOfRefraction := v; sm_doubleSided := sm_doubleSided m;
     sm_specularTransmission := sm_specularTransmission m; sm_textures := sm_textures m |}.

Definition setDoubleSided (v : bool) (m : StandardMaterial) : StandardMaterial :=
  {| sm_name := sm_name m; sm_shadingModel := sm_shadingModel m;
     sm_baseColor := sm_baseColor m;
     sm_specularParams := sm_specularParams m; sm_emissiveColor := sm_emissiveColor m;
     sm_indexOfRefraction := sm_indexOfRefraction m; sm_doubleSided := v;
     sm_specularTransmission := sm_specularTransmission m; sm_textures := sm_textures m |}.

Definition setSpecularTransmission (v : float) (m : StandardMaterial) : StandardMaterial :=
  {| sm_name := sm_name m; sm_shadingModel := sm_shadingModel m;
     sm_baseColor := sm_baseColor m;
     sm_specularParams := sm_specularParams m; sm_emissiveColor := sm_emissiveColor m;
     sm_indexOfRefraction := sm_indexOfRefraction m; sm_doubleSided := sm_doubleSided m;
     sm_specularTransmission := v; sm_textures := sm_textures m |}.

(** [builder.loadMaterialTexture] for every call [loadTextures] makes. *)
Definition setTextures (v : list (TextureSlot * string)) (m : StandardMaterial)
    : StandardMaterial :=
  {| sm_name := sm_name m; sm_shadingModel := sm_shadingModel m;
     sm_baseColor := sm_baseColor m;
     sm_specularParams := sm_specularParams m; sm_emissiveColor := sm_emissiveColor m;
     sm_indexOfRefraction := sm_indexOfRefraction m; sm_doubleSided := sm_doubleSided m;
     sm_specularTransmission := sm_specularTransmission m; sm_textures := sm_textures m ++ v |}.

Definition alpha (v : float4) : float := v.2.
Definition withAlpha (a : float) (v : float4) : float4 := (v.1, a).
Definition withColor (c : aiColor3D) (v : float4) : float4 :=
  let '(r, g, b) := c in (r, g, b, v.2).

(** [std::min(a, b)], that is [(b < a) ? b : a]. *)
Definition fmin (a b : float) : float := if fltb b a then b else a.

(** Modelled from the spec: [clamp] comes from the math utilities, which are
    not among the sources; section 4.6 of the specification writes the
    conversion as [clamp(sqrt(2 / (exponent + 2)), 0, 1)], the value brought
    into the interval by a maximum with the lower and a minimum with the
    upper bound. *)
Definition clamp (x lo hi : float) : float := fmin (fmax x lo) hi.

(** [::tolower] in the "C" locale, and [std::transform] with it. *)
Definition tolower (c : Ascii.ascii) : Ascii.ascii :=
  let n := Ascii.nat_of_ascii c in
  if (65 <=? n) && (n <=? 90) then Ascii.ascii_of_nat (n + 32) else c.

Fixpoint str_tolower (s : string) : string :=
  match s with
  | EmptyString => EmptyString
  | String c rest => String (tolower c) (str_tolower rest)
  end.

Definition unnamedMaterial : string :=
  "AssimpImporter: Material with no name found -> renaming to 'unnamed'.".

Definition unknownProperty (nameStr token : string) : string :=
  "AssimpImporter: Material '" +:+ nameStr +:+ "' has an unknown material property: '"
    +:+ token +:+ "'.".

(** [if (pAiMaterial->Get(key, x) == AI_SUCCESS) ...] *)
Definition ifGet {A M : Type} (value : option A) (body : A → M → M) (m : M) : M :=
  match value with
  | Some x => body x m
  | None => m
  end.

Section Materials.
(** Taken as they are: the macro of the GLTF2 table, the join of two paths,
    the square root of the C library, [splitString] of the string utilities,
    and what [StandardMaterial::create] returns for a name and a shading
    model. *)
Variable metallicRoughnessTexture : aiTextureType * nat.
Variable pathAppend : string → string → string.
Variable fsqrt : float → float.
Variable splitString : string → string → list string.
Variable StandardMaterial_create : string → ShadingModel → StandardMaterial.

Definition convertSpecPowerToRoughness (specPower : float) : float :=
  clamp (fsqrt (fdiv (Fin 2) (fadd specPower (Fin 2)))) zero one.

(** The body of the loop over the tokens of the name. *)
Definition nameToken (nameStr : string) (st : StandardMaterial * ImporterData)
    (token : string) : StandardMaterial * ImporterData :=
  if String.eqb (str_tolower token) "doublesided"
  then (setDoubleSided true st.1, st.2)
  else (st.1, logWarning (unknownProperty nameStr token) st.2).

(** [createMaterial].  [useSpecGloss] and [useMetalRough] are the two flags
    of the builder the function looks at. *)
Definition createMaterial (dbg : bool) (useSpecGloss useMetalRough : bool)
    (data : ImporterData) (pAiMaterial : aiMaterial) (searchPath : string)
    (importMode : ImportMode) : result (StandardMaterial * ImporterData) :=
  let nameStr := mat_name pAiMaterial in
  let '(nameStr, data) :=
    if String.eqb nameStr "" then ("unnamed", logWarning unnamedMaterial data)
    else (nameStr, data) in
  FALCOR_ASSERT dbg (negb (useSpecGloss && useMetalRough));;
  let shadingModel :=
    if useSpecGloss || (ImportMode_eqb importMode OBJ && negb useMetalRough)
    then SpecGloss else MetalRough in
  let pMaterial := StandardMaterial_create nameStr shadingModel in
  let '(loads, warns) :=
    loadTextures metallicRoughnessTexture pathAppend pAiMaterial searchPath importMode in
  let pMaterial := setTextures loads pMaterial in
  let data := foldl (λ d w, logWarning w d) data warns in
  let opacity := default one (mat_opacity pAiMaterial) in
  let pMaterial :=
    ifGet (mat_opacity pAiMaterial)
      (λ opacity m, setBaseColor (withAlpha opacity (sm_baseColor m)) m) pMaterial in
  let pMaterial :=
    ifGet (mat_shininess pAiMaterial)
      (λ shininess m,
         let shininess :=
           if ImportMode_eqb importMode OBJ
           then fsub one (convertSpecPowerToRoughness shininess)
           else shininess in
         setSpecularParams (withAlpha shininess (sm_specularParams m)) m) pMaterial in
  let pMaterial := ifGet (mat_refracti pAiMaterial) setIndexOfRefraction pMaterial in
  let pMaterial :=
    ifGet (mat_colorDiffuse pAiMaterial)
      (λ color m, setBaseColor (withColor color (sm_baseColor m)) m) pMaterial in
  let pMaterial :=
    ifGet (mat_colorSpecular pAiMaterial)
      (λ color m, setSpecularParams (withColor color (sm_specularParams m)) m) pMaterial in
  let pMaterial :=
    ifGet (mat_colorEmissive pAiMaterial) (λ color m, setEmissiveColor color m) pMaterial in
  let pMaterial :=
    ifGet (mat_twoSided pAiMaterial)
      (λ isDoubleSided m, setDoubleSided (negb (Z.eqb isDoubleSided 0)) m) pMaterial in
  let pMaterial :=
    if ImportMode_eqb importMode GLTF2 then
      let pMaterial :=
        ifGet (mat_baseColorFactor pAiMaterial)
          (λ color m, setBaseColor (withColor color (sm_baseColor m)) m) pMaterial in
      let specularParams := sm_specularParams pMaterial in
      let specularParams :=
        ifGet (mat_metallicFactor pAiMaterial)
          (λ metallic (v : float4), let '(x, y, _, w) := v in (x, y, metallic, w))
          specularParams in
      let specularParams :=
        ifGet (mat_roughnessFactor pAiMaterial)
          (λ roughness (v : float4), let '(x, _, z, w) := v in (x, roughness, z, w))
          specularParams in
      setSpecularParams specularParams pMaterial
    else pMaterial in
  let nameVec := splitString nameStr "." in
  let '(pMaterial, data) := foldl (nameToken nameStr) (pMaterial, data) (drop 1 nameVec) in
  let pMaterial :=
    if fltb opacity one then setSpecularTransmission (fsub one opacity) pMaterial
    else pMaterial in
  Ok (pMaterial, data).
End Materials.

(** A token of the name, other than the first, reads "doublesided" in lower
    case. *)
Definition namedDoubleSided (nameVec : list string) : bool :=
  existsb (λ token, String.eqb (str_tolower token) "doublesided") (drop 1 nameVec).

(** The name as [createMaterial] uses it. *)
Definition materialName (pAiMaterial : aiMaterial) : string :=
  if String.eqb (mat_name pAiMaterial) "" then "unnamed" else mat_name pAiMaterial.

Definition materialShadingModel (useSpecGloss useMetalRough : bool) (importMode : ImportMode)
    : ShadingModel :=
  if useSpecGloss || (ImportMode_eqb importMode OBJ && negb useMetalRough)
  then SpecGloss else MetalRough.

(** A number between zero and one. *)
Definition unitF (x : float) : Prop := ∃ q, x = Fin q ∧ (0 <= q <= 1)%Q.

(** A material as [StandardMaterial::create] might leave it, and a split at
    the dots that knows the name of [bumpyMaterial] only. *)
Definition plainStandardMaterial (name : string) (model : ShadingModel) : StandardMaterial :=
  {| sm_name := name; sm_shadingModel := model;
     sm_baseColor := (one, one, one, one); sm_specularParams := (zero, zero, zero, zero);
     sm_emissiveColor := (zero, zero, zero); sm_indexOfRefraction := Fin (3 # 2);
     sm_doubleSided := false; sm_specularTransmission := zero; sm_textures := [] |}.

(** A join of two paths with a slash between them. *)
Definition slashJoin (a b : string) : string := a +:+ "/" +:+ b.

Definition splitRock (s delim : string) : list string :=
  if String.eqb s "rock.DoubleSided.matte" then ["rock"; "DoubleSided"; "matte"] else [s].

(** The opacity and the glossiness of a material. *)
Definition baseAlpha (m : StandardMaterial) : float := alpha (sm_baseColor m).
Definition glossiness (m : StandardMaterial) : float := alpha (sm_specularParams m).

(** The warnings [createMaterial] logs, oldest first: the one for a missing
    name, those of the textures, and one for every token of the name after
    the first that is not "doublesided". *)
Definition materialWarnings (mr : aiTextureType * nat)
    (pathAppend : string → string → string)
    (splitString : string → string → list string) (pAiMaterial : aiMaterial)
    (searchPath : string) (importMode : ImportMode) : list string :=
  (if String.eqb (mat_name pAiMaterial) "" then [unnamedMaterial] else [])
  ++ (loadTextures mr pathAppend pAiMaterial searchPath importMode).2
  ++ (unknownProperty (materialName pAiMaterial)
      <$> filter (λ token, String.eqb (str_tolower token) "doublesided" = false)
            (drop 1 (splitString (materialName pAiMaterial) "."))).

(** ** Cameras

    The cameras registered with the builder are kept as a list beside the
    importer's state, oldest first, and so are the nodes whose interpolation
    mode [createCameras] sets. *)

(** A camera as the importer leaves it: what the importer sets on it and
    what it reads back from it. *)
Record Camera : Type := mk_Camera {
  c_name : string;
  c_position : float3;
  c_upVector : float3;
  c_target : float3;
  c_focalLength : float;
  c_aspectRatio : float;
  c_frameHeight : float;
  c_depthRange : float * float;
  c_nodeID : option NodeID;
  c_hasAnimation : bool
}.

Definition Camera_setName (v : string) (c : Camera) : Camera :=
  {| c_name := v; c_position := c_position c; c_upVector := c_upVector c;
     c_target := c_target c; c_focalLength := c_focalLength c;
     c_aspectRatio := c_aspectRatio c; c_frameHeight := c_frameHeight c;
     c_depthRange := c_depthRange c; c_nodeID := c_nodeID c;
     c_hasAnimation := c_hasAnimation c |}.

Definition Camera_setPosition (v : float3) (c : Camera) : Camera :=
  {| c_name := c_name c; c_position := v; c_upVector := c_upVector c;
     c_target := c_target c; c_focalLength := c_focalLength c;
     c_aspectRatio := c_aspectRatio c; c_frameHeight := c_frameHeight c;
     c_depthRange := c_depthRange c; c_nodeID := c_nodeID c;
     c_hasAnimation := c_hasAnimation c |}.

Definition Camera_setUpVector (v : float3) (c : Camera) : Camera :=
  {| c_name := c_name c; c_position := c_position c; c_upVector := v;
     c_target := c_target c; c_focalLength := c_focalLength c;
     c_aspectRatio := c_aspectRatio c; c_frameHeight := c_frameHeight c;
     c_depthRange := c_depthRange c; c_nodeID := c_nodeID c;
     c_hasAnimation := c_hasAnimation c |}.

Definition Camera_setTarget (v : float3) (c : Camera) : Camera :=
  {| c_name := c_name c; c_position := c_position c; c_upVector := c_upVector c;
     c_target := v; c_focalLength := c_focalLength c;
     c_aspectRatio := c_aspectRatio c; c_frameHeight := c_frameHeight c;
     c_depthRange := c_depthRange c; c_nodeID := c_nodeID c;
     c_hasAnimation := c_hasAnimation c |}.

Definition Camera_setFocalLength (v : float) (c : Camera) : Camera :=
  {| c_name := c_name c; c_position := c_position c; c_upVector := c_upVector c;
     c_target := c_target c; c_focalLength := v;
     c_aspectRatio := c_aspectRatio c; c_frameHeight := c_frameHeight c;
     c_depthRange := c_depthRange c; c_nodeID := c_nodeID c;
     c_hasAnimation := c_hasAnimation c |}.

Definition Camera_setAspectRatio (v : float) (c : Camera) : Camera :=
  {| c_name := c_name c; c_position := c_position c; c_upVector := c_upVector c;
     c_target := c_target c; c_focalLength := c_focalLength c;
     c_aspectRatio := v; c_frameHeight := c_frameHeight c;
     c_depthRange := c_depthRange c; c_nodeID := c_nodeID c;
     c_hasAnimation := c_hasAnimation c |}.

Definition Camera_setDepthRange (nearZ farZ : float) (c : Camera) : Camera :=
  {| c_name := c_name c; c_position := c_position c; c_upVector := c_upVector c;
     c_target := c_target c; c_focalLength := c_focalLength c;
     c_aspectRatio := c_aspectRatio c; c_frameHeight := c_frameHeight c;
     c_depthRange := (nearZ, farZ); c_nodeID := c_nodeID c;
     c_hasAnimation := c_hasAnimation c |}.

Definition Camera_setNodeID (id : NodeID) (c : Camera) : Camera :=
  {| c_name := c_name c; c_position := c_position c; c_upVector := c_upVector c;
     c_target := c_target c; c_focalLength := c_focalLength c;
     c_aspectRatio := c_aspectRatio c; c_frameHeight := c_frameHeight c;
     c_depthRange := c_depthRange c; c_nodeID := Some id;
     c_hasAnimation := c_hasAnimation c |}.

Definition Camera_setHasAnimation (v : bool) (c : Camera) : Camera :=
  {| c_name := c_name c; c_position := c_position c; c_upVector := c_upVector c;
     c_target := c_target c; c_focalLength := c_focalLength c;
     c_aspectRatio := c_aspectRatio c; c_frameHeight := c_frameHeight c;
     c_depthRange := c_depthRange c; c_nodeID := c_nodeID c;
     c_hasAnimation := v |}.

(** The sum of two vectors, in [float]. *)
Definition vadd32 (a b : float3) : float3 :=
  let '(ax, ay, az) := a in
  let '(bx, by_, bz) := b in
  (fadd32 ax bx, fadd32 ay by_, fadd32 az bz).

Definition vneg4 (v : float * float * float * float) : float * float * float * float :=
  let '(x, y, z, w) := v in (fneg x, fneg y, fneg z, fneg w).

Section Cameras.
(** Taken as they are: the camera [Camera::create] returns, the view matrix
    of a camera, [fovYToFocalLength], the column read and write of
    [rmcv::mat4], and the builder's answer to [isNodeAnimated]. *)
Variable Camera_create : Camera.
Variable getViewMatrix : Camera → mat4.
Variable fovYToFocalLength : float → float → float.
Variable getCol : nat → mat4 → float * float * float * float.
Variable setCol : nat → float * float * float * float → mat4 → mat4.
Variable isNodeAnimated : SceneBuilder → NodeID → bool.

(** The body of the loop of [createCameras]. *)
Definition createCamera (importMode : ImportMode) (pAiCamera : aiCamera)
    (st : ImporterData * list Camera * list NodeID)
    : ImporterData * list Camera * list NodeID :=
  let '(data, cameras, interpolated) := st in
  let pCamera := Camera_create in
  let pCamera := Camera_setName (cam_mName pAiCamera) pCamera in
  let pCamera := Camera_setPosition (aiCast_vec (cam_mPosition pAiCamera)) pCamera in
  let pCamera := Camera_setUpVector (aiCast_vec (cam_mUp pAiCamera)) pCamera in
  let pCamera :=
    Camera_setTarget
      (vadd32 (aiCast_vec (cam_mLookAt pAiCamera)) (aiCast_vec (cam_mPosition pAiCamera)))
      pCamera in
  let aspectRatio :=
    if negb (feqb (cam_mAspect pAiCamera) zero) then cam_mAspect pAiCamera
    else c_aspectRatio pCamera in
  let focalLength :=
    if ImportMode_eqb importMode GLTF2
    then fovYToFocalLength (fdiv32 (cam_mHorizontalFOV pAiCamera) aspectRatio)
           (c_frameHeight pCamera)
    else Fin 35 in
  let pCamera := Camera_setFocalLength focalLength pCamera in
  let pCamera := Camera_setAspectRatio aspectRatio pCamera in
  let pCamera :=
    Camera_setDepthRange (cam_mClipPlaneNear pAiCamera) (cam_mClipPlaneFar pAiCamera)
      pCamera in
  let nodeID := getFalcorNodeID data (cam_mName pAiCamera) 0 in
  let '(data, pCamera, interpolated) :=
    if negb (N.eqb nodeID kInvalidID) then
      let transform := getViewMatrix pCamera in
      let transform :=
        if negb (ImportMode_eqb importMode GLTF2)
        then setCol 2 (vneg4 (getCol 2 transform)) transform
        else transform in
      let n := {| n_name := "Camera.BaseMatrix"; n_parent := nodeID;
                  n_transform := transform; n_localToBindPose := mat4_identity |} in
      let '(nodeID, b) := builder_addNode n (builder data) in
      let data := set_builder b data in
      let pCamera := Camera_setNodeID nodeID pCamera in
      if isNodeAnimated (builder data) nodeID
      then (data, Camera_setHasAnimation true pCamera, interpolated ++ [nodeID])
      else (data, pCamera, interpolated)
    else (data, pCamera, interpolated) in
  (data, cameras ++ [pCamera], interpolated).

Definition createCameras (data : ImporterData) (importMode : ImportMode)
    : ImporterData * list Camera * list NodeID :=
  foldl (λ st pAiCamera, createCamera importMode pAiCamera st) (data, [], [])
    (scene_mCameras (pScene data)).
End Cameras.

(** ** The scene as a call leaves it

    [createAnimation] writes to the external scene and may be aborted after
    the write.  The functions on the way from [import] to that write follow
    once more, with the object they work on in place as the second part of
    the result: the object as the call leaves it, whether the call returns
    or is aborted.  The first part is the result the functions above
    give. *)

Definition resetTime_traced {K : Type} (mTime : K → float) (setTime : float → K → K)
    (dbg : bool) (keys : list K) : result unit * list K :=
  match (match keys !! 1 with
         | Some k1 => FALCOR_ASSERT dbg (fleb zero (mTime k1))
         | None => Ok tt
         end) with
  | Err e => (Err e, keys)
  | Ok _ =>
      (Ok tt,
       match keys with
       | k0 :: rest => if fltb (mTime k0) zero then setTime zero k0 :: rest else keys
       | [] => keys
       end)
  end.

Definition set_mPositionKeys (keys : list aiVectorKey) (c : aiNodeAnim) : aiNodeAnim :=
  {| mNodeName := mNodeName c; mPositionKeys := keys;
     mRotationKeys := mRotationKeys c; mScalingKeys := mScalingKeys c |}.
Definition set_mRotationKeys (keys : list aiQuatKey) (c : aiNodeAnim) : aiNodeAnim :=
  {| mNodeName := mNodeName c; mPositionKeys := mPositionKeys c;
     mRotationKeys := keys; mScalingKeys := mScalingKeys c |}.
Definition set_mScalingKeys (keys : list aiVectorKey) (c : aiNodeAnim) : aiNodeAnim :=
  {| mNodeName := mNodeName c; mPositionKeys := mPositionKeys c;
     mRotationKeys := mRotationKeys c; mScalingKeys := keys |}.

Definition resetNegativeKeyframeTimes_traced (dbg : bool) (pAiNode : aiNodeAnim)
    : result unit * aiNodeAnim :=
  let '(r, keys) := resetTime_traced vk_mTime vk_setTime dbg (mPositionKeys pAiNode) in
  let pAiNode := set_mPositionKeys keys pAiNode in
  match r with
  | Err e => (Err e, pAiNode)
  | Ok _ =>
      let '(r, keys) := resetTime_traced qk_mTime qk_setTime dbg (mRotationKeys pAiNode) in
      let pAiNode := set_mRotationKeys keys pAiNode in
      match r with
      | Err e => (Err e, pAiNode)
      | Ok _ =>
          let '(r, keys) :=
            resetTime_traced vk_mTime vk_setTime dbg (mScalingKeys pAiNode) in
          (r, set_mScalingKeys keys pAiNode)
      end
  end.

(** The body of the loop over the channels of [createAnimation]. *)
Definition createAnimationChannel_traced (dbg : bool) (pAiAnim : aiAnimation)
    (importMode : ImportMode) (pAiNode : aiNodeAnim) (data : ImporterData)
    : result ImporterData * aiNodeAnim :=
  let '(r, pAiNode) := resetNegativeKeyframeTimes_traced dbg pAiNode in
  (r;;
   count ← getNodeInstanceCount data (mNodeName pAiNode);
   let '(animations, b) :=
     createChannelAnimations data (mNodeName pAiNode)
       (durationInSeconds pAiAnim importMode) 0 count [] (builder data) in
   b ← mergeLoop (addKeyframeToAll animations) dbg (mergeFuel pAiNode) pAiNode
         (ticksPerSecond pAiAnim importMode) 0 0 0 Keyframe_default b;
   Ok (set_builder b data),
   pAiNode).

(** A [for] loop over an array whose body works on the element in place and
    may be aborted: the elements before the one at which the loop is aborted
    are as their iterations left them, the ones after it have not been
    looked at. *)
Fixpoint forEachInPlace {A S : Type} (body : A → S → result S * A) (l : list A) (s : S)
    : result S * list A :=
  match l with
  | [] => (Ok s, [])
  | x :: rest =>
      match body x s with
      | (Ok s, x) => let '(r, rest) := forEachInPlace body rest s in (r, x :: rest)
      | (Err e, x) => (Err e, x :: rest)
      end
  end.

Definition set_mChannels (channels : list aiNodeAnim) (a : aiAnimation) : aiAnimation :=
  {| mDuration := mDuration a; mTicksPerSecond := mTicksPerSecond a;
     mChannels := channels; mNumMeshChannels := mNumMeshChannels a |}.

Definition createAnimation_traced (dbg : bool) (data : ImporterData)
    (pAiAnim : aiAnimation) (importMode : ImportMode) : result ImporterData * aiAnimation :=
  match FALCOR_ASSERT dbg (Nat.eqb (mNumMeshChannels pAiAnim) 0) with
  | Err e => (Err e, pAiAnim)
  | Ok _ =>
      let '(r, channels) :=
        forEachInPlace (createAnimationChannel_traced dbg pAiAnim importMode)
          (mChannels pAiAnim) data in
      (r, set_mChannels channels pAiAnim)
  end.

Definition createAnimations_traced (dbg : bool) (data : ImporterData)
    (importMode : ImportMode) : result ImporterData * aiScene :=
  let '(r, anims) :=
    forEachInPlace (λ pAiAnim data, createAnimation_traced dbg data pAiAnim importMode)
      (mAnimations (pScene data)) data in
  (data ← r; Ok (set_pScene (set_mAnimations anims (pScene data)) data),
   set_mAnimations anims (pScene data)).

(** What an import hands over beside the importer's state: the materials,
    cameras and lights it made, and the nodes whose interpolation mode it
    set. *)
Record Imported : Type := mk_Imported {
  imp_data : ImporterData;
  imp_materials : list StandardMaterial;
  imp_cameras : list Camera;
  imp_interpolated : list NodeID;
  imp_lights : list Light
}.

(** A stage that reads the scene: when it is aborted, the scene is the one
    it was entered with. *)
Definition reading {A B : Type} (data : ImporterData) (stage : result A)
    (rest : A → result B * aiScene) : result B * aiScene :=
  match stage with
  | Ok a => rest a
  | Err e => (Err e, pScene data)
  end.

Section WholeImport.
(** The parts of the libraries the stages call, taken as they are, and the
    two flags of the builder [createMaterial] looks at. *)
Variable metallicRoughnessTexture : aiTextureType * nat.
Variable pathAppend : string → string → string.
Variable fsqrt : float → float.
Variable splitString : string → string → list string.
Variable StandardMaterial_create : string → ShadingModel → StandardMaterial.
Variable useSpecGloss useMetalRough : bool.
Variable normalize : float3 → float3.
Variable vlength : float3 → float.
Variable getCol : nat → mat4 → float * float * float * float.
Variable setCol : nat → float * float * float * float → mat4 → mat4.
Variable Camera_create : Camera.
Variable getViewMatrix : Camera → mat4.
Variable fovYToFocalLength : float → float → float.
Variable isNodeAnimated : SceneBuilder → NodeID → bool.

(** [createAllMaterials] with the materials decoded.  [materialMap] keeps
    standing for a material by its index; the materials are listed beside
    the importer's state.  Reading the array of the materials past its end
    is undefined in C++ and makes no material here. *)
Definition createAllMaterials_decoded (dbg : bool) (searchPath : string)
    (importMode : ImportMode) (data : ImporterData)
    : result (ImporterData * list StandardMaterial) :=
  forEach (λ i st,
             let '(data, materials) := st in
             match scene_mMaterials (pScene data) !! i with
             | Some pAiMaterial =>
                 '(m, data) ← createMaterial metallicRoughnessTexture pathAppend fsqrt
                                splitString StandardMaterial_create dbg useSpecGloss
                                useMetalRough data pAiMaterial searchPath importMode;
                 Ok (set_materialMap (<[i := i]> (materialMap data)) data, materials ++ [m])
             | None => Ok (data, materials)
             end)
    (seq 0 (mNumMaterials (pScene data))) (data, []).

(** [AssimpImporter::import] from the point where the external scene has
    been read, every stage included, with the scene as the call leaves
    it. *)
Definition import_traced (dbg : bool) (schedule : list nat) (pAiScene : aiScene)
    (sceneBuilder : SceneBuilder) (instances : list mat4) (searchPath : string)
    (importMode : ImportMode) : result Imported * aiScene :=
  let data := ImporterData_new pAiScene sceneBuilder instances in
  reading data (validateScene data) (λ data,
  reading data (createAllMaterials_decoded dbg searchPath importMode data) (λ st,
  let '(data, materials) := st in
  reading data (createSceneGraph dbg data) (λ data,
  reading data (createMeshes dbg schedule data) (λ data,
  reading data (addMeshInstances (mRootNode (pScene data)) data) (λ data,
  match createAnimations_traced dbg data importMode with
  | (Err e, scene) => (Err e, scene)
  | (Ok data, _) =>
      let '(data, cameras, interpolated) :=
        createCameras Camera_create getViewMatrix fovYToFocalLength getCol setCol
          isNodeAnimated data importMode in
      reading data
        (createLights normalize vlength setCol dbg (scene_mLights (pScene data)) (data, []))
        (λ st,
           let '(data, lights) := st in
           (Ok {| imp_data := data; imp_materials := materials; imp_cameras := cameras;
                  imp_interpolated := interpolated; imp_lights := lights |},
            pScene data))
  end))))).
End WholeImport.

(** *** What the importer may do to the scene *)

(** A key array as an import may leave it: as it was, or with the time of
    its first key at zero where it was negative. *)
Definition trackLeft {K : Type} (mTime : K → float) (setTime : float → K → K)
    (keys keys' : list K) : Prop :=
  keys' = keys ∨ keys' = clampFirst mTime setTime keys.

Definition channelLeft (c c' : aiNodeAnim) : Prop :=
  mNodeName c' = mNodeName c
  ∧ trackLeft vk_mTime vk_setTime (mPositionKeys c) (mPositionKeys c')
  ∧ trackLeft qk_mTime qk_setTime (mRotationKeys c) (mRotationKeys c')
  ∧ trackLeft vk_mTime vk_setTime (mScalingKeys c) (mScalingKeys c').

Definition animationLeft (a a' : aiAnimation) : Prop :=
  mDuration a' = mDuration a
  ∧ mTicksPerSecond a' = mTicksPerSecond a
  ∧ mNumMeshChannels a' = mNumMeshChannels a
  ∧ Forall2 channelLeft (mChannels a) (mChannels a').

(** The scene as an import may leave it: every field as it was but for the
    first keys of the key arrays. *)
Definition sceneLeft (s s' : aiScene) : Prop :=
  mRootNode s' = mRootNode s
  ∧ scene_mMeshes s' = scene_mMeshes s
  ∧ mNumMaterials s' = mNumMaterials s
  ∧ scene_mMaterials s' = scene_mMaterials s
  ∧ mNumTextures s' = mNumTextures s
  ∧ scene_mCameras s' = scene_mCameras s
  ∧ scene_mLights s' = scene_mLights s
  ∧ Forall2 animationLeft (mAnimations s) (mAnimations s').




(** * Properties *)

(** ** Floating-point helpers *)

Lemma feqb_Fin_refl (q : Q) : feqb (Fin q) (Fin q) = true.
Proof. simpl. apply Qeq_bool_iff. reflexivity. Qed.

Lemma fmax_cases (a b : float) : fmax a b = a ∨ fmax a b = b.
Proof. unfold fmax. destruct (fltb a b); auto. Qed.

Lemma sentinel_lt_zero : (- DBL_MAX < 0)%Q.
Proof. vm_compute. reflexivity. Qed.

Lemma wf_time_zero : wf_time zero.
Proof. exists 0%Q. split; [reflexivity | apply sentinel_lt_zero]. Qed.

Lemma wf_time_feqb_refl (t : float) : wf_time t → feqb t t = true.
Proof. intros (q & -> & _). apply feqb_Fin_refl. Qed.

Lemma fmax_sentinel (t : float) : wf_time t → fmax (Fin (- DBL_MAX)) t = t.
Proof.
  intros (q & -> & Hq). unfold fmax. simpl.
  destruct (Qle_bool q (- DBL_MAX)) eqn:E; [|reflexivity].
  apply Qle_bool_iff in E. exfalso. apply (Qlt_not_le _ _ Hq E).
Qed.

(** ** The result monad *)

Lemma FALCOR_ASSERT_release (c : bool) : FALCOR_ASSERT false c = Ok tt.
Proof. reflexivity. Qed.

Lemma FALCOR_ASSERT_cases (dbg c : bool) :
  FALCOR_ASSERT dbg c = Ok tt ∨ FALCOR_ASSERT dbg c = Err AssertFailure.
Proof. unfold FALCOR_ASSERT. destruct (dbg && negb c); auto. Qed.

(** ** Animation merger *)

Section Merge.
Context {K V : Type} (mTime : K → float) (mValue : K → V).

(** One call of [parseAnimationChannel]: the flag says whether the cursor
    is exhausted afterwards; the cursor advances exactly when its key has
    the requested time, and then the key's value is taken. *)
Lemma parseAnimationChannel_spec (pKeys : list K) (time : float) (i : nat) (v : V) :
  ∀ done i' v', parseAnimationChannel mTime mValue pKeys time i v = (done, i', v') →
    done = (length pKeys <=? i')
    ∧ ((i' = i ∧ v' = v ∧ ∀ k, pKeys !! i = Some k → feqb (mTime k) time = false)
       ∨ (i' = S i ∧ ∃ k, pKeys !! i = Some k ∧ feqb (mTime k) time = true ∧ v' = mValue k)).
Proof.
  intros done i' v'. unfold parseAnimationChannel.
  destruct (pKeys !! i) as [k|] eqn:Hk.
  - destruct (feqb (mTime k) time) eqn:Ht; intros [= <- <- <-].
    + split; [reflexivity|]. right. split; [reflexivity|]. by exists k.
    + split; [reflexivity|]. left. repeat split. by intros k' [= <-].
  - intros [= <- <- <-]. split.
    + symmetry. apply Nat.leb_le. by apply lookup_ge_None.
    + left. repeat split. intros k' [=].
Qed.
End Merge.

Lemma pendingTimes_channelTimes (ch : aiNodeAnim) (pos rot scale : nat) (t : float) :
  t ∈ pendingTimes ch pos rot scale → t ∈ channelTimes ch.
Proof.
  unfold pendingTimes, channelTimes. rewrite !elem_of_app.
  assert (Hopt : ∀ {A} (f : A → float) (l : list A) (i : nat),
             t ∈ option_list (f <$> l !! i) → t ∈ f <$> l).
  { intros A f l i H. destruct (l !! i) as [k|] eqn:E; simpl in H.
    - apply list_elem_of_singleton in H as ->.
      apply list_elem_of_fmap. exists k. split; [done|]. by eapply list_elem_of_lookup_2.
    - by apply elem_of_nil in H. }
  intros [H|[H|H]]; eauto.
Qed.

(** With at least one cursor pending, [nextKeyTime] answers with the time at
    one of the pending cursors. *)
Lemma nextKeyTime_pending (ch : aiNodeAnim) (pos rot scale : nat) :
  Forall wf_time (pendingTimes ch pos rot scale) →
  pendingTimes ch pos rot scale ≠ [] →
  ∃ t, nextKeyTime false ch pos rot scale = Ok t ∧ t ∈ pendingTimes ch pos rot scale.
Proof.
  unfold nextKeyTime, pendingTimes. intros Hwf Hne.
  destruct (mPositionKeys ch !! pos) as [p|];
    destruct (mRotationKeys ch !! rot) as [r|];
    destruct (mScalingKeys ch !! scale) as [s|]; simpl in *;
    try done; eexists; (split; [reflexivity|]);
    repeat match goal with
           | H : Forall _ (_ :: _) |- _ => apply Forall_cons in H as [? H]
           end;
    rewrite ?fmax_sentinel by done;
    repeat match goal with
           | |- context [fmax ?a ?b] => destruct (fmax_cases a b) as [-> | ->]
           end; set_solver.
Qed.

Lemma pendingTimes_elem (ch : aiNodeAnim) (pos rot scale : nat) (t : float) :
  t ∈ pendingTimes ch pos rot scale →
  (∃ k, mPositionKeys ch !! pos = Some k ∧ vk_mTime k = t)
  ∨ (∃ k, mRotationKeys ch !! rot = Some k ∧ qk_mTime k = t)
  ∨ (∃ k, mScalingKeys ch !! scale = Some k ∧ vk_mTime k = t).
Proof.
  assert (Hopt : ∀ {A} (f : A → float) (o : option A),
             t ∈ option_list (f <$> o) → ∃ k, o = Some k ∧ f k = t).
  { intros A f [k|]; simpl; [|by intros ?%elem_of_nil].
    intros ->%list_elem_of_singleton. by exists k. }
  unfold pendingTimes. rewrite !elem_of_app.
  intros [H|[H|H]]; apply Hopt in H; auto.
Qed.

Lemma pendingTimes_nonempty (ch : aiNodeAnim) (pos rot scale : nat) :
  pos < length (mPositionKeys ch) ∨ rot < length (mRotationKeys ch)
    ∨ scale < length (mScalingKeys ch) →
  pendingTimes ch pos rot scale ≠ [].
Proof.
  unfold pendingTimes. intros [H|[H|H]]; apply lookup_lt_is_Some in H as [k Hk];
    rewrite Hk; simpl; intros Heq.
  - discriminate.
  - apply app_eq_nil in Heq as [_ Heq]. discriminate.
  - apply app_eq_nil in Heq as [_ Heq]. apply app_eq_nil in Heq as [_ Heq]. discriminate.
Qed.

Section MergeLoop.
Context {S : Type} (emit : Keyframe → S → S) (ch : aiNodeAnim) (tps : float).
Context (I J : S → Prop).
Hypothesis Hwf : Forall wf_time (channelTimes ch).
Hypothesis Hemit : ∀ k s, I s →
  (∃ t, t ∈ channelTimes ch ∧ kf_time k = fdiv t tps) → J (emit k s).
Hypothesis HJI : ∀ s, J s → I s.

(** The loop ends within as many iterations as there are unconsumed keys:
    every iteration consumes the key whose time [nextKeyTime] returned.
    Every keyframe it emits carries a key time of the channel divided by the
    rate. *)
Lemma mergeLoop_total (fuel : nat) : ∀ pos rot scale keyframe s,
  I s →
  pos < length (mPositionKeys ch) ∨ rot < length (mRotationKeys ch)
    ∨ scale < length (mScalingKeys ch) →
  (length (mPositionKeys ch) - pos) + (length (mRotationKeys ch) - rot)
    + (length (mScalingKeys ch) - scale) < fuel →
  ∃ s', mergeLoop emit false fuel ch tps pos rot scale keyframe s = Ok s' ∧ J s'.
Proof.
  induction fuel as [|fuel IH]; intros pos rot scale keyframe s HI Hpend Hfuel; [lia|].
  assert (Hwfp : Forall wf_time (pendingTimes ch pos rot scale)).
  { apply Forall_forall. intros t Ht.
    eapply (proj1 (Forall_forall _ _) Hwf), pendingTimes_channelTimes, Ht. }
  destruct (nextKeyTime_pending ch pos rot scale Hwfp (pendingTimes_nonempty _ _ _ _ Hpend))
    as (t & Hnext & Ht).
  assert (Htt : feqb t t = true).
  { apply wf_time_feqb_refl. by eapply (proj1 (Forall_forall _ _) Hwfp). }
  cbn [mergeLoop]. rewrite Hnext. cbn [mbind result_bind FALCOR_ASSERT andb].
  destruct (parseAnimationChannel vk_mTime _ (mPositionKeys ch) t pos _)
    as [[d1 pos'] tr] eqn:E1.
  destruct (parseAnimationChannel qk_mTime _ (mRotationKeys ch) t rot _)
    as [[d2 rot'] ro] eqn:E2.
  destruct (parseAnimationChannel vk_mTime _ (mScalingKeys ch) t scale _)
    as [[d3 scale'] sc] eqn:E3.
  apply parseAnimationChannel_spec in E1 as [-> E1].
  apply parseAnimationChannel_spec in E2 as [-> E2].
  apply parseAnimationChannel_spec in E3 as [-> E3].
  set (k := {| kf_time := fdiv t tps; kf_translation := tr;
               kf_scaling := sc; kf_rotation := ro |}).
  assert (HJ : J (emit k s)).
  { apply Hemit; [done|]. exists t. split; [|done].
    by eapply pendingTimes_channelTimes. }
  destruct ((length (mScalingKeys ch) <=? scale')
            && ((length (mRotationKeys ch) <=? rot')
                && (length (mPositionKeys ch) <=? pos'))) eqn:Hdone.
  { eexists. split; [reflexivity|done]. }
  apply IH; [by apply HJI| |].
  - apply andb_false_iff in Hdone as [H|H];
      [|apply andb_false_iff in H as [H|H]]; apply Nat.leb_gt in H; auto.
  - apply pendingTimes_elem in Ht.
    assert (Hp : pos' = pos ∨ pos' = Datatypes.S pos ∧ pos < length (mPositionKeys ch)).
    { destruct E1 as [(-> & _)|(-> & k' & Hk' & _)]; [auto|].
      right. split; [done|]. by eapply lookup_lt_Some. }
    assert (Hr : rot' = rot ∨ rot' = Datatypes.S rot ∧ rot < length (mRotationKeys ch)).
    { destruct E2 as [(-> & _)|(-> & k' & Hk' & _)]; [auto|].
      right. split; [done|]. by eapply lookup_lt_Some. }
    assert (Hs : scale' = scale ∨ scale' = Datatypes.S scale ∧ scale < length (mScalingKeys ch)).
    { destruct E3 as [(-> & _)|(-> & k' & Hk' & _)]; [auto|].
      right. split; [done|]. by eapply lookup_lt_Some. }
    assert (Hadv : pos' ≠ pos ∨ rot' ≠ rot ∨ scale' ≠ scale).
    { destruct Ht as [(k' & Hk' & <-)|[(k' & Hk' & <-)|(k' & Hk' & <-)]].
      - left. destruct E1 as [(_ & _ & Hno)|(-> & _)]; [|lia].
        rewrite (Hno _ Hk') in Htt. discriminate.
      - right. left. destruct E2 as [(_ & _ & Hno)|(-> & _)]; [|lia].
        rewrite (Hno _ Hk') in Htt. discriminate.
      - right. right. destruct E3 as [(_ & _ & Hno)|(-> & _)]; [|lia].
        rewrite (Hno _ Hk') in Htt. discriminate. }
    lia.
Qed.
End MergeLoop.

(** *** Clamping of the first key *)

Lemma resetTime_cases {K : Type} (mTime : K → float) (setTime : float → K → K)
    (dbg : bool) (keys : list K) :
  resetTime mTime setTime dbg keys = Ok (clampFirst mTime setTime keys)
  ∨ (dbg = true ∧ resetTime mTime setTime dbg keys = Err AssertFailure).
Proof.
  unfold resetTime.
  assert (Hclamp : match keys with
                   | k0 :: rest =>
                       Ok (if fltb (mTime k0) zero then setTime zero k0 :: rest else keys)
                   | [] => Ok keys
                   end = Ok (clampFirst mTime setTime keys)).
  { destruct keys as [|k0 rest]; [done|]. simpl. by destruct (fltb (mTime k0) zero). }
  destruct (keys !! 1) as [k1|]; [|left; exact Hclamp].
  unfold FALCOR_ASSERT. destruct dbg; [|left; exact Hclamp].
  destruct (fleb zero (mTime k1)); [left; exact Hclamp|right; done].
Qed.

Lemma resetTime_release {K : Type} (mTime : K → float) (setTime : float → K → K)
    (keys : list K) :
  resetTime mTime setTime false keys = Ok (clampFirst mTime setTime keys).
Proof. destruct (resetTime_cases mTime setTime false keys) as [H|[[=] _]]. exact H. Qed.

Lemma resetNegativeKeyframeTimes_release (ch : aiNodeAnim) :
  resetNegativeKeyframeTimes false ch = Ok (clampChannel ch).
Proof. unfold resetNegativeKeyframeTimes. by rewrite !resetTime_release. Qed.

Lemma resetNegativeKeyframeTimes_Ok (dbg : bool) (ch ch' : aiNodeAnim) :
  resetNegativeKeyframeTimes dbg ch = Ok ch' → ch' = clampChannel ch.
Proof.
  unfold resetNegativeKeyframeTimes.
  destruct (resetTime_cases vk_mTime vk_setTime dbg (mPositionKeys ch)) as [->|[_ ->]]; [|done].
  destruct (resetTime_cases qk_mTime qk_setTime dbg (mRotationKeys ch)) as [->|[_ ->]]; [|done].
  destruct (resetTime_cases vk_mTime vk_setTime dbg (mScalingKeys ch)) as [->|[_ ->]]; [|done].
  by intros [= <-].
Qed.

Lemma clampFirst_length {K : Type} (mTime : K → float) (setTime : float → K → K)
    (keys : list K) :
  length (clampFirst mTime setTime keys) = length keys.
Proof. by destruct keys. Qed.

Lemma clampFirst_wf {K : Type} (mTime : K → float) (setTime : float → K → K)
    (keys : list K) :
  (∀ t k, mTime (setTime t k) = t) →
  Forall wf_time (mTime <$> keys) →
  Forall wf_time (mTime <$> clampFirst mTime setTime keys).
Proof.
  intros Hset. destruct keys as [|k0 rest]; [done|]. simpl.
  intros [H0 Hrest]%Forall_cons. apply Forall_cons. split; [|done].
  destruct (fltb (mTime k0) zero); [|done]. rewrite Hset. apply wf_time_zero.
Qed.

Lemma clampChannel_wf (ch : aiNodeAnim) :
  Forall wf_time (channelTimes ch) → Forall wf_time (channelTimes (clampChannel ch)).
Proof.
  unfold channelTimes. rewrite !Forall_app. intros (Hp & Hr & Hs). simpl.
  repeat split; by apply clampFirst_wf.
Qed.

Lemma clampChannel_nonempty (ch : aiNodeAnim) :
  channelTimes ch ≠ [] → channelTimes (clampChannel ch) ≠ [].
Proof.
  intros Hne Heq. apply Hne. apply (f_equal length) in Heq.
  apply length_zero_iff_nil. revert Heq. unfold channelTimes. simpl.
  rewrite !length_app, !length_fmap, !clampFirst_length. done.
Qed.

(** *** The rate *)

Lemma ticksPerSecond_GLTF2 (a : aiAnimation) : ticksPerSecond a GLTF2 = Fin 1000.
Proof. reflexivity. Qed.

Lemma ticksPerSecond_other (a : aiAnimation) (mode : ImportMode) :
  mode ≠ GLTF2 →
  ticksPerSecond a mode
  = if feqb (mTicksPerSecond a) zero then Fin 25 else mTicksPerSecond a.
Proof.
  intros Hmode. unfold ticksPerSecond.
  destruct mode; [| |done]; simpl; by destruct (feqb (mTicksPerSecond a) zero).
Qed.

(** *** The merged sequence *)

(** With assertions compiled out, the merge of a channel with at least one
    key ends, and each keyframe it produces, the last one included, carries
    the time of some key of the channel divided by the rate. *)
Lemma mergedKeyframes_times (ch : aiNodeAnim) (tps : float) :
  Forall wf_time (channelTimes ch) →
  channelTimes ch ≠ [] →
  ∃ kfs k, mergedKeyframes false ch tps = Ok kfs
    ∧ last kfs = Some k
    ∧ Forall (λ k, ∃ t, t ∈ channelTimes ch ∧ kf_time k = fdiv t tps) kfs.
Proof.
  intros Hwf Hne.
  pose (P := λ k : Keyframe, ∃ t, t ∈ channelTimes ch ∧ kf_time k = fdiv t tps).
  destruct (mergeLoop_total emitKeyframe ch tps (Forall P) (λ l, Forall P l ∧ l ≠ []))
    with (fuel := mergeFuel ch) (pos := 0) (rot := 0) (scale := 0)
         (keyframe := Keyframe_default) (s := @nil Keyframe)
    as (kfs & Hrun & HP & Hnil).
  - done.
  - intros k l Hl Hk. unfold emitKeyframe. split.
    + apply Forall_app. split; [done|]. by apply Forall_singleton.
    + by destruct l.
  - by intros l [? _].
  - constructor.
  - unfold channelTimes in Hne.
    destruct (mPositionKeys ch); [|left; simpl; lia].
    destruct (mRotationKeys ch); [|right; left; simpl; lia].
    destruct (mScalingKeys ch); [done|right; right; simpl; lia].
  - unfold mergeFuel. lia.
  - destruct (last kfs) as [k|] eqn:Hlast.
    + by exists kfs, k.
    + apply last_None in Hlast. done.
Qed.

(** *** From the merged sequence to the registered animations *)

(** The loop treats [emit] as a black box: what it leaves in the state is
    the fold of [emit] over the keyframes it produces. *)
Lemma mergeLoop_emit {S : Type} (emit : Keyframe → S → S) (dbg : bool)
    (ch : aiNodeAnim) (tps : float) (s0 : S) (fuel : nat) :
  ∀ pos rot scale keyframe l,
    mergeLoop emit dbg fuel ch tps pos rot scale keyframe (foldl (λ s k, emit k s) s0 l)
    = kfs ← mergeLoop emitKeyframe dbg fuel ch tps pos rot scale keyframe l;
      Ok (foldl (λ s k, emit k s) s0 kfs).
Proof.
  induction fuel as [|fuel IH]; intros pos rot scale keyframe l; [done|].
  cbn [mergeLoop].
  destruct (nextKeyTime dbg ch pos rot scale) as [t|e]; [|done].
  cbn [mbind result_bind].
  destruct (FALCOR_ASSERT dbg _) as [[]|e]; [|done].
  cbn [mbind result_bind].
  destruct (parseAnimationChannel vk_mTime _ (mPositionKeys ch) t pos _)
    as [[d1 pos'] tr].
  destruct (parseAnimationChannel qk_mTime _ (mRotationKeys ch) t rot _)
    as [[d2 rot'] ro].
  destruct (parseAnimationChannel vk_mTime _ (mScalingKeys ch) t scale _)
    as [[d3 scale'] sc].
  set (k := {| kf_time := fdiv t tps; kf_translation := tr;
               kf_scaling := sc; kf_rotation := ro |}).
  assert (Hk : emit k (foldl (λ s k, emit k s) s0 l)
               = foldl (λ s k, emit k s) s0 (emitKeyframe k l)).
  { unfold emitKeyframe. by rewrite foldl_app. }
  rewrite Hk. destruct (d3 && (d2 && d1)); [done|]. apply IH.
Qed.

Lemma createChannelAnimations_spec (data : ImporterData) (name : string) (dur : float)
    (count : nat) : ∀ i animations b,
  createChannelAnimations data name dur i count animations b
  = (animations ++ seq (length (sb_animations b)) count,
     set_animations (sb_animations b ++ (channelAnimation data name dur [] <$> seq i count)) b).
Proof.
  induction count as [|count IH]; intros i animations b.
  - simpl. rewrite !app_nil_r. by destruct b.
  - cbn [createChannelAnimations builder_addAnimation]. rewrite IH. simpl.
    rewrite length_app. simpl. rewrite Nat.add_1_r, <- !app_assoc. done.
Qed.

Lemma alter_handles {A : Type} (f : A → A) (new : list A) : ∀ old,
  foldl (λ l h, alter f h l) (old ++ new) (seq (length old) (length new))
  = old ++ (f <$> new).
Proof.
  induction new as [|x new IH]; intros old; [done|].
  simpl.
  replace (alter f (length old) (old ++ x :: new)) with ((old ++ [f x]) ++ new).
  - specialize (IH (old ++ [f x])). rewrite length_app in IH. simpl in IH.
    rewrite Nat.add_1_r in IH. rewrite IH, <- app_assoc. done.
  - rewrite <- app_assoc. simpl. symmetry.
    replace (length old) with (length old + 0) at 1 by lia.
    by rewrite alter_app_r.
Qed.

Lemma addKeyframeToAll_spec (k : Keyframe) (b : SceneBuilder) (old new : list Animation) :
  sb_animations b = old ++ new →
  addKeyframeToAll (seq (length old) (length new)) k b
  = set_animations (old ++ (Animation_addKeyframe k <$> new)) b.
Proof.
  intros Hb. unfold addKeyframeToAll.
  assert (Hgen : ∀ hs b,
    foldl (λ b h, builder_addKeyframe h k b) b hs
    = set_animations (foldl (λ l h, alter (Animation_addKeyframe k) h l) (sb_animations b) hs) b).
  { induction hs as [|h hs IH]; intros b0; [by destruct b0|]. simpl. by rewrite IH. }
  rewrite Hgen, Hb, alter_handles. done.
Qed.

Lemma withKeyframes_nil (a : Animation) : withKeyframes [] a = a.
Proof. destruct a. unfold withKeyframes. simpl. by rewrite app_nil_r. Qed.

Lemma addKeyframes_spec (kfs : list Keyframe) (old : list Animation) : ∀ new b,
  sb_animations b = old ++ new →
  foldl (λ b k, addKeyframeToAll (seq (length old) (length new)) k b) b kfs
  = set_animations (old ++ (withKeyframes kfs <$> new)) b.
Proof.
  induction kfs as [|k kfs IH]; intros new b Hb.
  - cbn [foldl]. replace (withKeyframes [] <$> new) with new.
    + rewrite <- Hb. by destruct b.
    + clear Hb. induction new as [|a new IHn]; [done|].
      rewrite fmap_cons, <- IHn, withKeyframes_nil. done.
  - cbn [foldl]. rewrite (addKeyframeToAll_spec k b old new Hb).
    specialize (IH (Animation_addKeyframe k <$> new)
                  (set_animations (old ++ (Animation_addKeyframe k <$> new)) b)).
    rewrite length_fmap in IH. rewrite IH by done.
    unfold set_animations. simpl. f_equal. f_equal.
    rewrite <- list_fmap_compose. apply list_fmap_ext. intros i a _.
    unfold withKeyframes, Animation_addKeyframe. simpl. by rewrite <- app_assoc.
Qed.

(** One channel, assertions compiled out: the channel is left clamped, and
    one animation per instance of the target node is registered, each with the
    duration in seconds and the merged keyframes. *)
Lemma createAnimationChannel_release (a : aiAnimation) (mode : ImportMode)
    (ch : aiNodeAnim) (data : ImporterData) (insts : list nat) :
  Forall wf_time (channelTimes ch) →
  channelTimes ch ≠ [] →
  mAiNodes data !! mNodeName ch = Some insts →
  ∃ kfs, mergedKeyframes false (clampChannel ch) (ticksPerSecond a mode) = Ok kfs
    ∧ createAnimationChannel false a mode ch data
      = Ok (clampChannel ch,
            set_builder
              (set_animations
                 (sb_animations (builder data)
                    ++ (channelAnimation data (mNodeName ch) (durationInSeconds a mode) kfs
                          <$> seq 0 (length insts)))
                 (builder data))
              data).
Proof.
  intros Hwf Hne Hnode.
  destruct (mergedKeyframes_times (clampChannel ch) (ticksPerSecond a mode)
              (clampChannel_wf _ Hwf) (clampChannel_nonempty _ Hne))
    as (kfs & _ & Hkfs & _ & _).
  exists kfs. split; [done|].
  unfold createAnimationChannel.
  rewrite resetNegativeKeyframeTimes_release. cbn [mbind result_bind].
  unfold getNodeInstanceCount. cbn [clampChannel mNodeName]. rewrite Hnode.
  cbn [mbind result_bind].
  rewrite createChannelAnimations_spec. cbn [app].
  pose proof (mergeLoop_emit
    (addKeyframeToAll (seq (length (sb_animations (builder data))) (length insts)))
    false (clampChannel ch) (ticksPerSecond a mode)
    (set_animations
       (sb_animations (builder data)
          ++ (channelAnimation data (mNodeName ch) (durationInSeconds a mode) []
                <$> seq 0 (length insts))) (builder data))
    (mergeFuel (clampChannel ch)) 0 0 0 Keyframe_default []) as Hemit.
  cbn [foldl] in Hemit. rewrite Hemit. clear Hemit.
  unfold mergedKeyframes in Hkfs. rewrite Hkfs. cbn [mbind result_bind].
  f_equal. f_equal. f_equal.
  set (new := channelAnimation data (mNodeName ch) (durationInSeconds a mode) []
                <$> seq 0 (length insts)).
  assert (Hlen : length new = length insts).
  { unfold new. by rewrite length_fmap, length_seq. }
  replace (seq (length (sb_animations (builder data))) (length insts))
    with (seq (length (sb_animations (builder data))) (length new))
    by (by rewrite Hlen).
  rewrite (addKeyframes_spec kfs (sb_animations (builder data)) new) by done.
  unfold set_animations. simpl. f_equal. f_equal.
  unfold new. rewrite <- list_fmap_compose. by apply list_fmap_ext.
Qed.

(** *** Assertions only cut runs short *)

Lemma nextKeyTime_debug (ch : aiNodeAnim) (pos rot scale : nat) :
  nextKeyTime true ch pos rot scale = Err AssertFailure
  ∨ nextKeyTime true ch pos rot scale = nextKeyTime false ch pos rot scale.
Proof.
  unfold nextKeyTime. cbv zeta.
  match goal with
  | |- context [FALCOR_ASSERT true ?c] =>
      destruct (FALCOR_ASSERT_cases true c) as [H|H]; rewrite H
  end; [by right|by left].
Qed.

Lemma mergeLoop_debug {S : Type} (emit : Keyframe → S → S) (ch : aiNodeAnim) (tps : float)
    (fuel : nat) : ∀ pos rot scale keyframe s,
  mergeLoop emit true fuel ch tps pos rot scale keyframe s = Err AssertFailure
  ∨ mergeLoop emit true fuel ch tps pos rot scale keyframe s
    = mergeLoop emit false fuel ch tps pos rot scale keyframe s.
Proof.
  induction fuel as [|fuel IH]; intros pos rot scale keyframe s; [by right|].
  cbn [mergeLoop].
  destruct (nextKeyTime_debug ch pos rot scale) as [-> | ->]; [by left|].
  destruct (nextKeyTime false ch pos rot scale) as [t|e]; [|by right].
  cbn [mbind result_bind].
  destruct (FALCOR_ASSERT_cases true
              (feqb t zero || fltb (kf_time keyframe) (fdiv t tps))) as [-> | ->];
    [|by left].
  rewrite FALCOR_ASSERT_release. cbn [mbind result_bind].
  destruct (parseAnimationChannel vk_mTime _ (mPositionKeys ch) t pos _)
    as [[d1 pos'] tr].
  destruct (parseAnimationChannel qk_mTime _ (mRotationKeys ch) t rot _)
    as [[d2 rot'] ro].
  destruct (parseAnimationChannel vk_mTime _ (mScalingKeys ch) t scale _)
    as [[d3 scale'] sc].
  destruct (d3 && (d2 && d1)); [by right|]. apply IH.
Qed.

(** With assertions checked, a channel either fails an assertion or is
    processed exactly as without them. *)
Lemma createAnimationChannel_debug (a : aiAnimation) (mode : ImportMode)
    (ch : aiNodeAnim) (data : ImporterData) :
  createAnimationChannel true a mode ch data = Err AssertFailure
  ∨ createAnimationChannel true a mode ch data
    = createAnimationChannel false a mode ch data.
Proof.
  unfold createAnimationChannel. rewrite resetNegativeKeyframeTimes_release.
  destruct (resetNegativeKeyframeTimes true ch) as [ch'|e] eqn:Hreset.
  2:{ left. revert Hreset. unfold resetNegativeKeyframeTimes.
      destruct (resetTime_cases vk_mTime vk_setTime true (mPositionKeys ch)) as [->|[_ ->]];
        [|by intros [= <-]].
      destruct (resetTime_cases qk_mTime qk_setTime true (mRotationKeys ch)) as [->|[_ ->]];
        [|by intros [= <-]].
      destruct (resetTime_cases vk_mTime vk_setTime true (mScalingKeys ch)) as [->|[_ ->]];
        [done|by intros [= <-]]. }
  apply resetNegativeKeyframeTimes_Ok in Hreset as ->. cbn [mbind result_bind].
  destruct (getNodeInstanceCount data (mNodeName (clampChannel ch))) as [count|e];
    [|by right].
  cbn [mbind result_bind].
  destruct (createChannelAnimations _ _ _ _ _ _ _) as [animations b].
  destruct (mergeLoop_debug (addKeyframeToAll animations) (clampChannel ch)
              (ticksPerSecond a mode) (mergeFuel (clampChannel ch)) 0 0 0
              Keyframe_default b) as [-> | ->]; [by left|by right].
Qed.

(** *** C1 *)

(** C1 (the code departs from the claim).  The claim: the merge visits the
    union of the key times in strictly ascending order, one keyframe per
    distinct time, arrays without a key at the visited time holding their last
    value.  [nextKeyTime] takes the largest of the pending times, not the
    smallest.  On translation keys at ticks 0, 1, 2, rotation keys at 0, 2 and
    a scaling key at 0 (one tick per second), the keyframes are produced at
    0, 2, 1, 2: not ascending, tick 2 twice, and the keyframe of tick 1
    carries the rotation of tick 2.  With assertions checked the same input
    fails the assertion that times increase. *)
Theorem C1_merge_takes_largest_pending_time :
  ticksPerSecond sparseAnimation Default = Fin 1
  ∧ mergedKeyframes false sparseChannel (Fin 1)
    = Ok [kf 0 10 20 30; kf 2 10 22 30; kf 1 11 22 30; kf 2 12 22 30]
  ∧ mergedKeyframes true sparseChannel (Fin 1) = Err AssertFailure
  ∧ nextKeyTime false sparseChannel 1 1 1 = Ok (Fin 2)
  ∧ (∃ data',
       createAnimation false jointData sparseAnimation Default
       = Ok (sparseAnimation, data')
       ∧ anim_keyframes <$> sb_animations (builder data')
         = [[kf 0 10 20 30; kf 2 10 22 30; kf 1 11 22 30; kf 2 12 22 30]])
  ∧ createAnimation true jointData sparseAnimation Default = Err AssertFailure.
Proof.
  split; [reflexivity|]. split; [vm_compute; reflexivity|].
  split; [vm_compute; reflexivity|]. split; [vm_compute; reflexivity|].
  split; [|vm_compute; reflexivity].
  destruct (createAnimation false jointData sparseAnimation Default)
    as [[a d]|e] eqn:E; [|vm_compute in E; discriminate].
  exists d. revert E. vm_compute. intros [= <- <-]. split; reflexivity.
Qed.

(** *** C3 *)

(** C3, as stated, fails: with keys at ticks 0 and 5 in an animation of 10
    ticks (no rate declared, so 25 ticks per second), the last keyframe is at
    5/25 seconds, not at 10/25. *)
Lemma C3_last_keyframe_not_at_duration :
  ¬ lastKeyframeAtDuration steadyAnimation Default steadyChannel.
Proof.
  intros H.
  assert (E : ∃ kfs k,
             mergedKeyframes false (clampChannel steadyChannel)
               (ticksPerSecond steadyAnimation Default) = Ok kfs
             ∧ last kfs = Some k
             ∧ kf_time k = Fin (5 # 25)
             ∧ fdiv (mDuration steadyAnimation) (ticksPerSecond steadyAnimation Default)
               = Fin (10 # 25)).
  { eexists _, _. split; [vm_compute; reflexivity|].
    split; [reflexivity|]. split; vm_compute; reflexivity. }
  destruct E as (kfs & k & Hrun & Hlast & Hk & Hd).
  specialize (H kfs k Hrun Hlast). rewrite Hk, Hd in H. vm_compute in H. discriminate.
Qed.

(** C3 (amended).  The rate is 1000 ticks per second in glTF2 mode whatever
    the animation declares, and otherwise the declared rate, or 25 when none
    is declared.  For a channel with at least one key and valid key times,
    targeting a node of the graph: the first key of each array is clamped to
    zero when its time is negative; every registered animation has the source
    duration divided by the rate as its duration; and every merged keyframe,
    the last one included, has the time of some key of the clamped channel
    divided by the rate.  This is the run with assertions compiled out; with
    assertions checked the run either fails an assertion or is the same. *)
Theorem C3_rate_clamp_and_keyframe_times (a : aiAnimation) (mode : ImportMode)
    (ch : aiNodeAnim) (data : ImporterData) (insts : list nat) :
  Forall wf_time (channelTimes ch) →
  channelTimes ch ≠ [] →
  mAiNodes data !! mNodeName ch = Some insts →
  ticksPerSecond a GLTF2 = Fin 1000
  ∧ (mode ≠ GLTF2 →
     ticksPerSecond a mode
     = if feqb (mTicksPerSecond a) zero then Fin 25 else mTicksPerSecond a)
  ∧ ∃ kfs k,
      createAnimationChannel false a mode ch data
      = Ok (clampChannel ch,
            set_builder
              (set_animations
                 (sb_animations (builder data)
                    ++ (channelAnimation data (mNodeName ch)
                          (fdiv (mDuration a) (ticksPerSecond a mode)) kfs
                          <$> seq 0 (length insts)))
                 (builder data))
              data)
      ∧ last kfs = Some k
      ∧ Forall (λ k, ∃ t, t ∈ channelTimes (clampChannel ch)
                          ∧ kf_time k = fdiv t (ticksPerSecond a mode)) kfs
      ∧ (createAnimationChannel true a mode ch data = Err AssertFailure
         ∨ createAnimationChannel true a mode ch data
           = createAnimationChannel false a mode ch data).
Proof.
  intros Hwf Hne Hnode.
  split; [apply ticksPerSecond_GLTF2|].
  split; [apply ticksPerSecond_other|].
  destruct (createAnimationChannel_release a mode ch data insts Hwf Hne Hnode)
    as (kfs & Hkfs & Hrun).
  destruct (mergedKeyframes_times (clampChannel ch) (ticksPerSecond a mode)
              (clampChannel_wf _ Hwf) (clampChannel_nonempty _ Hne))
    as (kfs' & k & Hkfs' & Hlast & Hall).
  rewrite Hkfs in Hkfs'. injection Hkfs' as <-.
  exists kfs, k. split; [done|]. split; [done|]. split; [done|].
  apply createAnimationChannel_debug.
Qed.

(** The statement of C3 (amended) at the channel whose translation track
    starts at tick -1, in an animation that declares no rate. *)
Lemma C3_rate_clamp_and_keyframe_times_witness :
  Forall wf_time (channelTimes earlyChannel)
  ∧ channelTimes earlyChannel ≠ []
  ∧ mAiNodes jointData !! mNodeName earlyChannel = Some [7]
  ∧ ticksPerSecond steadyAnimation GLTF2 = Fin 1000
  ∧ (Default ≠ GLTF2 →
     ticksPerSecond steadyAnimation Default
     = if feqb (mTicksPerSecond steadyAnimation) zero then Fin 25
       else mTicksPerSecond steadyAnimation)
  ∧ ∃ kfs k,
      createAnimationChannel false steadyAnimation Default earlyChannel jointData
      = Ok (clampChannel earlyChannel,
            set_builder
              (set_animations
                 (sb_animations (builder jointData)
                    ++ (channelAnimation jointData (mNodeName earlyChannel)
                          (fdiv (mDuration steadyAnimation)
                             (ticksPerSecond steadyAnimation Default)) kfs
                          <$> seq 0 (length [7])))
                 (builder jointData))
              jointData)
      ∧ last kfs = Some k
      ∧ Forall (λ k, ∃ t, t ∈ channelTimes (clampChannel earlyChannel)
                          ∧ kf_time k = fdiv t (ticksPerSecond steadyAnimation Default)) kfs
      ∧ (createAnimationChannel true steadyAnimation Default earlyChannel jointData
         = Err AssertFailure
         ∨ createAnimationChannel true steadyAnimation Default earlyChannel jointData
           = createAnimationChannel false steadyAnimation Default earlyChannel jointData).
Proof.
  assert (Hwf : Forall wf_time (channelTimes earlyChannel)).
  { repeat constructor; eexists; (split; [reflexivity|vm_compute; reflexivity]). }
  assert (Hne : channelTimes earlyChannel ≠ []) by discriminate.
  assert (Hnode : mAiNodes jointData !! mNodeName earlyChannel = Some [7])
    by (vm_compute; reflexivity).
  split; [exact Hwf|]. split; [exact Hne|]. split; [exact Hnode|].
  exact (C3_rate_clamp_and_keyframe_times steadyAnimation Default earlyChannel
           jointData [7] Hwf Hne Hnode).
Defined.

(** ** The external scene as a frame *)

Lemma bind_Ok {A B : Type} (m : result A) (k : A → result B) (r : B) :
  m ≫= k = Ok r → ∃ a, m = Ok a ∧ k a = Ok r.
Proof. destruct m as [a|e]; [|done]. intros H. by exists a. Qed.

(** Inverts [x ← m; k = Ok r] in hypothesis [H]. *)
Tactic Notation "bind_inv" hyp(H) "as" ident(x) ident(E) :=
  cbv zeta in H; apply bind_Ok in H as (x & E & H); cbv beta in H.

Lemma forEach_preserves {A S : Type} (body : A → S → result S) (I : S → Prop) (l : list A) :
  Forall (λ x, ∀ s s', body x s = Ok s' → I s → I s') l →
  ∀ s s', forEach body l s = Ok s' → I s → I s'.
Proof.
  induction 1 as [|x l Hx _ IH]; intros s s' Hrun Hs.
  - by injection Hrun as <-.
  - cbn [forEach] in Hrun. bind_inv Hrun as s1 E. eapply IH; [exact Hrun|]. by eapply Hx.
Qed.

(** Induction on a node with the induction hypothesis for every child. *)
Lemma aiNode_ind (P : aiNode → Prop) :
  (∀ addr name tr parent meshes children,
      Forall P children → P (mk_aiNode addr name tr parent meshes children)) →
  ∀ n, P n.
Proof.
  intros H. fix IH 1. intros [addr name tr parent meshes children].
  apply H. induction children as [|c children IHc]; constructor; [apply IH|exact IHc].
Qed.

Lemma logWarnings_pScene (log : list string) : ∀ data,
  pScene (foldl (λ d w, logWarning w d) data log) = pScene data.
Proof. induction log as [|w log IH]; intros data; [done|]. simpl. by rewrite IH. Qed.

Lemma validateScene_pScene (data data' : ImporterData) :
  validateScene data = Ok data' → pScene data' = pScene data.
Proof.
  unfold validateScene. intros H. bind_inv H as u E. injection H as <-.
  by destruct (negb _).
Qed.

Lemma addAiNode_pScene (dbg : bool) (n : aiNode) (id : NodeID) (data data' : ImporterData) :
  addAiNode dbg n id data = Ok data' → pScene data' = pScene data.
Proof. unfold addAiNode. intros H. bind_inv H as u E. by injection H as <-. Qed.

Lemma parseNode_pScene (dbg : bool) (n : aiNode) :
  ∀ hasBoneAncestor data data',
    parseNode dbg n hasBoneAncestor data = Ok data' → pScene data' = pScene data.
Proof.
  induction n as [addr name tr parent meshes children IH] using aiNode_ind.
  intros hb data data' H. cbn [parseNode] in H.
  bind_inv H as u Ea. bind_inv H as parentID Ep.
  destruct (builder_addNode _ _) as [id b] eqn:Eb. bind_inv H as d1 Ed.
  apply addAiNode_pScene in Ed. cbn [mChildren] in H.
  transitivity (pScene d1); [|exact Ed].
  eapply (forEach_preserves _ (λ d, pScene d = pScene d1)); [|exact H|done].
  eapply Forall_impl; [exact IH|]. intros c Hc s s' Hrun Hs.
  rewrite <- Hs. by eapply Hc.
Qed.

Lemma createSceneGraph_pScene (dbg : bool) (data data' : ImporterData) :
  createSceneGraph dbg data = Ok data' → pScene data' = pScene data.
Proof.
  unfold createSceneGraph. intros H. bind_inv H as u E.
  by apply parseNode_pScene in H.
Qed.

Lemma filterMeshes_pScene (l : list aiMesh) : ∀ data,
  pScene (filterMeshes l data).2 = pScene data.
Proof.
  induction l as [|m l IH]; intros data; [done|]. cbn [filterMeshes].
  destruct (negb (HasFaces m)); [by rewrite IH|].
  destruct (negb _); [by rewrite IH|].
  specialize (IH data). by destruct (filterMeshes l data).
Qed.

Lemma commitMeshes_pScene (l : list ProcessedMesh) : ∀ i data,
  pScene (commitMeshes l i data) = pScene data.
Proof.
  induction l as [|m l IH]; intros i data; [done|].
  cbn [commitMeshes builder_addProcessedMesh]. by rewrite IH.
Qed.

Lemma createMeshes_pScene (dbg : bool) (schedule : list nat) (data data' : ImporterData) :
  createMeshes dbg schedule data = Ok data' → pScene data' = pScene data.
Proof.
  unfold createMeshes. intros H.
  pose proof (filterMeshes_pScene (scene_mMeshes (pScene data)) data) as Hf.
  destruct (filterMeshes _ data) as [meshes d1]. simpl in Hf.
  bind_inv H as p E. destruct p as [pms log]. injection H as <-.
  by rewrite commitMeshes_pScene, logWarnings_pScene.
Qed.

Lemma addNodeMeshInstances_pScene (nodeID : NodeID) (l : list nat) : ∀ data data',
  addNodeMeshInstances nodeID l data = Ok data' → pScene data' = pScene data.
Proof.
  induction l as [|m l IH]; intros data data' H.
  - by injection H as <-.
  - cbn [addNodeMeshInstances] in H. bind_inv H as meshID E. by apply IH in H.
Qed.

Lemma addMeshInstances_pScene (n : aiNode) : ∀ data data',
  addMeshInstances n data = Ok data' → pScene data' = pScene data.
Proof.
  induction n as [addr name tr parent meshes children IH] using aiNode_ind.
  intros data data' H. cbn [addMeshInstances] in H.
  bind_inv H as nodeID En. bind_inv H as d1 Ed. apply addNodeMeshInstances_pScene in Ed.
  cbn [mChildren] in H. rewrite <- Ed.
  eapply (forEach_preserves _ (λ d, pScene d = pScene d1)); [|exact H|done].
  eapply Forall_impl; [exact IH|]. intros c Hc s s' Hrun Hs.
  rewrite <- Hs. by eapply Hc.
Qed.

Lemma createAnimationChannel_frame (dbg : bool) (a : aiAnimation) (mode : ImportMode)
    (ch ch' : aiNodeAnim) (data data' : ImporterData) :
  createAnimationChannel dbg a mode ch data = Ok (ch', data') →
  ch' = clampChannel ch ∧ pScene data' = pScene data.
Proof.
  unfold createAnimationChannel. intros H. bind_inv H as ch1 Er. bind_inv H as count Ec.
  destruct (createChannelAnimations _ _ _ _ _ _ _) as [hs b]. bind_inv H as b1 Em.
  injection H as <- <-. split; [|done].
  by eapply resetNegativeKeyframeTimes_Ok.
Qed.

Lemma createAnimationChannels_frame (dbg : bool) (a : aiAnimation) (mode : ImportMode)
    (chs : list aiNodeAnim) : ∀ chs' data data',
  createAnimationChannels dbg a mode chs data = Ok (chs', data') →
  chs' = clampChannel <$> chs ∧ pScene data' = pScene data.
Proof.
  induction chs as [|ch chs IH]; intros chs' data data' H.
  - by injection H as <- <-.
  - cbn [createAnimationChannels] in H. bind_inv H as p E. destruct p as [ch1 d1].
    bind_inv H as p E0. destruct p as [chs1 d2]. injection H as <- <-.
    apply createAnimationChannel_frame in E as [-> E].
    apply IH in E0 as [-> E0]. split; [done|congruence].
Qed.

Lemma createAnimation_frame (dbg : bool) (data data' : ImporterData)
    (a a' : aiAnimation) (mode : ImportMode) :
  createAnimation dbg data a mode = Ok (a', data') →
  a' = clampAnimation a ∧ pScene data' = pScene data.
Proof.
  unfold createAnimation. intros H. bind_inv H as u E. bind_inv H as p E0. destruct p as [chs d1].
  injection H as <- <-. apply createAnimationChannels_frame in E0 as [-> E0]. done.
Qed.

Lemma createAnimationsLoop_frame (dbg : bool) (mode : ImportMode)
    (anims : list aiAnimation) : ∀ anims' data data',
  createAnimationsLoop dbg mode anims data = Ok (anims', data') →
  anims' = clampAnimation <$> anims ∧ pScene data' = pScene data.
Proof.
  induction anims as [|a anims IH]; intros anims' data data' H.
  - by injection H as <- <-.
  - cbn [createAnimationsLoop] in H. bind_inv H as p E. destruct p as [a1 d1].
    bind_inv H as p E0. destruct p as [as1 d2]. injection H as <- <-.
    apply createAnimation_frame in E as [-> E].
    apply IH in E0 as [-> E0]. split; [done|congruence].
Qed.

Lemma createAnimations_frame (dbg : bool) (data data' : ImporterData) (mode : ImportMode) :
  createAnimations dbg data mode = Ok data' → pScene data' = clampScene (pScene data).
Proof.
  unfold createAnimations. intros H. bind_inv H as p E. destruct p as [anims d1].
  injection H as <-. apply createAnimationsLoop_frame in E as [-> E].
  cbn [set_pScene pScene]. by rewrite E.
Qed.

(** *** C8 *)


(** ** Skin weights *)

(** *** Rounding to single precision *)

(** [rne] is within one half of its argument, and exact on integers. *)
Lemma rne_spec (y : Q) :
  (y - (1 # 2) <= inject_Z (rne y) <= y + (1 # 2))%Q.
Proof.
  unfold rne. pose proof (Qfloor_le y) as Hlo. pose proof (Qlt_floor y) as Hhi.
  rewrite inject_Z_plus in Hhi. change (inject_Z 1) with 1%Q in Hhi.
  destruct (Qcompare_spec (y - inject_Z (Qfloor y)) (1 # 2)) as [He|Hl|Hg].
  - destruct (Z.even (Qfloor y)).
    + split; lra.
    + rewrite inject_Z_plus. change (inject_Z 1) with 1%Q. split; lra.
  - split; lra.
  - rewrite inject_Z_plus. change (inject_Z 1) with 1%Q. split; lra.
Qed.

Lemma rne_nonneg (y : Q) : (0 <= y)%Q → (0 <= rne y)%Z.
Proof.
  intros Hy. unfold rne.
  assert (H0 : (0 <= Qfloor y)%Z).
  { change 0%Z with (Qfloor 0). by apply Qfloor_resp_le. }
  destruct (Qcompare _ _); [destruct (Z.even _)| |]; lia.
Qed.

Lemma rne_Z (y : Q) (j : Z) : (y == inject_Z j)%Q → rne y = j.
Proof.
  intros Hy. unfold rne. rewrite (Qfloor_comp _ _ Hy), Qfloor_Z.
  destruct (Qcompare_spec (y - inject_Z j) (1 # 2)) as [He|Hl|Hg]; [lra|done|lra].
Qed.

(** [log2floor] is the binary exponent. *)
Lemma Qpow2_pos (k : Z) : (0 < 2 ^ k)%Q.
Proof. by apply Qpower_0_lt. Qed.

Lemma Qpow2_Z (k : Z) : (0 <= k)%Z → (inject_Z (2 ^ k) == 2 ^ k)%Q.
Proof. intros Hk. by rewrite Zpower_Qpower. Qed.

Lemma Qpow2_succ (k : Z) : (2 ^ (k + 1) == 2 * 2 ^ k)%Q.
Proof. rewrite Qpower_plus by done. change (2 ^ 1)%Q with 2%Q. ring. Qed.

Lemma log2floor_spec (a : Q) :
  (0 < a)%Q → (2 ^ log2floor a <= a)%Q ∧ (a < 2 ^ (log2floor a + 1))%Q.
Proof.
  intros Ha. destruct a as [n d].
  assert (Hn : (0 < n)%Z) by (unfold Qlt in Ha; cbn in Ha; lia).
  unfold log2floor. cbn [Qnum Qden].
  set (ln := Z.log2 n). set (ld := Z.log2 (Z.pos d)).
  pose proof (Z.log2_spec n Hn) as [Hn1 Hn2]. fold ln in Hn1, Hn2.
  pose proof (Z.log2_spec (Z.pos d) (Pos2Z.is_pos d)) as [Hd1 Hd2]. fold ld in Hd1, Hd2.
  pose proof (Z.log2_nonneg n) as Hln. fold ln in Hln.
  pose proof (Z.log2_nonneg (Z.pos d)) as Hld. fold ld in Hld.
  assert (Hq : (n # d == inject_Z n / inject_Z (Z.pos d))%Q) by apply Qmake_Qdiv.
  set (qn := inject_Z n) in *. set (qd := inject_Z (Z.pos d)) in *.
  assert (HN1 : (2 ^ ln <= qn)%Q).
  { rewrite <- Qpow2_Z by done. unfold qn. by rewrite <- Zle_Qle. }
  assert (HN2 : (qn < 2 * 2 ^ ln)%Q).
  { rewrite <- Qpow2_succ, <- Qpow2_Z by lia. unfold qn. rewrite <- Zlt_Qlt.
    by rewrite <- Z.add_1_r in Hn2. }
  assert (HD1 : (2 ^ ld <= qd)%Q).
  { rewrite <- Qpow2_Z by done. unfold qd. by rewrite <- Zle_Qle. }
  assert (HD2 : (qd < 2 * 2 ^ ld)%Q).
  { rewrite <- Qpow2_succ, <- Qpow2_Z by lia. unfold qd. rewrite <- Zlt_Qlt.
    by rewrite <- Z.add_1_r in Hd2. }
  pose proof (Qpow2_pos ln) as HPN. pose proof (Qpow2_pos ld) as HPD.
  assert (Hk : (2 ^ (ln - ld) == 2 ^ ln / 2 ^ ld)%Q) by (by apply Qpower_minus).
  assert (Hqd : (0 < qd)%Q) by lra.
  set (PN := (2 ^ ln)%Q) in *. set (PD := (2 ^ ld)%Q) in *.
  assert (Hlow : (PN / (2 * PD) <= qn / qd)%Q).
  { apply Qle_shift_div_l; [done|].
    assert (E : (PN / (2 * PD) * qd == PN * qd / (2 * PD))%Q) by (field; lra).
    rewrite E. apply Qle_shift_div_r; [lra|]. nra. }
  assert (Hup : (qn / qd < 2 * PN / PD)%Q).
  { apply Qlt_shift_div_r; [done|].
    assert (E : (2 * PN / PD * qd == 2 * PN * qd / PD)%Q) by (field; lra).
    rewrite E. apply Qlt_shift_div_l; [lra|]. nra. }
  destruct (Qle_bool (2 ^ (ln - ld)) (n # d)) eqn:Et.
  - apply Qle_bool_iff in Et. split; [done|].
    rewrite Qpow2_succ, Hk, Hq.
    assert (E : (2 * (PN / PD) == 2 * PN / PD)%Q) by (field; lra). by rewrite E.
  - assert (Hlt : (n # d < 2 ^ (ln - ld))%Q).
    { apply Qnot_le_lt. intros Hle. apply Qle_bool_iff in Hle. congruence. }
    replace (ln - ld - 1 + 1)%Z with (ln - ld)%Z by lia. split; [|done].
    assert (E : (2 ^ (ln - ld - 1) == PN / (2 * PD))%Q).
    { rewrite Qpower_minus by done. rewrite Hk. change (2 ^ 1)%Q with 2%Q. field. lra. }
    by rewrite E, Hq.
Qed.

(** A value that is not negative and not near the overflow threshold is
    rounded to a number within the relative error [u32], up to [eta32]
    where the result is subnormal; a multiple of 2^-149 is rounded within
    the relative error alone. *)
Lemma Qabs_nonneg_eq (x : Q) : (0 <= x)%Q → Qabs x = x.
Proof.
  destruct x as [n d]. unfold Qle. cbn. intros H. unfold Qabs. f_equal. lia.
Qed.

Lemma round32_nonneg (x : Q) :
  (0 <= x)%Q → (x <= 255211775190703847597530955573826158592 # 1)%Q →
  ∃ r, round32 x = Fin r ∧ (0 <= r)%Q ∧ onGrid32 r
       ∧ (x - r <= u32 * x + eta32)%Q ∧ (r - x <= u32 * x + eta32)%Q
       ∧ (onGrid32 x → (x - r <= u32 * x)%Q ∧ (r - x <= u32 * x)%Q).
Proof.
  intros H0 Hmax. unfold round32.
  destruct (Qeq_bool x 0) eqn:Ez.
  { apply Qeq_bool_iff in Ez. exists 0%Q. split; [done|]. split; [lra|].
    split; [exists 0%Z; ring|]. unfold u32, eta32. repeat split; lra. }
  assert (Hpos : (0 < x)%Q).
  { apply Qle_lt_or_eq in H0 as [H|H]; [done|].
    assert (Qeq_bool x 0 = true) by (apply Qeq_bool_iff; by symmetry). congruence. }
  rewrite (Qabs_nonneg_eq x H0).
  assert (Hneg : Qneg x = false).
  { unfold Qneg. apply negb_false_iff. by apply Qle_bool_iff. }
  rewrite Hneg. cbv zeta.
  destruct (log2floor_spec x Hpos) as [Hlo _].
  set (e := Z.max (log2floor x) (-126)).
  assert (He : (-126 <= e)%Z) by lia.
  pose proof (Qpow2_pos (e - 23)) as Hulp.
  set (ulp := (2 ^ (e - 23))%Q) in *.
  pose proof (rne_spec (x / ulp)) as [Hm1 Hm2].
  assert (Hy : (0 <= x / ulp)%Q) by (apply Qle_shift_div_l; [done|lra]).
  pose proof (rne_nonneg _ Hy) as Hm0.
  set (m := rne (x / ulp)) in *.
  assert (Hm0' : (0 <= inject_Z m)%Q) by (change 0%Q with (inject_Z 0); by rewrite <- Zle_Qle).
  assert (Hxy : (x / ulp * ulp == x)%Q) by (field; lra).
  assert (Hr1 : (x - inject_Z m * ulp <= ulp * (1 # 2))%Q) by nra.
  assert (Hr2 : (inject_Z m * ulp - x <= ulp * (1 # 2))%Q) by nra.
  assert (Hhalf : (ulp * (1 # 2) <= u32 * x + eta32)%Q
                  ∧ (onGrid32 x →
                     (x - inject_Z m * ulp <= u32 * x)%Q
                     ∧ (inject_Z m * ulp - x <= u32 * x)%Q)).
  { destruct (Z_le_gt_dec (-126) (log2floor x)) as [Hn|Hs].
    - assert (Ee : e = log2floor x) by lia.
      assert (Eu : (ulp == 2 ^ log2floor x * (1 # 8388608))%Q).
      { unfold ulp. rewrite Ee, Qpower_minus by done.
        change (2 ^ 23)%Q with (8388608 # 1)%Q. field. }
      assert (Hb : (ulp * (1 # 2) <= u32 * x)%Q) by (rewrite Eu; unfold u32; lra).
      split; [unfold eta32; lra|]. intros _. split; lra.
    - assert (Ee : e = (-126)%Z) by lia.
      assert (Eu : (ulp == eta32 * 2)%Q).
      { unfold ulp. rewrite Ee. reflexivity. }
      split; [rewrite Eu; unfold u32, eta32 in *; nra|].
      intros [j Hj].
      assert (Em : m = j).
      { apply rne_Z. rewrite Hj. unfold ulp. rewrite Ee.
        change (-126 - 23)%Z with (-149)%Z. field.
        pose proof (Qpow2_pos (-149)). lra. }
      assert (Ex : (inject_Z m * ulp == x)%Q).
      { rewrite Em, Hj. unfold ulp. rewrite Ee. reflexivity. }
      rewrite Ex. unfold u32. split; lra. }
  destruct Hhalf as [Hhalf Hgrid].
  assert (Hover : Qle_bool (2 ^ 128) (inject_Z m * ulp) = false).
  { destruct (Qle_bool (2 ^ 128) (inject_Z m * ulp)) eqn:E; [|done].
    apply Qle_bool_iff in E.
    change (2 ^ 128)%Q with (340282366920938463463374607431768211456 # 1)%Q in E.
    unfold u32, eta32 in *. lra. }
  rewrite Hover. exists (inject_Z m * ulp)%Q. split; [done|]. split; [nra|]. split.
  { exists (m * 2 ^ (e + 126))%Z. rewrite inject_Z_mult, Qpow2_Z by lia.
    unfold ulp. replace (e - 23)%Z with ((e + 126) + (-149))%Z by lia.
    rewrite Qpower_plus by done. ring. }
  split; [lra|]. split; [lra|]. exact Hgrid.
Qed.

(** *** Sums and quotients of weights *)

Lemma onGrid32_plus (a b : Q) : onGrid32 a → onGrid32 b → onGrid32 (a + b).
Proof.
  intros [i Hi] [j Hj]. exists (i + j)%Z. rewrite Hi, Hj, inject_Z_plus. ring.
Qed.

Lemma fadd32_grid (s q : Q) :
  (0 <= s)%Q → onGrid32 s → (0 <= q)%Q → onGrid32 q →
  (s + q <= 255211775190703847597530955573826158592 # 1)%Q →
  ∃ r, fadd32 (Fin s) (Fin q) = Fin r ∧ (0 <= r)%Q ∧ onGrid32 r
       ∧ (s + q - r <= u32 * (s + q))%Q ∧ (r - (s + q) <= u32 * (s + q))%Q.
Proof.
  intros Hs Hgs Hq Hgq Hmax. cbn [fadd32].
  destruct (round32_nonneg (s + q)) as (r & Hr & H0 & Hg & _ & _ & Hrel); [lra|done|].
  destruct (Hrel (onGrid32_plus _ _ Hgs Hgq)) as [H1 H2].
  exists r. done.
Qed.

Lemma weightSum_four (q0 q1 q2 q3 : Q) :
  weight32 (Fin q0) → weight32 (Fin q1) → weight32 (Fin q2) → weight32 (Fin q3) →
  ∃ f, weightSum [Fin q0; Fin q1; Fin q2; Fin q3] = Fin f
       ∧ ((1 - 4 * u32) * (q0 + q1 + q2 + q3) <= f)%Q
       ∧ (f <= (1 + 5 * u32) * (q0 + q1 + q2 + q3))%Q.
Proof.
  intros (x0 & [= <-] & W0 & M0 & G0) (x1 & [= <-] & W1 & M1 & G1)
         (x2 & [= <-] & W2 & M2 & G2) (x3 & [= <-] & W3 & M3 & G3).
  unfold weightSum. cbn [foldl]. unfold zero. unfold maxWeight, u32 in *.
  destruct (fadd32_grid 0 q0) as (s1 & -> & P1 & Gs1 & A1 & B1);
    [lra|exists 0%Z; ring|done|done|lra|].
  destruct (fadd32_grid s1 q1) as (s2 & -> & P2 & Gs2 & A2 & B2);
    [done|done|done|done|unfold u32 in *; lra|].
  destruct (fadd32_grid s2 q2) as (s3 & -> & P3 & Gs3 & A3 & B3);
    [done|done|done|done|unfold u32 in *; lra|].
  destruct (fadd32_grid s3 q3) as (s4 & -> & P4 & Gs4 & A4 & B4);
    [done|done|done|done|unfold u32 in *; lra|].
  exists s4. split; [done|]. unfold u32 in *. split; lra.
Qed.

Lemma fdiv32_bound (q f : Q) :
  (0 <= q)%Q → (0 < f)%Q → (q <= 2 * f)%Q →
  ∃ r, fdiv32 (Fin q) (Fin f) = Fin r ∧ (0 <= r)%Q
       ∧ (q / f - r <= u32 * (q / f) + eta32)%Q
       ∧ (r - q / f <= u32 * (q / f) + eta32)%Q.
Proof.
  intros Hq Hf Hle. cbn [fdiv32].
  assert (Ez : Qeq_bool f 0 = false).
  { destruct (Qeq_bool f 0) eqn:E; [|done]. apply Qeq_bool_iff in E. lra. }
  rewrite Ez.
  assert (H0 : (0 <= q / f)%Q) by (apply Qle_shift_div_l; [done|lra]).
  assert (H2 : (q / f <= 2)%Q) by (apply Qle_shift_div_r; [done|lra]).
  destruct (round32_nonneg (q / f)) as (r & Hr & Hr0 & _ & A & B & _); [done|lra|].
  by exists r.
Qed.

Lemma normalizeWeights_four (q0 q1 q2 q3 : Q) :
  weight32 (Fin q0) → weight32 (Fin q1) → weight32 (Fin q2) → weight32 (Fin q3) →
  (0 < q0 + q1 + q2 + q3)%Q →
  ∃ r0 r1 r2 r3,
    normalizeWeights [Fin q0; Fin q1; Fin q2; Fin q3] = [Fin r0; Fin r1; Fin r2; Fin r3]
    ∧ (Qabs (r0 + r1 + r2 + r3 - 1) <= 1 # 2097152)%Q.
Proof.
  intros W0 W1 W2 W3 HS.
  destruct (weightSum_four q0 q1 q2 q3 W0 W1 W2 W3) as (f & Hf & Hlo & Hhi).
  destruct W0 as (x0 & [= <-] & P0 & _ & _). destruct W1 as (x1 & [= <-] & P1 & _ & _).
  destruct W2 as (x2 & [= <-] & P2 & _ & _). destruct W3 as (x3 & [= <-] & P3 & _ & _).
  unfold normalizeWeights. rewrite Hf. cbn [fmap list_fmap].
  unfold u32 in Hlo, Hhi.
  assert (Hfpos : (0 < f)%Q) by lra.
  destruct (fdiv32_bound q0 f) as (r0 & -> & R0 & A0 & B0); [done|done|lra|].
  destruct (fdiv32_bound q1 f) as (r1 & -> & R1 & A1 & B1); [done|done|lra|].
  destruct (fdiv32_bound q2 f) as (r2 & -> & R2 & A2 & B2); [done|done|lra|].
  destruct (fdiv32_bound q3 f) as (r3 & -> & R3 & A3 & B3); [done|done|lra|].
  exists r0, r1, r2, r3. split; [done|].
  assert (ET : (q0 / f + q1 / f + q2 / f + q3 / f == (q0 + q1 + q2 + q3) / f)%Q)
    by (field; lra).
  assert (T1 : ((q0 + q1 + q2 + q3) / f <= 1 + 5 * (1 # 16777216))%Q)
    by (apply Qle_shift_div_r; [done|lra]).
  assert (T2 : (1 - 5 * (1 # 16777216) <= (q0 + q1 + q2 + q3) / f)%Q)
    by (apply Qle_shift_div_l; [done|lra]).
  assert (X0 : (0 <= q0 / f)%Q) by (apply Qle_shift_div_l; [done|lra]).
  assert (X1 : (0 <= q1 / f)%Q) by (apply Qle_shift_div_l; [done|lra]).
  assert (X2 : (0 <= q2 / f)%Q) by (apply Qle_shift_div_l; [done|lra]).
  assert (X3 : (0 <= q3 / f)%Q) by (apply Qle_shift_div_l; [done|lra]).
  set (y0 := (q0 / f)%Q) in *. set (y1 := (q1 / f)%Q) in *.
  set (y2 := (q2 / f)%Q) in *. set (y3 := (q3 / f)%Q) in *.
  set (T := ((q0 + q1 + q2 + q3) / f)%Q) in *.
  unfold u32, eta32 in *.
  apply Qabs_Qle_condition. split; lra.
Qed.

Lemma weight32_zero : weight32 zero.
Proof.
  exists 0%Q. split; [done|]. unfold maxWeight. split; [lra|]. split; [lra|].
  exists 0%Z. ring.
Qed.

Lemma weight32_nonzero_pos (x : float) : weight32 x → feqb x zero = false → posF x.
Proof.
  intros (q & -> & Hq & _) Hz. exists q. split; [done|]. simpl in Hz.
  apply Qle_lt_or_eq in Hq as [Hlt|Heq]; [done|].
  assert (Qeq_bool q 0 = true) as Ht by (apply Qeq_bool_iff; by symmetry).
  congruence.
Qed.

(** Four weights, one of them positive, divided by their sum: the quotients
    add up to one within 2^-21. *)
Lemma normalizeWeights_near_one (wv : list float) :
  length wv = kMaxBonesPerVertex → Forall weight32 wv → Exists posF wv →
  ∃ r0 r1 r2 r3,
    normalizeWeights wv = [Fin r0; Fin r1; Fin r2; Fin r3]
    ∧ (Qabs (r0 + r1 + r2 + r3 - 1) <= 1 # 2097152)%Q.
Proof.
  intros Hlen Hall Hex.
  destruct wv as [|w0 [|w1 [|w2 [|w3 [|]]]]]; try done.
  apply Forall_cons in Hall as [W0 Hall]. apply Forall_cons in Hall as [W1 Hall].
  apply Forall_cons in Hall as [W2 Hall]. apply Forall_cons in Hall as [W3 _].
  pose proof W0 as (q0 & -> & P0 & _). pose proof W1 as (q1 & -> & P1 & _).
  pose proof W2 as (q2 & -> & P2 & _). pose proof W3 as (q3 & -> & P3 & _).
  apply normalizeWeights_four; [done|done|done|done|].
  apply Exists_exists in Hex as (x & Hx & q & -> & Hq).
  repeat (apply elem_of_cons in Hx as [[= ->]|Hx]; [lra|]).
  by apply elem_of_nil in Hx.
Qed.

(** The quotients do not always add up to one exactly. *)
Lemma normalizeWeights_inexact :
  normalizeWeights [Fin (1 # 2); Fin (1 # 4); Fin (1 # 8); zero]
  = [Fin (9586981 # 16777216); Fin (9586981 # 33554432); Fin (9586981 # 67108864); Fin 0]
  ∧ ¬ ((9586981 # 16777216) + (9586981 # 33554432) + (9586981 # 67108864) + 0 == 1)%Q.
Proof. split; [vm_compute; reflexivity|]. intros H. vm_compute in H. discriminate. Qed.

(** *** The slot search *)

Lemma slotLoop_spec (id : NodeID) (w : float) (iv : list NodeID) (wv : list float)
    (n : nat) : ∀ j,
  (∃ k, firstFreeSlot iv j n k
        ∧ slotLoop n j id w iv wv = (<[k := id]> iv, <[k := w]> wv, true))
  ∨ (noFreeSlot iv j n ∧ slotLoop n j id w iv wv = (iv, wv, false)).
Proof.
  induction n as [|n IH]; intros j.
  - right. split; [|done]. intros k' Hk'. lia.
  - cbn [slotLoop]. destruct (bool_decide (iv !! j = Some kInvalidID)) eqn:E.
    + apply bool_decide_eq_true in E. left. exists j. split; [|done].
      repeat split; [lia|lia|done|]. intros k' Hk'. lia.
    + apply bool_decide_eq_false in E.
      destruct (IH (S j)) as [(k & (Hk & Hfree & Hfirst) & ->)|[Hnone ->]].
      * left. exists k. split; [|done]. repeat split; [lia|lia|done|].
        intros k' Hk'. destruct (decide (k' = j)) as [->|Hne]; [done|].
        apply Hfirst. lia.
      * right. split; [|done]. intros k' Hk'.
        destruct (decide (k' = j)) as [->|Hne]; [done|]. apply Hnone. lia.
Qed.

(** What one weight entry does to the influence arrays. *)
Lemma loadBoneWeight_zero (id : NodeID) (vw : aiVertexWeight) (sk : SkinData) :
  feqb (mWeight vw) zero = true → loadBoneWeight id vw sk = sk.
Proof. unfold loadBoneWeight. by intros ->. Qed.

Lemma loadBoneWeight_cases (id : NodeID) (vw : aiVertexWeight) (sk : SkinData)
    (iv : list NodeID) (wv : list float) :
  feqb (mWeight vw) zero = false →
  skin_ids sk !! mVertexId vw = Some iv →
  skin_weights sk !! mVertexId vw = Some wv →
  (∃ k, firstFreeSlot iv 0 kMaxBonesPerVertex k
        ∧ loadBoneWeight id vw sk
          = {| skin_weights := <[mVertexId vw := <[k := mWeight vw]> wv]> (skin_weights sk);
               skin_ids := <[mVertexId vw := <[k := id]> iv]> (skin_ids sk);
               skin_warnings := skin_warnings sk |})
  ∨ (noFreeSlot iv 0 kMaxBonesPerVertex
     ∧ loadBoneWeight id vw sk
       = {| skin_weights := skin_weights sk;
            skin_ids := skin_ids sk;
            skin_warnings := skin_warnings sk ++ [tooManyBones] |}).
Proof.
  intros Hw Hiv Hwv. unfold loadBoneWeight. rewrite Hw, Hiv, Hwv.
  destruct (slotLoop_spec id (mWeight vw) iv wv kMaxBonesPerVertex 0)
    as [(k & Hk & ->)|[Hnone ->]].
  - left. by exists k.
  - right. split; [done|]. by rewrite !list_insert_id.
Qed.

(** *** The invariant of the loop over the bones *)

Lemma skinInit_inv (n : nat) : skinInv n (skinInit n).
Proof.
  unfold skinInv, skinInit. simpl. rewrite !length_replicate.
  split; [done|]. split; [done|]. intros v iv wv Hiv Hwv.
  apply lookup_replicate in Hiv as [-> _]. apply lookup_replicate in Hwv as [-> _].
  repeat split.
  - repeat constructor; apply weight32_zero.
  - intros j x Hx Hne. change (replicate 4 kInvalidID !! j = Some x) in Hx.
    apply lookup_replicate in Hx as [-> _]. done.
Qed.

Lemma loadBoneWeight_inv (n : nat) (id : NodeID) (vw : aiVertexWeight) (sk : SkinData) :
  skinInv n sk → mVertexId vw < n → weight32 (mWeight vw) →
  skinInv n (loadBoneWeight id vw sk)
  ∧ (∀ v, hasPos sk v → hasPos (loadBoneWeight id vw sk) v)
  ∧ (feqb (mWeight vw) zero = false → hasPos (loadBoneWeight id vw sk) (mVertexId vw)).
Proof.
  intros (Hli & Hlw & Hslots) Hv Hnn.
  destruct (feqb (mWeight vw) zero) eqn:Hz.
  { rewrite loadBoneWeight_zero by done. split; [unfold skinInv; auto|]. split; [done|]. intros [=]. }
  pose proof (weight32_nonzero_pos _ Hnn Hz) as Hpos.
  destruct (lookup_lt_is_Some_2 (skin_ids sk) (mVertexId vw)) as [iv Hiv]; [lia|].
  destruct (lookup_lt_is_Some_2 (skin_weights sk) (mVertexId vw)) as [wv Hwv]; [lia|].
  destruct (Hslots _ _ _ Hiv Hwv) as (Hleni & Hlenw & Hall & Hvalid).
  destruct (loadBoneWeight_cases id vw sk iv wv Hz Hiv Hwv)
    as [(k & (Hk & Hfree & _) & ->)|[Hnone ->]].
  - assert (Hkw : k < length wv) by (rewrite Hlenw; lia).
    assert (Hki : k < length iv) by (rewrite Hleni; lia).
    split; [|split].
    + unfold skinInv. simpl. rewrite !length_insert.
      split; [done|]. split; [done|]. intros v iv' wv' Hiv' Hwv'.
      destruct (decide (v = mVertexId vw)) as [->|Hne].
      * rewrite list_lookup_insert_eq in Hiv' by lia.
        rewrite list_lookup_insert_eq in Hwv' by lia.
        injection Hiv' as <-. injection Hwv' as <-.
        rewrite !length_insert. repeat split; [done|done| |].
        -- by apply Forall_insert.
        -- intros j x Hx Hne. destruct (decide (j = k)) as [->|Hjk].
           ++ exists (mWeight vw). split; [|done]. by apply list_lookup_insert_eq.
           ++ rewrite list_lookup_insert_ne in Hx by done.
              rewrite list_lookup_insert_ne by done. by eapply Hvalid.
      * rewrite list_lookup_insert_ne in Hiv' by done.
        rewrite list_lookup_insert_ne in Hwv' by done. by eapply Hslots.
    + intros v (wv' & Hwv' & Hex). unfold hasPos. simpl.
      destruct (decide (v = mVertexId vw)) as [->|Hne].
      * exists (<[k := mWeight vw]> wv). split; [by apply list_lookup_insert_eq; lia|].
        apply Exists_exists. exists (mWeight vw). split; [|done].
        eapply list_elem_of_lookup_2. by apply list_lookup_insert_eq.
      * exists wv'. split; [|done]. by rewrite list_lookup_insert_ne.
    + intros _. exists (<[k := mWeight vw]> wv). simpl.
      split; [by apply list_lookup_insert_eq; lia|].
      apply Exists_exists. exists (mWeight vw). split; [|done].
      eapply list_elem_of_lookup_2. by apply list_lookup_insert_eq.
  - split; [|split].
    + done.
    + done.
    + intros _. exists wv. split; [done|].
      destruct (lookup_lt_is_Some_2 iv 0) as [x Hx]; [rewrite Hleni; unfold kMaxBonesPerVertex; lia|].
      assert (x ≠ kInvalidID) as Hxne.
      { intros ->. eapply (Hnone 0); [unfold kMaxBonesPerVertex; lia|done]. }
      destruct (Hvalid 0 x Hx Hxne) as (y & Hy & Hypos).
      apply Exists_exists. exists y. split; [|done]. by eapply list_elem_of_lookup_2.
Qed.

Lemma loadBoneWeights_inv (n : nat) (id : NodeID) (vws : list aiVertexWeight) : ∀ sk,
  skinInv n sk →
  Forall (λ vw, mVertexId vw < n ∧ weight32 (mWeight vw)) vws →
  skinInv n (foldl (λ sk vw, loadBoneWeight id vw sk) sk vws)
  ∧ (∀ v, hasPos sk v → hasPos (foldl (λ sk vw, loadBoneWeight id vw sk) sk vws) v)
  ∧ (∀ vw, vw ∈ vws → feqb (mWeight vw) zero = false →
       hasPos (foldl (λ sk vw, loadBoneWeight id vw sk) sk vws) (mVertexId vw)).
Proof.
  induction vws as [|vw vws IH]; intros sk Hinv Hok.
  - split; [done|]. split; [done|]. intros vw Hin. by apply elem_of_nil in Hin.
  - apply Forall_cons in Hok as [[Hv Hnn] Hok]. cbn [foldl].
    destruct (loadBoneWeight_inv n id vw sk Hinv Hv Hnn) as (Hinv1 & Hkeep1 & Hnew1).
    destruct (IH _ Hinv1 Hok) as (Hinv2 & Hkeep2 & Hnew2).
    split; [done|]. split; [auto|].
    intros vw' Hin Hz. apply elem_of_cons in Hin as [->|Hin]; auto.
Qed.

Lemma loadBonesFold_inv (n : nat) (data : ImporterData) (bones : list aiBone) : ∀ sk,
  skinInv n sk →
  Forall (λ bone, Forall (λ vw, mVertexId vw < n ∧ weight32 (mWeight vw)) (mWeights bone))
    bones →
  let sk' :=
    foldl (λ sk bone,
             foldl (λ sk aiWeight,
                      loadBoneWeight (getFalcorNodeID data (bone_mName bone) 0) aiWeight sk)
               sk (mWeights bone)) sk bones in
  skinInv n sk'
  ∧ (∀ v, hasPos sk v → hasPos sk' v)
  ∧ (∀ bone vw, bone ∈ bones → vw ∈ mWeights bone → feqb (mWeight vw) zero = false →
       hasPos sk' (mVertexId vw)).
Proof.
  induction bones as [|bone bones IH]; intros sk Hinv Hok; cbv zeta.
  - split; [done|]. split; [done|]. intros bone vw Hin. by apply elem_of_nil in Hin.
  - apply Forall_cons in Hok as [Hb Hok]. cbn [foldl].
    destruct (loadBoneWeights_inv n (getFalcorNodeID data (bone_mName bone) 0)
                (mWeights bone) sk Hinv Hb) as (Hinv1 & Hkeep1 & Hnew1).
    destruct (IH _ Hinv1 Hok) as (Hinv2 & Hkeep2 & Hnew2).
    split; [done|]. split; [auto|].
    intros bone' vw Hin Hvw Hz. apply elem_of_cons in Hin as [->|Hin]; eauto.
Qed.

(** With assertions compiled out the loop over the bones cannot fail;
    [loadBones] then divides the weights of every vertex by their sum. *)
Lemma forEach_loadBone_release (data : ImporterData) (bones : list aiBone) : ∀ sk,
  forEach (loadBone false data) bones sk
  = Ok (foldl (λ sk bone,
                 foldl (λ sk aiWeight,
                          loadBoneWeight (getFalcorNodeID data (bone_mName bone) 0) aiWeight sk)
                   sk (mWeights bone)) sk bones).
Proof.
  induction bones as [|bone bones IH]; intros sk; [done|].
  cbn [forEach foldl]. unfold loadBone at 1. cbn [mbind result_bind]. apply IH.
Qed.

Lemma loadBones_release (pAiMesh : aiMesh) (data : ImporterData) :
  loadBones false pAiMesh data
  = Ok {| skin_weights := normalizeWeights <$> skin_weights (skinBeforeNormalize data pAiMesh);
          skin_ids := skin_ids (skinBeforeNormalize data pAiMesh);
          skin_warnings := skin_warnings (skinBeforeNormalize data pAiMesh) |}.
Proof. unfold loadBones. by rewrite forEach_loadBone_release. Qed.

(** With assertions checked, [loadBones] either stops at the assertion on
    the number of nodes of a bone (or at the lookup it makes) or returns what
    it returns without them. *)
Lemma loadBone_debug (data : ImporterData) (bone : aiBone) (sk : SkinData) :
  (∃ e, loadBone true data bone sk = Err e)
  ∨ loadBone true data bone sk = loadBone false data bone sk.
Proof.
  unfold loadBone.
  destruct (getNodeInstanceCount data (bone_mName bone)) as [count|e];
    cbn [mbind result_bind]; [|left; by exists e].
  destruct (FALCOR_ASSERT_cases true (Nat.eqb count 1)) as [-> | ->];
    cbn [mbind result_bind]; [by right|left; by eexists].
Qed.

Lemma forEach_loadBone_debug (data : ImporterData) (bones : list aiBone) : ∀ sk,
  (∃ e, forEach (loadBone true data) bones sk = Err e)
  ∨ forEach (loadBone true data) bones sk = forEach (loadBone false data) bones sk.
Proof.
  induction bones as [|bone bones IH]; intros sk; [by right|].
  cbn [forEach].
  destruct (loadBone_debug data bone sk) as [[e ->]| ->]; [left; by exists e|].
  destruct (loadBone false data bone sk) as [sk'|e]; cbn [mbind result_bind];
    [apply IH|left; by exists e].
Qed.

Lemma loadBones_debug (pAiMesh : aiMesh) (data : ImporterData) :
  (∃ e, loadBones true pAiMesh data = Err e)
  ∨ loadBones true pAiMesh data = loadBones false pAiMesh data.
Proof.
  unfold loadBones.
  destruct (forEach_loadBone_debug data (mBones pAiMesh)
              {| skin_weights := replicate (mNumVertices pAiMesh)
                                   (replicate kMaxBonesPerVertex zero);
                 skin_ids := replicate (mNumVertices pAiMesh)
                               (replicate kMaxBonesPerVertex kInvalidID);
                 skin_warnings := [] |}) as [[e ->]| ->];
    [left; by exists e|by right].
Qed.

(** *** The entries one by one *)

Lemma skinBeforeNormalize_flat (data : ImporterData) (pAiMesh : aiMesh) :
  skinBeforeNormalize data pAiMesh
  = foldl (λ sk e, loadBoneWeight e.1 e.2 sk) (skinInit (mNumVertices pAiMesh))
      (flatInfluences data pAiMesh).
Proof.
  unfold skinBeforeNormalize, flatInfluences.
  generalize (skinInit (mNumVertices pAiMesh)).
  induction (mBones pAiMesh) as [|bone bones IH]; intros sk; [done|].
  cbn [foldl mbind list_bind]. rewrite foldl_app, foldl_fmap. cbn [fst snd]. apply IH.
Qed.

(** The rows of the influence arrays keep their number and their width. *)
Lemma loadBoneWeight_length (id : NodeID) (vw : aiVertexWeight) (sk : SkinData) :
  length (skin_ids (loadBoneWeight id vw sk)) = length (skin_ids sk)
  ∧ length (skin_weights (loadBoneWeight id vw sk)) = length (skin_weights sk).
Proof.
  destruct (feqb (mWeight vw) zero) eqn:Hz; [by rewrite loadBoneWeight_zero|].
  destruct (skin_ids sk !! mVertexId vw) as [iv|] eqn:Hiv.
  2:{ unfold loadBoneWeight. by rewrite Hz, Hiv. }
  destruct (skin_weights sk !! mVertexId vw) as [wv|] eqn:Hwv.
  2:{ unfold loadBoneWeight. by rewrite Hz, Hiv, Hwv. }
  destruct (loadBoneWeight_cases id vw sk iv wv Hz Hiv Hwv) as [(k & _ & ->)|[_ ->]]; cbn.
  - by rewrite !length_insert.
  - done.
Qed.

(** An entry for a vertex of the mesh is handled as [slotStep] says. *)
Lemma loadBoneWeight_step (n : nat) (id : NodeID) (vw : aiVertexWeight) (sk : SkinData) :
  length (skin_ids sk) = n → length (skin_weights sk) = n → mVertexId vw < n →
  slotStep id vw sk (loadBoneWeight id vw sk).
Proof.
  intros Hli Hlw Hv.
  destruct (feqb (mWeight vw) zero) eqn:Hz.
  { rewrite loadBoneWeight_zero by done. by apply slotStep_skip. }
  destruct (lookup_lt_is_Some_2 (skin_ids sk) (mVertexId vw)) as [iv Hiv]; [lia|].
  destruct (lookup_lt_is_Some_2 (skin_weights sk) (mVertexId vw)) as [wv Hwv]; [lia|].
  destruct (loadBoneWeight_cases id vw sk iv wv Hz Hiv Hwv) as [(k & Hk & ->)|[Hnone ->]].
  - by eapply slotStep_write.
  - by eapply slotStep_drop.
Qed.

Lemma loadBoneWeights_steps (n : nat) (l : list (NodeID * aiVertexWeight)) : ∀ sk,
  length (skin_ids sk) = n → length (skin_weights sk) = n →
  Forall (λ e, mVertexId e.2 < n) l →
  slotSteps l sk (foldl (λ sk e, loadBoneWeight e.1 e.2 sk) sk l).
Proof.
  induction l as [|e l IH]; intros sk Hli Hlw Hall; [constructor|].
  apply Forall_cons in Hall as [He Hall]. cbn [foldl].
  destruct (loadBoneWeight_length e.1 e.2 sk) as [Hli' Hlw'].
  eapply slotSteps_cons.
  - by eapply loadBoneWeight_step.
  - apply IH; [congruence|congruence|done].
Qed.

Lemma wf_weights_flat (data : ImporterData) (pAiMesh : aiMesh) :
  wf_weights pAiMesh →
  Forall (λ e, mVertexId e.2 < mNumVertices pAiMesh) (flatInfluences data pAiMesh).
Proof.
  unfold wf_weights, flatInfluences. induction 1 as [|bone bones Hb _ IH]; [done|].
  cbn [mbind list_bind]. apply Forall_app. split; [|exact IH].
  apply Forall_fmap. eapply Forall_impl; [exact Hb|]. by intros vw [Hv _].
Qed.

(** *** C2 *)

(** C2.  [loadBones] handles the weight entries of the bones of a skinned
    mesh one by one, bone after bone, each with the node identifier of its
    bone: an entry of weight zero changes nothing; any other entry writes
    the identifier and the weight into the first of the vertex's
    [kMaxBonesPerVertex] slots that still holds the invalid identifier, and
    when there is no such slot the arrays stay as they are and one warning
    is logged.  The identifiers and the warnings [loadBones] returns are the
    ones so obtained; the weights it returns are, for every vertex, the
    four slot weights divided by their sum, both computed in single
    precision, and for every vertex that received an influence they add up
    to one within 2^-21.  Weights are taken to be single-precision numbers
    from zero to 2^125, vertex indices to lie within the mesh.  This is the
    run with assertions compiled out; with assertions checked [loadBones]
    either stops at an assertion or returns the same. *)
Theorem C2_skin_weight_assignment (pAiMesh : aiMesh) (data : ImporterData) :
  wf_weights pAiMesh →
  ∃ sk pre,
    loadBones false pAiMesh data = Ok sk
    ∧ ((∃ e, loadBones true pAiMesh data = Err e)
       ∨ loadBones true pAiMesh data = Ok sk)
    ∧ slotSteps (flatInfluences data pAiMesh) (skinInit (mNumVertices pAiMesh)) pre
    ∧ skin_ids sk = skin_ids pre
    ∧ skin_warnings sk = skin_warnings pre
    ∧ (∀ v, v < mNumVertices pAiMesh →
         ∃ w0 w1 w2 w3,
           skin_weights pre !! v = Some [w0; w1; w2; w3]
           ∧ let f := fadd32 (fadd32 (fadd32 (fadd32 zero w0) w1) w2) w3 in
             skin_weights sk !! v
             = Some [fdiv32 w0 f; fdiv32 w1 f; fdiv32 w2 f; fdiv32 w3 f])
    ∧ ∀ v, influenced pAiMesh v →
        ∃ q0 q1 q2 q3,
          skin_weights sk !! v = Some [Fin q0; Fin q1; Fin q2; Fin q3]
          ∧ (Qabs (q0 + q1 + q2 + q3 - 1) <= 1 # 2097152)%Q.
Proof.
  intros Hwf.
  destruct (loadBonesFold_inv (mNumVertices pAiMesh) data (mBones pAiMesh)
              (skinInit (mNumVertices pAiMesh)) (skinInit_inv _) Hwf)
    as ((Hli & Hlw & Hslots) & _ & Hnew).
  fold (skinBeforeNormalize data pAiMesh) in Hli, Hlw, Hslots, Hnew.
  eexists _, (skinBeforeNormalize data pAiMesh).
  split; [apply loadBones_release|].
  split; [rewrite <- loadBones_release; apply loadBones_debug|].
  split.
  { rewrite skinBeforeNormalize_flat.
    apply (loadBoneWeights_steps (mNumVertices pAiMesh)).
    - cbn. by rewrite length_replicate.
    - cbn. by rewrite length_replicate.
    - by apply wf_weights_flat. }
  split; [done|]. split; [done|]. cbn [skin_weights]. split.
  - intros v Hv.
    destruct (lookup_lt_is_Some_2 (skin_ids (skinBeforeNormalize data pAiMesh)) v)
      as [iv Hiv]; [lia|].
    destruct (lookup_lt_is_Some_2 (skin_weights (skinBeforeNormalize data pAiMesh)) v)
      as [wv Hwv]; [lia|].
    destruct (Hslots _ _ _ Hiv Hwv) as (_ & Hlen & _).
    destruct wv as [|w0 [|w1 [|w2 [|w3 [|]]]]]; try done.
    exists w0, w1, w2, w3. split; [done|]. cbv zeta.
    by rewrite list_lookup_fmap, Hwv.
  - intros v (bone & vw & Hbone & Hvw & <- & Hz).
    destruct (Hnew bone vw Hbone Hvw Hz) as (wv & Hwv & Hex).
    destruct (lookup_lt_is_Some_2 (skin_ids (skinBeforeNormalize data pAiMesh))
                (mVertexId vw)) as [iv Hiv].
    { rewrite Hli, <- Hlw. by eapply lookup_lt_Some. }
    destruct (Hslots _ _ _ Hiv Hwv) as (_ & Hlen & Hall & _).
    destruct (normalizeWeights_near_one wv Hlen Hall Hex) as (r0 & r1 & r2 & r3 & Hn & Hsum).
    exists r0, r1, r2, r3. split; [|exact Hsum].
    by rewrite list_lookup_fmap, Hwv, <- Hn.
Qed.

Lemma crowdedMesh_wf : wf_weights crowdedMesh.
Proof.
  assert (Hw : ∀ k : positive, (Z.pos k <= 149)%Z →
               weight32 (Fin (1 # 2 ^ k))).
  { intros k Hk. exists (1 # 2 ^ k)%Q. split; [reflexivity|].
    split; [unfold Qle; cbn; lia|]. split.
    - unfold maxWeight, Qle. cbn. lia.
    - exists (2 ^ (149 - Z.pos k))%Z. rewrite Qpow2_Z by lia.
      rewrite Qpower_minus by done. change (2 ^ (-149))%Q with (/ 2 ^ 149)%Q.
      assert (E : (1 # 2 ^ k == / 2 ^ Z.pos k)%Q).
      { rewrite <- Qpow2_Z by lia. rewrite <- Pos2Z.inj_pow. reflexivity. }
      rewrite E. field. repeat split; by apply Qpower_not_0. }
  unfold wf_weights, crowdedMesh. cbn.
  repeat constructor; cbn; try lia.
  - apply (Hw 1%positive). lia.
  - apply (Hw 2%positive). lia.
  - apply (Hw 3%positive). lia.
  - apply (Hw 3%positive). lia.
  - apply (Hw 4%positive). lia.
Qed.

(** The statement of C2 at a mesh whose vertex 0 is claimed by five bones: the
    fifth influence is dropped with a warning, and the four kept weights are
    normalized. *)
Lemma C2_skin_weight_assignment_witness :
  wf_weights crowdedMesh
  ∧ influenced crowdedMesh 0
  ∧ ∃ sk,
      loadBones false crowdedMesh jointData = Ok sk
      ∧ skin_warnings sk = [tooManyBones]
      ∧ skin_ids sk !! 0 = Some [3%N; 3%N; 3%N; 3%N]
      ∧ ∃ q0 q1 q2 q3,
          skin_weights sk !! 0 = Some [Fin q0; Fin q1; Fin q2; Fin q3]
          ∧ (Qabs (q0 + q1 + q2 + q3 - 1) <= 1 # 2097152)%Q.
Proof.
  split; [exact crowdedMesh_wf|].
  assert (Hinf : influenced crowdedMesh 0).
  { eexists _, _. split; [apply list_elem_of_here|].
    split; [apply list_elem_of_here|]. split; reflexivity. }
  split; [exact Hinf|].
  destruct (C2_skin_weight_assignment crowdedMesh jointData crowdedMesh_wf)
    as (sk & pre & Hrun & _ & _ & _ & _ & _ & Hsum).
  exists sk. split; [exact Hrun|].
  rewrite loadBones_release in Hrun. injection Hrun as <-.
  split; [vm_compute; reflexivity|]. split; [vm_compute; reflexivity|].
  exact (Hsum 0 Hinf).
Defined.

(** *** C9 *)

(** An entry for another vertex, or of weight zero, leaves the slots of
    vertex [v] as they are. *)
Lemma loadBoneWeight_other (id : NodeID) (vw : aiVertexWeight) (sk : SkinData) (v : nat) :
  mVertexId vw ≠ v ∨ feqb (mWeight vw) zero = true →
  skin_ids (loadBoneWeight id vw sk) !! v = skin_ids sk !! v
  ∧ skin_weights (loadBoneWeight id vw sk) !! v = skin_weights sk !! v.
Proof.
  intros H. unfold loadBoneWeight.
  destruct (feqb (mWeight vw) zero) eqn:Hz; [done|].
  destruct H as [Hne|[=]].
  destruct (skin_ids sk !! mVertexId vw) as [iv|]; [|done].
  destruct (skin_weights sk !! mVertexId vw) as [wv|]; [|done].
  destruct (slotLoop _ _ _ _ _ _) as [[iv' wv'] found]. simpl.
  by rewrite !list_lookup_insert_ne.
Qed.

(** A vertex that no bone declares with a weight other than zero reaches the
    normalization with four zero weights: the divisor is zero, and the
    division leaves four values that are not numbers. *)
Lemma uninfluenced_vertex_not_a_number (pAiMesh : aiMesh) (data : ImporterData) (v : nat) :
  v < mNumVertices pAiMesh →
  ¬ influenced pAiMesh v →
  skin_weights (skinBeforeNormalize data pAiMesh) !! v
    = Some (replicate kMaxBonesPerVertex zero)
  ∧ ∃ sk, loadBones false pAiMesh data = Ok sk
      ∧ skin_ids sk !! v = Some (replicate kMaxBonesPerVertex kInvalidID)
      ∧ skin_weights sk !! v = Some (replicate kMaxBonesPerVertex NaN).
Proof.
  intros Hv Hun.
  assert (Hpre : skin_ids (skinBeforeNormalize data pAiMesh) !! v
                   = Some (replicate kMaxBonesPerVertex kInvalidID)
                 ∧ skin_weights (skinBeforeNormalize data pAiMesh) !! v
                   = Some (replicate kMaxBonesPerVertex zero)).
  { unfold skinBeforeNormalize.
    assert (Hinit : skin_ids (skinInit (mNumVertices pAiMesh)) !! v
                      = Some (replicate kMaxBonesPerVertex kInvalidID)
                    ∧ skin_weights (skinInit (mNumVertices pAiMesh)) !! v
                      = Some (replicate kMaxBonesPerVertex zero)).
    { unfold skinInit. cbn [skin_ids skin_weights].
      split; by apply lookup_replicate_2. }
    assert (Hnone : Forall (λ bone, Forall (λ vw, mVertexId vw ≠ v
                                              ∨ feqb (mWeight vw) zero = true)
                                      (mWeights bone)) (mBones pAiMesh)).
    { apply Forall_forall. intros bone Hb. apply Forall_forall. intros vw Hvw.
      destruct (decide (mVertexId vw = v)) as [Heq|Hne]; [|by left].
      right. destruct (feqb (mWeight vw) zero) eqn:Hz; [done|].
      exfalso. apply Hun. by exists bone, vw. }
    revert Hinit Hnone. generalize (skinInit (mNumVertices pAiMesh)).
    induction (mBones pAiMesh) as [|bone bones IH]; intros sk Hsk Hnone; [done|].
    apply Forall_cons in Hnone as [Hb Hnone]. cbn [foldl]. apply IH; [|done].
    clear IH Hnone. revert sk Hsk.
    induction (mWeights bone) as [|vw vws IHw]; intros sk Hsk; [done|].
    apply Forall_cons in Hb as [Hvw Hb]. cbn [foldl]. apply IHw; [done|].
    destruct (loadBoneWeight_other (getFalcorNodeID data (bone_mName bone) 0) vw sk v Hvw)
      as [-> ->]. done. }
  destruct Hpre as [Hids Hws]. split; [done|].
  eexists. split; [apply loadBones_release|]. cbn [skin_ids skin_weights].
  split; [done|]. by rewrite list_lookup_fmap, Hws.
Qed.

(** C9 (the code departs from the claim).  The claim: a vertex without bone
    influence keeps the invalid identifier and a weight of exactly zero in
    every slot after normalization, and the division is never by a zero sum.
    On a mesh of three vertices whose only bone weights vertices 0 and 1,
    vertex 2 keeps the invalid identifier in every slot, but its weight sum is
    zero and [w /= f] divides by it: the four weights come out as values that
    are not numbers.  It is so with and without assertions. *)
Theorem C9_uninfluenced_vertex_divided_by_zero :
  ¬ influenced partlySkinnedMesh 2
  ∧ weightSum (replicate kMaxBonesPerVertex zero) = Fin 0
  ∧ skin_weights (skinBeforeNormalize jointData partlySkinnedMesh) !! 2
    = Some (replicate kMaxBonesPerVertex zero)
  ∧ ∃ sk, loadBones false partlySkinnedMesh jointData = Ok sk
      ∧ loadBones true partlySkinnedMesh jointData = Ok sk
      ∧ skin_ids sk !! 2 = Some [kInvalidID; kInvalidID; kInvalidID; kInvalidID]
      ∧ skin_weights sk !! 2 = Some [NaN; NaN; NaN; NaN].
Proof.
  assert (Hun : ¬ influenced partlySkinnedMesh 2).
  { intros (bone & vw & Hb & Hvw & Hv & _). cbn in Hb.
    apply list_elem_of_singleton in Hb as ->. cbn in Hvw.
    apply elem_of_cons in Hvw as [->|Hvw]; [discriminate|].
    apply list_elem_of_singleton in Hvw as ->. discriminate. }
  split; [exact Hun|]. split; [reflexivity|].
  destruct (uninfluenced_vertex_not_a_number partlySkinnedMesh jointData 2)
    as (Hpre & sk & Hrun & Hids & Hws); [cbn; lia|exact Hun|].
  split; [exact Hpre|]. exists sk. split; [exact Hrun|].
  split; [|split; [exact Hids|exact Hws]].
  rewrite <- Hrun. vm_compute. reflexivity.
Qed.

(** ** Mesh filter *)

Lemma filterMeshes_spec (sceneMeshes : list aiMesh) : ∀ data,
  (filterMeshes sceneMeshes data).1 = List.filter passesFilter sceneMeshes
  ∧ warnings (filterMeshes sceneMeshes data).2
    = warnings data ++ (sceneMeshes ≫= skipWarning)
  ∧ builder (filterMeshes sceneMeshes data).2 = builder data
  ∧ meshMap (filterMeshes sceneMeshes data).2 = meshMap data.
Proof.
  induction sceneMeshes as [|m l IH]; intros data.
  - cbn. by rewrite app_nil_r.
  - cbn [filterMeshes List.filter]. unfold passesFilter, skipWarning.
    rewrite bind_cons.
    destruct (HasFaces m); cbn [negb andb].
    + destruct (Nat.eqb (length (default [] (mFaces m !! 0))) 3); cbn [negb].
      * specialize (IH data). destruct (filterMeshes l data) as [ms d'].
        cbn [fst snd] in *. destruct IH as (-> & -> & -> & ->). done.
      * destruct (IH (logWarning
          ("AssimpImporter: Mesh '" +:+ mesh_mName m +:+ "' is not a triangle mesh, ignoring.")
          data)) as (-> & -> & -> & ->).
        cbn [logWarning warnings builder meshMap]. by rewrite <- app_assoc.
    + destruct (IH (logWarning
        ("AssimpImporter: Mesh '" +:+ mesh_mName m +:+ "' has no faces, ignoring.")
        data)) as (-> & -> & -> & ->).
      cbn [logWarning warnings builder meshMap]. by rewrite <- app_assoc.
Qed.

(** *** C7 *)

(** C7, as stated, fails: a mesh whose first face is a triangle and whose
    second face is a quad is not uniformly triangular, and the filter keeps
    it. *)
Lemma C7_mixed_mesh_passes_filter :
  ¬ keepsUniformTriangleMeshes [mixedMesh] jointData.
Proof.
  intros H. destruct (H mixedMesh) as [Hkeep _]; [apply list_elem_of_here|].
  destruct Hkeep as [_ Huni]; [apply list_elem_of_here|].
  unfold uniformTriangles in Huni. cbn in Huni.
  apply Forall_cons in Huni as [_ Huni]. apply Forall_cons in Huni as [Hquad _].
  discriminate.
Qed.

(** C7 (amended).  The filter never aborts.  It keeps, in scene order,
    exactly the meshes that have at least one face and whose first face has
    three indices, and it logs one warning for every other mesh, in scene
    order; the faces after the first are not looked at (a mesh of mixed faces
    whose first face is a triangle is kept, and [createIndexList] asserts
    uniformity later). *)
Theorem C7_filter_checks_first_face (sceneMeshes : list aiMesh) (data : ImporterData) :
  (filterMeshes sceneMeshes data).1 = List.filter passesFilter sceneMeshes
  ∧ warnings (filterMeshes sceneMeshes data).2
    = warnings data ++ (sceneMeshes ≫= skipWarning)
  ∧ builder (filterMeshes sceneMeshes data).2 = builder data
  ∧ ∀ m, m ∈ sceneMeshes →
      (m ∈ (filterMeshes sceneMeshes data).1
       ↔ mFaces m ≠ [] ∧ ∃ face, mFaces m !! 0 = Some face ∧ length face = 3).
Proof.
  destruct (filterMeshes_spec sceneMeshes data) as (Hkeep & Hwarn & Hb & _).
  split; [done|]. split; [done|]. split; [done|].
  intros m Hm. rewrite Hkeep, list_elem_of_In, filter_In, <- list_elem_of_In.
  unfold passesFilter, HasFaces.
  destruct (mFaces m) as [|face faces] eqn:Hf; cbn.
  - split; [intros [_ [=]]|intros [? _]; done].
  - split.
    + intros [_ H3]. apply Nat.eqb_eq in H3. split; [done|]. by exists face.
    + intros [_ (face' & [= <-] & H3)]. split; [done|]. by apply Nat.eqb_eq.
Qed.

(** ** Parallel processing and sequential commit *)

Lemma logWarnings_builder (log : list string) : ∀ data,
  builder (foldl (λ d w, logWarning w d) data log) = builder data
  ∧ meshMap (foldl (λ d w, logWarning w d) data log) = meshMap data.
Proof.
  induction log as [|w log IH]; intros data; [done|]. cbn [foldl].
  destruct (IH (logWarning w data)) as [-> ->]. done.
Qed.

(** The commit appends the processed meshes in the order of the results
    collection and keys [meshMap] by the position in that collection. *)
Lemma commitMeshes_builder (pms : list ProcessedMesh) : ∀ i data,
  builder (commitMeshes pms i data)
  = set_meshes (sb_meshes (builder data) ++ pms) (builder data).
Proof.
  induction pms as [|pm pms IH]; intros i data.
  - cbn. rewrite app_nil_r. by destruct (builder data).
  - cbn [commitMeshes builder_addProcessedMesh]. rewrite IH.
    cbn. by rewrite <- app_assoc.
Qed.

Lemma commitMeshes_meshMap (pms : list ProcessedMesh) : ∀ i data k,
  meshMap (commitMeshes pms i data) !! k
  = if decide (i ≤ k < i + length pms)
    then Some (N.of_nat (length (sb_meshes (builder data)) + (k - i)))
    else meshMap data !! k.
Proof.
  induction pms as [|pm pms IH]; intros i data k.
  - cbn. case_decide; [lia|done].
  - cbn [commitMeshes builder_addProcessedMesh]. rewrite IH.
    cbn [set_meshMap set_builder meshMap builder sb_meshes length].
    rewrite length_app. cbn [length].
    destruct (decide (k = i)) as [->|Hne].
    + rewrite lookup_insert_eq. repeat case_decide; try lia.
      f_equal. f_equal. lia.
    + rewrite lookup_insert_ne by done. repeat case_decide; try lia; [|done].
      f_equal. f_equal. lia.
Qed.

Section Tasks.
Context (dbg : bool) (data : ImporterData) (meshes : list aiMesh).

Lemma runMeshTasks_ok (schedule : list nat) : ∀ slots log,
  (∀ i m, i ∈ schedule → meshes !! i = Some m → taskOk dbg data m) →
  ∃ log', runMeshTasks dbg data meshes schedule slots log
          = Ok (foldl (writeSlot dbg data meshes) slots schedule, log').
Proof.
  induction schedule as [|i schedule IH]; intros slots log Hok.
  - by exists log.
  - cbn [runMeshTasks foldl]. unfold writeSlot at 2.
    destruct (meshes !! i) as [m|] eqn:Hm.
    + destruct (Hok i m) as (pm & w & Hrun); [apply list_elem_of_here|done|].
      unfold pmOf. rewrite Hrun. cbn [mbind result_bind].
      apply IH. intros i' m' Hi'. apply Hok. by apply list_elem_of_further.
    + apply IH. intros i' m' Hi'. apply Hok. by apply list_elem_of_further.
Qed.

Lemma runMeshTasks_err (schedule : list nat) : ∀ slots log i m,
  i ∈ schedule → meshes !! i = Some m → taskErr dbg data m →
  ∃ e, runMeshTasks dbg data meshes schedule slots log = Err e.
Proof.
  induction schedule as [|i0 schedule IH]; intros slots log i m Hi Hm Herr.
  - by apply elem_of_nil in Hi.
  - cbn [runMeshTasks]. destruct (meshes !! i0) as [m0|] eqn:Hm0.
    + destruct (processMeshTask dbg data m0) as [[pm w]|e] eqn:Hrun;
        cbn [mbind result_bind]; [|by exists e].
      apply elem_of_cons in Hi as [->|Hi]; [|by eapply IH].
      destruct Herr as [e He]. congruence.
    + apply elem_of_cons in Hi as [->|Hi]; [congruence|by eapply IH].
Qed.

Lemma writeSlots_lookup (schedule : list nat) : ∀ slots k,
  length slots = length meshes →
  foldl (writeSlot dbg data meshes) slots schedule !! k
  = if decide (k ∈ schedule) then pmOf dbg data <$> meshes !! k else slots !! k.
Proof.
  induction schedule as [|i schedule IH]; intros slots k Hlen.
  - cbn. case_decide as H; [by apply elem_of_nil in H|done].
  - cbn [foldl]. rewrite IH.
    2:{ unfold writeSlot. destruct (meshes !! i); [by rewrite length_insert|done]. }
    destruct (decide (k ∈ schedule)) as [Hin|Hnin].
    + rewrite decide_True by (by apply list_elem_of_further). done.
    + destruct (decide (k = i)) as [->|Hne].
      * rewrite decide_True by apply list_elem_of_here. unfold writeSlot.
        destruct (meshes !! i) as [m|] eqn:Hm; cbn.
        -- apply list_lookup_insert_eq. rewrite Hlen. by eapply lookup_lt_Some.
        -- apply lookup_ge_None. rewrite Hlen. by apply lookup_ge_None.
      * rewrite decide_False by (rewrite elem_of_cons; tauto). unfold writeSlot.
        destruct (meshes !! i); [by rewrite list_lookup_insert_ne|done].
Qed.

(** Whatever the completion order, the results collection ends up holding
    the processed meshes in the order of [meshes]. *)
Lemma writeSlots_perm (schedule : list nat) :
  schedule ≡ₚ seq 0 (length meshes) →
  foldl (writeSlot dbg data meshes) (replicate (length meshes) ProcessedMesh_default)
    schedule
  = pmOf dbg data <$> meshes.
Proof.
  intros Hperm. apply list_eq. intros k.
  rewrite writeSlots_lookup by apply length_replicate.
  rewrite list_lookup_fmap. case_decide as Hin; [done|].
  rewrite Hperm, elem_of_seq in Hin.
  assert (Hk : length meshes ≤ k) by lia.
  rewrite (proj1 (lookup_replicate_None _ _ _) Hk).
  symmetry. by apply fmap_None, lookup_ge_None.
Qed.

Lemma tasks_ok_or_err :
  (∀ i m, meshes !! i = Some m → taskOk dbg data m)
  ∨ (∃ i m, meshes !! i = Some m ∧ taskErr dbg data m).
Proof.
  induction meshes as [|m ms IH] using rev_ind.
  - left. intros i m Hm. by rewrite lookup_nil in Hm.
  - destruct IH as [Hall|(i & m' & Hm' & Herr)].
    + destruct (processMeshTask dbg data m) as [[pm w]|e] eqn:Hrun.
      * left. intros i m' Hm'. apply lookup_app_Some in Hm' as [Hm'|[_ Hm']]; [eauto|].
        apply list_lookup_singleton_Some in Hm' as [_ <-]. by exists pm, w.
      * right. exists (length ms), m. split; [|by exists e].
        rewrite lookup_app_r by lia. by rewrite Nat.sub_diag.
    + right. exists i, m'. split; [|done]. apply lookup_app_Some. by left.
Qed.
End Tasks.

(** [createMeshes] under a schedule that runs every task once: either every
    task succeeds, and the builder receives the processed meshes in the order
    of the filtered list, with [meshMap] keyed by the position in that list;
    or some task fails, and so does [createMeshes]. *)
Lemma createMeshes_perm (dbg : bool) (data : ImporterData) (schedule : list nat) :
  let meshes := (filterMeshes (scene_mMeshes (pScene data)) data).1 in
  let data1 := (filterMeshes (scene_mMeshes (pScene data)) data).2 in
  schedule ≡ₚ seq 0 (length meshes) →
  ((∀ i m, meshes !! i = Some m → taskOk dbg data1 m)
   ∧ ∃ d, createMeshes dbg schedule data = Ok d
       ∧ builder d
         = set_meshes (sb_meshes (builder data) ++ (pmOf dbg data1 <$> meshes)) (builder data)
       ∧ ∀ k, meshMap d !! k
              = if decide (k < length meshes)
                then Some (N.of_nat (length (sb_meshes (builder data)) + k))
                else meshMap data !! k)
  ∨ ((∃ i m, meshes !! i = Some m ∧ taskErr dbg data1 m)
     ∧ ∃ e, createMeshes dbg schedule data = Err e).
Proof.
  intros meshes data1 Hperm. unfold createMeshes.
  destruct (filterMeshes_spec (scene_mMeshes (pScene data)) data) as (_ & _ & Hb & Hmm).
  fold data1 in Hb, Hmm.
  assert (Hpair : filterMeshes (scene_mMeshes (pScene data)) data = (meshes, data1))
    by (unfold meshes, data1; by destruct (filterMeshes _ _)).
  rewrite Hpair.
  destruct (tasks_ok_or_err dbg data1 meshes) as [Hok|(i & m & Hm & Herr)].
  - left. split; [done|].
    destruct (runMeshTasks_ok dbg data1 meshes schedule
                (replicate (length meshes) ProcessedMesh_default) [])
      as (log & ->); [eauto|].
    rewrite (writeSlots_perm _ _ _ _ Hperm). cbn [mbind result_bind].
    eexists. split; [reflexivity|].
    destruct (logWarnings_builder log data1) as [Hlb Hlm].
    split.
    + by rewrite commitMeshes_builder, Hlb, Hb.
    + intros k. rewrite commitMeshes_meshMap, Hlb, Hlm, Hb, Hmm, length_fmap.
      repeat case_decide; try lia; [|done]. do 3 f_equal. lia.
  - right. split; [by exists i, m|].
    destruct (runMeshTasks_err dbg data1 meshes schedule
                (replicate (length meshes) ProcessedMesh_default) [] i m)
      as (e & ->); [|done|done|by exists e].
    rewrite Hperm. apply elem_of_seq. apply lookup_lt_Some in Hm. lia.
Qed.

(** *** C5 *)

(** C5.  The processed meshes are committed after the parallel phase in the
    order of the results collection, which is the order of the filtered
    external mesh list.  Two runs whose tasks complete in different orders
    either both abort in a task, or both succeed and leave the same builder
    and the same [meshMap]: the committed meshes are the processed meshes in
    list order and their identifiers are consecutive. *)
Theorem C5_commit_independent_of_completion_order (dbg : bool) (data : ImporterData)
    (s1 s2 : list nat) :
  let meshes := (filterMeshes (scene_mMeshes (pScene data)) data).1 in
  let data1 := (filterMeshes (scene_mMeshes (pScene data)) data).2 in
  s1 ≡ₚ seq 0 (length meshes) →
  s2 ≡ₚ seq 0 (length meshes) →
  match createMeshes dbg s1 data, createMeshes dbg s2 data with
  | Ok d1, Ok d2 =>
      builder d1 = builder d2 ∧ meshMap d1 = meshMap d2
      ∧ sb_meshes (builder d1)
        = sb_meshes (builder data) ++ (pmOf dbg data1 <$> meshes)
      ∧ ∀ k, k < length meshes →
          meshMap d1 !! k = Some (N.of_nat (length (sb_meshes (builder data)) + k))
  | Err _, Err _ => True
  | _, _ => False
  end.
Proof.
  intros meshes data1 H1 H2.
  destruct (createMeshes_perm dbg data s1 H1)
    as [(Hok1 & d1 & -> & Hb1 & Hm1)|((i & m & Hm & Herr) & e1 & ->)];
    destruct (createMeshes_perm dbg data s2 H2)
      as [(Hok2 & d2 & -> & Hb2 & Hm2)|((i' & m' & Hm' & Herr') & e2 & ->)];
    try done.
  - split; [by rewrite Hb1, Hb2|]. split.
    + apply map_eq. intros k. by rewrite Hm1, Hm2.
    + split; [by rewrite Hb1|]. intros k Hk. rewrite Hm1.
      by rewrite decide_True.
  - destruct (Hok1 i' m' Hm') as (pm & w & Hrun). destruct Herr' as [e He]. congruence.
  - destruct (Hok2 i m Hm) as (pm & w & Hrun). destruct Herr as [e He]. congruence.
Qed.

(** The statement of C5 at the two-mesh scene, task 1 completing before task
    0 in one run and after it in the other. *)
Lemma C5_commit_independent_of_completion_order_witness :
  [1; 0] ≡ₚ seq 0 (length (filterMeshes (scene_mMeshes (pScene twoMeshData)) twoMeshData).1)
  ∧ [0; 1] ≡ₚ seq 0 (length (filterMeshes (scene_mMeshes (pScene twoMeshData)) twoMeshData).1)
  ∧ is_Ok (createMeshes true [1; 0] twoMeshData)
  ∧ match createMeshes true [1; 0] twoMeshData, createMeshes true [0; 1] twoMeshData with
    | Ok d1, Ok d2 =>
        builder d1 = builder d2 ∧ meshMap d1 = meshMap d2
        ∧ sb_meshes (builder d1)
          = sb_meshes (builder twoMeshData)
            ++ (pmOf true (filterMeshes (scene_mMeshes (pScene twoMeshData)) twoMeshData).2
                  <$> (filterMeshes (scene_mMeshes (pScene twoMeshData)) twoMeshData).1)
        ∧ ∀ k, k < length (filterMeshes (scene_mMeshes (pScene twoMeshData)) twoMeshData).1 →
            meshMap d1 !! k
            = Some (N.of_nat (length (sb_meshes (builder twoMeshData)) + k))
    | Err _, Err _ => True
    | _, _ => False
    end.
Proof.
  assert (H1 : [1; 0] ≡ₚ seq 0 (length (filterMeshes (scene_mMeshes (pScene twoMeshData))
                                         twoMeshData).1))
    by (vm_compute; apply perm_swap).
  assert (H2 : [0; 1] ≡ₚ seq 0 (length (filterMeshes (scene_mMeshes (pScene twoMeshData))
                                         twoMeshData).1))
    by (vm_compute; reflexivity).
  split; [exact H1|]. split; [exact H2|].
  split; [eexists; vm_compute; reflexivity|].
  exact (C5_commit_independent_of_completion_order true twoMeshData [1; 0] [0; 1] H1 H2).
Defined.

(** *** C10 *)

(** C10 (the code departs from the claim).  The claim: [meshMap] is keyed by
    the original external mesh index, so a node binds the processed version
    of the mesh it references.  The commit loop counts the meshes that passed
    the filter, so [meshMap] is keyed by the position in the filtered list.
    In a scene of meshes "a" (no faces), "b", "c" whose root references
    external mesh 1, "b", the root is bound to mesh identifier 1, which is the
    processed "c".  In a scene of meshes "a" (no faces) and "b" whose root
    references external mesh 1, the lookup [meshMap.at(1)] fails. *)
Theorem C10_meshMap_keyed_by_filtered_position :
  (∃ d, import false [0; 1] skippedFirstScene SceneBuilder_empty [] Default = Ok d
        ∧ mesh_mName <$> scene_mMeshes skippedFirstScene !! 1 = Some "b"
        ∧ meshMap d !! 1 = Some 1%N
        ∧ sb_meshInstances (builder d) = [(0%N, 1%N)]
        ∧ pm_name <$> sb_meshes (builder d) !! 1 = Some "c"
        ∧ pm_name <$> sb_meshes (builder d) !! 0 = Some "b")
  ∧ import false [0] skippedFirstLastScene SceneBuilder_empty [] Default = Err OutOfRange.
Proof.
  split; [|vm_compute; reflexivity].
  destruct (import false [0; 1] skippedFirstScene SceneBuilder_empty [] Default)
    as [d|e] eqn:E; [|vm_compute in E; discriminate].
  exists d. split; [reflexivity|]. split; [reflexivity|].
  revert E. vm_compute. intros [= <-]. repeat split; reflexivity.
Qed.

(** ** Instance expansion *)

Lemma instanceNodes_length (nodeID : NodeID) (instances : list mat4) : ∀ i,
  length (instanceNodes nodeID i instances) = length (List.filter nonIdentity instances).
Proof.
  induction instances as [|m rest IH]; intros i; [done|]. cbn -[nonIdentity].
  destruct (nonIdentity m); cbn -[nonIdentity]; by rewrite IH.
Qed.

Lemma instanceBindings_length (nodeID : NodeID) (meshID : MeshID) (instances : list mat4) :
  ∀ next, length (instanceBindings nodeID meshID next instances) = length instances.
Proof.
  induction instances as [|m rest IH]; intros next; [done|]. cbn -[nonIdentity].
  destruct (nonIdentity m); cbn -[nonIdentity]; by rewrite IH.
Qed.

Lemma instanceNodes_elem (nodeID : NodeID) (instances : list mat4) : ∀ i n,
  n ∈ instanceNodes nodeID i instances →
  ∃ j, instances !! j = Some (n_transform n) ∧ n = instanceNode nodeID (i + j) (n_transform n)
       ∧ nonIdentity (n_transform n) = true.
Proof.
  induction instances as [|m rest IH]; intros i n Hn; [by apply elem_of_nil in Hn|].
  cbn -[nonIdentity] in Hn. destruct (nonIdentity m) eqn:Hm.
  - apply elem_of_cons in Hn as [->|Hn].
    + exists 0. cbn -[nonIdentity]. by rewrite Nat.add_0_r.
    + destruct (IH _ _ Hn) as (j & Hj & Heq & Hni). exists (S j). cbn -[nonIdentity].
      by rewrite Nat.add_succ_r.
  - destruct (IH _ _ Hn) as (j & Hj & Heq & Hni). exists (S j). cbn -[nonIdentity].
    by rewrite Nat.add_succ_r.
Qed.

(** Instance [j] of a mesh: an identity transform binds the mesh to the node
    itself, any other transform binds it to the node spawned for it. *)
Lemma instanceBindings_lookup (nodeID : NodeID) (meshID : MeshID) (instances : list mat4) :
  ∀ i next j m, instances !! j = Some m →
    ∃ bound, instanceBindings nodeID meshID next instances !! j = Some (bound, meshID)
      ∧ if nonIdentity m
        then ∃ p, bound = N.of_nat (next + p)
                  ∧ instanceNodes nodeID i instances !! p
                    = Some (instanceNode nodeID (i + j) m)
        else bound = nodeID.
Proof.
  induction instances as [|m0 rest IH]; intros i next j m Hj; [by rewrite lookup_nil in Hj|].
  destruct j as [|j]; cbn -[nonIdentity] in Hj.
  - injection Hj as ->. cbn -[nonIdentity]. destruct (nonIdentity m) eqn:Hm; cbn -[nonIdentity].
    + eexists. split; [done|]. exists 0. by rewrite !Nat.add_0_r.
    + eexists. split; done.
  - cbn -[nonIdentity]. destruct (nonIdentity m0) eqn:Hm0; cbn -[nonIdentity].
    + destruct (IH (S i) (S next) j m Hj) as (bound & Hb & Hcase).
      exists bound. split; [done|]. destruct (nonIdentity m); [|done].
      destruct Hcase as (p & -> & Hp). exists (S p). cbn -[nonIdentity].
      rewrite Nat.add_succ_r. split; [done|]. by rewrite Nat.add_succ_r, <- Nat.add_succ_l.
    + destruct (IH (S i) next j m Hj) as (bound & Hb & Hcase).
      exists bound. split; [done|]. destruct (nonIdentity m); [|done].
      destruct Hcase as (p & -> & Hp). exists p.
      split; [done|]. by rewrite Nat.add_succ_r, <- Nat.add_succ_l.
Qed.

(** The loop over the transforms, for one mesh of a node. *)
Lemma addInstances_spec (nodeID : NodeID) (meshID : MeshID) (instances : list mat4) :
  ∀ i b,
    addInstances nodeID meshID i instances b
    = {| sb_nodes := sb_nodes b ++ instanceNodes nodeID i instances;
         sb_meshes := sb_meshes b;
         sb_meshInstances :=
           sb_meshInstances b
             ++ instanceBindings nodeID meshID (length (sb_nodes b)) instances;
         sb_animations := sb_animations b |}.
Proof.
  induction instances as [|m rest IH]; intros i b.
  - cbn. rewrite !app_nil_r. by destruct b.
  - cbn [addInstances instanceNodes instanceBindings]. unfold nonIdentity.
    destruct (mat_neqb m mat4_identity);
      cbn [builder_addNode]; rewrite IH; unfold builder_addMeshInstance;
      cbn [sb_nodes sb_meshes sb_meshInstances sb_animations].
    + rewrite length_app. cbn [length]. rewrite Nat.add_1_r, <- !app_assoc. done.
    + rewrite <- !app_assoc. done.
Qed.

(** The loop over the meshes of a node, with at least one requested
    transform. *)
Lemma addNodeMeshInstances_spec (nodeID : NodeID) (nodeMeshes : list nat) :
  ∀ meshIDs data,
    modelInstances data ≠ [] →
    Forall2 (λ mesh meshID, meshMap data !! mesh = Some meshID) nodeMeshes meshIDs →
    ∃ data', addNodeMeshInstances nodeID nodeMeshes data = Ok data'
      ∧ sb_nodes (builder data')
        = sb_nodes (builder data)
          ++ mjoin (replicate (length nodeMeshes)
                      (instanceNodes nodeID 0 (modelInstances data)))
      ∧ sb_meshInstances (builder data')
        = sb_meshInstances (builder data)
          ++ nodeBindings nodeID (length (sb_nodes (builder data)))
               (length (List.filter nonIdentity (modelInstances data)))
               (modelInstances data) meshIDs.
Proof.
  induction nodeMeshes as [|mesh rest IH]; intros meshIDs data Hne Hids.
  - apply Forall2_nil_inv_l in Hids as ->. exists data. cbn. by rewrite !app_nil_r.
  - apply Forall2_cons_inv_l in Hids as (meshID & ids & Hid & Hids & ->).
    cbn [addNodeMeshInstances]. rewrite Hid. cbn [mbind result_bind].
    assert (Hlen : negb (Nat.eqb (length (modelInstances data)) 0) = true).
    { destruct (modelInstances data); [done|reflexivity]. }
    rewrite Hlen, addInstances_spec.
    edestruct (IH ids) as (data' & -> & Hn & Hb); [| |eexists; split; [reflexivity|]].
    + done.
    + exact Hids.
    + cbn [builder set_builder sb_nodes sb_meshInstances modelInstances] in *.
      rewrite Hn, Hb. cbn [length replicate mjoin list_join nodeBindings].
      rewrite length_app, instanceNodes_length, <- !app_assoc. done.
Qed.

Lemma join_replicate_length {A : Type} (l : list A) (M : nat) :
  length (mjoin (replicate M l)) = M * length l.
Proof.
  induction M as [|M IH]; [done|].
  change (mjoin (replicate (S M) l)) with (l ++ mjoin (replicate M l)).
  by rewrite length_app, IH.
Qed.

Lemma join_replicate_lookup {A : Type} (l : list A) : ∀ M r p,
  r < M → p < length l → mjoin (replicate M l) !! (r * length l + p) = l !! p.
Proof.
  induction M as [|M IH]; intros r p Hr Hp; [lia|].
  change (mjoin (replicate (S M) l)) with (l ++ mjoin (replicate M l)).
  destruct r as [|r].
  - by rewrite lookup_app_l.
  - rewrite lookup_app_r by lia.
    replace (S r * length l + p - length l) with (r * length l + p) by lia.
    apply IH; lia.
Qed.

Lemma join_replicate_elem {A : Type} (l : list A) (M : nat) (x : A) :
  x ∈ mjoin (replicate M l) → x ∈ l.
Proof.
  induction M as [|M IH]; [by intros ?%elem_of_nil|].
  change (mjoin (replicate (S M) l)) with (l ++ mjoin (replicate M l)).
  rewrite elem_of_app. intros [?|?]; auto.
Qed.

Lemma nodeBindings_length (nodeID : NodeID) (K : nat) (instances : list mat4) :
  ∀ meshIDs next,
    length (nodeBindings nodeID next K instances meshIDs)
    = length instances * length meshIDs.
Proof.
  induction meshIDs as [|meshID rest IH]; intros next; cbn; [lia|].
  rewrite length_app, instanceBindings_length, IH. lia.
Qed.

Lemma nodeBindings_lookup (nodeID : NodeID) (K : nat) (instances : list mat4) :
  ∀ meshIDs next r meshID j,
    meshIDs !! r = Some meshID → j < length instances →
    nodeBindings nodeID next K instances meshIDs !! (r * length instances + j)
    = instanceBindings nodeID meshID (next + r * K) instances !! j.
Proof.
  induction meshIDs as [|meshID0 rest IH]; intros next r meshID j Hr Hj;
    [by rewrite lookup_nil in Hr|].
  cbn [nodeBindings]. destruct r as [|r]; cbn in Hr.
  - injection Hr as ->. rewrite lookup_app_l by (by rewrite instanceBindings_length).
    by rewrite Nat.add_0_r.
  - rewrite lookup_app_r by (rewrite instanceBindings_length; lia).
    rewrite instanceBindings_length.
    replace (S r * length instances + j - length instances)
      with (r * length instances + j) by lia.
    rewrite (IH (next + K) r meshID j Hr Hj). do 2 f_equal. lia.
Qed.

Lemma addMeshInstances_unfold (pNode : aiNode) (data : ImporterData) :
  addMeshInstances pNode data
  = (nodeID ← getFalcorNodeID_node data (mAddr pNode);
     data ← addNodeMeshInstances nodeID (mMeshes pNode) data;
     forEach addMeshInstances (mChildren pNode) data).
Proof. by destruct pNode. Qed.

(** *** C6 *)

(** C6.  [addMeshInstances] runs, for every node, the loop over the node's
    meshes with the node's identifier.  With N >= 1 requested transforms (the
    claim's N >= 2 included) of which K are not the identity, and every mesh
    reference of the node resolved by [meshMap], that loop succeeds; it adds
    exactly K nodes and N bindings per mesh reference and leaves the earlier
    nodes and bindings in place; every added node is a child of the node,
    carries a requested transform that is not the identity, and is named from
    the node's identifier and the index of that transform; and instance [j] of
    mesh reference [r] is bound to the node itself when its transform is the
    identity, and to the node added for it otherwise. *)
Theorem C6_instance_expansion (pNode : aiNode) (nodeID : NodeID) (meshIDs : list MeshID)
    (data : ImporterData) :
  let instances := modelInstances data in
  let count := length instances in
  let K := length (List.filter nonIdentity instances) in
  let nodes0 := sb_nodes (builder data) in
  let bindings0 := sb_meshInstances (builder data) in
  1 ≤ count →
  getFalcorNodeID_node data (mAddr pNode) = Ok nodeID →
  Forall2 (λ mesh meshID, meshMap data !! mesh = Some meshID) (mMeshes pNode) meshIDs →
  ∃ data',
    addNodeMeshInstances nodeID (mMeshes pNode) data = Ok data'
    ∧ addMeshInstances pNode data = forEach addMeshInstances (mChildren pNode) data'
    ∧ length (sb_nodes (builder data')) = length nodes0 + K * length (mMeshes pNode)
    ∧ length (sb_meshInstances (builder data'))
      = length bindings0 + count * length (mMeshes pNode)
    ∧ take (length nodes0) (sb_nodes (builder data')) = nodes0
    ∧ take (length bindings0) (sb_meshInstances (builder data')) = bindings0
    ∧ (∀ n, n ∈ drop (length nodes0) (sb_nodes (builder data')) →
         ∃ j, instances !! j = Some (n_transform n)
              ∧ nonIdentity (n_transform n) = true
              ∧ n_parent n = nodeID
              ∧ n_name n = instanceNodeName nodeID j)
    ∧ (∀ r meshID j m,
         meshIDs !! r = Some meshID → instances !! j = Some m →
         ∃ bound,
           sb_meshInstances (builder data') !! (length bindings0 + r * count + j)
             = Some (bound, meshID)
           ∧ if nonIdentity m
             then length nodes0 ≤ N.to_nat bound
                  ∧ sb_nodes (builder data') !! N.to_nat bound
                    = Some (instanceNode nodeID j m)
             else bound = nodeID).
Proof.
  cbv zeta. intros HN Hnode Hids.
  assert (Hne : modelInstances data ≠ []).
  { intros Heq. rewrite Heq in HN. cbn in HN. lia. }
  destruct (addNodeMeshInstances_spec nodeID (mMeshes pNode) meshIDs data Hne Hids)
    as (data' & Hrun & Hn & Hb).
  pose proof (Forall2_length _ _ _ Hids) as HlenM.
  exists data'. split; [exact Hrun|]. split.
  { rewrite addMeshInstances_unfold, Hnode. cbn [mbind result_bind]. by rewrite Hrun. }
  split.
  { rewrite Hn, length_app, join_replicate_length, instanceNodes_length. lia. }
  split.
  { rewrite Hb, length_app, nodeBindings_length. lia. }
  split; [by rewrite Hn, take_app_length|].
  split; [by rewrite Hb, take_app_length|].
  split.
  - intros n Hin. rewrite Hn, drop_app_length in Hin.
    apply join_replicate_elem, instanceNodes_elem in Hin as (j & Hj & Heq & Hni).
    exists j. split; [done|]. split; [done|]. rewrite Heq. done.
  - intros r meshID j m Hr Hj.
    assert (HjN : j < length (modelInstances data)) by (by eapply lookup_lt_Some).
    destruct (instanceBindings_lookup nodeID meshID (modelInstances data) 0
                (length (sb_nodes (builder data))
                 + r * length (List.filter nonIdentity (modelInstances data))) j m Hj)
      as (bound & Hbound & Hcase).
    exists bound. split.
    + rewrite Hb, lookup_app_r by lia.
      replace (length (sb_meshInstances (builder data))
               + r * length (modelInstances data) + j
               - length (sb_meshInstances (builder data)))
        with (r * length (modelInstances data) + j) by lia.
      by rewrite (nodeBindings_lookup nodeID _ (modelInstances data) meshIDs _ r meshID j
                    Hr HjN).
    + destruct (nonIdentity m); [|done].
      destruct Hcase as (p & -> & Hp). rewrite Nat2N.id. split; [lia|].
      assert (HpK : p < length (instanceNodes nodeID 0 (modelInstances data)))
        by (by eapply lookup_lt_Some).
      rewrite Hn, lookup_app_r by lia.
      replace (length (sb_nodes (builder data))
               + r * length (List.filter nonIdentity (modelInstances data)) + p
               - length (sb_nodes (builder data)))
        with (r * length (instanceNodes nodeID 0 (modelInstances data)) + p)
        by (rewrite instanceNodes_length; lia).
      rewrite join_replicate_lookup; [done| |done].
      apply lookup_lt_Some in Hr. lia.
Qed.

(** The statement of C6 at a node with two meshes and three requested
    transforms, the second being the identity: two nodes are added per mesh,
    and the second instance of each mesh is bound to the node itself. *)
Lemma C6_instance_expansion_witness :
  1 ≤ length (modelInstances expandData)
  ∧ getFalcorNodeID_node expandData (mAddr (rootWithMeshes [0; 1])) = Ok 0%N
  ∧ Forall2 (λ mesh meshID, meshMap expandData !! mesh = Some meshID)
      (mMeshes (rootWithMeshes [0; 1])) [0%N; 1%N]
  ∧ length (List.filter nonIdentity (modelInstances expandData)) = 2
  ∧ ∃ data',
      addNodeMeshInstances 0%N (mMeshes (rootWithMeshes [0; 1])) expandData = Ok data'
      ∧ length (sb_nodes (builder data'))
        = length (sb_nodes (builder expandData))
          + length (List.filter nonIdentity (modelInstances expandData))
            * length (mMeshes (rootWithMeshes [0; 1]))
      ∧ length (sb_meshInstances (builder data'))
        = length (sb_meshInstances (builder expandData))
          + length (modelInstances expandData) * length (mMeshes (rootWithMeshes [0; 1]))
      ∧ sb_meshInstances (builder data')
        = [(1%N, 0%N); (0%N, 0%N); (2%N, 0%N); (3%N, 1%N); (0%N, 1%N); (4%N, 1%N)]
      ∧ n_name <$> sb_nodes (builder data')
        = ["root"; "Node0.instance0"; "Node0.instance2";
           "Node0.instance0"; "Node0.instance2"].
Proof.
  assert (H1 : 1 ≤ length (modelInstances expandData)) by (cbn; lia).
  assert (H2 : getFalcorNodeID_node expandData (mAddr (rootWithMeshes [0; 1])) = Ok 0%N)
    by (vm_compute; reflexivity).
  assert (H3 : Forall2 (λ mesh meshID, meshMap expandData !! mesh = Some meshID)
                 (mMeshes (rootWithMeshes [0; 1])) [0%N; 1%N])
    by (repeat constructor; vm_compute; reflexivity).
  split; [exact H1|]. split; [exact H2|]. split; [exact H3|].
  split; [vm_compute; reflexivity|].
  destruct (C6_instance_expansion (rootWithMeshes [0; 1]) 0%N [0%N; 1%N] expandData
              H1 H2 H3) as (data' & Hrun & _ & Hnodes & Hbind & _).
  exists data'. split; [exact Hrun|]. split; [exact Hnodes|]. split; [exact Hbind|].
  revert Hrun. vm_compute. intros [= <-]. split; reflexivity.
Defined.

(** ** Bone validation *)

Lemma Qeq_bool_sym (x y : Q) : Qeq_bool x y = Qeq_bool y x.
Proof.
  destruct (Qeq_bool x y) eqn:E1, (Qeq_bool y x) eqn:E2; try done.
  - apply Qeq_bool_iff in E1. symmetry in E1. apply Qeq_bool_iff in E1. congruence.
  - apply Qeq_bool_iff in E2. symmetry in E2. apply Qeq_bool_iff in E2. congruence.
Qed.

Lemma feqb_sym (a b : float) : feqb a b = feqb b a.
Proof.
  destruct a as [x|s|], b as [y|t|]; try done; simpl.
  - apply Qeq_bool_sym.
  - by destruct s, t.
Qed.

Lemma feqb_trans (a b c : float) : feqb a b = true → feqb b c = true → feqb a c = true.
Proof.
  destruct a as [x|s|], b as [y|t|], c as [z|u|]; try done; simpl.
  - intros H1%Qeq_bool_iff H2%Qeq_bool_iff. apply Qeq_bool_iff. by rewrite H1.
  - by destruct s, t, u.
Qed.

Lemma mat_eqb_sym (a : list float) : ∀ b, mat_eqb a b = mat_eqb b a.
Proof.
  induction a as [|x a IH]; intros [|y b]; try done. simpl.
  by rewrite feqb_sym, IH.
Qed.

Lemma mat_eqb_trans (a : list float) : ∀ b c,
  mat_eqb a b = true → mat_eqb b c = true → mat_eqb a c = true.
Proof.
  induction a as [|x a IH]; intros [|y b] [|z c]; try done. simpl.
  intros [H1 H2]%andb_true_iff [H3 H4]%andb_true_iff. apply andb_true_iff.
  split; [by eapply feqb_trans|by eapply IH].
Qed.

Section Validate.
Context (mi : list (list aiNode)).

Lemma sameNodeTransform_sym (m1 m2 : nat) :
  sameNodeTransform mi m1 m2 → sameNodeTransform mi m2 m1.
Proof. intros H n2 n1 H2 H1. rewrite mat_eqb_sym. by apply H. Qed.

Lemma sameNodeTransform_trans (m1 m2 m3 : nat) :
  singlyAttached mi m2 →
  sameNodeTransform mi m1 m2 → sameNodeTransform mi m2 m3 → sameNodeTransform mi m1 m3.
Proof.
  intros Hs H12 H23 n1 n3 H1 H3.
  destruct (lookup_lt_is_Some_2 (instancesOf mi m2) 0) as [n2 H2];
    [unfold singlyAttached in Hs; lia|].
  eapply mat_eqb_trans; [by eapply H12|by eapply H23].
Qed.

(** The inner loop accepts exactly the chains of singly attached meshes
    whose consecutive nodes carry equal matrices; otherwise it throws one of
    the two named errors. *)
Lemma validateBone_spec (bone : string) (meshes : list nat) : ∀ prev,
  (validateBone bone mi prev meshes = Ok tt ∧ chainOk mi prev meshes)
  ∨ (¬ chainOk mi prev meshes
     ∧ (validateBone bone mi prev meshes = Err (ImporterError (multipleInstances bone))
        ∨ validateBone bone mi prev meshes
          = Err (ImporterError (differentWorldMatrices bone)))).
Proof.
  induction meshes as [|mesh rest IH]; intros prev; [by left|].
  cbn [validateBone chainOk]. fold (instancesOf mi mesh).
  destruct (Nat.eqb (length (instancesOf mi mesh)) 1) eqn:Hlen; cbn [negb].
  2:{ right. apply Nat.eqb_neq in Hlen. split; [|by left]. by intros [? _]. }
  apply Nat.eqb_eq in Hlen. cbn [mbind result_bind].
  assert (Hcmp :
    (match prev with
     | Some mesh' =>
         match instancesOf mi mesh !! 0, default [] (mi !! mesh') !! 0 with
         | Some node, Some node' =>
             if mat_neqb (mTransformation node) (mTransformation node')
             then Err (ImporterError (differentWorldMatrices bone)) else Ok tt
         | _, _ => Ok tt
         end
     | None => Ok tt
     end = Ok tt
     ∧ match prev with
       | Some mesh' => sameNodeTransform mi mesh mesh'
       | None => True
       end)
    ∨ (match prev with
       | Some mesh' =>
           match instancesOf mi mesh !! 0, default [] (mi !! mesh') !! 0 with
           | Some node, Some node' =>
               if mat_neqb (mTransformation node) (mTransformation node')
               then Err (ImporterError (differentWorldMatrices bone)) else Ok tt
           | _, _ => Ok tt
           end
       | None => Ok tt
       end = Err (ImporterError (differentWorldMatrices bone))
       ∧ ¬ match prev with
           | Some mesh' => sameNodeTransform mi mesh mesh'
           | None => True
           end)).
  { destruct prev as [mesh'|]; [|by left]. fold (instancesOf mi mesh').
    unfold sameNodeTransform.
    destruct (instancesOf mi mesh !! 0) as [node|]; [|left; split; [done|intros ?? [=]]].
    destruct (instancesOf mi mesh' !! 0) as [node'|]; [|left; split; [done|intros ?? _ [=]]].
    unfold mat_neqb.
    destruct (mat_eqb (mTransformation node) (mTransformation node')) eqn:Heq; cbn [negb].
    - left. split; [done|]. by intros ?? [= <-] [= <-].
    - right. split; [done|]. intros H. specialize (H _ _ eq_refl eq_refl). congruence. }
  destruct Hcmp as [[-> Hsame]|[-> Hdiff]]; cbn [mbind result_bind].
  - destruct (IH (Some mesh)) as [[-> Hchain]|[Hno Herr]].
    + left. done.
    + right. split; [|done]. by intros (_ & _ & ?).
  - right. split; [|by right]. by intros (_ & ? & _).
Qed.

Lemma pairwiseSameTransform_cons (m : nat) (l : list nat) :
  pairwiseSameTransform mi (m :: l)
  ↔ (∀ x, x ∈ l → sameNodeTransform mi m x) ∧ pairwiseSameTransform mi l.
Proof.
  unfold pairwiseSameTransform. split.
  - intros H. split.
    + intros x [j Hj]%list_elem_of_lookup. apply (H 0 (S j)); [lia|done|done].
    + intros i j m1 m2 Hij H1 H2. apply (H (S i) (S j)); [lia|done|done].
  - intros [Hhd Htl] i j m1 m2 Hij H1 H2. destruct j as [|j]; [lia|].
    cbn in H2. destruct i as [|i]; cbn in H1.
    + injection H1 as <-. apply Hhd. by eapply list_elem_of_lookup_2.
    + apply (Htl i j); [lia|done|done].
Qed.

Lemma chainOk_pairwise (l : list nat) : ∀ p,
  singlyAttached mi p →
  (chainOk mi (Some p) l
   ↔ Forall (singlyAttached mi) l ∧ pairwiseSameTransform mi (p :: l)).
Proof.
  induction l as [|m rest IH]; intros p Hp.
  - cbn. split; [|done]. intros _. split; [done|].
    intros i j m1 m2 Hij H1 H2. destruct j as [|j]; [lia|]. by destruct j.
  - cbn [chainOk]. rewrite Forall_cons, pairwiseSameTransform_cons. split.
    + intros (Hm & Hsame & Hchain). apply (IH m Hm) in Hchain as [Hall Hpw].
      split; [done|]. split; [|done].
      intros x [->|Hx]%elem_of_cons; [by apply sameNodeTransform_sym|].
      apply pairwiseSameTransform_cons in Hpw as [Hhd _].
      eapply sameNodeTransform_trans; [exact Hm|by apply sameNodeTransform_sym|by apply Hhd].
    + intros ([Hm Hall] & Hhd & Hpw). split; [done|]. split.
      * apply sameNodeTransform_sym, Hhd, list_elem_of_here.
      * by apply (IH m Hm).
Qed.

Lemma chainOk_boneOk (l : list nat) : chainOk mi None l ↔ boneOk mi l.
Proof.
  unfold boneOk. destruct l as [|m rest].
  - cbn. split; [|done]. intros _. split; [done|].
    intros i j m1 m2 _ H1. by rewrite lookup_nil in H1.
  - cbn [chainOk]. rewrite Forall_cons. split.
    + intros (Hm & _ & Hchain). apply (chainOk_pairwise rest m Hm) in Hchain. tauto.
    + intros ([Hm Hall] & Hpw). split; [done|]. split; [done|].
      by apply (chainOk_pairwise rest m Hm).
Qed.

Lemma validateBonesLoop_spec (boneMap : list (string * list nat)) :
  (validateBonesLoop mi boneMap = Ok tt ∧ Forall (λ b, boneOk mi b.2) boneMap)
  ∨ (¬ Forall (λ b, boneOk mi b.2) boneMap
     ∧ ∃ bone, bone ∈ boneMap.*1
         ∧ (validateBonesLoop mi boneMap = Err (ImporterError (multipleInstances bone))
            ∨ validateBonesLoop mi boneMap
              = Err (ImporterError (differentWorldMatrices bone)))).
Proof.
  induction boneMap as [|[bone meshes] rest IH]; [by left|].
  cbn [validateBonesLoop].
  destruct (validateBone_spec bone meshes None) as [[-> Hchain]|[Hno Herr]].
  - cbn [mbind result_bind]. apply chainOk_boneOk in Hchain.
    destruct IH as [[-> Hall]|(Hno & bone' & Hin & Herr)].
    + left. split; [done|]. by constructor.
    + right. split; [by intros [_ ?]%Forall_cons|].
      exists bone'. split; [|done]. rewrite fmap_cons. by apply list_elem_of_further.
  - right. split.
    + intros [Hok _]%Forall_cons. by apply Hno, chainOk_boneOk.
    + exists bone. split; [rewrite fmap_cons; apply list_elem_of_here|].
      destruct Herr as [Herr|Herr]; rewrite Herr; cbn [mbind result_bind]; auto.
Qed.
End Validate.

(** *** C4 *)

(** C4, as stated, fails: in a scene whose only skinned mesh is referenced by
    no node, no bone-affected mesh is attached to more than one node and no
    two instances differ, and validation throws all the same. *)
Lemma C4_unattached_skinned_mesh_rejected :
  ¬ validatesAsStated unattachedSkinData.
Proof.
  intros [_ H].
  assert (Hmap : createBoneMap (pScene unattachedSkinData) = [("joint", [0])])
    by (vm_compute; reflexivity).
  assert (Hinst : ∀ mesh, mesh ∈ [0] →
            instancesOf (countMeshInstances (pScene unattachedSkinData)) mesh = []).
  { intros mesh ->%list_elem_of_singleton. vm_compute. reflexivity. }
  assert (Hrun : validateBones unattachedSkinData
                 = Err (ImporterError "Bone joint references a mesh with multiple instances."))
    by (vm_compute; reflexivity).
  rewrite H in Hrun; [discriminate| |].
  - intros (bone & meshes & mesh & Hb & Hm & Hlen). rewrite Hmap in Hb.
    apply list_elem_of_singleton in Hb. injection Hb as -> ->.
    rewrite (Hinst mesh Hm) in Hlen. cbn in Hlen. lia.
  - intros (bone & meshes & mesh & n1 & n2 & w1 & w2 & Hb & Hm & Hn1 & _).
    rewrite Hmap in Hb.
    apply list_elem_of_singleton in Hb. injection Hb as -> ->.
    rewrite (Hinst mesh Hm) in Hn1. by apply elem_of_nil in Hn1.
Qed.

(** C4 (amended).  Validation runs before any graph or mesh construction: an
    error it throws is the result of the import.  It throws one of two named
    errors, naming a bone of the scene: when some bone references a mesh that
    is not attached to exactly one node (several nodes, or none), or when two
    meshes of the same bone are attached to nodes whose own transformation
    matrices differ.  On every other scene, and only there, it raises no
    error. *)
Theorem C4_validation_accepts_exactly (dbg : bool) (schedule : list nat) (s : aiScene)
    (b : SceneBuilder) (instances : list mat4) (mode : ImportMode) :
  let data := ImporterData_new s b instances in
  let mi := countMeshInstances s in
  (validateBones data = Ok tt ↔ Forall (λ bm, boneOk mi bm.2) (createBoneMap s))
  ∧ (validateBones data = Ok tt
     ∨ ∃ bone, bone ∈ (createBoneMap s).*1
         ∧ (validateBones data = Err (ImporterError (multipleInstances bone))
            ∨ validateBones data = Err (ImporterError (differentWorldMatrices bone))))
  ∧ (∀ bone meshes mesh,
       (bone, meshes) ∈ createBoneMap s → mesh ∈ meshes →
       length (instancesOf mi mesh) ≠ 1 →
       ∃ msg, validateBones data = Err (ImporterError msg))
  ∧ (∀ bone meshes i j m1 m2 n1 n2,
       (bone, meshes) ∈ createBoneMap s →
       i < j → meshes !! i = Some m1 → meshes !! j = Some m2 →
       instancesOf mi m1 !! 0 = Some n1 → instancesOf mi m2 !! 0 = Some n2 →
       mat_neqb (mTransformation n1) (mTransformation n2) = true →
       ∃ msg, validateBones data = Err (ImporterError msg))
  ∧ (∀ e, validateBones data = Err e →
       import dbg schedule s b instances mode = Err e).
Proof.
  intros data mi.
  assert (Hspec := validateBonesLoop_spec mi (createBoneMap s)).
  assert (Hvb : validateBones data = validateBonesLoop mi (createBoneMap s)) by done.
  rewrite Hvb.
  assert (Hbad : ¬ Forall (λ bm, boneOk mi bm.2) (createBoneMap s) →
                 ∃ msg, validateBonesLoop mi (createBoneMap s) = Err (ImporterError msg)).
  { intros Hno. destruct Hspec as [[_ Hall]|(_ & bone & _ & [Herr|Herr])]; [done| |]; eauto. }
  split; [|split; [|split; [|split]]].
  - destruct Hspec as [[Hrun Hall]|(Hno & bone & _ & [Herr|Herr])]; split; try done;
      rewrite Herr; discriminate.
  - destruct Hspec as [[Hrun Hall]|(Hno & bone & Hin & Herr)]; [by left|right; eauto].
  - intros bone meshes mesh Hbm Hmesh Hlen. apply Hbad. intros Hall.
    apply (proj1 (Forall_forall _ _) Hall) in Hbm as [Hsingle _]. cbn in Hsingle.
    by apply (proj1 (Forall_forall _ _) Hsingle) in Hmesh.
  - intros bone meshes i j m1 m2 n1 n2 Hbm Hij H1 H2 Hn1 Hn2 Hneq. apply Hbad. intros Hall.
    apply (proj1 (Forall_forall _ _) Hall) in Hbm as [_ Hpw]. cbn in Hpw.
    specialize (Hpw i j m1 m2 Hij H1 H2 n1 n2 Hn1 Hn2).
    unfold mat_neqb in Hneq. rewrite Hpw in Hneq. discriminate.
  - intros e He. unfold import, validateScene. fold data.
    assert (Hvb' : ∀ d, pScene d = s → validateBones d = validateBonesLoop mi (createBoneMap s)).
    { intros d Hd. unfold validateBones. by rewrite Hd. }
    rewrite (Hvb' (if negb (Nat.eqb (mNumTextures (pScene data)) 0) then _ else data)), He;
      [done|]. by destruct (negb _).
Qed.

(** Two singly attached meshes that share a bone, on nodes with different
    matrices, are rejected with the second error. *)
Example validateBones_sharedBoneScene :
  validateBones (ImporterData_new sharedBoneScene SceneBuilder_empty [])
  = Err (ImporterError
           "Bone joint is contained within mesh instances with different world matrices.").
Proof. vm_compute. reflexivity. Qed.

(** * Further properties of the importer *)

Lemma FALCOR_ASSERT_holds (dbg c : bool) :
  (dbg = true → c = true) → FALCOR_ASSERT dbg c = Ok tt.
Proof. unfold FALCOR_ASSERT. destruct dbg, c; naive_solver. Qed.

Lemma FALCOR_ASSERT_fails (c : bool) :
  c = false → FALCOR_ASSERT true c = Err AssertFailure.
Proof. by intros ->. Qed.

(** ** The node registry *)

Lemma addAiNode_Ok (dbg : bool) (pNode : aiNode) (id : NodeID) (data data' : ImporterData) :
  addAiNode dbg pNode id data = Ok data' →
  (dbg = true → mAiToFalcorNodeID data !! mAddr pNode = None)
  ∧ data' = set_nodeMaps (<[mAddr pNode := id]> (mAiToFalcorNodeID data))
              (<[mName pNode := default [] (mAiNodes data !! mName pNode) ++ [mAddr pNode]]>
                 (mAiNodes data)) data.
Proof.
  unfold addAiNode. intros H. bind_inv H as u E. injection H as <-. split.
  - intros ->. unfold FALCOR_ASSERT in E. cbn in E.
    destruct (bool_decide _) eqn:Eb; [|done]. by apply bool_decide_eq_true in Eb.
  - f_equal. destruct (mAiNodes data !! mName pNode) as [l|] eqn:El.
    + by rewrite El.
    + rewrite lookup_insert_eq. cbn. by rewrite insert_insert_eq.
Qed.

Lemma addAiNode_fresh (dbg : bool) (pNode : aiNode) (id : NodeID) (data : ImporterData) :
  mAiToFalcorNodeID data !! mAddr pNode = None →
  addAiNode dbg pNode id data
  = Ok (set_nodeMaps (<[mAddr pNode := id]> (mAiToFalcorNodeID data))
          (<[mName pNode := default [] (mAiNodes data !! mName pNode) ++ [mAddr pNode]]>
             (mAiNodes data)) data).
Proof.
  intros Hfresh.
  destruct (addAiNode dbg pNode id data) as [d|e] eqn:E.
  - apply addAiNode_Ok in E as [_ ->]. done.
  - unfold addAiNode in E. rewrite FALCOR_ASSERT_holds in E; [done|].
    intros _. by apply bool_decide_eq_true.
Qed.

(** X1: a node just registered is found again, by pointer and as the last
    instance of its name, and the instance count of its name has grown by
    one. *)
Theorem addAiNode_round_trip (dbg : bool) (pNode : aiNode) (id : NodeID)
    (data data' : ImporterData) :
  addAiNode dbg pNode id data = Ok data' →
  let before := default [] (mAiNodes data !! mName pNode) in
  getFalcorNodeID_node data' (mAddr pNode) = Ok id
  ∧ getNodeInstanceCount data' (mName pNode) = Ok (S (length before))
  ∧ getFalcorNodeID data' (mName pNode) (length before) = id.
Proof.
  intros H before. apply addAiNode_Ok in H as [_ ->].
  unfold getFalcorNodeID, getFalcorNodeID_node, getNodeInstanceCount. cbn.
  rewrite !lookup_insert_eq. fold before. split; [done|]. split.
  - f_equal. rewrite length_app. cbn. lia.
  - rewrite lookup_app_r by lia. rewrite Nat.sub_diag. cbn.
    by rewrite lookup_insert_eq.
Qed.

Lemma addAiNode_round_trip_witness :
  ∃ data', addAiNode true secondJoint 5%N jointData = Ok data'
    ∧ getFalcorNodeID_node data' 8 = Ok 5%N
    ∧ getNodeInstanceCount data' "joint" = Ok 2
    ∧ getFalcorNodeID data' "joint" 1 = 5%N.
Proof.
  assert (H : ∃ data', addAiNode true secondJoint 5%N jointData = Ok data')
    by (eexists; vm_compute; reflexivity).
  destruct H as [data' H]. exists data'. split; [exact H|].
  exact (addAiNode_round_trip true secondJoint 5%N jointData data' H).
Defined.

(** X2: registering a node leaves every other pointer, every other name and
    every earlier instance of a name as they were. *)
Theorem addAiNode_keeps_other_nodes (dbg : bool) (pNode : aiNode) (id : NodeID)
    (data data' : ImporterData) :
  addAiNode dbg pNode id data = Ok data' →
  (∀ p, p ≠ mAddr pNode → getFalcorNodeID_node data' p = getFalcorNodeID_node data p)
  ∧ (∀ name, name ≠ mName pNode →
       getNodeInstanceCount data' name = getNodeInstanceCount data name)
  ∧ (∀ name i l p, mAiNodes data !! name = Some l → l !! i = Some p → p ≠ mAddr pNode →
       getFalcorNodeID data' name i = getFalcorNodeID data name i).
Proof.
  intros H. apply addAiNode_Ok in H as [_ ->].
  unfold getFalcorNodeID, getFalcorNodeID_node, getNodeInstanceCount. cbn.
  split; [|split].
  - intros p Hp. by rewrite lookup_insert_ne.
  - intros name Hname. by rewrite lookup_insert_ne.
  - intros name i l p Hl Hi Hp. rewrite Hl, Hi.
    destruct (decide (name = mName pNode)) as [->|Hne].
    + rewrite lookup_insert_eq, Hl. cbn. rewrite lookup_app_l by by eapply lookup_lt_Some.
      rewrite Hi. by rewrite lookup_insert_ne.
    + rewrite lookup_insert_ne by done. rewrite Hl, Hi. by rewrite lookup_insert_ne.
Qed.

Lemma addAiNode_keeps_other_nodes_witness :
  ∃ data', addAiNode true secondJoint 5%N jointData = Ok data'
    ∧ getFalcorNodeID_node data' 7 = Ok 3%N
    ∧ getFalcorNodeID data' "joint" 0 = 3%N.
Proof.
  assert (H : ∃ data', addAiNode true secondJoint 5%N jointData = Ok data')
    by (eexists; vm_compute; reflexivity).
  destruct H as [data' H]. exists data'. split; [exact H|].
  destruct (addAiNode_keeps_other_nodes true secondJoint 5%N jointData data' H) as (H1 & _ & H3).
  split.
  - rewrite (H1 7) by (cbn; lia). vm_compute. reflexivity.
  - rewrite (H3 "joint" 0 [7] 7); [vm_compute; reflexivity|vm_compute; reflexivity|done|cbn; lia].
Defined.

(** ** Scene graph *)

Lemma isBone_frame (d1 d2 : ImporterData) (name : string) :
  localToBindPoseMatrices d1 = localToBindPoseMatrices d2 →
  isBone d1 name = isBone d2 name.
Proof. unfold isBone. by intros ->. Qed.

Lemma boneWithMeshes_frame (d1 d2 : ImporterData) (m : aiNode) :
  localToBindPoseMatrices d1 = localToBindPoseMatrices d2 →
  boneWithMeshes d1 m = boneWithMeshes d2 m.
Proof. unfold boneWithMeshes. intros H. by rewrite (isBone_frame d1 d2). Qed.

Lemma getLocalToBindPoseMatrix_frame (d1 d2 : ImporterData) (name : string) :
  localToBindPoseMatrices d1 = localToBindPoseMatrices d2 →
  getLocalToBindPoseMatrix d1 name = getLocalToBindPoseMatrix d2 name.
Proof. unfold getLocalToBindPoseMatrix, isBone. by intros ->. Qed.

Lemma parentsLinked_parent (p : option nat) (n : aiNode) :
  parentsLinked p n = true → mParent n = p.
Proof.
  destruct n. cbn. intros H. apply andb_prop in H as [H _].
  by apply bool_decide_eq_true in H.
Qed.

Lemma sameButNodes_refl (data : ImporterData) : sameButNodes data data.
Proof. by repeat split. Qed.

Lemma sameButNodes_trans (d0 d1 d2 : ImporterData) :
  sameButNodes d0 d1 → sameButNodes d1 d2 → sameButNodes d0 d2.
Proof.
  unfold sameButNodes.
  intros (A1&A2&A3&A4&A5&A6&A7&A8&A9) (B1&B2&B3&B4&B5&B6&B7&B8&B9).
  rewrite B1, B2, B3, B4, B5, B6, B7, B8, B9. done.
Qed.

Lemma graphAdded_nil (data : ImporterData) : graphAdded data [] data.
Proof.
  split; [apply sameButNodes_refl|]. split; [done|]. split.
  { intros name. cbn. by rewrite app_nil_r. }
  split; [intros name; cbn; split; [by intros ?|by intros [? _]]|].
  exists []. split; [by rewrite app_nil_r|]. split; [done|]. intros i m Hm. done.
Qed.

(** An address registered before the nodes [pre] are added, none of which
    has that address, is still registered afterwards. *)
Lemma graphAdded_stable (d1 d2 : ImporterData) (pre : list aiNode) (a : nat) (x : NodeID) :
  graphAdded d1 pre d2 →
  (∀ m, m ∈ pre → mAiToFalcorNodeID d1 !! mAddr m = None) →
  mAiToFalcorNodeID d1 !! a = Some x →
  mAiToFalcorNodeID d2 !! a = Some x.
Proof.
  intros (_ & Hother & _) Hfresh Ha. rewrite Hother; [exact Ha|].
  intros Hin. apply list_elem_of_fmap in Hin as (m & -> & Hm).
  rewrite (Hfresh m Hm) in Ha. done.
Qed.

Lemma graphAdded_length (d1 d2 : ImporterData) (pre : list aiNode) :
  graphAdded d1 pre d2 →
  length (sb_nodes (builder d2)) = length (sb_nodes (builder d1)) + length pre.
Proof. intros (_ & _ & _ & _ & L & -> & HL & _). rewrite length_app. lia. Qed.

Lemma graphAdded_app (d0 d1 d2 : ImporterData) (pre1 pre2 : list aiNode) :
  graphAdded d0 pre1 d1 →
  graphAdded d1 pre2 d2 →
  (∀ m, m ∈ pre2 → mAiToFalcorNodeID d1 !! mAddr m = None) →
  graphAdded d0 (pre1 ++ pre2) d2.
Proof.
  intros G1 G2 Hfresh.
  pose proof (graphAdded_stable d1 d2 pre2) as Hstable.
  pose proof (graphAdded_length d0 d1 pre1 G1) as Hlen1.
  destruct G1 as (S1 & O1 & N1 & E1 & L1 & HL1 & Hl1 & P1).
  specialize (λ a x, Hstable a x G2 Hfresh).
  destruct G2 as (S2 & O2 & N2 & E2 & L2 & HL2 & Hl2 & P2).
  split; [by eapply sameButNodes_trans|]. split.
  { intros a Ha. rewrite fmap_app in Ha. apply not_elem_of_app in Ha as [Ha1 Ha2].
    by rewrite O2, O1. }
  split.
  { intros name. rewrite N2, N1, filter_app, fmap_app. by rewrite app_assoc. }
  split.
  { intros name. rewrite E2, E1, filter_app. split.
    - intros ((? & ->) & ->). done.
    - intros (? & [? ?]%app_eq_nil). done. }
  exists (L1 ++ L2). split; [by rewrite HL2, HL1, app_assoc|].
  split; [rewrite !length_app; lia|].
  intros i m Hm. apply lookup_app_Some in Hm as [Hm|[Hge Hm]].
  - destruct (P1 i m Hm) as (Hid & node & Hnode & Hn & Ht & Hb & Hp).
    split; [by apply Hstable|]. exists node. split; [by apply lookup_app_l_Some|].
    split; [done|]. split; [done|]. split; [done|].
    destruct (mParent m) as [p|]; [|done]. destruct Hp as [Hp Hlt].
    split; [by apply Hstable|done].
  - destruct (P2 (i - length pre1) m Hm) as (Hid & node & Hnode & Hn & Ht & Hb & Hp).
    replace (length (sb_nodes (builder d1)) + (i - length pre1))
      with (length (sb_nodes (builder d0)) + i) in * by lia.
    split; [done|]. exists node. split.
    { rewrite lookup_app_r by lia. by rewrite Hl1. }
    split; [done|]. split; [done|]. split; [|done].
    rewrite Hb. apply getLocalToBindPoseMatrix_frame. apply S1.
Qed.

(** The head of [parseNode]: the node itself is registered. *)
Lemma graphAdded_one (data : ImporterData) (n : aiNode) (parent : NodeID) :
  mAiToFalcorNodeID data !! mAddr n = None →
  match mParent n with
  | Some p => mAiToFalcorNodeID data !! p = Some parent
              ∧ (parent < N.of_nat (length (sb_nodes (builder data))))%N
  | None => parent = kInvalidID
  end →
  graphAdded data [n]
    (set_nodeMaps
       (<[mAddr n := N.of_nat (length (sb_nodes (builder data)))]> (mAiToFalcorNodeID data))
       (<[mName n := default [] (mAiNodes data !! mName n) ++ [mAddr n]]> (mAiNodes data))
       (set_builder
          (builder_addNode
             {| n_name := mName n; n_parent := parent;
                n_transform := aiCast_mat (mTransformation n);
                n_localToBindPose := getLocalToBindPoseMatrix data (mName n) |}
             (builder data)).2 data)).
Proof.
  intros Hfresh Hpar.
  split; [by repeat split|]. cbn -[filter]. split.
  { intros a Ha. rewrite lookup_insert_ne; [done|]. intros <-. apply Ha. apply list_elem_of_here. }
  split.
  { intros name. rewrite filter_cons, filter_nil.
    destruct (decide (mName n = name)) as [<-|Hne].
    - by rewrite lookup_insert_eq.
    - rewrite lookup_insert_ne by done. cbn. by rewrite app_nil_r. }
  split.
  { intros name. rewrite filter_cons, filter_nil.
    destruct (decide (mName n = name)) as [<-|Hne].
    - rewrite lookup_insert_eq. split; [done|intros [_ [=]]].
    - rewrite lookup_insert_ne by done. split; [by intros ?|by intros [? _]]. }
  eexists [_]. split; [done|]. split; [done|].
  intros [|i] m Hm; [|done]. injection Hm as <-.
  rewrite Nat.add_0_r. split; [by rewrite lookup_insert_eq|].
  eexists. split; [done|]. unfold registeredAs. cbn.
  split; [done|]. split; [done|]. split; [done|].
  destruct (mParent n) as [p|]; [|done]. destruct Hpar as [Hp Hlt].
  split; [|done]. rewrite lookup_insert_ne; [done|]. intros <-.
  rewrite Hfresh in Hp. done.
Qed.

Section ParseNode.
Context (dbg : bool).

Lemma forestReady_head (a : nat) (c : aiNode) (cs : list aiNode) (data : ImporterData) :
  forestReady a (c :: cs) data → parseReady c data.
Proof.
  intros (Hlink & Hnd & Hfresh & Hpar). cbn in Hlink, Hnd, Hfresh.
  apply andb_prop in Hlink as [Hc _].
  pose proof (parentsLinked_parent _ _ Hc) as Hp.
  split; [by rewrite Hp|]. split.
  { rewrite fmap_app in Hnd. by apply NoDup_app in Hnd as (? & _ & _). }
  split; [intros m Hm; apply Hfresh, elem_of_app; by left|].
  intros p. rewrite Hp. by intros [= <-].
Qed.

Lemma forestReady_tail (a : nat) (c : aiNode) (cs : list aiNode) (data data' : ImporterData) :
  forestReady a (c :: cs) data →
  graphAdded data (nodesPreorder c) data' →
  forestReady a cs data'.
Proof.
  intros (Hlink & Hnd & Hfresh & pid & Hpid & Hlt) G. cbn in Hlink, Hnd, Hfresh.
  apply andb_prop in Hlink as [_ Hcs].
  rewrite fmap_app in Hnd. apply NoDup_app in Hnd as (_ & Hdisj & Hnd).
  split; [done|]. split; [done|]. split.
  - intros m Hm. destruct G as (_ & Hother & _). rewrite Hother.
    + apply Hfresh, elem_of_app. by right.
    + intros Hin. apply (Hdisj _ Hin). by apply list_elem_of_fmap_2.
  - exists pid. split.
    + eapply graphAdded_stable; [exact G| |exact Hpid].
      intros m Hm. apply Hfresh, elem_of_app. by left.
    + rewrite (graphAdded_length _ _ _ G). lia.
Qed.

Lemma parseReady_children (n : aiNode) (data : ImporterData) (parent : NodeID) :
  parseReady n data →
  forestReady (mAddr n) (mChildren n)
    (set_nodeMaps
       (<[mAddr n := N.of_nat (length (sb_nodes (builder data)))]> (mAiToFalcorNodeID data))
       (<[mName n := default [] (mAiNodes data !! mName n) ++ [mAddr n]]> (mAiNodes data))
       (set_builder
          (builder_addNode
             {| n_name := mName n; n_parent := parent;
                n_transform := aiCast_mat (mTransformation n);
                n_localToBindPose := getLocalToBindPoseMatrix data (mName n) |}
             (builder data)).2 data)).
Proof.
  intros (Hlink & Hnd & Hfresh & _). destruct n as [addr name tr par meshes children].
  cbn in *. apply andb_prop in Hlink as [_ Hcs].
  apply NoDup_cons in Hnd as [Hnotin Hnd].
  split; [done|]. split; [done|]. split.
  - intros m Hm. cbn [mAiToFalcorNodeID set_nodeMaps]. rewrite lookup_insert_ne.
    + apply Hfresh. by right.
    + intros ->. apply Hnotin. by apply list_elem_of_fmap_2.
  - exists (N.of_nat (length (sb_nodes (builder data)))).
    cbn [mAiToFalcorNodeID set_nodeMaps builder set_builder sb_nodes].
    split; [by rewrite lookup_insert_eq|]. rewrite length_app. cbn. lia.
Qed.

(** The loop over the children, given the statement for every child. *)
Lemma parseForest_graph (hb : bool) (a : nat) (children : list aiNode) :
  Forall (λ c, ∀ hb data,
            parseReady c data →
            (dbg = true → ∀ m, m ∈ nodesPreorder c → boneWithMeshes data m = false) →
            ∃ data', parseNode dbg c hb data = Ok data'
                     ∧ graphAdded data (nodesPreorder c) data') children →
  ∀ data,
    forestReady a children data →
    (dbg = true → ∀ m, m ∈ flat_map nodesPreorder children → boneWithMeshes data m = false) →
    ∃ data', forEach (λ child data, parseNode dbg child hb data) children data = Ok data'
             ∧ graphAdded data (flat_map nodesPreorder children) data'.
Proof.
  induction 1 as [|c cs Hc _ IH]; intros data Hready Hbad.
  - exists data. split; [done|]. apply graphAdded_nil.
  - destruct (Hc hb data (forestReady_head _ _ _ _ Hready)) as (d1 & Hrun & G1).
    { intros Hd m Hm. apply (Hbad Hd), elem_of_app. by left. }
    pose proof (forestReady_tail _ _ _ _ _ Hready G1) as Hready1.
    destruct (IH d1 Hready1) as (d2 & Hrun2 & G2).
    { intros Hd m Hm. rewrite (boneWithMeshes_frame d1 data) by apply G1.
      apply (Hbad Hd), elem_of_app. by right. }
    exists d2. split.
    + cbn [forEach]. rewrite Hrun. exact Hrun2.
    + cbn [flat_map]. eapply graphAdded_app; [exact G1|exact G2|]. apply Hready1.
Qed.

(** [parseNode] registers the tree below [n] in pre-order. *)
Lemma parseNode_graph (n : aiNode) : ∀ hb data,
  parseReady n data →
  (dbg = true → ∀ m, m ∈ nodesPreorder n → boneWithMeshes data m = false) →
  ∃ data', parseNode dbg n hb data = Ok data' ∧ graphAdded data (nodesPreorder n) data'.
Proof.
  induction n as [addr name tr par meshes children IH] using aiNode_ind.
  intros hb data Hready Hbad.
  set (n := mk_aiNode addr name tr par meshes children) in *.
  pose proof Hready as (Hlink & Hnd & Hfresh & Hpar).
  assert (Hn : mAiToFalcorNodeID data !! addr = None).
  { apply (Hfresh n). by left. }
  assert (Hp : ∃ parent,
             match par with
             | Some p => getFalcorNodeID_node data p
             | None => Ok kInvalidID
             end = Ok parent
             ∧ match par with
               | Some p => mAiToFalcorNodeID data !! p = Some parent
                           ∧ (parent < N.of_nat (length (sb_nodes (builder data))))%N
               | None => parent = kInvalidID
               end).
  { destruct par as [p|].
    - destruct (Hpar p eq_refl) as (pid & Hpid & Hlt). exists pid.
      unfold getFalcorNodeID_node. by rewrite Hpid.
    - by exists kInvalidID. }
  destruct Hp as (parent & Hlook & Hparent).
  pose proof (graphAdded_one data n parent Hn Hparent) as G1.
  pose proof (parseReady_children n data parent Hready) as Hready1.
  set (d1 := set_nodeMaps _ _ _) in *.
  destruct (parseForest_graph (isBone data name || hb) addr children IH d1 Hready1)
    as (d2 & Hrun & G2).
  { intros Hd m Hm. rewrite (boneWithMeshes_frame d1 data) by done.
    apply (Hbad Hd). by right. }
  exists d2. split.
  - cbn [parseNode mName mMeshes mParent mTransformation mChildren mAddr n].
    rewrite FALCOR_ASSERT_holds.
    2:{ intros Hd. specialize (Hbad Hd n (list_elem_of_here _ _)).
        unfold boneWithMeshes in Hbad. cbn in Hbad.
        destruct (isBone data name), (length meshes =? 0); done. }
    cbn [mbind result_bind]. rewrite Hlook. cbn [mbind result_bind builder_addNode].
    rewrite (addAiNode_fresh dbg n) by done.
    cbn [mbind result_bind]. exact Hrun.
  - change (nodesPreorder n) with ([n] ++ flat_map nodesPreorder children).
    eapply graphAdded_app; [exact G1|exact G2|]. apply Hready1.
Qed.

End ParseNode.

Lemma createBoneList_frame (data : ImporterData) :
  pScene (createBoneList data) = pScene data
  ∧ builder (createBoneList data) = builder data
  ∧ mAiToFalcorNodeID (createBoneList data) = mAiToFalcorNodeID data
  ∧ mAiNodes (createBoneList data) = mAiNodes data.
Proof. done. Qed.

Lemma graphAsserts_spec (data : ImporterData) :
  graphAsserts data = true →
  isBone (createBoneList data) (mName (mRootNode (pScene data))) = false
  ∧ ∀ m, m ∈ nodesPreorder (mRootNode (pScene data)) →
      boneWithMeshes (createBoneList data) m = false.
Proof.
  unfold graphAsserts. intros [Hroot Hall]%andb_prop. split.
  - by apply negb_true_iff.
  - intros m Hm. apply negb_true_iff.
    rewrite forallb_forall in Hall. apply Hall. by apply list_elem_of_In.
Qed.

(** [createSceneGraph] registers the whole tree in pre-order. *)
Lemma createSceneGraph_graph (dbg : bool) (data : ImporterData) :
  wf_graph (mRootNode (pScene data)) →
  noNodesYet data →
  (dbg = true → graphAsserts data = true) →
  ∃ data', createSceneGraph dbg data = Ok data'
    ∧ graphAdded (createBoneList data) (nodesPreorder (mRootNode (pScene data))) data'.
Proof.
  intros [Hlink Hnd] [Hids Hnames] Hasserts.
  destruct (parseNode_graph dbg (mRootNode (pScene data)) false (createBoneList data))
    as (data' & Hrun & G).
  - pose proof (parentsLinked_parent _ _ Hlink) as Hroot.
    split; [by rewrite Hroot|]. split; [done|]. split.
    + intros m _. cbn. by rewrite Hids.
    + intros p. by rewrite Hroot.
  - intros Hd. exact (proj2 (graphAsserts_spec data (Hasserts Hd))).
  - exists data'. split; [|exact G]. unfold createSceneGraph. cbv zeta.
    rewrite FALCOR_ASSERT_holds.
    + exact Hrun.
    + intros Hd. apply negb_true_iff. exact (proj1 (graphAsserts_spec data (Hasserts Hd))).
Qed.

(** X3: the nodes of the scene are registered in depth-first pre-order: the
    [i]-th node of the traversal gets the [i]-th identifier handed out, and
    as many nodes are added as the tree has. *)
Theorem createSceneGraph_preorder_ids (dbg : bool) (data : ImporterData) :
  let pre := nodesPreorder (mRootNode (pScene data)) in
  let base := length (sb_nodes (builder data)) in
  wf_graph (mRootNode (pScene data)) →
  noNodesYet data →
  (dbg = true → graphAsserts data = true) →
  ∃ data', createSceneGraph dbg data = Ok data'
    ∧ length (sb_nodes (builder data')) = base + length pre
    ∧ ∀ i m, pre !! i = Some m →
        getFalcorNodeID_node data' (mAddr m) = Ok (N.of_nat (base + i)).
Proof.
  intros pre base Hwf Hnew Hasserts.
  destruct (createSceneGraph_graph dbg data Hwf Hnew Hasserts) as (data' & Hrun & G).
  exists data'. split; [exact Hrun|]. split.
  - by rewrite (graphAdded_length _ _ _ G).
  - intros i m Hm. destruct G as (_ & _ & _ & _ & L & _ & _ & P).
    destruct (P i m Hm) as [Hid _]. unfold getFalcorNodeID_node. by rewrite Hid.
Qed.

Lemma skeleton_wf : wf_graph (mRootNode (pScene skeletonData)).
Proof.
  split; [vm_compute; reflexivity|].
  assert (H : bool_decide (NoDup (mAddr <$> nodesPreorder (mRootNode (pScene skeletonData))))
              = true) by (vm_compute; reflexivity).
  by apply bool_decide_eq_true in H.
Qed.

Lemma createSceneGraph_preorder_ids_witness :
  wf_graph (mRootNode (pScene skeletonData))
  ∧ noNodesYet skeletonData
  ∧ graphAsserts skeletonData = true
  ∧ ∃ data', createSceneGraph true skeletonData = Ok data'
      ∧ length (sb_nodes (builder data')) = 4
      ∧ (mName <$> nodesPreorder (mRootNode (pScene skeletonData)))
        = ["root"; "joint"; "tip"; "tip"]
      ∧ getFalcorNodeID_node data' 10 = Ok 3%N.
Proof.
  pose proof skeleton_wf as Hwf.
  assert (Hnew : noNodesYet skeletonData) by done.
  assert (Hasserts : graphAsserts skeletonData = true) by (vm_compute; reflexivity).
  split; [exact Hwf|]. split; [exact Hnew|]. split; [exact Hasserts|].
  destruct (createSceneGraph_preorder_ids true skeletonData Hwf Hnew (λ _, Hasserts))
    as (data' & Hrun & Hlen & Hids).
  exists data'. split; [exact Hrun|]. split; [exact Hlen|]. split; [reflexivity|].
  exact (Hids 3 _ eq_refl).
Defined.

(** X4: the node registered for a node of the scene carries its name and its
    transformation, and as bind-pose matrix the matrix kept for its name;
    the node registered for the root has no parent. *)
Theorem createSceneGraph_node_contents (dbg : bool) (data : ImporterData) :
  let pre := nodesPreorder (mRootNode (pScene data)) in
  let base := length (sb_nodes (builder data)) in
  wf_graph (mRootNode (pScene data)) →
  noNodesYet data →
  (dbg = true → graphAsserts data = true) →
  ∃ data', createSceneGraph dbg data = Ok data'
    ∧ (∀ i m, pre !! i = Some m →
         ∃ node, sb_nodes (builder data') !! (base + i) = Some node
           ∧ n_name node = mName m
           ∧ n_transform node = mTransformation m
           ∧ n_localToBindPose node
             = getLocalToBindPoseMatrix (createBoneList data) (mName m))
    ∧ ∃ node, sb_nodes (builder data') !! base = Some node ∧ n_parent node = kInvalidID.
Proof.
  intros pre base Hwf Hnew Hasserts.
  destruct (createSceneGraph_graph dbg data Hwf Hnew Hasserts) as (data' & Hrun & G).
  exists data'. split; [exact Hrun|].
  destruct G as (_ & _ & _ & _ & L & HL & Hlen & P).
  assert (Hnode : ∀ i m, pre !! i = Some m →
            ∃ node, sb_nodes (builder data') !! (base + i) = Some node
                    ∧ registeredAs (createBoneList data) data' (base + i) m node).
  { intros i m Hm. destruct (P i m Hm) as (_ & node & Hnode & Hreg).
    exists node. split; [|exact Hreg]. rewrite HL.
    rewrite lookup_app_r by (cbn; lia).
    replace (base + i - length (sb_nodes (builder (createBoneList data)))) with i
      by (cbn; lia). exact Hnode. }
  split.
  - intros i m Hm. destruct (Hnode i m Hm) as (node & Hl & Hn & Ht & Hb & _).
    by exists node.
  - destruct (Hnode 0 (mRootNode (pScene data))) as (node & Hl & _ & _ & _ & Hp).
    { subst pre. by destruct (mRootNode (pScene data)). }
    rewrite Nat.add_0_r in Hl. exists node. split; [exact Hl|].
    destruct Hwf as [Hlink _]. by rewrite (parentsLinked_parent _ _ Hlink) in Hp.
Qed.

Lemma createSceneGraph_node_contents_witness :
  wf_graph (mRootNode (pScene skeletonData))
  ∧ noNodesYet skeletonData
  ∧ graphAsserts skeletonData = true
  ∧ ∃ data', createSceneGraph true skeletonData = Ok data'
      ∧ (∃ node, sb_nodes (builder data') !! 1 = Some node
           ∧ n_name node = "joint" ∧ n_transform node = shear
           ∧ n_localToBindPose node = mat4_identity)
      ∧ ∃ node, sb_nodes (builder data') !! 0 = Some node ∧ n_parent node = kInvalidID.
Proof.
  pose proof skeleton_wf as Hwf.
  assert (Hnew : noNodesYet skeletonData) by done.
  assert (Hasserts : graphAsserts skeletonData = true) by (vm_compute; reflexivity).
  split; [exact Hwf|]. split; [exact Hnew|]. split; [exact Hasserts|].
  destruct (createSceneGraph_node_contents true skeletonData Hwf Hnew (λ _, Hasserts))
    as (data' & Hrun & Hnodes & Hroot).
  exists data'. split; [exact Hrun|]. split; [|exact Hroot].
  destruct (Hnodes 1 _ eq_refl) as (node & Hl & Hn & Ht & Hb).
  exists node. split; [exact Hl|]. split; [exact Hn|]. split; [exact Ht|].
  rewrite Hb. vm_compute. reflexivity.
Defined.

Lemma nodesPreorder_children (n : aiNode) : ∀ m c,
  m ∈ nodesPreorder n → c ∈ mChildren m → c ∈ nodesPreorder n.
Proof.
  induction n as [addr name tr par meshes children IH] using aiNode_ind.
  intros m c Hm Hc. cbn [nodesPreorder mChildren] in *.
  apply elem_of_cons in Hm as [->|Hm].
  - right. cbn [mChildren] in Hc. apply list_elem_of_In, in_flat_map.
    exists c. split; [by apply list_elem_of_In|]. destruct c. by left.
  - right. apply list_elem_of_In, in_flat_map in Hm as (c' & Hc' & Hm).
    apply list_elem_of_In, in_flat_map. exists c'. split; [done|].
    apply list_elem_of_In. rewrite Forall_forall in IH.
    eapply IH; [by apply list_elem_of_In|by apply list_elem_of_In|done].
Qed.

Lemma parentsLinked_children (n : aiNode) : ∀ p m c,
  parentsLinked p n = true → m ∈ nodesPreorder n → c ∈ mChildren m →
  mParent c = Some (mAddr m).
Proof.
  induction n as [addr name tr par meshes children IH] using aiNode_ind.
  intros p m c Hlink Hm Hc. cbn [nodesPreorder parentsLinked mChildren mAddr mParent] in *.
  apply andb_prop in Hlink as [_ Hcs]. rewrite forallb_forall in Hcs.
  apply elem_of_cons in Hm as [->|Hm].
  - cbn [mChildren mAddr] in *. apply parentsLinked_parent, Hcs. by apply list_elem_of_In.
  - apply list_elem_of_In, in_flat_map in Hm as (c' & Hc' & Hm).
    rewrite Forall_forall in IH.
    eapply (IH c'); [by apply list_elem_of_In|by apply Hcs|by apply list_elem_of_In|done].
Qed.

(** X5: a child is registered with the identifier of the node it hangs from
    as its parent, and that identifier is smaller than its own. *)
Theorem createSceneGraph_child_parent (dbg : bool) (data : ImporterData) :
  wf_graph (mRootNode (pScene data)) →
  noNodesYet data →
  (dbg = true → graphAsserts data = true) →
  ∃ data', createSceneGraph dbg data = Ok data'
    ∧ ∀ m c, m ∈ nodesPreorder (mRootNode (pScene data)) → c ∈ mChildren m →
        ∃ idm idc node,
          getFalcorNodeID_node data' (mAddr m) = Ok idm
          ∧ getFalcorNodeID_node data' (mAddr c) = Ok idc
          ∧ sb_nodes (builder data') !! N.to_nat idc = Some node
          ∧ n_parent node = idm
          ∧ (idm < idc)%N.
Proof.
  intros Hwf Hnew Hasserts.
  destruct (createSceneGraph_graph dbg data Hwf Hnew Hasserts) as (data' & Hrun & G).
  exists data'. split; [exact Hrun|]. intros m c Hm Hc.
  destruct Hwf as [Hlink _].
  pose proof (parentsLinked_children _ _ _ _ Hlink Hm Hc) as Hpar.
  pose proof (nodesPreorder_children _ _ _ Hm Hc) as Hcin.
  apply list_elem_of_lookup in Hcin as [i Hi].
  destruct G as (_ & _ & _ & _ & L & HL & Hlen & P).
  destruct (P i c Hi) as (Hid & node & Hnode & _ & _ & _ & Hp).
  rewrite Hpar in Hp. destruct Hp as [Hp Hlt].
  exists (n_parent node), (N.of_nat (length (sb_nodes (builder (createBoneList data))) + i)), node.
  unfold getFalcorNodeID_node. rewrite Hp, Hid. split; [done|]. split; [done|].
  split; [|done]. rewrite Nat2N.id, HL, lookup_app_r by lia.
  by replace (_ + i - _) with i by lia.
Qed.

Lemma createSceneGraph_child_parent_witness :
  wf_graph (mRootNode (pScene skeletonData))
  ∧ noNodesYet skeletonData
  ∧ graphAsserts skeletonData = true
  ∧ ∃ data', createSceneGraph true skeletonData = Ok data'
      ∧ ∃ idm idc node,
          getFalcorNodeID_node data' 7 = Ok idm
          ∧ getFalcorNodeID_node data' 10 = Ok idc
          ∧ sb_nodes (builder data') !! N.to_nat idc = Some node
          ∧ n_parent node = idm
          ∧ (idm < idc)%N.
Proof.
  pose proof skeleton_wf as Hwf.
  assert (Hnew : noNodesYet skeletonData) by done.
  assert (Hasserts : graphAsserts skeletonData = true) by (vm_compute; reflexivity).
  split; [exact Hwf|]. split; [exact Hnew|]. split; [exact Hasserts|].
  destruct (createSceneGraph_child_parent true skeletonData Hwf Hnew (λ _, Hasserts))
    as (data' & Hrun & Hchild).
  exists data'. split; [exact Hrun|].
  refine (Hchild (mRootNode (pScene skeletonData))
            {| mAddr := 10; mName := "tip"; mTransformation := mat4_identity;
               mParent := Some 7; mMeshes := [0]; mChildren := [] |} _ _).
  - apply list_elem_of_here.
  - cbn. apply list_elem_of_further, list_elem_of_here.
Defined.

(** X6: the instances of a name are the nodes of that name in pre-order:
    instance [k] of a name resolves to the identifier of the [k]-th such
    node, the instance count is their number, and a name no node carries has
    no count. *)
Theorem createSceneGraph_name_instances (dbg : bool) (data : ImporterData) :
  wf_graph (mRootNode (pScene data)) →
  noNodesYet data →
  (dbg = true → graphAsserts data = true) →
  ∃ data', createSceneGraph dbg data = Ok data'
    ∧ ∀ name,
        let named := nodesNamed name (mRootNode (pScene data)) in
        getNodeInstanceCount data' name
        = (if decide (named = []) then Err OutOfRange else Ok (length named))
        ∧ ∀ k m, named !! k = Some m →
            getFalcorNodeID_node data' (mAddr m) = Ok (getFalcorNodeID data' name k).
Proof.
  intros Hwf [Hids Hnames] Hasserts.
  destruct (createSceneGraph_graph dbg data Hwf (conj Hids Hnames) Hasserts)
    as (data' & Hrun & G).
  exists data'. split; [exact Hrun|]. intros name named.
  destruct G as (_ & _ & N & E & L & HL & Hlen & P).
  specialize (N name). specialize (E name). fold (nodesNamed name (mRootNode (pScene data))) in N, E.
  fold named in N, E. cbn [mAiNodes createBoneList set_localToBindPoseMatrices] in N, E.
  rewrite Hnames, lookup_empty in N, E. cbn in N. split.
  - unfold getNodeInstanceCount. destruct (mAiNodes data' !! name) as [l|] eqn:El.
    + cbn in N. subst l. rewrite length_fmap. case_decide as Hnil; [|done].
      destruct E as [_ E]. by specialize (E (conj eq_refl Hnil)).
    + destruct E as [E _]. destruct (E eq_refl) as [_ ->]. done.
  - intros k m Hk. unfold getFalcorNodeID.
    destruct (mAiNodes data' !! name) as [l|] eqn:El.
    + cbn in N. subst l. rewrite list_lookup_fmap, Hk. cbn.
      assert (Hm : m ∈ nodesPreorder (mRootNode (pScene data))).
      { apply list_elem_of_lookup_2 in Hk. unfold named, nodesNamed in Hk.
        by apply list_elem_of_filter in Hk as [_ Hk]. }
      apply list_elem_of_lookup in Hm as [i Hi]. destruct (P i m Hi) as [Hid _].
      unfold getFalcorNodeID_node. by rewrite Hid.
    + destruct E as [E _]. destruct (E eq_refl) as [_ Hnil]. by rewrite Hnil in Hk.
Qed.

Lemma createSceneGraph_name_instances_witness :
  wf_graph (mRootNode (pScene skeletonData))
  ∧ noNodesYet skeletonData
  ∧ graphAsserts skeletonData = true
  ∧ ∃ data', createSceneGraph true skeletonData = Ok data'
      ∧ getNodeInstanceCount data' "tip" = Ok 2
      ∧ getNodeInstanceCount data' "hip" = Err OutOfRange
      ∧ getFalcorNodeID_node data' 10 = Ok (getFalcorNodeID data' "tip" 1).
Proof.
  pose proof skeleton_wf as Hwf.
  assert (Hnew : noNodesYet skeletonData) by done.
  assert (Hasserts : graphAsserts skeletonData = true) by (vm_compute; reflexivity).
  split; [exact Hwf|]. split; [exact Hnew|]. split; [exact Hasserts|].
  destruct (createSceneGraph_name_instances true skeletonData Hwf Hnew (λ _, Hasserts))
    as (data' & Hrun & Hnames).
  exists data'. split; [exact Hrun|].
  split; [exact (proj1 (Hnames "tip"))|]. split; [exact (proj1 (Hnames "hip"))|].
  exact (proj2 (Hnames "tip") 1 _ eq_refl).
Defined.

(** *** Assertions of the scene graph *)

Lemma parseForest_fails (hb : bool) (a : nat) (children : list aiNode) :
  Forall (λ c, ∀ hb data,
            parseReady c data →
            (∃ m, m ∈ nodesPreorder c ∧ boneWithMeshes data m = true) →
            parseNode true c hb data = Err AssertFailure) children →
  ∀ data,
    forestReady a children data →
    (∃ m, m ∈ flat_map nodesPreorder children ∧ boneWithMeshes data m = true) →
    forEach (λ child data, parseNode true child hb data) children data = Err AssertFailure.
Proof.
  induction 1 as [|c cs Hc _ IH]; intros data Hready (m & Hm & Hbad).
  - by apply elem_of_nil in Hm.
  - cbn [forEach].
    destruct (existsb (boneWithMeshes data) (nodesPreorder c)) eqn:Ec.
    + apply existsb_exists in Ec as (m' & Hm' & Hbad').
      rewrite (Hc hb data (forestReady_head _ _ _ _ Hready)); [done|].
      exists m'. split; [by apply list_elem_of_In|done].
    + assert (Hgood : ∀ m', m' ∈ nodesPreorder c → boneWithMeshes data m' = false).
      { intros m' Hm'. destruct (boneWithMeshes data m') eqn:E; [|done].
        rewrite <- Ec. symmetry. apply existsb_exists. exists m'.
        split; [by apply list_elem_of_In|done]. }
      destruct (parseNode_graph true c hb data (forestReady_head _ _ _ _ Hready))
        as (d1 & Hrun & G1); [by intros _|].
      rewrite Hrun. cbn [mbind result_bind].
      apply IH; [by eapply forestReady_tail|].
      exists m. split.
      * cbn [flat_map] in Hm. apply elem_of_app in Hm as [Hm|Hm]; [|done].
        rewrite (Hgood m Hm) in Hbad. done.
      * rewrite (boneWithMeshes_frame d1 data) by apply G1. done.
Qed.

Lemma parseNode_fails (n : aiNode) : ∀ hb data,
  parseReady n data →
  (∃ m, m ∈ nodesPreorder n ∧ boneWithMeshes data m = true) →
  parseNode true n hb data = Err AssertFailure.
Proof.
  induction n as [addr name tr par meshes children IH] using aiNode_ind.
  intros hb data Hready (m & Hm & Hbad).
  set (n := mk_aiNode addr name tr par meshes children) in *.
  destruct (boneWithMeshes data n) eqn:En.
  { cbn [parseNode mName mMeshes n]. rewrite FALCOR_ASSERT_fails; [done|].
    unfold boneWithMeshes in En. cbn in En.
    destruct (isBone data name), (length meshes =? 0); done. }
  pose proof Hready as (Hlink & Hnd & Hfresh & Hpar).
  assert (Hn : mAiToFalcorNodeID data !! addr = None).
  { apply (Hfresh n). by left. }
  assert (Hp : ∃ parent,
             match par with
             | Some p => getFalcorNodeID_node data p
             | None => Ok kInvalidID
             end = Ok parent).
  { destruct par as [p|]; [|by eexists].
    destruct (Hpar p eq_refl) as (pid & Hpid & Hlt). exists pid.
    unfold getFalcorNodeID_node. by rewrite Hpid. }
  destruct Hp as (parent & Hlook).
  pose proof (parseReady_children n data parent Hready) as Hready1.
  cbn [parseNode mName mMeshes mParent mTransformation mChildren mAddr n].
  rewrite FALCOR_ASSERT_holds.
  2:{ intros _. unfold boneWithMeshes in En. cbn in En.
      destruct (isBone data name), (length meshes =? 0); done. }
  cbn [mbind result_bind]. rewrite Hlook. cbn [mbind result_bind builder_addNode].
  rewrite (addAiNode_fresh true n) by done. cbn [mbind result_bind].
  eapply (parseForest_fails _ addr children IH); [exact Hready1|].
  exists m. split.
  - cbn [nodesPreorder mChildren n] in Hm. apply elem_of_cons in Hm as [->|Hm]; [|done].
    exfalso. exact (eq_true_false_abs _ Hbad En).
  - rewrite <- Hbad. by apply boneWithMeshes_frame.
Qed.

(** X7: with assertions checked, a scene whose root is a bone, or in which a
    bone node carries a mesh, stops the scene graph construction; with
    assertions compiled out the same scene is accepted. *)
Theorem createSceneGraph_bone_assertions (data : ImporterData) :
  wf_graph (mRootNode (pScene data)) →
  noNodesYet data →
  graphAsserts data = false →
  createSceneGraph true data = Err AssertFailure
  ∧ is_Ok (createSceneGraph false data).
Proof.
  intros Hwf Hnew Hbad. split.
  - unfold createSceneGraph. cbv zeta.
    unfold graphAsserts in Hbad. apply andb_false_iff in Hbad as [Hroot|Hsome].
    + rewrite FALCOR_ASSERT_fails; done.
    + destruct (isBone (createBoneList data) (mName (mRootNode (pScene data)))) eqn:Er.
      { change (pScene (createBoneList data)) with (pScene data).
        rewrite Er. by rewrite FALCOR_ASSERT_fails. }
      change (pScene (createBoneList data)) with (pScene data).
      rewrite Er. rewrite FALCOR_ASSERT_holds by done. cbn [mbind result_bind].
      apply parseNode_fails.
      * destruct Hwf as [Hlink Hnd], Hnew as [Hids Hnames].
        pose proof (parentsLinked_parent _ _ Hlink) as Hroot.
        split; [by rewrite Hroot|]. split; [done|]. split.
        -- intros m _. cbn. by rewrite Hids.
        -- intros p. by rewrite Hroot.
      * assert (He : existsb (boneWithMeshes (createBoneList data))
                       (nodesPreorder (mRootNode (pScene data))) = true).
        { clear -Hsome. induction (nodesPreorder _) as [|x l IHl]; [done|].
          cbn in *. destruct (boneWithMeshes (createBoneList data) x); [done|].
          cbn in *. by apply IHl. }
        apply existsb_exists in He as (m & Hm & Hb). exists m.
        split; [by apply list_elem_of_In|done].
  - destruct (createSceneGraph_graph false data Hwf Hnew) as (data' & Hrun & _); [done|].
    by exists data'.
Qed.

Lemma createSceneGraph_bone_assertions_witness :
  wf_graph (mRootNode (pScene meshOnBoneData))
  ∧ noNodesYet meshOnBoneData
  ∧ graphAsserts meshOnBoneData = false
  ∧ createSceneGraph true meshOnBoneData = Err AssertFailure
  ∧ is_Ok (createSceneGraph false meshOnBoneData).
Proof.
  assert (Hwf : wf_graph (mRootNode (pScene meshOnBoneData))).
  { split; [vm_compute; reflexivity|].
    assert (H : bool_decide (NoDup (mAddr <$> nodesPreorder (mRootNode (pScene meshOnBoneData))))
                = true) by (vm_compute; reflexivity).
    by apply bool_decide_eq_true in H. }
  assert (Hnew : noNodesYet meshOnBoneData) by done.
  assert (Hbad : graphAsserts meshOnBoneData = false) by (vm_compute; reflexivity).
  split; [exact Hwf|]. split; [exact Hnew|]. split; [exact Hbad|].
  exact (createSceneGraph_bone_assertions meshOnBoneData Hwf Hnew Hbad).
Defined.

(** *** The bone registry *)

Lemma createBoneList_mesh_fold (pMesh : aiMesh) (m : gmap string mat4) :
  createBoneList_mesh pMesh m
  = foldl (λ m bone, <[bone_mName bone := aiCast_mat (mOffsetMatrix bone)]> m) m (mBones pMesh).
Proof.
  unfold createBoneList_mesh, HasBones. by destruct (mBones pMesh).
Qed.

Lemma createBoneList_fold (meshes : list aiMesh) : ∀ m,
  foldl (λ m pMesh, createBoneList_mesh pMesh m) m meshes
  = foldl (λ m bone, <[bone_mName bone := aiCast_mat (mOffsetMatrix bone)]> m) m
      (meshes ≫= mBones).
Proof.
  induction meshes as [|pMesh meshes IH]; intros m; [done|].
  cbn [foldl mbind list_bind]. rewrite IH, createBoneList_mesh_fold.
  change (list_bind _ _ mBones meshes) with (meshes ≫= mBones).
  by rewrite foldl_app.
Qed.

Lemma insertBones_lookup (bones : list aiBone) (name : string) : ∀ m : gmap string mat4,
  foldl (λ m bone, <[bone_mName bone := aiCast_mat (mOffsetMatrix bone)]> m) m bones !! name
  = match last (filter (λ b, bone_mName b = name) bones) with
    | Some b => Some (mOffsetMatrix b)
    | None => m !! name
    end.
Proof.
  induction bones as [|b bones IH] using rev_ind; intros m; [done|].
  rewrite foldl_app, filter_app. cbn [foldl]. rewrite filter_cons, filter_nil.
  destruct (decide (bone_mName b = name)) as [<-|Hne].
  - rewrite lookup_insert_eq. by rewrite last_snoc.
  - rewrite lookup_insert_ne by done. rewrite app_nil_r. apply IH.
Qed.

(** X8: a name is a bone exactly when it was one before or some mesh of the
    scene lists a bone of that name, and the bind-pose matrix kept for a
    name is the offset matrix of the last such bone, in the order of the
    meshes and of their bones. *)
Theorem createBoneList_last_bone_wins (data : ImporterData) (name : string) :
  let named := filter (λ b, bone_mName b = name) (sceneBones (pScene data)) in
  isBone (createBoneList data) name
  = isBone data name || bool_decide (named ≠ [])
  ∧ getLocalToBindPoseMatrix (createBoneList data) name
    = match last named with
      | Some b => mOffsetMatrix b
      | None => getLocalToBindPoseMatrix data name
      end.
Proof.
  intros named. unfold getLocalToBindPoseMatrix, isBone, createBoneList.
  cbn [localToBindPoseMatrices set_localToBindPoseMatrices].
  rewrite createBoneList_fold, insertBones_lookup.
  fold (sceneBones (pScene data)). fold named.
  destruct (last named) as [b|] eqn:Hlast.
  - assert (named ≠ []) by (by intros Hnil; rewrite Hnil in Hlast).
    rewrite (bool_decide_eq_true_2 (named ≠ [])) by done.
    rewrite orb_true_r. split; [|done]. apply bool_decide_eq_true. by eexists.
  - apply last_None in Hlast. rewrite (bool_decide_eq_false_2 (named ≠ [])) by auto.
    by rewrite orb_false_r.
Qed.

(** ** Mesh processing *)

(** *** Index lists *)

Lemma wrap32_small (n : nat) : fitsUint32 n → wrap32 n = n.
Proof.
  unfold fitsUint32, wrap32. intros H. rewrite N.mod_small by exact H. apply Nat2N.id.
Qed.

Lemma fitsUint32_le (n m : nat) : n ≤ m → fitsUint32 m → fitsUint32 n.
Proof. unfold fitsUint32. lia. Qed.

(** Writing a face of [perFaceIndexCount] indices fills the slots of the
    face, as long as the slots fit the index type. *)
Lemma createIndexList_face_fill (i : nat) (face : list nat) (pre rest : list nat) :
  fitsUint32 (i * length face + length face) →
  ∀ done todo mid,
    face = done ++ todo →
    length mid = length todo →
    length pre = i * length face →
    foldl (λ indices j,
             match face !! j with
             | Some x => <[wrap32 (i * length face + j) := x]> indices
             | None => indices
             end) (pre ++ done ++ mid ++ rest) (seq (length done) (length todo))
    = pre ++ face ++ rest.
Proof.
  intros Hfit done todo. revert done.
  induction todo as [|x todo IH]; intros done mid Hface Hmid Hpre.
  - destruct mid; [|done]. cbn. rewrite app_nil_r in Hface. by subst.
  - destruct mid as [|y mid]; [done|]. cbn [length seq foldl].
    assert (Hx : face !! length done = Some x).
    { subst face. rewrite lookup_app_r by lia. by rewrite Nat.sub_diag. }
    rewrite Hx.
    assert (Hlt : length done < length face).
    { subst face. rewrite length_app. cbn. lia. }
    rewrite wrap32_small by (eapply fitsUint32_le; [|exact Hfit]; lia).
    replace (<[i * length face + length done := x]> (pre ++ done ++ (y :: mid) ++ rest))
      with (pre ++ (done ++ [x]) ++ mid ++ rest).
    + replace (S (length done)) with (length (done ++ [x])) by (rewrite length_app; cbn; lia).
      apply IH; [by rewrite <- app_assoc|cbn in Hmid; lia|done].
    + rewrite <- Hpre, insert_app_r. f_equal.
      rewrite <- (Nat.add_0_r (length done)), insert_app_r.
      by rewrite <- app_assoc.
Qed.

Lemma createIndexList_face_uniform (i : nat) (face : aiFace) (pre rest : list nat) :
  fitsUint32 (i * length face + length face) →
  length pre = i * length face →
  createIndexList_face (length face) i face (pre ++ replicate (length face) 0 ++ rest)
  = pre ++ face ++ rest.
Proof.
  intros Hfit Hpre. unfold createIndexList_face.
  apply (createIndexList_face_fill i face pre rest Hfit [] face (replicate (length face) 0));
    [done|by rewrite length_replicate|done].
Qed.

(** Only the first [p] indices of a face are read. *)
Lemma createIndexList_face_take (p i : nat) (face : list nat) (indices : list nat) :
  createIndexList_face p i face indices = createIndexList_face p i (take p face) indices.
Proof.
  unfold createIndexList_face, aiFace.
  assert (Hjs : Forall (λ j, j < p) (seq 0 p)).
  { apply Forall_forall. intros j Hj. apply list_elem_of_In, in_seq in Hj. lia. }
  revert indices Hjs. generalize (seq 0 p). intros js.
  induction js as [|j js IH]; intros indices Hjs; [done|].
  apply Forall_cons in Hjs as [Hj Hjs]. cbn [foldl].
  rewrite lookup_take, decide_True by exact Hj. by apply IH.
Qed.

(** Every face contributes its first [p] indices, as long as no face is
    shorter and the index count fits the index type; with assertions
    checked the faces have to be of [p] indices each. *)
Lemma createIndexList_faces_take (dbg : bool) (p : nat) (faces : list aiFace) :
  ∀ i pre,
    Forall (λ f, p ≤ length f) faces →
    (dbg = true → Forall (λ f, length f = p) faces) →
    length pre = i * p →
    fitsUint32 ((i + length faces) * p) →
    createIndexList_faces dbg p i faces (pre ++ replicate (length faces * p) 0)
    = Ok (pre ++ concat (take p <$> faces)).
Proof.
  induction faces as [|face faces IH]; intros i pre Hall Hdbg Hpre Hfit.
  - done.
  - apply Forall_cons in Hall as [Hface Hall].
    cbn [createIndexList_faces length concat fmap list_fmap].
    rewrite FALCOR_ASSERT_holds.
    2:{ intros Hd. apply Hdbg, Forall_cons in Hd as [Hf _]. by apply Nat.eqb_eq. }
    cbn [mbind result_bind]. cbn [Nat.mul]. rewrite replicate_add.
    rewrite createIndexList_face_take.
    assert (Hlen : length (take p face) = p) by (rewrite length_take; lia).
    pose proof (createIndexList_face_uniform i (take p face) pre
                  (replicate (length faces * p) 0)) as Hu.
    rewrite Hlen in Hu. rewrite Hu.
    + rewrite !app_assoc. apply IH.
      * done.
      * intros Hd. apply Hdbg, Forall_cons in Hd as [_ Hd]. done.
      * rewrite length_app, Hlen. lia.
      * eapply fitsUint32_le; [|exact Hfit]. cbn [length]. lia.
    + eapply fitsUint32_le; [|exact Hfit]. cbn [length]. lia.
    + done.
Qed.

Lemma concat_take_length (p : nat) (faces : list aiFace) :
  Forall (λ f, p ≤ length f) faces →
  length (concat (take p <$> faces)) = length faces * p.
Proof.
  induction 1 as [|f l Hf _ IH]; [done|].
  cbn. rewrite length_app, length_take, IH. lia.
Qed.

Lemma take_uniform (p : nat) (faces : list aiFace) :
  Forall (λ f, length f = p) faces → take p <$> faces = faces.
Proof.
  induction 1 as [|f l Hf _ IH]; [done|].
  cbn. rewrite IH. f_equal. apply take_ge. lia.
Qed.

(** X9: for a mesh whose faces all have the index count of the first face,
    and whose face count times that index count fits the 32-bit index
    type, the index list is the concatenation of the faces, face by face,
    and its length is the face count times that index count. *)
Theorem createIndexList_uniform (dbg : bool) (pAiMesh : aiMesh) :
  Forall (λ f, length f = perFaceIndexCount pAiMesh) (mFaces pAiMesh) →
  fitsUint32 (length (mFaces pAiMesh) * perFaceIndexCount pAiMesh) →
  createIndexList dbg pAiMesh = Ok (concat (mFaces pAiMesh))
  ∧ length (concat (mFaces pAiMesh))
    = length (mFaces pAiMesh) * perFaceIndexCount pAiMesh.
Proof.
  intros Hall Hfit.
  assert (Hge : Forall (λ f, perFaceIndexCount pAiMesh ≤ length f) (mFaces pAiMesh)).
  { eapply Forall_impl; [exact Hall|]. intros f Hf. cbn in Hf. lia. }
  split.
  - unfold createIndexList. cbv zeta. fold (perFaceIndexCount pAiMesh).
    rewrite wrap32_small by exact Hfit.
    pose proof (createIndexList_faces_take dbg _ (mFaces pAiMesh) 0 [] Hge (λ _, Hall)
                  eq_refl Hfit) as Hrun.
    cbn [app] in Hrun. rewrite Hrun. by rewrite take_uniform.
  - rewrite <- (take_uniform _ _ Hall) at 1. by apply concat_take_length.
Qed.

Lemma createIndexList_uniform_witness :
  Forall (λ f, length f = perFaceIndexCount quadMesh) (mFaces quadMesh)
  ∧ fitsUint32 (length (mFaces quadMesh) * perFaceIndexCount quadMesh)
  ∧ createIndexList true quadMesh = Ok [0; 1; 2; 2; 1; 3]
  ∧ length (concat (mFaces quadMesh)) = 2 * 3.
Proof.
  assert (H : Forall (λ f, length f = perFaceIndexCount quadMesh) (mFaces quadMesh))
    by (repeat constructor).
  assert (Hfit : fitsUint32 (length (mFaces quadMesh) * perFaceIndexCount quadMesh))
    by reflexivity.
  split; [exact H|]. split; [exact Hfit|]. exact (createIndexList_uniform true quadMesh H Hfit).
Defined.

Lemma createIndexList_face_length (p i : nat) (face : aiFace) (indices : list nat) :
  length (createIndexList_face p i face indices) = length indices.
Proof.
  unfold createIndexList_face. generalize (seq 0 p). intros js. revert indices.
  induction js as [|j js IH]; intros indices; [done|]. cbn [foldl].
  rewrite IH. destruct (face !! j); [apply length_insert|done].
Qed.

Lemma createIndexList_faces_length (dbg : bool) (p : nat) (faces : list aiFace) :
  ∀ i indices l,
    createIndexList_faces dbg p i faces indices = Ok l → length l = length indices.
Proof.
  induction faces as [|face faces IH]; intros i indices l H.
  - by injection H as <-.
  - cbn [createIndexList_faces] in H. bind_inv H as u E.
    apply IH in H. by rewrite createIndexList_face_length in H.
Qed.

Lemma createIndexList_faces_release (p : nat) (faces : list aiFace) :
  ∀ i indices, is_Ok (createIndexList_faces false p i faces indices).
Proof.
  induction faces as [|face faces IH]; intros i indices; [by eexists|].
  cbn [createIndexList_faces]. rewrite FALCOR_ASSERT_release. apply IH.
Qed.

Lemma createIndexList_faces_mixed (p : nat) (faces : list aiFace) :
  Exists (λ f, length f ≠ p) faces →
  ∀ i indices, createIndexList_faces true p i faces indices = Err AssertFailure.
Proof.
  induction faces as [|face faces IH]; intros Hex i indices.
  - by apply Exists_nil in Hex.
  - cbn [createIndexList_faces].
    destruct (decide (length face = p)) as [Heq|Hne].
    + rewrite FALCOR_ASSERT_holds by (intros _; by apply Nat.eqb_eq).
      cbn [mbind result_bind]. apply IH.
      apply Exists_cons in Hex as [Hex|Hex]; [done|exact Hex].
    + rewrite FALCOR_ASSERT_fails; [done|]. by apply Nat.eqb_neq.
Qed.

(** X10: a mesh with a face whose index count differs from that of the first
    face stops [createIndexList] when assertions are checked.  With
    assertions compiled out, when no face is shorter than the first and the
    face count times the index count of the first face fits the 32-bit
    index type, every face contributes its first indices, as many as the
    first face has: the indices of a longer face beyond those are dropped. *)
Theorem createIndexList_mixed (pAiMesh : aiMesh) :
  Exists (λ f, length f ≠ perFaceIndexCount pAiMesh) (mFaces pAiMesh) →
  Forall (λ f, perFaceIndexCount pAiMesh ≤ length f) (mFaces pAiMesh) →
  fitsUint32 (length (mFaces pAiMesh) * perFaceIndexCount pAiMesh) →
  createIndexList true pAiMesh = Err AssertFailure
  ∧ createIndexList false pAiMesh
    = Ok (concat (take (perFaceIndexCount pAiMesh) <$> mFaces pAiMesh))
  ∧ length (concat (take (perFaceIndexCount pAiMesh) <$> mFaces pAiMesh))
    = length (mFaces pAiMesh) * perFaceIndexCount pAiMesh.
Proof.
  intros Hex Hge Hfit. split; [|split].
  - unfold createIndexList. cbv zeta. by apply createIndexList_faces_mixed.
  - unfold createIndexList. cbv zeta. fold (perFaceIndexCount pAiMesh).
    rewrite wrap32_small by exact Hfit.
    exact (createIndexList_faces_take false _ (mFaces pAiMesh) 0 [] Hge
             (λ H, False_ind _ (Bool.diff_false_true H)) eq_refl Hfit).
  - by apply concat_take_length.
Qed.

Lemma createIndexList_mixed_witness :
  Exists (λ f, length f ≠ perFaceIndexCount mixedMesh) (mFaces mixedMesh)
  ∧ Forall (λ f, perFaceIndexCount mixedMesh ≤ length f) (mFaces mixedMesh)
  ∧ fitsUint32 (length (mFaces mixedMesh) * perFaceIndexCount mixedMesh)
  ∧ createIndexList true mixedMesh = Err AssertFailure
  ∧ createIndexList false mixedMesh = Ok [0; 1; 2; 0; 1; 2].
Proof.
  assert (H : Exists (λ f, length f ≠ perFaceIndexCount mixedMesh) (mFaces mixedMesh)).
  { apply Exists_cons_tl, Exists_cons_hd. cbn. lia. }
  assert (Hge : Forall (λ f, perFaceIndexCount mixedMesh ≤ length f) (mFaces mixedMesh)).
  { repeat constructor; cbn; lia. }
  assert (Hfit : fitsUint32 (length (mFaces mixedMesh) * perFaceIndexCount mixedMesh))
    by reflexivity.
  split; [exact H|]. split; [exact Hge|]. split; [exact Hfit|].
  destruct (createIndexList_mixed mixedMesh H Hge Hfit) as (Hd & Hr & _).
  split; [exact Hd|exact Hr].
Defined.

(** *** Texture coordinates *)

(** X11: the texture coordinates keep their order and lose their third
    component; with assertions checked, a third component other than zero
    stops the conversion. *)
Theorem createTexCrdList_spec (dbg : bool) (pAiTexCrd : list aiVector3D) :
  createTexCrdList dbg pAiTexCrd
  = if negb dbg || forallb zIsZero pAiTexCrd
    then Ok (dropZ <$> pAiTexCrd)
    else Err AssertFailure.
Proof.
  induction pAiTexCrd as [|[[x y] z] l IH]; [by destruct dbg|].
  cbn [createTexCrdList forallb fmap list_fmap dropZ zIsZero]. rewrite IH.
  unfold FALCOR_ASSERT. destruct dbg, (feqb z zero); cbn; try done.
  by destruct (forallb zIsZero l).
Qed.

(** *** Skin weights *)

Lemma pad4_snoc_lt {A : Type} (d x : A) (l : list A) :
  length l < kMaxBonesPerVertex →
  pad4 d (l ++ [x]) = <[length l := x]> (pad4 d l).
Proof.
  intros Hlt. unfold pad4. rewrite !take_ge by (rewrite ?length_app; cbn; lia).
  rewrite length_app. cbn [length].
  replace (kMaxBonesPerVertex - length l)
    with (S (kMaxBonesPerVertex - (length l + 1))) by lia.
  cbn [replicate]. rewrite insert_app_r_alt by lia.
  rewrite Nat.sub_diag. cbn. by rewrite <- app_assoc.
Qed.

Lemma pad4_snoc_ge {A : Type} (d x : A) (l : list A) :
  kMaxBonesPerVertex ≤ length l → pad4 d (l ++ [x]) = pad4 d l.
Proof.
  intros Hge. unfold pad4. rewrite take_app_le by done. rewrite length_app.
  by replace (kMaxBonesPerVertex - (length l + length [x])) with 0
       by lia; replace (kMaxBonesPerVertex - length l) with 0 by lia.
Qed.

Lemma pad4_lookup_lt {A : Type} (d : A) (l : list A) (i : nat) :
  i < length l → i < kMaxBonesPerVertex → pad4 d l !! i = l !! i.
Proof.
  intros Hi Hk. unfold pad4. rewrite lookup_app_l by (rewrite length_take; lia).
  rewrite lookup_take. by rewrite decide_True.
Qed.

Lemma pad4_lookup_free {A : Type} (d : A) (l : list A) :
  length l < kMaxBonesPerVertex → pad4 d l !! length l = Some d.
Proof.
  intros Hlt. unfold pad4. rewrite take_ge by lia.
  rewrite lookup_app_r by lia. rewrite Nat.sub_diag.
  apply lookup_replicate_2. lia.
Qed.

Lemma pad4_length {A : Type} (d : A) (l : list A) : length (pad4 d l) = kMaxBonesPerVertex.
Proof. unfold pad4. rewrite length_app, length_take, length_replicate. lia. Qed.

(** The slots of a vertex after the influences [l] have been looked at: the
    first four of the influences of the vertex, in the order of [l]. *)
Lemma loadBoneWeights_slots (n v : nat) (l : list (NodeID * aiVertexWeight)) :
  v < n →
  let infl := filter (λ e, mVertexId e.2 = v ∧ feqb (mWeight e.2) zero = false) l in
  let sk := foldl (λ sk e, loadBoneWeight e.1 e.2 sk) (skinInit n) l in
  Forall (λ e, e.1 ≠ kInvalidID) infl →
  length (skin_ids sk) = n ∧ length (skin_weights sk) = n
  ∧ skin_ids sk !! v = Some (pad4 kInvalidID (fst <$> infl))
  ∧ skin_weights sk !! v = Some (pad4 zero ((λ e, mWeight e.2) <$> infl)).
Proof.
  intros Hv. induction l as [|e l IH] using rev_ind; cbv zeta.
  - intros _. cbn. rewrite !length_replicate. split; [done|]. split; [done|].
    by rewrite !lookup_replicate_2.
  - rewrite filter_app, foldl_app. cbn [foldl]. rewrite filter_cons, filter_nil.
    set (infl := filter _ l) in *. set (sk := foldl _ _ l) in *.
    destruct (loadBoneWeight_length e.1 e.2 sk) as [Hli Hlw].
    destruct (decide (mVertexId e.2 = v ∧ feqb (mWeight e.2) zero = false)) as [[He Hz]|Hno].
    + intros [Hvalid Hid]%Forall_app. apply Forall_singleton in Hid.
      destruct (IH Hvalid) as (Hlen_i & Hlen_w & Hiv & Hwv).
      rewrite Hli, Hlw. split; [done|]. split; [done|].
      rewrite <- He in Hiv, Hwv.
      destruct (loadBoneWeight_cases e.1 e.2 sk _ _ Hz Hiv Hwv)
        as [(k & (Hk & Hfree & Hmin) & ->)|[Hnone ->]];
        cbn [skin_ids skin_weights]; rewrite !fmap_app; cbn [fmap list_fmap].
      * assert (Hlt : length (fst <$> infl) < kMaxBonesPerVertex).
        { destruct (decide (length (fst <$> infl) < kMaxBonesPerVertex)); [done|].
          rewrite pad4_lookup_lt in Hfree by lia.
          apply list_elem_of_lookup_2, list_elem_of_fmap in Hfree as (e' & He' & Hin).
          rewrite Forall_forall in Hvalid. by destruct (Hvalid e' Hin). }
        assert (k = length (fst <$> infl)) as ->.
        { destruct (decide (k < length (fst <$> infl))) as [Hkl|Hkl].
          - rewrite pad4_lookup_lt in Hfree by lia.
            apply list_elem_of_lookup_2, list_elem_of_fmap in Hfree as (e' & He' & Hin).
            rewrite Forall_forall in Hvalid. by destruct (Hvalid e' Hin).
          - destruct (decide (k = length (fst <$> infl))) as [|Hne]; [done|].
            destruct (Hmin (length (fst <$> infl))); [lia|]. by apply pad4_lookup_free. }
        rewrite <- He. rewrite !list_lookup_insert_eq by (rewrite <- He in Hv; lia).
        rewrite pad4_snoc_lt by done.
        rewrite pad4_snoc_lt by (rewrite length_fmap; rewrite length_fmap in Hlt; done).
        by rewrite !length_fmap.
      * assert (Hge : kMaxBonesPerVertex ≤ length (fst <$> infl)).
        { destruct (decide (kMaxBonesPerVertex ≤ length (fst <$> infl))); [done|].
          destruct (Hnone (length (fst <$> infl))); [lia|]. apply pad4_lookup_free. lia. }
        rewrite He in Hiv, Hwv. rewrite Hiv, Hwv.
        rewrite pad4_snoc_ge by done.
        rewrite pad4_snoc_ge by (rewrite length_fmap; rewrite length_fmap in Hge; done).
        done.
    + rewrite app_nil_r. intros Hvalid.
      destruct (IH Hvalid) as (Hlen_i & Hlen_w & Hiv & Hwv).
      rewrite Hli, Hlw. split; [done|]. split; [done|].
      destruct (loadBoneWeight_other e.1 e.2 sk v) as [-> ->]; [|done].
      destruct (decide (mVertexId e.2 = v)) as [Hev|Hev]; [|by left].
      right. destruct (feqb (mWeight e.2) zero); [done|]. by destruct Hno.
Qed.

(** X12: a vertex keeps the first four of its influences, in the order in
    which the bones and their weights declare them: slot [k] holds the node
    of the [k]-th influence of the vertex whose weight is not zero, and its
    weight divided by the sum of the kept weights; the slots beyond the
    influences hold the invalid identifier, and influences beyond the fourth
    are dropped. *)
Theorem loadBones_slot_order (pAiMesh : aiMesh) (data : ImporterData) (v : nat) :
  let infl := influencesOf data pAiMesh v in
  v < mNumVertices pAiMesh →
  Forall (λ e, mVertexId e.2 < mNumVertices pAiMesh) (flatInfluences data pAiMesh) →
  Forall (λ e, e.1 ≠ kInvalidID) infl →
  ∃ sk, loadBones false pAiMesh data = Ok sk
    ∧ skin_ids sk !! v = Some (pad4 kInvalidID (fst <$> infl))
    ∧ skin_weights sk !! v
      = Some (normalizeWeights (pad4 zero ((λ e, mWeight e.2) <$> infl))).
Proof.
  intros infl Hv _ Hvalid. rewrite loadBones_release. eexists. split; [done|].
  cbn [skin_ids skin_weights]. rewrite skinBeforeNormalize_flat.
  destruct (loadBoneWeights_slots (mNumVertices pAiMesh) v (flatInfluences data pAiMesh) Hv
              Hvalid) as (_ & _ & Hiv & Hwv).
  split; [exact Hiv|]. rewrite list_lookup_fmap, Hwv. done.
Qed.

Lemma loadBones_slot_order_witness :
  0 < mNumVertices crowdedMesh
  ∧ Forall (λ e, mVertexId e.2 < mNumVertices crowdedMesh) (flatInfluences jointData crowdedMesh)
  ∧ Forall (λ e, e.1 ≠ kInvalidID) (influencesOf jointData crowdedMesh 0)
  ∧ length (influencesOf jointData crowdedMesh 0) = 5
  ∧ ∃ sk, loadBones false crowdedMesh jointData = Ok sk
      ∧ skin_ids sk !! 0 = Some [3%N; 3%N; 3%N; 3%N]
      ∧ skin_weights sk !! 0
        = Some (normalizeWeights [Fin (1 # 2); Fin (1 # 4); Fin (1 # 8); Fin (1 # 8)]).
Proof.
  assert (H0 : 0 < mNumVertices crowdedMesh) by (cbn; lia).
  assert (H1 : Forall (λ e, mVertexId e.2 < mNumVertices crowdedMesh)
                 (flatInfluences jointData crowdedMesh))
    by (repeat constructor).
  assert (H2 : Forall (λ e, e.1 ≠ kInvalidID) (influencesOf jointData crowdedMesh 0))
    by (repeat constructor; done).
  split; [exact H0|]. split; [exact H1|]. split; [exact H2|]. split; [reflexivity|].
  exact (loadBones_slot_order crowdedMesh jointData 0 H0 H1 H2).
Defined.

Lemma forEach_fails {A S : Type} (body : A → S → result S) (l : list A) (x : A) :
  x ∈ l → (∀ s, ∃ e, body x s = Err e) → ∀ s, ∃ e, forEach body l s = Err e.
Proof.
  intros Hx Hfail. induction l as [|y l IH]; intros s; [by apply elem_of_nil in Hx|].
  cbn [forEach]. destruct (body y s) as [s'|e] eqn:E; [|by exists e].
  cbn [mbind result_bind]. apply elem_of_cons in Hx as [->|Hx].
  - destruct (Hfail s) as [e He]. congruence.
  - by apply IH.
Qed.

(** X13: a bone that names no node of the scene graph stops [loadBones] when
    assertions are checked, through the lookup the assertion makes; with
    assertions compiled out the mesh is skinned all the same, the bone
    standing for the invalid node. *)
Theorem loadBones_unknown_bone (pAiMesh : aiMesh) (data : ImporterData) (bone : aiBone) :
  bone ∈ mBones pAiMesh →
  mAiNodes data !! bone_mName bone = None →
  (∃ e, loadBones true pAiMesh data = Err e)
  ∧ is_Ok (loadBones false pAiMesh data)
  ∧ getFalcorNodeID data (bone_mName bone) 0 = kInvalidID.
Proof.
  intros Hbone Hunknown. split; [|split].
  - unfold loadBones. cbv zeta.
    destruct (forEach_fails (loadBone true data) (mBones pAiMesh) bone Hbone) with
      (s := {| skin_weights := replicate (mNumVertices pAiMesh)
                                 (replicate kMaxBonesPerVertex zero);
               skin_ids := replicate (mNumVertices pAiMesh)
                             (replicate kMaxBonesPerVertex kInvalidID);
               skin_warnings := [] |}) as [e He].
    + intros s. exists OutOfRange. unfold loadBone, getNodeInstanceCount.
      by rewrite Hunknown.
    + exists e. by rewrite He.
  - rewrite loadBones_release. by eexists.
  - unfold getFalcorNodeID. by rewrite Hunknown.
Qed.

Lemma loadBones_unknown_bone_witness :
  ∃ bone, bone ∈ mBones partlySkinnedMesh
    ∧ mAiNodes unattachedSkinData !! bone_mName bone = None
    ∧ (∃ e, loadBones true partlySkinnedMesh unattachedSkinData = Err e)
    ∧ is_Ok (loadBones false partlySkinnedMesh unattachedSkinData)
    ∧ getFalcorNodeID unattachedSkinData (bone_mName bone) 0 = kInvalidID.
Proof.
  eexists. 
  assert (H1 : {| bone_mName := "joint";
                  mWeights := [{| mVertexId := 0; mWeight := Fin 1 |};
                               {| mVertexId := 1; mWeight := Fin (1 # 2) |}];
                  mOffsetMatrix := mat4_identity |} ∈ mBones partlySkinnedMesh)
    by apply list_elem_of_here.
  split; [exact H1|]. split; [reflexivity|].
  exact (loadBones_unknown_bone partlySkinnedMesh unattachedSkinData _ H1 eq_refl).
Defined.

(** *** The task of one mesh *)

Lemma loadBoneWeights_widths (l : list (NodeID * aiVertexWeight)) : ∀ sk,
  Forall (λ r, length r = kMaxBonesPerVertex) (skin_ids sk) →
  Forall (λ r, length r = kMaxBonesPerVertex) (skin_weights sk) →
  let sk' := foldl (λ sk e, loadBoneWeight e.1 e.2 sk) sk l in
  Forall (λ r, length r = kMaxBonesPerVertex) (skin_ids sk')
  ∧ Forall (λ r, length r = kMaxBonesPerVertex) (skin_weights sk')
  ∧ length (skin_ids sk') = length (skin_ids sk)
  ∧ length (skin_weights sk') = length (skin_weights sk).
Proof.
  induction l as [|e l IH]; intros sk Hi Hw; cbv zeta; [done|]. cbn [foldl].
  destruct (loadBoneWeight_length e.1 e.2 sk) as [Hli Hlw].
  assert (Hstep : Forall (λ r, length r = kMaxBonesPerVertex)
                    (skin_ids (loadBoneWeight e.1 e.2 sk))
                  ∧ Forall (λ r, length r = kMaxBonesPerVertex)
                      (skin_weights (loadBoneWeight e.1 e.2 sk))).
  { destruct (feqb (mWeight e.2) zero) eqn:Hz; [by rewrite loadBoneWeight_zero|].
    destruct (skin_ids sk !! mVertexId e.2) as [iv|] eqn:Hiv.
    2:{ unfold loadBoneWeight. by rewrite Hz, Hiv. }
    destruct (skin_weights sk !! mVertexId e.2) as [wv|] eqn:Hwv.
    2:{ unfold loadBoneWeight. by rewrite Hz, Hiv, Hwv. }
    destruct (loadBoneWeight_cases e.1 e.2 sk iv wv Hz Hiv Hwv) as [(k & _ & ->)|[_ ->]];
      cbn; [|done].
    split; (apply Forall_insert; [done|]); rewrite length_insert.
    - by eapply (Forall_lookup_1 _ _ _ _ Hi).
    - by eapply (Forall_lookup_1 _ _ _ _ Hw). }
  destruct Hstep as [Hi' Hw'].
  destruct (IH _ Hi' Hw') as (? & ? & ? & ?). repeat split; [done|done|congruence|congruence].
Qed.

(** Whenever [loadBones] returns, the influence arrays have one row of
    [kMaxBonesPerVertex] slots per vertex. *)
Lemma loadBones_shape (dbg : bool) (pAiMesh : aiMesh) (data : ImporterData) (sk : SkinData) :
  loadBones dbg pAiMesh data = Ok sk →
  length (skin_ids sk) = mNumVertices pAiMesh
  ∧ length (skin_weights sk) = mNumVertices pAiMesh
  ∧ Forall (λ r, length r = kMaxBonesPerVertex) (skin_ids sk)
  ∧ Forall (λ r, length r = kMaxBonesPerVertex) (skin_weights sk).
Proof.
  intros H.
  assert (Hrel : loadBones false pAiMesh data = Ok sk).
  { destruct dbg; [|done]. destruct (loadBones_debug pAiMesh data) as [[e He]|He]; congruence. }
  rewrite loadBones_release in Hrel. injection Hrel as <-. cbn [skin_ids skin_weights].
  rewrite skinBeforeNormalize_flat.
  destruct (loadBoneWeights_widths (flatInfluences data pAiMesh)
              (skinInit (mNumVertices pAiMesh))) as (Hi & Hw & Hli & Hlw).
  { apply Forall_replicate. apply length_replicate. }
  { apply Forall_replicate. apply length_replicate. }
  cbn [skinInit skin_ids skin_weights] in Hli, Hlw. rewrite length_replicate in Hli. rewrite length_replicate in Hlw.
  rewrite length_fmap. split; [done|]. split; [done|]. split; [done|].
  apply Forall_fmap. eapply Forall_impl; [exact Hw|].
  intros r Hr. cbn. unfold normalizeWeights. by rewrite length_fmap.
Qed.

(** The length of the index list is the [uint32_t] product of the face
    count and the index count of the first face. *)
Lemma createIndexList_length (dbg : bool) (pAiMesh : aiMesh) (l : list nat) :
  createIndexList dbg pAiMesh = Ok l →
  length l = wrap32 (length (mFaces pAiMesh) * perFaceIndexCount pAiMesh).
Proof.
  unfold createIndexList. cbv zeta. intros H.
  apply createIndexList_faces_length in H. by rewrite length_replicate in H.
Qed.

(** Whenever [createIndexList] returns for a mesh without a face shorter
    than the first whose index count fits 32 bits, it returns the first
    indices of every face, as many as the first face has. *)
Lemma createIndexList_Ok (dbg : bool) (pAiMesh : aiMesh) (l : list nat) :
  createIndexList dbg pAiMesh = Ok l →
  Forall (λ f, perFaceIndexCount pAiMesh ≤ length f) (mFaces pAiMesh) →
  fitsUint32 (length (mFaces pAiMesh) * perFaceIndexCount pAiMesh) →
  l = concat (take (perFaceIndexCount pAiMesh) <$> mFaces pAiMesh).
Proof.
  intros Hrun Hge Hfit.
  assert (Hdbg : dbg = true →
                 Forall (λ f, length f = perFaceIndexCount pAiMesh) (mFaces pAiMesh)).
  { intros ->. apply Forall_forall. intros f Hf.
    destruct (decide (length f = perFaceIndexCount pAiMesh)) as [|Hne]; [done|].
    assert (Hex : Exists (λ f, length f ≠ perFaceIndexCount pAiMesh) (mFaces pAiMesh))
      by (apply Exists_exists; by exists f).
    unfold createIndexList in Hrun. cbv zeta in Hrun.
    rewrite createIndexList_faces_mixed in Hrun; [done|exact Hex]. }
  unfold createIndexList in Hrun. cbv zeta in Hrun. fold (perFaceIndexCount pAiMesh) in Hrun.
  rewrite wrap32_small in Hrun by exact Hfit.
  pose proof (createIndexList_faces_take dbg _ (mFaces pAiMesh) 0 [] Hge Hdbg eq_refl Hfit)
    as Htake.
  cbn [app] in Htake. congruence.
Qed.

(** X14: what a mesh task hands over for a mesh that passed the filter: the
    name, face count and vertex count of the mesh, the material registered
    for the material index of the mesh, the texture coordinates without
    their third component, and for a mesh with bones one row of four slots
    per vertex in both influence arrays.  When no face has fewer than three
    indices and three times the face count fits the 32-bit index type, the
    indices are the first three of every face, face by face, three per
    face. *)
Theorem processMeshTask_shape (dbg : bool) (data : ImporterData) (pAiMesh : aiMesh)
    (pm : ProcessedMesh) (w : list string) :
  passesFilter pAiMesh = true →
  processMeshTask dbg data pAiMesh = Ok (pm, w) →
  pm_name pm = mesh_mName pAiMesh
  ∧ pm_faceCount pm = length (mFaces pAiMesh)
  ∧ pm_vertexCount pm = mNumVertices pAiMesh
  ∧ (Forall (λ f, 3 ≤ length f) (mFaces pAiMesh) →
     fitsUint32 (3 * pm_faceCount pm) →
     pm_indices pm = concat (take 3 <$> mFaces pAiMesh)
     ∧ length (pm_indices pm) = 3 * pm_faceCount pm)
  ∧ materialMap data !! mMaterialIndex pAiMesh = Some (pm_material pm)
  ∧ pm_texCrds pm = (λ tc : list aiVector3D, dropZ <$> tc) <$> mTextureCoords0 pAiMesh
  ∧ if HasBones pAiMesh
    then ∃ ids ws, pm_boneIDs pm = Some ids ∧ pm_boneWeights pm = Some ws
           ∧ length ids = mNumVertices pAiMesh ∧ length ws = mNumVertices pAiMesh
           ∧ Forall (λ r, length r = kMaxBonesPerVertex) ids
           ∧ Forall (λ r, length r = kMaxBonesPerVertex) ws
    else pm_boneIDs pm = None ∧ pm_boneWeights pm = None.
Proof.
  intros Hpass H. unfold processMeshTask in H.
  bind_inv H as indexList Ei. bind_inv H as texCrds Et. bind_inv H as skin Es.
  destruct skin as [[boneIds boneWeights] warns].
  bind_inv H as pMaterial Em. injection H as <- <-. cbn.
  pose proof (createIndexList_length _ _ _ Ei) as El.
  unfold passesFilter in Hpass. apply andb_prop in Hpass as [_ Hthree].
  apply Nat.eqb_eq in Hthree. fold (perFaceIndexCount pAiMesh) in Hthree.
  rewrite Hthree in El. rewrite Nat.mul_comm in El.
  split; [done|]. split; [done|]. split; [done|]. split.
  { intros Hge Hfit. split; [|rewrite El; by apply wrap32_small].
    rewrite <- Hthree in Hge |- *. apply (createIndexList_Ok dbg); [done|done|].
    rewrite Hthree, Nat.mul_comm. exact Hfit. }
  split.
  { by destruct (materialMap data !! mMaterialIndex pAiMesh); [injection Em as ->|]. }
  split.
  { destruct (mTextureCoords0 pAiMesh) as [tc|]; [|by injection Et as <-].
    bind_inv Et as tcs Etc. bind_inv Et as u Eu. injection Et as <-.
    rewrite createTexCrdList_spec in Etc. by destruct (_ || _); [injection Etc as <-|]. }
  destruct (HasBones pAiMesh).
  - bind_inv Es as sk Esk. injection Es as <- <- _.
    destruct (loadBones_shape _ _ _ _ Esk) as (? & ? & ? & ?). by eexists _, _.
  - by injection Es as <- <- _.
Qed.

Lemma processMeshTask_shape_witness :
  passesFilter quadMesh = true
  ∧ ∃ pm w, processMeshTask true twoMeshData quadMesh = Ok (pm, w)
      ∧ pm_name pm = "quad"
      ∧ pm_faceCount pm = 2
      ∧ pm_vertexCount pm = 4
      ∧ pm_indices pm = [0; 1; 2; 2; 1; 3]
      ∧ materialMap twoMeshData !! 0 = Some (pm_material pm).
Proof.
  assert (Hpass : passesFilter quadMesh = true) by reflexivity.
  assert (Hge : Forall (λ f, 3 ≤ length f) (mFaces quadMesh))
    by (repeat constructor).
  assert (Hrun : ∃ pm w, processMeshTask true twoMeshData quadMesh = Ok (pm, w))
    by (eexists _, _; vm_compute; reflexivity).
  split; [exact Hpass|]. destruct Hrun as (pm & w & Hrun). exists pm, w.
  split; [exact Hrun|].
  destruct (processMeshTask_shape true twoMeshData quadMesh pm w Hpass Hrun)
    as (H1 & H2 & H3 & H4 & H5 & _).
  split; [exact H1|]. split; [exact H2|]. split; [exact H3|]. split; [|exact H5].
  apply H4; [exact Hge|]. rewrite H2. reflexivity.
Defined.

(** *** Materials *)

Lemma createAllMaterials_lookup (data : ImporterData) (i : nat) :
  materialMap (createAllMaterials data) !! i
  = if decide (i < mNumMaterials (pScene data)) then Some i else materialMap data !! i.
Proof.
  unfold createAllMaterials. cbn [materialMap set_materialMap].
  generalize (mNumMaterials (pScene data)). intros n.
  induction n as [|n IH].
  - cbn. by rewrite decide_False by lia.
  - rewrite seq_S, foldl_app. cbn [foldl].
    destruct (decide (i = n)) as [->|Hne].
    + rewrite lookup_insert_eq. by rewrite decide_True by lia.
    + rewrite lookup_insert_ne by done. rewrite IH.
      repeat case_decide; try lia; done.
Qed.

Lemma processMeshTask_release (data : ImporterData) (pAiMesh : aiMesh) :
  match materialMap data !! mMaterialIndex pAiMesh with
  | Some m => ∃ pm w, processMeshTask false data pAiMesh = Ok (pm, w) ∧ pm_material pm = m
  | None => processMeshTask false data pAiMesh = Err OutOfRange
  end.
Proof.
  unfold processMeshTask. unfold createIndexList. cbv zeta.
  destruct (createIndexList_faces_release (length (default [] (mFaces pAiMesh !! 0)))
              (mFaces pAiMesh) 0
              (replicate
                 (wrap32 (length (mFaces pAiMesh) * length (default [] (mFaces pAiMesh !! 0))))
                 0))
    as [l ->].
  cbn [mbind result_bind].
  assert (Ht : ∃ t, match mTextureCoords0 pAiMesh with
                    | Some tc =>
                        texCrds ← createTexCrdList false tc;
                        FALCOR_ASSERT false (negb (Nat.eqb (length texCrds) 0));;
                        Ok (Some texCrds)
                    | None => Ok None
                    end = Ok t).
  { destruct (mTextureCoords0 pAiMesh) as [tc|]; [|by eexists].
    rewrite createTexCrdList_spec. cbn. by eexists. }
  destruct Ht as [t ->]. cbn [mbind result_bind].
  rewrite loadBones_release.
  destruct (HasBones pAiMesh); cbn [mbind result_bind];
    (destruct (materialMap data !! mMaterialIndex pAiMesh) as [m|];
     cbn [mbind result_bind]; [by eexists _, _|done]).
Qed.

(** X15: once [createAllMaterials] has run, the task of a mesh whose
    material index is below the material count of the scene gets the
    material of that index, and the task of a mesh whose material index is
    not aborts with [std::out_of_range]. *)
Theorem processMeshTask_material (data : ImporterData) (pAiMesh : aiMesh) :
  materialMap data = ∅ →
  if decide (mMaterialIndex pAiMesh < mNumMaterials (pScene data))
  then ∃ pm w, processMeshTask false (createAllMaterials data) pAiMesh = Ok (pm, w)
         ∧ pm_material pm = mMaterialIndex pAiMesh
  else processMeshTask false (createAllMaterials data) pAiMesh = Err OutOfRange.
Proof.
  intros Hempty.
  pose proof (processMeshTask_release (createAllMaterials data) pAiMesh) as H.
  rewrite createAllMaterials_lookup, Hempty, lookup_empty in H.
  by case_decide.
Qed.

Lemma processMeshTask_material_witness :
  materialMap (ImporterData_new twoMeshScene SceneBuilder_empty []) = ∅
  ∧ (∃ pm w, processMeshTask false twoMeshData quadMesh = Ok (pm, w) ∧ pm_material pm = 0).
Proof.
  split; [reflexivity|].
  exact (processMeshTask_material (ImporterData_new twoMeshScene SceneBuilder_empty [])
           quadMesh eq_refl).
Defined.

(** ** Instance expansion over the tree *)

Lemma instancesAdded_refl (data : ImporterData) : instancesAdded data 0 [] data.
Proof.
  unfold instancesAdded. cbv zeta. rewrite !Nat.mul_0_r, !Nat.add_0_r, app_nil_r.
  split; [by destruct data|]. done.
Qed.

Lemma instancesAdded_frame (d d' : ImporterData) (R : nat) (plain : list (NodeID * MeshID)) :
  instancesAdded d R plain d' →
  modelInstances d' = modelInstances d ∧ meshMap d' = meshMap d
  ∧ mAiToFalcorNodeID d' = mAiToFalcorNodeID d.
Proof. intros [-> _]. done. Qed.

Lemma instancesAdded_trans (d0 d1 d2 : ImporterData) (R1 R2 : nat)
    (plain1 plain2 : list (NodeID * MeshID)) :
  instancesAdded d0 R1 plain1 d1 →
  instancesAdded d1 R2 plain2 d2 →
  instancesAdded d0 (R1 + R2) (plain1 ++ plain2) d2.
Proof.
  intros H1 H2. destruct (instancesAdded_frame _ _ _ _ H1) as (Hmi & _ & _).
  destruct H1 as (E1 & M1 & A1 & I1 & N1 & P1), H2 as (E2 & M2 & A2 & I2 & N2 & P2).
  rewrite Hmi in *. unfold instancesAdded. cbv zeta.
  split; [rewrite E2, E1; by destruct d0|]. split; [congruence|]. split; [congruence|].
  split; [lia|]. split; [lia|]. intros HN.
  destruct (P1 HN) as [Q1 Q1n], (P2 HN) as [Q2 Q2n].
  by rewrite Q2, Q1, Q2n, Q1n, app_assoc.
Qed.

(** The loop over the meshes of one node. *)
Lemma addNodeMeshInstances_total (nodeID : NodeID) (nodeMeshes : list nat) : ∀ data,
  if forallb (λ mesh, bool_decide (is_Some (meshMap data !! mesh))) nodeMeshes
  then ∃ data', addNodeMeshInstances nodeID nodeMeshes data = Ok data'
         ∧ instancesAdded data (length nodeMeshes)
             ((λ mesh, (nodeID, default 0%N (meshMap data !! mesh))) <$> nodeMeshes) data'
  else addNodeMeshInstances nodeID nodeMeshes data = Err OutOfRange.
Proof.
  induction nodeMeshes as [|mesh rest IH]; intros data.
  - cbn. exists data. split; [done|]. apply instancesAdded_refl.
  - cbn [forallb addNodeMeshInstances].
    destruct (meshMap data !! mesh) as [meshID|] eqn:Hmesh; [|done].
    rewrite bool_decide_eq_true_2 by done. cbn [andb mbind result_bind].
    set (b := if negb _ then _ else _).
    assert (Hstep : instancesAdded data 1 [(nodeID, meshID)] (set_builder b data)).
    { unfold instancesAdded, b. cbv zeta. cbn [builder set_builder modelInstances].
      split; [done|]. destruct (Nat.eqb (length (modelInstances data)) 0) eqn:E.
      - apply Nat.eqb_eq in E. rewrite E. apply nil_length_inv in E. rewrite E.
        cbn. rewrite length_app. cbn. repeat split; lia.
      - apply Nat.eqb_neq in E. cbn [negb]. rewrite addInstances_spec.
        cbn [sb_nodes sb_meshes sb_meshInstances sb_animations].
        rewrite !length_app, instanceBindings_length, instanceNodes_length.
        repeat split; lia. }
    specialize (IH (set_builder b data)). cbn [meshMap set_builder] in IH.
    destruct (forallb _ rest).
    + destruct IH as (data' & -> & Hrest). exists data'. split; [done|].
      cbn [length fmap list_fmap]. rewrite Hmesh. cbn [default].
      exact (instancesAdded_trans _ _ _ 1 _ [_] _ Hstep Hrest).
    + exact IH.
Qed.

Lemma nodeResolved_frame (d d' : ImporterData) (n : aiNode) :
  meshMap d' = meshMap d → mAiToFalcorNodeID d' = mAiToFalcorNodeID d →
  nodeResolved d' n = nodeResolved d n.
Proof. unfold nodeResolved. by intros -> ->. Qed.

Lemma plainBindings_frame (d d' : ImporterData) (nodes : list aiNode) :
  meshMap d' = meshMap d → mAiToFalcorNodeID d' = mAiToFalcorNodeID d →
  plainBindings d' nodes = plainBindings d nodes.
Proof. unfold plainBindings. by intros -> ->. Qed.

Lemma forallb_frame {A : Type} (f g : A → bool) (l : list A) :
  (∀ x, f x = g x) → forallb f l = forallb g l.
Proof. intros H. induction l as [|x l IH]; [done|]. cbn. by rewrite H, IH. Qed.

(** The loop over the children, given the statement for every child. *)
Lemma addMeshInstances_forest (children : list aiNode) :
  Forall (λ c, ∀ data,
            if forallb (nodeResolved data) (nodesPreorder c)
            then ∃ data', addMeshInstances c data = Ok data'
                   ∧ instancesAdded data (length (nodesPreorder c ≫= mMeshes))
                       (plainBindings data (nodesPreorder c)) data'
            else addMeshInstances c data = Err OutOfRange) children →
  ∀ data,
    if forallb (nodeResolved data) (flat_map nodesPreorder children)
    then ∃ data', forEach addMeshInstances children data = Ok data'
           ∧ instancesAdded data (length (flat_map nodesPreorder children ≫= mMeshes))
               (plainBindings data (flat_map nodesPreorder children)) data'
    else forEach addMeshInstances children data = Err OutOfRange.
Proof.
  induction 1 as [|c cs Hc _ IH]; intros data.
  - cbn. exists data. split; [done|]. apply instancesAdded_refl.
  - cbn [flat_map forEach]. rewrite forallb_app. specialize (Hc data).
    destruct (forallb (nodeResolved data) (nodesPreorder c)); [|by rewrite Hc].
    destruct Hc as (d1 & -> & H1). cbn [andb mbind result_bind].
    destruct (instancesAdded_frame _ _ _ _ H1) as (_ & Hmm & Hids).
    specialize (IH d1).
    rewrite (forallb_frame (nodeResolved d1) (nodeResolved data)) in IH
      by (intros n; by apply nodeResolved_frame).
    destruct (forallb (nodeResolved data) (flat_map nodesPreorder cs)); [|done].
    destruct IH as (d2 & -> & H2). exists d2. split; [done|].
    rewrite (plainBindings_frame data d1) in H2 by done.
    unfold plainBindings in *. rewrite !bind_app, length_app.
    by eapply instancesAdded_trans.
Qed.

Lemma addMeshInstances_tree (n : aiNode) : ∀ data,
  if forallb (nodeResolved data) (nodesPreorder n)
  then ∃ data', addMeshInstances n data = Ok data'
         ∧ instancesAdded data (length (nodesPreorder n ≫= mMeshes))
             (plainBindings data (nodesPreorder n)) data'
  else addMeshInstances n data = Err OutOfRange.
Proof.
  induction n as [addr name tr par meshes children IH] using aiNode_ind. intros data.
  cbn [nodesPreorder forallb addMeshInstances mAddr mMeshes mChildren].
  unfold nodeResolved at 1. cbn [mAddr mMeshes]. unfold getFalcorNodeID_node.
  destruct (mAiToFalcorNodeID data !! addr) as [nodeID|] eqn:Hid; [|done].
  rewrite bool_decide_eq_true_2 by done. cbn [andb mbind result_bind].
  pose proof (addNodeMeshInstances_total nodeID meshes data) as Hnode.
  destruct (forallb _ meshes); [|by rewrite Hnode].
  destruct Hnode as (d1 & -> & H1). cbn [andb mbind result_bind].
  destruct (instancesAdded_frame _ _ _ _ H1) as (_ & Hmm & Hids).
  pose proof (addMeshInstances_forest children IH d1) as Hforest.
  rewrite (forallb_frame (nodeResolved d1) (nodeResolved data)) in Hforest
    by (intros n; by apply nodeResolved_frame).
  destruct (forallb (nodeResolved data) (flat_map nodesPreorder children)); [|done].
  destruct Hforest as (d2 & -> & H2). exists d2. split; [done|].
  rewrite (plainBindings_frame data d1) in H2 by done.
  unfold plainBindings in *. cbn [mbind list_bind mAddr mMeshes].
  change (list_bind _ _ ?f ?l) with (l ≫= f). rewrite length_app, Hid. cbn [default].
  by eapply instancesAdded_trans.
Qed.

(** X16: the instance expansion succeeds exactly when every node of the tree
    is registered and every mesh a node references is in the mesh map; it
    then makes, for every mesh reference, one binding per requested
    transform (one if none is requested) and one node per requested
    transform that is not the identity.  With no requested transform the
    bindings are those of the references to their own nodes, in pre-order.
    Otherwise it aborts with [std::out_of_range]. *)
Theorem addMeshInstances_total (data : ImporterData) (root : aiNode) :
  let N := length (modelInstances data) in
  let K := length (List.filter nonIdentity (modelInstances data)) in
  let R := length (meshRefs root) in
  if instancesResolved data root
  then ∃ data', addMeshInstances root data = Ok data'
         ∧ length (sb_meshInstances (builder data'))
           = length (sb_meshInstances (builder data)) + Nat.max 1 N * R
         ∧ length (sb_nodes (builder data')) = length (sb_nodes (builder data)) + K * R
         ∧ (N = 0 →
            sb_meshInstances (builder data')
            = sb_meshInstances (builder data) ++ plainBindings data (nodesPreorder root)
            ∧ sb_nodes (builder data') = sb_nodes (builder data))
  else addMeshInstances root data = Err OutOfRange.
Proof.
  intros N K R. pose proof (addMeshInstances_tree root data) as H.
  unfold instancesResolved. destruct (forallb _ _); [|done].
  destruct H as (data' & Hrun & _ & _ & _ & HI & HN & HP). by exists data'.
Qed.

(** The statement at the skeleton scene: the one mesh reference, made by the
    second node named "tip", is bound to that node, and no node is added. *)
Lemma addMeshInstances_total_witness :
  ∃ data', addMeshInstances (mRootNode skeletonScene) skeletonBuilt = Ok data'
    ∧ sb_meshInstances (builder data') = [(3%N, 0%N)]
    ∧ length (sb_nodes (builder data')) = 4.
Proof.
  pose proof (addMeshInstances_total skeletonBuilt (mRootNode skeletonScene)) as H.
  cbv zeta in H.
  replace (instancesResolved skeletonBuilt (mRootNode skeletonScene)) with true in H
    by (vm_compute; reflexivity).
  destruct H as (data' & Hrun & _ & Hn & Hplain). exists data'. split; [exact Hrun|].
  destruct (Hplain eq_refl) as [-> ->]. split; [vm_compute; reflexivity|done].
Defined.

(** ** Validator *)

Lemma countMeshes_lookup (n : aiNode) (meshes : list nat) (k : nat) :
  ∀ mi : list (list aiNode),
    foldl (λ mi mesh, alter (λ l, l ++ [n]) mesh mi) mi meshes !! k
    = (λ l, l ++ replicate (length (filter (λ m, m = k) meshes)) n) <$> mi !! k.
Proof.
  induction meshes as [|mesh meshes IH]; intros mi.
  - cbn. destruct (mi !! k) as [l|]; [|done]. cbn. by rewrite app_nil_r.
  - cbn [foldl]. rewrite IH, filter_cons.
    destruct (decide (mesh = k)) as [->|Hne].
    + rewrite list_lookup_alter, decide_True by done.
      destruct (mi !! k) as [l|]; cbn; [|done]. by rewrite <- app_assoc.
    + by rewrite list_lookup_alter_ne.
Qed.

Lemma countForest_lookup (children : list aiNode) (k : nat) :
  Forall (λ c, ∀ mi : list (list aiNode),
            countNodeMeshs c mi !! k = (λ l, l ++ attachments c k) <$> mi !! k) children →
  ∀ mi : list (list aiNode),
    foldl (λ mi child, countNodeMeshs child mi) mi children !! k
    = (λ l, l ++ (flat_map nodesPreorder children ≫=
                    λ n, replicate (length (filter (λ m, m = k) (mMeshes n))) n))
        <$> mi !! k.
Proof.
  induction 1 as [|c cs Hc _ IH]; intros mi.
  - cbn. destruct (mi !! k) as [l|]; [|done]. cbn. by rewrite app_nil_r.
  - cbn [foldl flat_map]. rewrite IH, Hc, bind_app.
    destruct (mi !! k) as [l|]; [|done]. cbn. unfold attachments. by rewrite app_assoc.
Qed.

Lemma countNodeMeshs_lookup (n : aiNode) (k : nat) : ∀ mi : list (list aiNode),
  countNodeMeshs n mi !! k = (λ l, l ++ attachments n k) <$> mi !! k.
Proof.
  induction n as [addr name tr par meshes children IH] using aiNode_ind. intros mi.
  assert (IH' : Forall (λ c, ∀ mi : list (list aiNode),
                          countNodeMeshs c mi !! k = (λ l, l ++ attachments c k) <$> mi !! k)
                  children).
  { eapply Forall_impl; [exact IH|]. intros c Hc. exact Hc. }
  cbn [countNodeMeshs mMeshes mChildren].
  rewrite (countForest_lookup children k IH'), countMeshes_lookup.
  destruct (mi !! k) as [l|]; [|done]. cbn. unfold attachments.
  cbn [nodesPreorder mbind list_bind mMeshes mChildren]. by rewrite <- app_assoc.
Qed.

(** X17: the instance list of a mesh holds the nodes that reference the
    mesh, in the order of a pre-order traversal and once per reference; a
    mesh index past the mesh count has no list. *)
Theorem countMeshInstances_spec (s : aiScene) (mesh : nat) :
  instancesOf (countMeshInstances s) mesh
  = if decide (mesh < length (scene_mMeshes s))
    then attachments (mRootNode s) mesh
    else [].
Proof.
  unfold instancesOf, countMeshInstances. rewrite countNodeMeshs_lookup.
  case_decide as Hlt.
  - by rewrite lookup_replicate_2.
  - by rewrite (proj1 (lookup_replicate_None _ _ _)) by lia.
Qed.

Lemma BoneMeshMap_push_relates (name : string) (meshID : nat) (k : string) (x : nat) :
  ∀ boneMap,
    boneMapRelates (BoneMeshMap_push name meshID boneMap) k x
    ↔ boneMapRelates boneMap k x ∨ (k = name ∧ x = meshID).
Proof.
  unfold boneMapRelates. induction boneMap as [|[k0 v] rest IH].
  - cbn. split.
    + intros (meshes & Hin & Hx). apply list_elem_of_singleton in Hin as [= -> ->].
      apply list_elem_of_singleton in Hx. auto.
    + intros [(meshes & Hin & _)|[-> ->]]; [by apply elem_of_nil in Hin|].
      exists [meshID]. split; apply list_elem_of_here.
  - cbn [BoneMeshMap_push]. destruct (String.eqb name k0) eqn:Heq.
    + apply String.eqb_eq in Heq as <-. split.
      * intros (meshes & Hin & Hx). apply elem_of_cons in Hin as [[= -> ->]|Hin].
        -- apply elem_of_app in Hx as [Hx|Hx].
           ++ left. exists v. split; [apply list_elem_of_here|done].
           ++ apply list_elem_of_singleton in Hx. auto.
        -- left. exists meshes. split; [by apply list_elem_of_further|done].
      * intros [(meshes & Hin & Hx)|[-> ->]].
        -- apply elem_of_cons in Hin as [[= -> ->]|Hin].
           ++ exists (v ++ [meshID]). split; [apply list_elem_of_here|].
              apply elem_of_app. by left.
           ++ exists meshes. split; [by apply list_elem_of_further|done].
        -- exists (v ++ [meshID]). split; [apply list_elem_of_here|].
           apply elem_of_app. right. apply list_elem_of_here.
    + destruct (String.ltb name k0).
      * split.
        -- intros (meshes & Hin & Hx). apply elem_of_cons in Hin as [[= -> ->]|Hin].
           ++ apply list_elem_of_singleton in Hx. auto.
           ++ left. by exists meshes.
        -- intros [(meshes & Hin & Hx)|[-> ->]].
           ++ exists meshes. split; [by apply list_elem_of_further|done].
           ++ exists [meshID]. split; apply list_elem_of_here.
      * split.
        -- intros (meshes & Hin & Hx). apply elem_of_cons in Hin as [[= -> ->]|Hin].
           ++ left. exists v. split; [apply list_elem_of_here|done].
           ++ destruct (proj1 IH) as [(meshes' & Hin' & Hx')|Hnew]; [by exists meshes| |auto].
              left. exists meshes'. split; [by apply list_elem_of_further|done].
        -- intros [(meshes & Hin & Hx)|Hnew].
           ++ apply elem_of_cons in Hin as [[= -> ->]|Hin].
              ** exists v. split; [apply list_elem_of_here|done].
              ** destruct (proj2 IH) as (meshes' & Hin' & Hx'); [left; by exists meshes|].
                 exists meshes'. split; [by apply list_elem_of_further|done].
           ++ destruct (proj2 IH) as (meshes' & Hin' & Hx'); [by right|].
              exists meshes'. split; [by apply list_elem_of_further|done].
Qed.

Lemma pushBones_relates (meshID : nat) (bones : list aiBone) (k : string) (x : nat) :
  ∀ boneMap,
    boneMapRelates
      (foldl (λ m bone, BoneMeshMap_push (bone_mName bone) meshID m) boneMap bones) k x
    ↔ boneMapRelates boneMap k x
      ∨ (x = meshID ∧ ∃ bone, bone ∈ bones ∧ bone_mName bone = k).
Proof.
  induction bones as [|bone bones IH]; intros boneMap.
  - cbn. split; [auto|]. intros [H|(_ & bone & Hin & _)]; [done|by apply elem_of_nil in Hin].
  - cbn [foldl]. rewrite IH, BoneMeshMap_push_relates. split.
    + intros [[H|[-> ->]]|(-> & bone' & Hin & Hname)]; [auto| |].
      * right. split; [done|]. exists bone. split; [apply list_elem_of_here|done].
      * right. split; [done|]. exists bone'. split; [by apply list_elem_of_further|done].
    + intros [H|(-> & bone' & Hin & Hname)]; [auto|].
      apply elem_of_cons in Hin as [->|Hin].
      * left. right. done.
      * right. split; [done|]. by exists bone'.
Qed.

Lemma createBoneMap_meshes_relates (sceneMeshes : list aiMesh) (k : string) (x : nat) :
  ∀ meshID boneMap,
    boneMapRelates (createBoneMap_meshes meshID sceneMeshes boneMap) k x
    ↔ boneMapRelates boneMap k x
      ∨ ∃ i pMesh bone, sceneMeshes !! i = Some pMesh ∧ x = meshID + i
                        ∧ bone ∈ mBones pMesh ∧ bone_mName bone = k.
Proof.
  induction sceneMeshes as [|pMesh rest IH]; intros meshID boneMap.
  - cbn. split; [auto|]. intros [H|(i & pMesh & bone & Hi & _)]; [done|].
    by rewrite lookup_nil in Hi.
  - cbn [createBoneMap_meshes]. rewrite IH, pushBones_relates. split.
    + intros [[H|(-> & bone & Hin & Hname)]|(i & m & bone & Hi & -> & Hin & Hname)];
        [auto| |].
      * right. exists 0, pMesh, bone. rewrite Nat.add_0_r. done.
      * right. exists (S i), m, bone. cbn. split; [done|]. split; [lia|done].
    + intros [H|(i & m & bone & Hi & -> & Hin & Hname)]; [auto|].
      destruct i as [|i]; cbn in Hi.
      * injection Hi as <-. left. right. rewrite Nat.add_0_r. split; [done|]. by exists bone.
      * right. exists i, m, bone. split; [done|]. split; [lia|done].
Qed.

(** X18: the bone map relates a bone name to a mesh index exactly when the
    mesh of that index lists a bone of that name. *)
Theorem createBoneMap_relates (s : aiScene) (name : string) (mesh : nat) :
  boneMapRelates (createBoneMap s) name mesh
  ↔ ∃ pMesh bone, scene_mMeshes s !! mesh = Some pMesh
                  ∧ bone ∈ mBones pMesh ∧ bone_mName bone = name.
Proof.
  unfold createBoneMap. rewrite createBoneMap_meshes_relates. split.
  - intros [(meshes & Hin & _)|(i & pMesh & bone & Hi & -> & Hin & Hname)].
    + by apply elem_of_nil in Hin.
    + by exists pMesh, bone.
  - intros (pMesh & bone & Hm & Hin & Hname). right. by exists mesh, pMesh, bone.
Qed.

(** ** Animation merger *)

Lemma fmax_same (a b : float) : wf_time a → feqb b a = true → fmax a b = a.
Proof.
  intros (q & -> & _) Hb. unfold fmax. destruct b as [y| |]; [|done|done].
  cbn in *. apply Qeq_bool_iff in Hb.
  destruct (Qle_bool y q) eqn:E; [done|].
  assert (Hle : (y <= q)%Q) by (rewrite Hb; apply Qle_refl).
  apply Qle_bool_iff in Hle. congruence.
Qed.

Section Aligned.
Context (ch : aiNodeAnim) (tps : float).
Hypothesis Haligned : alignedTracks ch.

Lemma alignedKeyframes_lookup (i : nat) (p : aiVectorKey) (r : aiQuatKey) (s : aiVectorKey) :
  mPositionKeys ch !! i = Some p → mRotationKeys ch !! i = Some r →
  mScalingKeys ch !! i = Some s →
  alignedKeyframes tps ch !! i = Some (alignedKeyframe tps p r s).
Proof.
  intros Hp Hr Hs. unfold alignedKeyframes. apply lookup_zip_with_Some.
  exists p, (r, s). split; [done|]. split; [done|]. by apply lookup_zip_Some.
Qed.

Lemma alignedKeyframes_length :
  length (alignedKeyframes tps ch) = length (mPositionKeys ch).
Proof.
  destruct Haligned as (Hr & Hs & _). unfold alignedKeyframes.
  rewrite length_zip_with, length_zip. lia.
Qed.

(** With the three cursors at the same index, an iteration of the loop
    consumes the key of that index on every track. *)
Lemma mergeLoop_aligned (fuel : nat) : ∀ i keyframe l,
  i < length (mPositionKeys ch) →
  length (mPositionKeys ch) - i ≤ fuel →
  mergeLoop emitKeyframe false fuel ch tps i i i keyframe l
  = Ok (l ++ drop i (alignedKeyframes tps ch)).
Proof.
  destruct Haligned as (Hlr & Hls & Hkeys).
  induction fuel as [|fuel IH]; intros i keyframe l Hi Hfuel; [lia|].
  destruct (lookup_lt_is_Some_2 (mPositionKeys ch) i Hi) as [p Hp].
  destruct (lookup_lt_is_Some_2 (mRotationKeys ch) i) as [r Hr]; [lia|].
  destruct (lookup_lt_is_Some_2 (mScalingKeys ch) i) as [s Hs]; [lia|].
  destruct (Hkeys i p r s Hp Hr Hs) as (Hwf & Hrp & Hsp).
  assert (Hnext : nextKeyTime false ch i i i = Ok (vk_mTime p)).
  { unfold nextKeyTime. rewrite Hp, Hr, Hs. cbn [mbind result_bind FALCOR_ASSERT andb].
    by rewrite (fmax_sentinel _ Hwf), (fmax_same _ _ Hwf Hrp), (fmax_same _ _ Hwf Hsp). }
  cbn [mergeLoop]. rewrite Hnext. cbn [mbind result_bind FALCOR_ASSERT andb].
  unfold parseAnimationChannel. rewrite Hp, Hr, Hs.
  rewrite (wf_time_feqb_refl _ Hwf), Hrp, Hsp, Hlr, Hls.
  pose proof (alignedKeyframes_lookup i p r s Hp Hr Hs) as Hk.
  rewrite (drop_S _ _ _ Hk). unfold emitKeyframe.
  destruct (length (mPositionKeys ch) <=? S i) eqn:Hdone; cbn [andb].
  - apply Nat.leb_le in Hdone.
    rewrite drop_ge by (rewrite alignedKeyframes_length; lia). done.
  - apply Nat.leb_gt in Hdone. rewrite IH by lia.
    by rewrite <- app_assoc.
Qed.
End Aligned.

(** X19: when the three tracks of a channel are keyed at the same times, the
    merge makes one keyframe per key index, in the order of the keys, whose
    time is the time of the keys divided by the rate and whose translation,
    rotation and scaling are the values of the three keys of that index. *)
Theorem mergedKeyframes_aligned (ch : aiNodeAnim) (tps : float) :
  alignedTracks ch →
  mPositionKeys ch ≠ [] →
  mergedKeyframes false ch tps = Ok (alignedKeyframes tps ch).
Proof.
  intros Haligned Hne. unfold mergedKeyframes.
  rewrite (mergeLoop_aligned ch tps Haligned); [done| |unfold mergeFuel; lia].
  destruct (mPositionKeys ch); [done|cbn; lia].
Qed.

Lemma mergedKeyframes_aligned_witness :
  alignedTracks steadyChannel
  ∧ mPositionKeys steadyChannel ≠ []
  ∧ mergedKeyframes false steadyChannel (Fin 25) = Ok (alignedKeyframes (Fin 25) steadyChannel)
  ∧ length (alignedKeyframes (Fin 25) steadyChannel) = 2.
Proof.
  assert (H1 : alignedTracks steadyChannel).
  { split; [done|]. split; [done|]. intros [|[|i]] p r s Hp Hr Hs; try done;
      injection Hp as <-; injection Hr as <-; injection Hs as <-;
      (split; [eexists; split; [reflexivity|vm_compute; reflexivity]|]);
      split; vm_compute; reflexivity. }
  assert (H2 : mPositionKeys steadyChannel ≠ []) by done.
  split; [exact H1|]. split; [exact H2|].
  split; [exact (mergedKeyframes_aligned steadyChannel (Fin 25) H1 H2)|reflexivity].
Defined.

Section Count.
Context (ch : aiNodeAnim) (tps : float).
Hypothesis Hwf : Forall wf_time (channelTimes ch).

(** Every iteration consumes at least one key, and at most one per track. *)
Lemma mergeLoop_count (fuel : nat) : ∀ pos rot scale keyframe l,
  pos < length (mPositionKeys ch) ∨ rot < length (mRotationKeys ch)
    ∨ scale < length (mScalingKeys ch) →
  (length (mPositionKeys ch) - pos) + (length (mRotationKeys ch) - rot)
    + (length (mScalingKeys ch) - scale) ≤ fuel →
  ∃ l', mergeLoop emitKeyframe false fuel ch tps pos rot scale keyframe l = Ok l'
    ∧ length l' ≤ length l + ((length (mPositionKeys ch) - pos)
                              + (length (mRotationKeys ch) - rot)
                              + (length (mScalingKeys ch) - scale))
    ∧ length l + (length (mPositionKeys ch) - pos) ≤ length l'
    ∧ length l + (length (mRotationKeys ch) - rot) ≤ length l'
    ∧ length l + (length (mScalingKeys ch) - scale) ≤ length l'.
Proof.
  induction fuel as [|fuel IH]; intros pos rot scale keyframe l Hpend Hfuel; [lia|].
  assert (Hwfp : Forall wf_time (pendingTimes ch pos rot scale)).
  { apply Forall_forall. intros t Ht.
    eapply (proj1 (Forall_forall _ _) Hwf), pendingTimes_channelTimes, Ht. }
  destruct (nextKeyTime_pending ch pos rot scale Hwfp (pendingTimes_nonempty _ _ _ _ Hpend))
    as (t & Hnext & Ht).
  assert (Htt : feqb t t = true).
  { apply wf_time_feqb_refl. by eapply (proj1 (Forall_forall _ _) Hwfp). }
  cbn [mergeLoop]. rewrite Hnext. cbn [mbind result_bind FALCOR_ASSERT andb].
  destruct (parseAnimationChannel vk_mTime _ (mPositionKeys ch) t pos _)
    as [[d1 pos'] tr] eqn:E1.
  destruct (parseAnimationChannel qk_mTime _ (mRotationKeys ch) t rot _)
    as [[d2 rot'] ro] eqn:E2.
  destruct (parseAnimationChannel vk_mTime _ (mScalingKeys ch) t scale _)
    as [[d3 scale'] sc] eqn:E3.
  apply parseAnimationChannel_spec in E1 as [-> E1].
  apply parseAnimationChannel_spec in E2 as [-> E2].
  apply parseAnimationChannel_spec in E3 as [-> E3].
  apply pendingTimes_elem in Ht.
  assert (Hp : pos' = pos ∨ pos' = Datatypes.S pos ∧ pos < length (mPositionKeys ch)).
  { destruct E1 as [(-> & _)|(-> & k' & Hk' & _)]; [auto|].
    right. split; [done|]. by eapply lookup_lt_Some. }
  assert (Hr : rot' = rot ∨ rot' = Datatypes.S rot ∧ rot < length (mRotationKeys ch)).
  { destruct E2 as [(-> & _)|(-> & k' & Hk' & _)]; [auto|].
    right. split; [done|]. by eapply lookup_lt_Some. }
  assert (Hs : scale' = scale ∨ scale' = Datatypes.S scale ∧ scale < length (mScalingKeys ch)).
  { destruct E3 as [(-> & _)|(-> & k' & Hk' & _)]; [auto|].
    right. split; [done|]. by eapply lookup_lt_Some. }
  assert (Hadv : pos' ≠ pos ∨ rot' ≠ rot ∨ scale' ≠ scale).
  { destruct Ht as [(k' & Hk' & <-)|[(k' & Hk' & <-)|(k' & Hk' & <-)]].
    - left. destruct E1 as [(_ & _ & Hno)|(-> & _)]; [|lia].
      rewrite (Hno _ Hk') in Htt. discriminate.
    - right. left. destruct E2 as [(_ & _ & Hno)|(-> & _)]; [|lia].
      rewrite (Hno _ Hk') in Htt. discriminate.
    - right. right. destruct E3 as [(_ & _ & Hno)|(-> & _)]; [|lia].
      rewrite (Hno _ Hk') in Htt. discriminate. }
  unfold emitKeyframe at 1.
  destruct ((length (mScalingKeys ch) <=? scale')
            && ((length (mRotationKeys ch) <=? rot')
                && (length (mPositionKeys ch) <=? pos'))) eqn:Hdone.
  - apply andb_prop in Hdone as [H3 [H2 H1]%andb_prop].
    apply Nat.leb_le in H1, H2, H3.
    eexists. split; [reflexivity|]. rewrite length_app. cbn [length]. lia.
  - edestruct (IH pos' rot' scale') as (l' & -> & Hup & Hlp & Hlr & Hls).
    + apply andb_false_iff in Hdone as [H|H];
        [|apply andb_false_iff in H as [H|H]]; apply Nat.leb_gt in H; eauto.
    + lia.
    + exists l'. split; [reflexivity|].
      unfold emitKeyframe in Hup, Hlp, Hlr, Hls.
      rewrite length_app in Hup, Hlp, Hlr, Hls. cbn [length] in Hup, Hlp, Hlr, Hls.
      clear -Hup Hlp Hlr Hls Hp Hr Hs Hadv. lia.
Qed.
End Count.

(** X20: for key times that are numbers, the merge ends and makes at least
    as many keyframes as the longest track has keys, and at most as many as
    the three tracks have keys together. *)
Theorem mergedKeyframes_count (ch : aiNodeAnim) (tps : float) :
  Forall wf_time (channelTimes ch) →
  channelTimes ch ≠ [] →
  ∃ kfs, mergedKeyframes false ch tps = Ok kfs
    ∧ length (mPositionKeys ch) ≤ length kfs
    ∧ length (mRotationKeys ch) ≤ length kfs
    ∧ length (mScalingKeys ch) ≤ length kfs
    ∧ length kfs ≤ length (channelTimes ch).
Proof.
  intros Hwf Hne. unfold mergedKeyframes.
  destruct (mergeLoop_count ch tps Hwf (mergeFuel ch) 0 0 0 Keyframe_default [])
    as (kfs & Hrun & Hup & Hp & Hr & Hs).
  - unfold channelTimes in Hne.
    destruct (mPositionKeys ch); [|cbn; lia].
    destruct (mRotationKeys ch); [|cbn; lia].
    destruct (mScalingKeys ch); [done|cbn; lia].
  - unfold mergeFuel. lia.
  - exists kfs. split; [exact Hrun|]. unfold channelTimes.
    rewrite !length_app, !length_fmap. cbn [length] in *. lia.
Qed.

Lemma mergedKeyframes_count_witness :
  Forall wf_time (channelTimes sparseChannel)
  ∧ channelTimes sparseChannel ≠ []
  ∧ ∃ kfs, mergedKeyframes false sparseChannel (Fin 1) = Ok kfs
      ∧ 3 ≤ length kfs ∧ length kfs ≤ 6.
Proof.
  assert (H1 : Forall wf_time (channelTimes sparseChannel)).
  { repeat constructor; eexists; (split; [reflexivity|vm_compute; reflexivity]). }
  assert (H2 : channelTimes sparseChannel ≠ []) by done.
  split; [exact H1|]. split; [exact H2|].
  destruct (mergedKeyframes_count sparseChannel (Fin 1) H1 H2) as (kfs & Hrun & Hp & _ & _ & Hup).
  exists kfs. split; [exact Hrun|]. split; [exact Hp|exact Hup].
Defined.

(** X21: a channel that names no node of the scene graph makes no
    animation: the import stops at the lookup of the instances of the name,
    with [std::out_of_range] when assertions are compiled out. *)
Theorem createAnimationChannel_unknown_node (dbg : bool) (pAiAnim : aiAnimation)
    (importMode : ImportMode) (pAiNode : aiNodeAnim) (data : ImporterData) :
  mAiNodes data !! mNodeName pAiNode = None →
  (∃ e, createAnimationChannel dbg pAiAnim importMode pAiNode data = Err e)
  ∧ createAnimationChannel false pAiAnim importMode pAiNode data = Err OutOfRange.
Proof.
  intros Hunknown.
  assert (Hrel : createAnimationChannel false pAiAnim importMode pAiNode data = Err OutOfRange).
  { unfold createAnimationChannel. rewrite resetNegativeKeyframeTimes_release.
    cbn [mbind result_bind]. unfold getNodeInstanceCount. cbn [mNodeName clampChannel].
    by rewrite Hunknown. }
  split; [|exact Hrel]. destruct dbg; [|by eexists].
  unfold createAnimationChannel.
  destruct (resetNegativeKeyframeTimes true pAiNode) as [ch'|e] eqn:E; [|by exists e].
  apply resetNegativeKeyframeTimes_Ok in E as ->. cbn [mbind result_bind].
  unfold getNodeInstanceCount. cbn [mNodeName clampChannel]. rewrite Hunknown.
  by eexists.
Qed.

Lemma createAnimationChannel_unknown_node_witness :
  mAiNodes unattachedSkinData !! mNodeName sparseChannel = None
  ∧ (∃ e, createAnimationChannel true sparseAnimation Default sparseChannel
            unattachedSkinData = Err e)
  ∧ createAnimationChannel false sparseAnimation Default sparseChannel unattachedSkinData
    = Err OutOfRange.
Proof.
  split; [reflexivity|].
  exact (createAnimationChannel_unknown_node true sparseAnimation Default sparseChannel
           unattachedSkinData eq_refl).
Defined.

(** ** Material mapper: textures *)

Lemma str_replace_contains (old new : Ascii.ascii) (s : string) :
  Ascii.eqb new old = false → str_contains old (str_replace old new s) = false.
Proof.
  intros Hne. induction s as [|c s IH]; [done|]. cbn.
  rewrite IH, orb_false_r. destruct (Ascii.eqb c old) eqn:E; [exact Hne|exact E].
Qed.

Lemma loadTexture_textureLoad (pathAppend : string → string → string)
    (pAiMaterial : aiMaterial) (searchPath : string) (source : TextureMapping)
    (st : list (TextureSlot * string) * list string) :
  (loadTexture pathAppend pAiMaterial searchPath source st).1
  = st.1 ++ (handedOver pathAppend searchPath
             <$> option_list (textureLoad pAiMaterial source)).
Proof.
  unfold loadTexture, textureLoad.
  destruct (mat_textures pAiMaterial (aiType source) !! aiIndex source) as [raw|] eqn:E.
  - apply lookup_lt_Some in E as Hlt.
    assert (Hf : (length (mat_textures pAiMaterial (aiType source)) <? aiIndex source + 1)
                 = false) by (apply Nat.ltb_ge; lia).
    rewrite Hf. cbn [default]. destruct (String.eqb _ ""); cbn; by rewrite ?app_nil_r.
  - apply lookup_ge_None in E.
    assert (Ht : (length (mat_textures pAiMaterial (aiType source)) <? aiIndex source + 1)
                 = true) by (apply Nat.ltb_lt; lia).
    rewrite Ht. cbn. by rewrite app_nil_r.
Qed.

Lemma loadTextures_fold (pathAppend : string → string → string) (pAiMaterial : aiMaterial)
    (searchPath : string) (table : list TextureMapping) :
  ∀ st, (foldl (λ st source, loadTexture pathAppend pAiMaterial searchPath source st)
           st table).1
        = st.1 ++ (handedOver pathAppend searchPath
                   <$> omap (textureLoad pAiMaterial) table).
Proof.
  induction table as [|source table IH]; intros st.
  - cbn. by rewrite app_nil_r.
  - cbn [foldl omap list_omap]. rewrite IH, loadTexture_textureLoad.
    rewrite <- app_assoc. by destruct (textureLoad pAiMaterial source).
Qed.

Lemma loadTextures_omap (mr : aiTextureType * nat) (pathAppend : string → string → string)
    (pAiMaterial : aiMaterial) (searchPath : string) (importMode : ImportMode) :
  (loadTextures mr pathAppend pAiMaterial searchPath importMode).1
  = handedOver pathAppend searchPath
    <$> omap (textureLoad pAiMaterial) (kTextureMappings mr importMode).
Proof. unfold loadTextures. by rewrite loadTextures_fold. Qed.

(** X22: the paths [loadTextures] hands to the builder are, in the order of
    the table of the import mode, the search path joined with the path of
    every texture of the table that the material has; the path joined to
    the search path is the texture's path with every backslash replaced by
    a slash, is not empty and holds no backslash. *)
Theorem loadTextures_paths (mr : aiTextureType * nat) (pathAppend : string → string → string)
    (pAiMaterial : aiMaterial) (searchPath : string) (importMode : ImportMode) :
  (loadTextures mr pathAppend pAiMaterial searchPath importMode).1
  = (λ l, (l.1, pathAppend searchPath l.2))
    <$> omap (textureLoad pAiMaterial) (kTextureMappings mr importMode)
  ∧ ∀ slot path,
      (slot, path) ∈ omap (textureLoad pAiMaterial) (kTextureMappings mr importMode) →
      path ≠ "" ∧ str_contains backslash path = false
      ∧ ∃ source raw, source ∈ kTextureMappings mr importMode
          ∧ targetType source = slot
          ∧ mat_textures pAiMaterial (aiType source) !! aiIndex source = Some raw
          ∧ path = str_replace backslash slash raw.
Proof.
  split; [exact (loadTextures_omap mr pathAppend pAiMaterial searchPath importMode)|].
  intros slot path Hin.
  apply list_elem_of_omap in Hin as (source & Hsource & Hload).
  unfold textureLoad in Hload.
  destruct (mat_textures pAiMaterial (aiType source) !! aiIndex source) as [raw|] eqn:E;
    [|done].
  destruct (String.eqb (str_replace backslash slash raw) "") eqn:Hempty; [done|].
  injection Hload as <- <-. split.
  { intros Heq. rewrite Heq in Hempty. done. }
  split; [by apply str_replace_contains|]. by exists source, raw.
Qed.

Lemma loadTextures_slots (pAiMaterial : aiMaterial) (table : list TextureMapping) :
  (omap (textureLoad pAiMaterial) table).*1 `sublist_of` targetType <$> table.
Proof.
  induction table as [|source table IH]; [done|]. cbn [omap list_omap fmap list_fmap].
  unfold textureLoad at 1.
  destruct (mat_textures pAiMaterial (aiType source) !! aiIndex source) as [raw|].
  - destruct (String.eqb _ ""); cbn; [by apply sublist_cons|by apply sublist_skip].
  - by apply sublist_cons.
Qed.

Lemma handedOver_slots (pathAppend : string → string → string) (searchPath : string)
    (l : list (TextureSlot * string)) :
  (handedOver pathAppend searchPath <$> l).*1 = l.*1.
Proof. induction l as [|x l IH]; [done|]. cbn. by rewrite IH. Qed.

(** X23: in the default and the glTF2 mode no destination slot is loaded
    twice.  In the OBJ mode the normal slot is loaded twice when the
    material has both a bump map and a displacement map with a path: first
    with the bump map, last with the displacement map. *)
Theorem loadTextures_slot_loads (mr : aiTextureType * nat)
    (pathAppend : string → string → string) (pAiMaterial : aiMaterial)
    (searchPath : string) :
  (∀ importMode, importMode ≠ OBJ →
     NoDup (loadTextures mr pathAppend pAiMaterial searchPath importMode).1.*1)
  ∧ ∀ bump displacement,
      textureLoad pAiMaterial
        {| aiType := aiTextureType_HEIGHT; aiIndex := 0; targetType := Normal |}
      = Some (Normal, bump) →
      textureLoad pAiMaterial
        {| aiType := aiTextureType_DISPLACEMENT; aiIndex := 0; targetType := Normal |}
      = Some (Normal, displacement) →
      filter (λ l, l.1 = Normal) (loadTextures mr pathAppend pAiMaterial searchPath OBJ).1
      = [(Normal, pathAppend searchPath bump); (Normal, pathAppend searchPath displacement)].
Proof.
  split.
  - intros importMode Hmode.
    rewrite loadTextures_omap, handedOver_slots.
    eapply sublist_NoDup; [|apply loadTextures_slots].
    destruct importMode; [|done|]; cbn;
      match goal with
      | |- NoDup ?l =>
          let H := fresh in
          assert (H : bool_decide (NoDup l) = true) by (vm_compute; reflexivity);
          exact (proj1 (bool_decide_eq_true _) H)
      end.
  - intros bump displacement Hb Hd.
    rewrite loadTextures_omap.
    cbn [kTextureMappings omap list_omap]. rewrite Hb, Hd.
    repeat match goal with
           | |- context [textureLoad ?m ?s] =>
               let E := fresh in
               destruct (textureLoad m s) as [[? ?]|] eqn:E;
               [unfold textureLoad in E; cbn in E;
                destruct (mat_textures _ _ !! 0); [|done];
                destruct (String.eqb _ ""); [done|]; injection E as <- <-|]
           end; reflexivity.
Qed.

Lemma loadTextures_slot_loads_witness :
  textureLoad bumpyMaterial
    {| aiType := aiTextureType_HEIGHT; aiIndex := 0; targetType := Normal |}
  = Some (Normal, "bump.png")
  ∧ textureLoad bumpyMaterial
      {| aiType := aiTextureType_DISPLACEMENT; aiIndex := 0; targetType := Normal |}
    = Some (Normal, "a/d.png")
  ∧ filter (λ l, l.1 = Normal)
      (loadTextures (aiTextureType_UNKNOWN, 0) slashJoin bumpyMaterial "assets" OBJ).1
    = [(Normal, "assets/bump.png"); (Normal, "assets/a/d.png")].
Proof.
  split; [reflexivity|]. split; [reflexivity|].
  exact (proj2 (loadTextures_slot_loads (aiTextureType_UNKNOWN, 0) slashJoin bumpyMaterial
                  "assets")
           "bump.png" "a/d.png" eq_refl eq_refl).
Defined.

(** ** Lights *)

Lemma getFalcorNodeID_frame (d d' : ImporterData) (name : string) (i : nat) :
  mAiNodes d' = mAiNodes d → mAiToFalcorNodeID d' = mAiToFalcorNodeID d →
  getFalcorNodeID d' name i = getFalcorNodeID d name i.
Proof. unfold getFalcorNodeID, getFalcorNodeID_node. by intros -> ->. Qed.

Section LightProofs.
Context (normalize : float3 → float3) (vlength : float3 → float).
Context (setCol : nat → float * float * float * float → mat4 → mat4).

(** What [addLightCommon] does when its assertion holds. *)
Lemma addLightCommon_spec (dbg : bool) (pLight : Light) (baseMatrix : mat4)
    (pAiLight : aiLight) (data : ImporterData) (lights : list Light) :
  (dbg = true → color_eqb (mColorDiffuse pAiLight) (mColorSpecular pAiLight) = true) →
  l_name pLight = light_mName pAiLight →
  addLightCommon dbg pLight baseMatrix pAiLight (data, lights)
  = Ok (if lightResolved data pAiLight
        then (set_builder
                (builder_addNode (baseMatrixNode data pAiLight baseMatrix) (builder data)).2
                data,
              lights ++ [setNodeID (N.of_nat (length (sb_nodes (builder data))))
                           (setIntensity (aiCast_vec (mColorSpecular pAiLight)) pLight)])
        else (data, lights ++ [setIntensity (aiCast_vec (mColorSpecular pAiLight)) pLight])).
Proof.
  intros Hcol Hname. unfold addLightCommon, lightResolved, baseMatrixNode.
  rewrite FALCOR_ASSERT_holds by done. cbn [mbind result_bind].
  destruct (negb _); [|done]. cbn [builder_addNode setIntensity l_name]. by rewrite Hname.
Qed.

(** A light of a supported type: the light made, and the base matrix of the
    node made for it. *)
Lemma createLight_supported (dbg : bool) (pAiLight : aiLight) (data : ImporterData)
    (lights : list Light) :
  supportedLight pAiLight = true →
  (dbg = true → color_eqb (mColorDiffuse pAiLight) (mColorSpecular pAiLight) = true) →
  ∃ light base,
    createLight normalize vlength setCol dbg pAiLight (data, lights)
    = Ok (if lightResolved data pAiLight
          then (set_builder
                  (builder_addNode (baseMatrixNode data pAiLight base) (builder data)).2 data,
                lights ++ [setNodeID (N.of_nat (length (sb_nodes (builder data)))) light])
          else (data, lights ++ [light]))
    ∧ l_name light = light_mName pAiLight
    ∧ l_kind light = lightKind pAiLight
    ∧ l_intensity light = Some (aiCast_vec (mColorSpecular pAiLight))
    ∧ l_nodeID light = None.
Proof.
  intros Hsup Hcol. unfold createLight, supportedLight, lightKind in *.
  destruct (light_mType pAiLight); try done.
  - unfold createDirLight. cbv zeta.
    destruct (vneg _) as [[dx dy] dz].
    rewrite addLightCommon_spec by done. by eexists _, _.
  - unfold createPointLight. cbv zeta.
    destruct (cross _ _) as [[rx ry] rz].
    destruct (if feqb (vlength (aiCast_vec (light_mUp pAiLight))) zero then _ else _)
      as [[ux uy] uz].
    destruct (vneg _) as [[dx dy] dz].
    destruct (aiCast_vec (light_mPosition pAiLight)) as [[px py] pz] eqn:Hpos.
    rewrite addLightCommon_spec by done. by eexists _, _.
  - unfold createPointLight. cbv zeta.
    destruct (cross _ _) as [[rx ry] rz].
    destruct (if feqb (vlength (aiCast_vec (light_mUp pAiLight))) zero then _ else _)
      as [[ux uy] uz].
    destruct (vneg _) as [[dx dy] dz].
    destruct (aiCast_vec (light_mPosition pAiLight)) as [[px py] pz] eqn:Hpos.
    rewrite addLightCommon_spec by done. by eexists _, _.
Qed.

Lemma createLight_unsupported (dbg : bool) (pAiLight : aiLight) (data : ImporterData)
    (lights : list Light) :
  supportedLight pAiLight = false →
  createLight normalize vlength setCol dbg pAiLight (data, lights)
  = Ok (logWarning (unsupportedLight pAiLight) data, lights).
Proof.
  unfold createLight, supportedLight. by destruct (light_mType pAiLight).
Qed.

(** The loop of [createLights], started in a state [data] whose node
    registry is that of [data0]. *)
Lemma createLights_spec (dbg : bool) (data0 : ImporterData) (mLights : list aiLight) :
  ∀ data lights,
    mAiNodes data = mAiNodes data0 →
    mAiToFalcorNodeID data = mAiToFalcorNodeID data0 →
    (dbg = true → coloursAgree mLights) →
    ∃ data' newLights newNodes,
      createLights normalize vlength setCol dbg mLights (data, lights)
      = Ok (data', lights ++ newLights)
      ∧ mAiNodes data' = mAiNodes data0
      ∧ mAiToFalcorNodeID data' = mAiToFalcorNodeID data0
      ∧ sb_meshes (builder data') = sb_meshes (builder data)
      ∧ sb_meshInstances (builder data') = sb_meshInstances (builder data)
      ∧ sb_animations (builder data') = sb_animations (builder data)
      ∧ sb_nodes (builder data') = sb_nodes (builder data) ++ newNodes
      ∧ warnings data'
        = warnings data
          ++ (unsupportedLight <$> filter (λ l, supportedLight l = false) mLights)
      ∧ l_name <$> newLights = light_mName <$> filter (λ l, supportedLight l = true) mLights
      ∧ l_kind <$> newLights = lightKind <$> filter (λ l, supportedLight l = true) mLights
      ∧ l_nodeID <$> newLights
        = lightBindings data0 (length (sb_nodes (builder data)))
            (filter (λ l, supportedLight l = true) mLights)
      ∧ n_name <$> newNodes
        = (λ l, light_mName l +:+ ".BaseMatrix")
            <$> filter (λ l, supportedLight l && lightResolved data0 l = true) mLights
      ∧ n_parent <$> newNodes
        = (λ l, getFalcorNodeID data0 (light_mName l) 0)
            <$> filter (λ l, supportedLight l && lightResolved data0 l = true) mLights.
Proof.
  induction mLights as [|pAiLight rest IH]; intros data lights Hnames Hids Hcol.
  - exists data, [], []. cbn. by rewrite !app_nil_r.
  - assert (Hrest : dbg = true → coloursAgree rest).
    { intros Hd. specialize (Hcol Hd). by apply Forall_cons in Hcol as [_ ?]. }
    assert (Hres : lightResolved data pAiLight = lightResolved data0 pAiLight).
    { unfold lightResolved. by rewrite (getFalcorNodeID_frame data0 data). }
    assert (Hpar : getFalcorNodeID data (light_mName pAiLight) 0
                   = getFalcorNodeID data0 (light_mName pAiLight) 0)
      by (by apply getFalcorNodeID_frame).
    unfold createLights. cbn [forEach]. rewrite !filter_cons.
    destruct (supportedLight pAiLight) eqn:Hsup.
    + destruct (createLight_supported dbg pAiLight data lights Hsup)
        as (light & base & -> & Hn & Hk & Hi & Hb).
      { intros Hd. specialize (Hcol Hd). apply Forall_cons in Hcol as [H _]. by apply H. }
      rewrite (decide_True (P := true = true)) by done.
      rewrite (decide_False (P := true = false)) by done.
      cbn [andb mbind result_bind]. rewrite Hres.
      destruct (lightResolved data0 pAiLight) eqn:Hr.
      * rewrite (decide_True (P := true = true)) by done.
        set (d1 := set_builder _ data). set (l1 := lights ++ [_]).
        destruct (IH d1 l1 Hnames Hids Hrest) as (data' & newLights & newNodes & Hrun & H).
        subst d1 l1. unfold createLights in Hrun. rewrite Hrun. clear Hrun.
        destruct H as (E1 & E2 & E3 & E4 & E5 & E6 & E7 & E8 & E9 & E10 & E11 & E12).
        cbn [builder set_builder builder_addNode snd sb_nodes sb_meshes sb_meshInstances
               sb_animations warnings] in *.
        exists data', (setNodeID (N.of_nat (length (sb_nodes (builder data)))) light
                         :: newLights),
          (baseMatrixNode data pAiLight base :: newNodes).
        split; [by rewrite <- app_assoc|].
        split; [done|]. split; [done|]. split; [done|]. split; [done|]. split; [done|].
        split; [by rewrite E6, <- app_assoc|]. split; [done|].
        split; [cbn; by rewrite E8, Hn|]. split; [cbn; by rewrite E9, Hk|].
        split.
        { cbn [fmap list_fmap lightBindings l_nodeID setNodeID]. rewrite Hr, E10.
          rewrite length_app. cbn [length].
          by replace (length (sb_nodes (builder data)) + 1)
               with (S (length (sb_nodes (builder data)))) by lia. }
        split; [cbn; by rewrite E11|cbn; by rewrite E12, Hpar].
      * rewrite (decide_False (P := false = true)) by done.
        set (l1 := lights ++ [_]).
        destruct (IH data l1 Hnames Hids Hrest) as (data' & newLights & newNodes & Hrun & H).
        subst l1. unfold createLights in Hrun. rewrite Hrun. clear Hrun.
        destruct H as (E1 & E2 & E3 & E4 & E5 & E6 & E7 & E8 & E9 & E10 & E11 & E12).
        exists data', (light :: newLights), newNodes.
        split; [by rewrite <- app_assoc|].
        split; [done|]. split; [done|]. split; [done|]. split; [done|]. split; [done|].
        split; [done|]. split; [done|].
        split; [cbn; by rewrite E8, Hn|]. split; [cbn; by rewrite E9, Hk|].
        split; [|done].
        cbn [fmap list_fmap lightBindings]. by rewrite Hr, E10, Hb.
    + rewrite createLight_unsupported by done. cbn [mbind result_bind].
      rewrite (decide_True (P := false = false)) by done.
      rewrite (decide_False (P := false = true)) by done.
      cbn [andb]. rewrite (decide_False (P := false = true)) by done.
      destruct (IH (logWarning (unsupportedLight pAiLight) data) lights Hnames Hids Hrest)
        as (data' & newLights & newNodes & Hrun & H).
      unfold createLights in Hrun. rewrite Hrun. clear Hrun.
      destruct H as (E1 & E2 & E3 & E4 & E5 & E6 & E7 & E8 & E9 & E10 & E11 & E12).
      cbn [builder logWarning warnings] in *.
      exists data', newLights, newNodes. split; [done|].
      split; [done|]. split; [done|]. split; [done|]. split; [done|]. split; [done|].
      split; [done|]. split; [|done].
      rewrite E7. cbn [fmap list_fmap]. by rewrite <- app_assoc.
Qed.
End LightProofs.

(** X24: [createLights] registers one light per light of the scene whose
    type is directional, point or spot, in the order of the scene, with the
    name of the source light and the kind of its type (a spot light becomes
    a point light); a light of any other type is left out with a warning. *)
Theorem createLights_lights (normalize : float3 → float3) (vlength : float3 → float)
    (setCol : nat → float * float * float * float → mat4 → mat4)
    (dbg : bool) (mLights : list aiLight) (data : ImporterData) (lights : list Light) :
  (dbg = true → coloursAgree mLights) →
  ∃ data' newLights,
    createLights normalize vlength setCol dbg mLights (data, lights)
    = Ok (data', lights ++ newLights)
    ∧ l_name <$> newLights = light_mName <$> filter (λ l, supportedLight l = true) mLights
    ∧ l_kind <$> newLights = lightKind <$> filter (λ l, supportedLight l = true) mLights
    ∧ warnings data'
      = warnings data
        ++ (unsupportedLight <$> filter (λ l, supportedLight l = false) mLights).
Proof.
  intros Hcol.
  destruct (createLights_spec normalize vlength setCol dbg data mLights data lights
              eq_refl eq_refl Hcol)
    as (data' & newLights & newNodes & Hrun & _ & _ & _ & _ & _ & _ & Hw & Hn & Hk & _).
  by exists data', newLights.
Qed.

Lemma threeLights_agree : coloursAgree threeLights.
Proof. repeat constructor. Qed.

Lemma createLights_lights_witness :
  coloursAgree threeLights
  ∧ ∃ data' newLights,
      createLights (λ v, v) (λ _, one) (λ _ _ m, m) true threeLights (jointData, [])
      = Ok (data', [] ++ newLights)
      ∧ l_name <$> newLights = ["joint"; "sun"]
      ∧ l_kind <$> newLights = [PointLight; DirectionalLight]
      ∧ length (warnings data') = 1.
Proof.
  split; [exact threeLights_agree|].
  destruct (createLights_lights (λ v, v) (λ _, one) (λ _ _ m, m) true threeLights jointData []
              (λ _, threeLights_agree))
    as (data' & newLights & Hrun & Hn & Hk & Hw).
  exists data', newLights. split; [exact Hrun|]. split; [exact Hn|]. split; [exact Hk|].
  by rewrite Hw.
Defined.

(** X25: for every registered light whose name is the name of a node of the
    scene graph, [createLights] adds one node, named after the light with
    the suffix ".BaseMatrix" and hanging from the node of that name, and
    binds the light to it; the nodes get consecutive identifiers in the
    order of the lights.  A light whose name is no node's is bound to no
    node, and nothing but nodes, lights and warnings is added. *)
Theorem createLights_nodes (normalize : float3 → float3) (vlength : float3 → float)
    (setCol : nat → float * float * float * float → mat4 → mat4)
    (dbg : bool) (mLights : list aiLight) (data : ImporterData) (lights : list Light) :
  let bound := filter (λ l, supportedLight l && lightResolved data l = true) mLights in
  (dbg = true → coloursAgree mLights) →
  ∃ data' newLights newNodes,
    createLights normalize vlength setCol dbg mLights (data, lights)
    = Ok (data', lights ++ newLights)
    ∧ sb_nodes (builder data') = sb_nodes (builder data) ++ newNodes
    ∧ n_name <$> newNodes = (λ l, light_mName l +:+ ".BaseMatrix") <$> bound
    ∧ n_parent <$> newNodes = (λ l, getFalcorNodeID data (light_mName l) 0) <$> bound
    ∧ l_nodeID <$> newLights
      = lightBindings data (length (sb_nodes (builder data)))
          (filter (λ l, supportedLight l = true) mLights)
    ∧ sb_meshes (builder data') = sb_meshes (builder data)
    ∧ sb_meshInstances (builder data') = sb_meshInstances (builder data)
    ∧ sb_animations (builder data') = sb_animations (builder data).
Proof.
  intros bound Hcol.
  destruct (createLights_spec normalize vlength setCol dbg data mLights data lights
              eq_refl eq_refl Hcol)
    as (data' & newLights & newNodes & Hrun & _ & _ & Hm & Hi & Ha & Hnodes & _ & _ & _
        & Hb & Hnn & Hnp).
  by exists data', newLights, newNodes.
Qed.

Lemma createLights_nodes_witness :
  coloursAgree threeLights
  ∧ ∃ data' newLights newNodes,
      createLights (λ v, v) (λ _, one) (λ _ _ m, m) true threeLights (jointData, [])
      = Ok (data', [] ++ newLights)
      ∧ sb_nodes (builder data') = [] ++ newNodes
      ∧ n_name <$> newNodes = ["joint.BaseMatrix"]
      ∧ n_parent <$> newNodes = [3%N]
      ∧ l_nodeID <$> newLights = [Some 0%N; None].
Proof.
  split; [exact threeLights_agree|].
  destruct (createLights_nodes (λ v, v) (λ _, one) (λ _ _ m, m) true threeLights jointData []
              (λ _, threeLights_agree))
    as (data' & newLights & newNodes & Hrun & Hnodes & Hn & Hp & Hb & _).
  exists data', newLights, newNodes. split; [exact Hrun|]. split; [exact Hnodes|].
  split; [exact Hn|]. split; [exact Hp|exact Hb].
Defined.

(** ** Material mapper: parameters *)

Lemma ifGet_proj {A M B : Type} (proj : M → B) (value : option A) (body : A → M → M) (m : M) :
  (∀ x m, proj (body x m) = proj m) → proj (ifGet value body m) = proj m.
Proof. intros H. destruct value; [apply H|done]. Qed.

Lemma nameTokens_material (nameStr : string) (tokens : list string) :
  ∀ m data,
    (foldl (nameToken nameStr) (m, data) tokens).1
    = if existsb (λ token, String.eqb (str_tolower token) "doublesided") tokens
      then setDoubleSided true m else m.
Proof.
  induction tokens as [|token tokens IH]; intros m data; [done|].
  cbn [foldl existsb]. unfold nameToken at 2. cbn [fst snd].
  destruct (String.eqb (str_tolower token) "doublesided"); cbn [orb]; rewrite IH.
  - by destruct (existsb _ tokens).
  - done.
Qed.

Section MaterialProofs.
Context (mr : aiTextureType * nat) (pathAppend : string → string → string).
Context (fsqrt : float → float).
Context (splitString : string → string → list string).
Context (create : string → ShadingModel → StandardMaterial).

(** The material [createMaterial] returns, in terms of the material it
    starts from. *)
Lemma createMaterial_Ok (dbg useSpecGloss useMetalRough : bool) (data data' : ImporterData)
    (pAiMaterial : aiMaterial) (searchPath : string) (importMode : ImportMode) (m : StandardMaterial) :
  createMaterial mr pathAppend fsqrt splitString create dbg useSpecGloss useMetalRough data
    pAiMaterial searchPath importMode = Ok (m, data') →
  let nameStr := materialName pAiMaterial in
  let opacity := default one (mat_opacity pAiMaterial) in
  let m0 :=
    setTextures (loadTextures mr pathAppend pAiMaterial searchPath importMode).1
      (create nameStr (materialShadingModel useSpecGloss useMetalRough importMode)) in
  let m1 :=
    ifGet (mat_twoSided pAiMaterial)
      (λ isDoubleSided m, setDoubleSided (negb (Z.eqb isDoubleSided 0)) m)
      (ifGet (mat_colorEmissive pAiMaterial) (λ color m, setEmissiveColor color m)
         (ifGet (mat_colorSpecular pAiMaterial)
            (λ color m, setSpecularParams (withColor color (sm_specularParams m)) m)
            (ifGet (mat_colorDiffuse pAiMaterial)
               (λ color m, setBaseColor (withColor color (sm_baseColor m)) m)
               (ifGet (mat_refracti pAiMaterial) setIndexOfRefraction
                  (ifGet (mat_shininess pAiMaterial)
                     (λ shininess m,
                        setSpecularParams
                          (withAlpha
                             (if ImportMode_eqb importMode OBJ
                              then fsub one (convertSpecPowerToRoughness fsqrt shininess)
                              else shininess) (sm_specularParams m)) m)
                     (ifGet (mat_opacity pAiMaterial)
                        (λ opacity m, setBaseColor (withAlpha opacity (sm_baseColor m)) m)
                        m0)))))) in
  let m2 :=
    if ImportMode_eqb importMode GLTF2 then
      let m' := ifGet (mat_baseColorFactor pAiMaterial)
                  (λ color m, setBaseColor (withColor color (sm_baseColor m)) m) m1 in
      setSpecularParams
        (ifGet (mat_roughnessFactor pAiMaterial)
           (λ roughness (v : float4), let '(x, _, z, w) := v in (x, roughness, z, w))
           (ifGet (mat_metallicFactor pAiMaterial)
              (λ metallic (v : float4), let '(x, y, _, w) := v in (x, y, metallic, w))
              (sm_specularParams m'))) m'
    else m1 in
  let m3 := if namedDoubleSided (splitString nameStr ".") then setDoubleSided true m2 else m2 in
  (dbg = true → useSpecGloss && useMetalRough = false)
  ∧ m = if fltb opacity one then setSpecularTransmission (fsub one opacity) m3 else m3.
Proof.
  intros H. cbv zeta. unfold createMaterial in H.
  assert (Hname : (if String.eqb (mat_name pAiMaterial) ""
                   then ("unnamed", logWarning unnamedMaterial data)
                   else (mat_name pAiMaterial, data)).1 = materialName pAiMaterial).
  { unfold materialName. by destruct (String.eqb _ ""). }
  destruct (if String.eqb (mat_name pAiMaterial) "" then _ else _) as [nameStr d0].
  cbn [fst] in Hname. subst nameStr.
  bind_inv H as u Ea. split.
  { intros ->. unfold FALCOR_ASSERT in Ea. cbn in Ea.
    by destruct (useSpecGloss && useMetalRough). }
  destruct (loadTextures mr pathAppend pAiMaterial searchPath importMode) as [loads warns].
  destruct (foldl (nameToken _) _ _) as [pM d2] eqn:Ef.
  injection H as <- <-.
  apply (f_equal fst) in Ef. rewrite nameTokens_material in Ef. cbn [fst] in Ef.
  subst pM. done.
Qed.

(** X26: the opacity of the source material becomes the alpha of the base
    colour, whatever colours the material carries, and, when it is less than
    one, one minus it becomes the specular transmission; a material without
    opacity keeps the alpha and the transmission it was created with. *)
Theorem createMaterial_opacity (dbg useSpecGloss useMetalRough : bool)
    (data data' : ImporterData) (pAiMaterial : aiMaterial) (searchPath : string) (importMode : ImportMode)
    (m : StandardMaterial) :
  createMaterial mr pathAppend fsqrt splitString create dbg useSpecGloss useMetalRough data
    pAiMaterial searchPath importMode = Ok (m, data') →
  let created :=
    create (materialName pAiMaterial)
      (materialShadingModel useSpecGloss useMetalRough importMode) in
  baseAlpha m = default (baseAlpha created) (mat_opacity pAiMaterial)
  ∧ sm_specularTransmission m
    = match mat_opacity pAiMaterial with
      | Some opacity =>
          if fltb opacity one then fsub one opacity else sm_specularTransmission created
      | None => sm_specularTransmission created
      end.
Proof.
  intros H created. apply createMaterial_Ok in H as [_ ->]. cbv zeta.
  assert (Hone : fltb one one = false) by reflexivity.
  split.
  - assert (Hkeep : ∀ m', baseAlpha
              (if fltb (default one (mat_opacity pAiMaterial)) one
               then setSpecularTransmission (fsub one (default one (mat_opacity pAiMaterial))) m'
               else m') = baseAlpha m') by (intros m'; destruct (fltb (default _ _) _); reflexivity).
    rewrite Hkeep.
    assert (Hd : ∀ m', baseAlpha (if namedDoubleSided (splitString (materialName pAiMaterial) ".")
                                  then setDoubleSided true m' else m') = baseAlpha m')
      by (intros m'; destruct (namedDoubleSided _); reflexivity).
    rewrite Hd.
    assert (Hcolor : ∀ (o : option aiColor3D) m',
              baseAlpha (ifGet o (λ color m, setBaseColor (withColor color (sm_baseColor m)) m) m')
              = baseAlpha m').
    { intros o m'. apply (ifGet_proj baseAlpha). by intros [[r g] b] m''. }
    destruct (ImportMode_eqb importMode GLTF2).
    + change (baseAlpha (setSpecularParams ?v ?m')) with (baseAlpha m').
      rewrite Hcolor.
      rewrite !(ifGet_proj baseAlpha) by done. rewrite Hcolor.
      rewrite !(ifGet_proj baseAlpha) by done.
      by destruct (mat_opacity pAiMaterial).
    + rewrite !(ifGet_proj baseAlpha) by done. rewrite Hcolor.
      rewrite !(ifGet_proj baseAlpha) by done.
      by destruct (mat_opacity pAiMaterial).
  - assert (Hd : ∀ m', sm_specularTransmission
                         (if namedDoubleSided (splitString (materialName pAiMaterial) ".")
                          then setDoubleSided true m' else m') = sm_specularTransmission m')
      by (intros m'; destruct (namedDoubleSided _); reflexivity).
    assert (Hrest : ∀ m3, sm_specularTransmission m3 = sm_specularTransmission created →
              sm_specularTransmission
                (if fltb (default one (mat_opacity pAiMaterial)) one
                 then setSpecularTransmission
                        (fsub one (default one (mat_opacity pAiMaterial))) m3
                 else m3)
              = match mat_opacity pAiMaterial with
                | Some opacity =>
                    if fltb opacity one then fsub one opacity
                    else sm_specularTransmission created
                | None => sm_specularTransmission created
                end).
    { intros m3 Hm3. destruct (mat_opacity pAiMaterial) as [o|]; cbn [default id].
      - destruct (fltb o one); [reflexivity|exact Hm3].
      - rewrite Hone. exact Hm3. }
    apply Hrest. rewrite Hd.
    destruct (ImportMode_eqb importMode GLTF2).
    + change (sm_specularTransmission (setSpecularParams ?v ?m'))
        with (sm_specularTransmission m').
      by rewrite !(ifGet_proj sm_specularTransmission) by done.
    + by rewrite !(ifGet_proj sm_specularTransmission) by done.
Qed.

(** X27: a material is double-sided as soon as a token of its name after the
    first reads "doublesided" in any case, also when its two-sided key holds
    zero; without such a token the key decides, and without the key the
    material stays as it was created. *)
Theorem createMaterial_double_sided (dbg useSpecGloss useMetalRough : bool)
    (data data' : ImporterData) (pAiMaterial : aiMaterial) (searchPath : string) (importMode : ImportMode)
    (m : StandardMaterial) :
  createMaterial mr pathAppend fsqrt splitString create dbg useSpecGloss useMetalRough data
    pAiMaterial searchPath importMode = Ok (m, data') →
  let created :=
    create (materialName pAiMaterial)
      (materialShadingModel useSpecGloss useMetalRough importMode) in
  sm_doubleSided m
  = if namedDoubleSided (splitString (materialName pAiMaterial) ".") then true
    else match mat_twoSided pAiMaterial with
         | Some isDoubleSided => negb (Z.eqb isDoubleSided 0)
         | None => sm_doubleSided created
         end.
Proof.
  intros H created. apply createMaterial_Ok in H as [_ ->]. cbv zeta.
  assert (Hkeep : ∀ m', sm_doubleSided
            (if fltb (default one (mat_opacity pAiMaterial)) one
             then setSpecularTransmission (fsub one (default one (mat_opacity pAiMaterial))) m'
             else m') = sm_doubleSided m')
    by (intros m'; destruct (fltb (default _ _) _); reflexivity).
  rewrite Hkeep.
  destruct (namedDoubleSided _); [reflexivity|].
  destruct (ImportMode_eqb importMode GLTF2).
  - change (sm_doubleSided (setSpecularParams ?v ?m')) with (sm_doubleSided m').
    rewrite (ifGet_proj sm_doubleSided) by done.
    destruct (mat_twoSided pAiMaterial); [reflexivity|]. cbn [ifGet].
    by rewrite !(ifGet_proj sm_doubleSided) by done.
  - destruct (mat_twoSided pAiMaterial); [reflexivity|]. cbn [ifGet].
    by rewrite !(ifGet_proj sm_doubleSided) by done.
Qed.

Lemma clamp_unit (x : float) : x ≠ NaN → unitF (clamp x zero one).
Proof.
  intros Hx. unfold clamp, fmax, fmin, unitF, zero, one.
  destruct x as [q|[|]|]; [| | |done].
  - cbn [fltb]. destruct (Qle_bool 0 q) eqn:E0; cbn [negb].
    + cbn [fltb]. destruct (Qle_bool q 1) eqn:E1; cbn [negb].
      * exists q. apply Qle_bool_iff in E0, E1. done.
      * exists 1%Q. split; [done|]. split; [by apply Qle_bool_iff|apply Qle_refl].
    + exists 0%Q. split; [done|]. split; [apply Qle_refl|by apply Qle_bool_iff].
  - exists 0%Q. split; [done|]. split; [apply Qle_refl|by apply Qle_bool_iff].
  - exists 1%Q. split; [done|]. split; [by apply Qle_bool_iff|apply Qle_refl].
Qed.

Lemma fsub_one_unit (x : float) : unitF x → unitF (fsub one x).
Proof.
  intros (q & -> & H0 & H1). exists (1 + - q)%Q. split; [done|]. split; lra.
Qed.

(** X28: the shininess of the source material becomes the glossiness, the
    fourth specular parameter, whatever specular colour and GLTF2 factors the
    material carries; an OBJ import stores one minus the roughness converted
    from it instead, which lies between zero and one whenever the square root
    is a number. *)
Theorem createMaterial_glossiness (dbg useSpecGloss useMetalRough : bool)
    (data data' : ImporterData) (pAiMaterial : aiMaterial) (searchPath : string) (importMode : ImportMode)
    (m : StandardMaterial) (shininess : float) :
  createMaterial mr pathAppend fsqrt splitString create dbg useSpecGloss useMetalRough data
    pAiMaterial searchPath importMode = Ok (m, data') →
  mat_shininess pAiMaterial = Some shininess →
  glossiness m
  = (if ImportMode_eqb importMode OBJ
     then fsub one (convertSpecPowerToRoughness fsqrt shininess) else shininess)
  ∧ (importMode = OBJ → fsqrt (fdiv (Fin 2) (fadd shininess (Fin 2))) ≠ NaN →
     unitF (glossiness m)).
Proof.
  intros H Hs. apply createMaterial_Ok in H as [_ ->]. cbv zeta.
  match goal with |- ?L = ?R ∧ _ => assert (Hg : L = R) end.
  { assert (Hkeep : ∀ m', glossiness
              (if fltb (default one (mat_opacity pAiMaterial)) one
               then setSpecularTransmission (fsub one (default one (mat_opacity pAiMaterial))) m'
               else m') = glossiness m')
      by (intros m'; destruct (fltb (default _ _) _); reflexivity).
    rewrite Hkeep.
    assert (Hd : ∀ m', glossiness (if namedDoubleSided (splitString (materialName pAiMaterial) ".")
                                   then setDoubleSided true m' else m') = glossiness m')
      by (intros m'; destruct (namedDoubleSided _); reflexivity).
    rewrite Hd.
    assert (Hcolor : ∀ (o : option aiColor3D) m',
              glossiness
                (ifGet o (λ color m, setSpecularParams (withColor color (sm_specularParams m)) m)
                   m')
              = glossiness m').
    { intros o m'. apply (ifGet_proj glossiness). by intros [[r g] b] m''. }
    set (m1 := ifGet (mat_twoSided pAiMaterial) _ _).
    assert (Hm1 : glossiness m1
                  = if ImportMode_eqb importMode OBJ
                    then fsub one (convertSpecPowerToRoughness fsqrt shininess)
                    else shininess).
    { subst m1. rewrite !(ifGet_proj glossiness) by done. rewrite Hcolor.
      rewrite !(ifGet_proj glossiness) by done. rewrite Hs. reflexivity. }
    destruct (ImportMode_eqb importMode GLTF2); [|exact Hm1].
    rewrite <- Hm1. unfold glossiness at 1.
    change (sm_specularParams (setSpecularParams ?v ?m')) with v.
    assert (Hsp : sm_specularParams (ifGet (mat_baseColorFactor pAiMaterial)
                    (λ color m, setBaseColor (withColor color (sm_baseColor m)) m) m1)
                  = sm_specularParams m1) by (by apply ifGet_proj).
    rewrite Hsp. unfold glossiness.
    destruct (sm_specularParams m1) as [[[x y] z] w].
    by destruct (mat_metallicFactor pAiMaterial), (mat_roughnessFactor pAiMaterial). }
  split; [exact Hg|].
  intros -> Hnum. rewrite Hg. cbn [ImportMode_eqb].
  apply fsub_one_unit, clamp_unit, Hnum.
Qed.
Lemma nameTokens_warnings (nameStr : string) (tokens : list string) :
  ∀ m data,
    (foldl (nameToken nameStr) (m, data) tokens).2
    = foldl (λ d w, logWarning w d) data
        (unknownProperty nameStr
         <$> filter (λ token, String.eqb (str_tolower token) "doublesided" = false) tokens).
Proof.
  induction tokens as [|token tokens IH]; intros m data; [done|].
  cbn [foldl]. unfold nameToken at 2. cbn [fst snd]. rewrite filter_cons.
  destruct (String.eqb (str_tolower token) "doublesided") eqn:E; rewrite IH.
  - by rewrite decide_False by done.
  - by rewrite decide_True by done.
Qed.

(** X29: importing a material changes nothing of the importer's data but the
    log, which gains the warning for a missing name, then the warnings of the
    textures, then one warning for every token of the name after the first
    that is not "doublesided". *)
Theorem createMaterial_warnings (dbg useSpecGloss useMetalRough : bool)
    (data data' : ImporterData) (pAiMaterial : aiMaterial) (searchPath : string) (importMode : ImportMode)
    (m : StandardMaterial) :
  createMaterial mr pathAppend fsqrt splitString create dbg useSpecGloss useMetalRough data
    pAiMaterial searchPath importMode = Ok (m, data') →
  data' = foldl (λ d w, logWarning w d) data
            (materialWarnings mr pathAppend splitString pAiMaterial searchPath importMode).
Proof.
  intros H. unfold createMaterial in H. unfold materialWarnings, materialName.
  destruct (String.eqb (mat_name pAiMaterial) "").
  - bind_inv H as u Ea.
    destruct (loadTextures mr pathAppend pAiMaterial searchPath importMode) as [loads warns].
    destruct (foldl (nameToken _) _ _) as [pM d2] eqn:Ef.
    injection H as _ <-.
    apply (f_equal snd) in Ef. rewrite nameTokens_warnings in Ef. cbn [snd] in Ef.
    subst d2. by rewrite !foldl_app.
  - bind_inv H as u Ea.
    destruct (loadTextures mr pathAppend pAiMaterial searchPath importMode) as [loads warns].
    destruct (foldl (nameToken _) _ _) as [pM d2] eqn:Ef.
    injection H as _ <-.
    apply (f_equal snd) in Ef. rewrite nameTokens_warnings in Ef. cbn [snd] in Ef.
    subst d2. by rewrite !foldl_app.
Qed.
End MaterialProofs.

Lemma createMaterial_opacity_witness :
  ∃ m data',
    createMaterial (aiTextureType_UNKNOWN, 0) slashJoin (λ x, x) splitRock
      plainStandardMaterial true false false jointData bumpyMaterial "assets" OBJ = Ok (m, data')
    ∧ baseAlpha m = Fin (1 # 4)
    ∧ sm_specularTransmission m = fsub one (Fin (1 # 4)).
Proof.
  assert (H : ∃ r, createMaterial (aiTextureType_UNKNOWN, 0) slashJoin (λ x, x) splitRock
                     plainStandardMaterial true false false jointData bumpyMaterial
                     "assets" OBJ
                   = Ok r) by (eexists; vm_compute; reflexivity).
  destruct H as [[m data'] H]. exists m, data'. split; [exact H|].
  exact (createMaterial_opacity _ _ _ _ _ _ _ _ _ _ _ _ _ _ H).
Defined.

Lemma createMaterial_double_sided_witness :
  ∃ m data',
    createMaterial (aiTextureType_UNKNOWN, 0) slashJoin (λ x, x) splitRock
      plainStandardMaterial true false false jointData bumpyMaterial "assets" OBJ = Ok (m, data')
    ∧ sm_doubleSided m = true.
Proof.
  assert (H : ∃ r, createMaterial (aiTextureType_UNKNOWN, 0) slashJoin (λ x, x) splitRock
                     plainStandardMaterial true false false jointData bumpyMaterial
                     "assets" OBJ
                   = Ok r) by (eexists; vm_compute; reflexivity).
  destruct H as [[m data'] H]. exists m, data'. split; [exact H|].
  exact (createMaterial_double_sided _ _ _ _ _ _ _ _ _ _ _ _ _ _ H).
Defined.

Lemma createMaterial_glossiness_witness :
  ∃ m data',
    createMaterial (aiTextureType_UNKNOWN, 0) slashJoin (λ x, x) splitRock
      plainStandardMaterial true false false jointData bumpyMaterial "assets" OBJ = Ok (m, data')
    ∧ glossiness m = fsub one (convertSpecPowerToRoughness (λ x, x) (Fin 120))
    ∧ unitF (glossiness m).
Proof.
  assert (H : ∃ r, createMaterial (aiTextureType_UNKNOWN, 0) slashJoin (λ x, x) splitRock
                     plainStandardMaterial true false false jointData bumpyMaterial
                     "assets" OBJ
                   = Ok r) by (eexists; vm_compute; reflexivity).
  destruct H as [[m data'] H]. exists m, data'. split; [exact H|].
  destruct (createMaterial_glossiness _ _ _ _ _ _ _ _ _ _ _ _ _ _ (Fin 120) H eq_refl)
    as [Hg Hu].
  split; [exact Hg|]. apply Hu; [reflexivity|]. vm_compute. discriminate.
Defined.

Lemma createMaterial_warnings_witness :
  ∃ m data',
    createMaterial (aiTextureType_UNKNOWN, 0) slashJoin (λ x, x) splitRock
      plainStandardMaterial true false false jointData bumpyMaterial "assets" OBJ = Ok (m, data')
    ∧ data' = foldl (λ d w, logWarning w d) jointData
                (materialWarnings (aiTextureType_UNKNOWN, 0) slashJoin splitRock bumpyMaterial
                   "assets" OBJ)
    ∧ length (materialWarnings (aiTextureType_UNKNOWN, 0) slashJoin splitRock bumpyMaterial
                   "assets" OBJ) = 2.
Proof.
  assert (H : ∃ r, createMaterial (aiTextureType_UNKNOWN, 0) slashJoin (λ x, x) splitRock
                     plainStandardMaterial true false false jointData bumpyMaterial
                     "assets" OBJ
                   = Ok r) by (eexists; vm_compute; reflexivity).
  destruct H as [[m data'] H]. exists m, data'. split; [exact H|].
  split; [|vm_compute; reflexivity].
  exact (createMaterial_warnings _ _ _ _ _ _ _ _ _ _ _ _ _ _ H).
Defined.

(** ** The external scene over a whole import *)

(** *** The stages that read the scene *)

Section Readers.
Context (metallicRoughnessTexture : aiTextureType * nat).
Context (pathAppend : string → string → string) (fsqrt : float → float).
Context (splitString : string → string → list string).
Context (StandardMaterial_create : string → ShadingModel → StandardMaterial).
Context (useSpecGloss useMetalRough : bool).
Context (normalize : float3 → float3) (vlength : float3 → float).
Context (getCol : nat → mat4 → float * float * float * float).
Context (setCol : nat → float * float * float * float → mat4 → mat4).
Context (Camera_create : Camera) (getViewMatrix : Camera → mat4).
Context (fovYToFocalLength : float → float → float).
Context (isNodeAnimated : SceneBuilder → NodeID → bool).







End Readers.

(** *** The stage that writes to the scene *)

Lemma trackLeft_refl {K : Type} (mTime : K → float) (setTime : float → K → K)
    (keys : list K) : trackLeft mTime setTime keys keys.
Proof. by left. Qed.

Lemma channelLeft_refl (c : aiNodeAnim) : channelLeft c c.
Proof. repeat split; apply trackLeft_refl. Qed.

Lemma animationLeft_refl (a : aiAnimation) : animationLeft a a.
Proof.
  repeat split. induction (mChannels a); constructor; [apply channelLeft_refl|done].
Qed.



(** [resetTime] leaves the array as it was or with its first key at zero,
    and with its first key at zero where that was negative once it
    returns. *)
Lemma resetTime_traced_spec {K : Type} (mTime : K → float) (setTime : float → K → K)
    (dbg : bool) (keys : list K) :
  trackLeft mTime setTime keys (resetTime_traced mTime setTime dbg keys).2
  ∧ ((resetTime_traced mTime setTime dbg keys).1 = Ok tt →
     (resetTime_traced mTime setTime dbg keys).2 = clampFirst mTime setTime keys)
  ∧ resetTime mTime setTime dbg keys
    = ((resetTime_traced mTime setTime dbg keys).1;;
       Ok (resetTime_traced mTime setTime dbg keys).2).
Proof.
  unfold trackLeft, resetTime_traced, resetTime, clampFirst.
  destruct (match keys !! 1 with
            | Some k1 => FALCOR_ASSERT dbg (fleb zero (mTime k1))
            | None => Ok tt
            end) as [[]|e]; cbn [fst snd mbind result_bind].
  - destruct keys as [|k0 rest]; [by auto|].
    destruct (fltb (mTime k0) zero); (split; [by auto|]); by split.
  - split; [by left|]. by split.
Qed.

Lemma resetNegativeKeyframeTimes_traced_spec (dbg : bool) (pAiNode : aiNodeAnim) :
  channelLeft pAiNode (resetNegativeKeyframeTimes_traced dbg pAiNode).2
  ∧ ((resetNegativeKeyframeTimes_traced dbg pAiNode).1 = Ok tt →
     (resetNegativeKeyframeTimes_traced dbg pAiNode).2 = clampChannel pAiNode)
  ∧ resetNegativeKeyframeTimes dbg pAiNode
    = ((resetNegativeKeyframeTimes_traced dbg pAiNode).1;;
       Ok (resetNegativeKeyframeTimes_traced dbg pAiNode).2).
Proof.
  pose proof (resetTime_traced_spec vk_mTime vk_setTime dbg (mPositionKeys pAiNode))
    as (Lp & Cp & Ap).
  pose proof (resetTime_traced_spec qk_mTime qk_setTime dbg (mRotationKeys pAiNode))
    as (Lr & Cr & Ar).
  pose proof (resetTime_traced_spec vk_mTime vk_setTime dbg (mScalingKeys pAiNode))
    as (Ls & Cs & As).
  unfold resetNegativeKeyframeTimes_traced, resetNegativeKeyframeTimes, clampChannel,
    channelLeft.
  rewrite Ap, Ar, As. clear Ap Ar As.
  destruct (resetTime_traced vk_mTime vk_setTime dbg (mPositionKeys pAiNode)) as [rp p].
  cbn [fst snd] in *.
  destruct rp as [[]|ep]; cbv zeta;
    cbn [mbind result_bind fst snd set_mPositionKeys set_mRotationKeys set_mScalingKeys
         mNodeName mPositionKeys mRotationKeys mScalingKeys].
  2:{ split; [|done]. repeat split; [done|apply trackLeft_refl|apply trackLeft_refl]. }
  destruct (resetTime_traced qk_mTime qk_setTime dbg (mRotationKeys pAiNode)) as [rr r].
  cbn [fst snd] in *.
  destruct rr as [[]|er]; cbv zeta;
    cbn [mbind result_bind fst snd set_mPositionKeys set_mRotationKeys set_mScalingKeys
         mNodeName mPositionKeys mRotationKeys mScalingKeys].
  2:{ split; [|done]. repeat split; [done|done|apply trackLeft_refl]. }
  destruct (resetTime_traced vk_mTime vk_setTime dbg (mScalingKeys pAiNode)) as [rs s].
  cbn [fst snd] in *.
  destruct rs as [[]|es]; cbv zeta;
    cbn [mbind result_bind fst snd set_mPositionKeys set_mRotationKeys set_mScalingKeys
         mNodeName mPositionKeys mRotationKeys mScalingKeys].
  - split; [by repeat split|]. split; [|done]. intros _.
    by rewrite (Cp eq_refl), (Cr eq_refl), (Cs eq_refl).
  - split; [by repeat split|]. done.
Qed.

Lemma createAnimationChannel_traced_spec (dbg : bool) (pAiAnim : aiAnimation)
    (importMode : ImportMode) (pAiNode : aiNodeAnim) (data : ImporterData) :
  channelLeft pAiNode (createAnimationChannel_traced dbg pAiAnim importMode pAiNode data).2
  ∧ createAnimationChannel dbg pAiAnim importMode pAiNode data
    = (d ← (createAnimationChannel_traced dbg pAiAnim importMode pAiNode data).1;
       Ok ((createAnimationChannel_traced dbg pAiAnim importMode pAiNode data).2, d)).
Proof.
  unfold createAnimationChannel_traced, createAnimationChannel.
  destruct (resetNegativeKeyframeTimes_traced_spec dbg pAiNode) as (L & _ & ->).
  destruct (resetNegativeKeyframeTimes_traced dbg pAiNode) as [r c]. cbn [fst snd] in *.
  split; [done|].
  destruct r as [[]|e]; cbn [mbind result_bind]; [|done].
  destruct (getNodeInstanceCount data (mNodeName c)) as [count|e];
    cbn [mbind result_bind]; [|done].
  destruct (createChannelAnimations _ _ _ _ _ _ _) as [animations b].
  by destruct (mergeLoop _ _ _ _ _ _ _ _ _ _).
Qed.

(** A loop in place leaves every element as one iteration may leave it or as
    it was. *)
Lemma forEachInPlace_left {A S : Type} (R : A → A → Prop) (body : A → S → result S * A)
    (l : list A) :
  (∀ x, R x x) → (∀ x s, R x (body x s).2) →
  ∀ s, Forall2 R l (forEachInPlace body l s).2.
Proof.
  intros Hrefl Hbody. induction l as [|x l IH]; intros s; [constructor|].
  cbn [forEachInPlace]. pose proof (Hbody x s) as Hx.
  destruct (body x s) as [[s'|e] x']; cbn [snd] in *.
  - specialize (IH s'). destruct (forEachInPlace body l s') as [r l']. cbn [snd] in *.
    by constructor.
  - constructor; [done|]. clear -Hrefl. induction l; by constructor.
Qed.

Lemma createAnimationChannels_traced_result (dbg : bool) (pAiAnim : aiAnimation)
    (importMode : ImportMode) (channels : list aiNodeAnim) : ∀ data,
  createAnimationChannels dbg pAiAnim importMode channels data
  = (d ← (forEachInPlace (createAnimationChannel_traced dbg pAiAnim importMode)
            channels data).1;
     Ok ((forEachInPlace (createAnimationChannel_traced dbg pAiAnim importMode)
            channels data).2, d)).
Proof.
  induction channels as [|c channels IH]; intros data; [done|].
  cbn [createAnimationChannels forEachInPlace].
  destruct (createAnimationChannel_traced_spec dbg pAiAnim importMode c data) as [_ ->].
  destruct (createAnimationChannel_traced dbg pAiAnim importMode c data) as [[d|e] c'];
    cbn [fst snd mbind result_bind]; [|done].
  rewrite IH.
  destruct (forEachInPlace _ channels d) as [[d'|e] cs']; cbn [fst snd mbind result_bind]; done.
Qed.

Lemma createAnimation_traced_spec (dbg : bool) (data : ImporterData)
    (pAiAnim : aiAnimation) (importMode : ImportMode) :
  animationLeft pAiAnim (createAnimation_traced dbg data pAiAnim importMode).2
  ∧ createAnimation dbg data pAiAnim importMode
    = (d ← (createAnimation_traced dbg data pAiAnim importMode).1;
       Ok ((createAnimation_traced dbg data pAiAnim importMode).2, d)).
Proof.
  unfold createAnimation_traced, createAnimation.
  destruct (FALCOR_ASSERT dbg (Nat.eqb (mNumMeshChannels pAiAnim) 0)) as [[]|e];
    cbn [mbind result_bind fst snd]; [|split; [apply animationLeft_refl|done]].
  rewrite createAnimationChannels_traced_result.
  pose proof (forEachInPlace_left channelLeft
                (createAnimationChannel_traced dbg pAiAnim importMode) (mChannels pAiAnim)
                channelLeft_refl
                (λ x s, proj1 (createAnimationChannel_traced_spec dbg pAiAnim importMode x s))
                data) as Hl.
  destruct (forEachInPlace _ (mChannels pAiAnim) data) as [r cs]. cbn [fst snd] in *.
  split; [by repeat split|]. by destruct r.
Qed.

Lemma createAnimationsLoop_traced_result (dbg : bool) (importMode : ImportMode)
    (anims : list aiAnimation) : ∀ data,
  createAnimationsLoop dbg importMode anims data
  = (d ← (forEachInPlace (λ a d, createAnimation_traced dbg d a importMode) anims data).1;
     Ok ((forEachInPlace (λ a d, createAnimation_traced dbg d a importMode) anims data).2,
         d)).
Proof.
  induction anims as [|a anims IH]; intros data; [done|].
  cbn [createAnimationsLoop forEachInPlace].
  destruct (createAnimation_traced_spec dbg data a importMode) as [_ ->].
  destruct (createAnimation_traced dbg data a importMode) as [[d|e] a'];
    cbn [fst snd mbind result_bind]; [|done].
  rewrite IH.
  destruct (forEachInPlace _ anims d) as [[d'|e] as']; cbn [fst snd mbind result_bind]; done.
Qed.

(** [createAnimations_traced] gives the result of [createAnimations], and
    leaves the scene as it was but for first keys. *)
Lemma createAnimations_traced_spec (dbg : bool) (data : ImporterData)
    (importMode : ImportMode) :
  sceneLeft (pScene data) (createAnimations_traced dbg data importMode).2
  ∧ (createAnimations_traced dbg data importMode).1 = createAnimations dbg data importMode
  ∧ ∀ data', (createAnimations_traced dbg data importMode).1 = Ok data' →
      pScene data' = clampScene (pScene data)
      ∧ (createAnimations_traced dbg data importMode).2 = clampScene (pScene data).
Proof.
  assert (Hres : (createAnimations_traced dbg data importMode).1
                 = createAnimations dbg data importMode).
  { unfold createAnimations_traced, createAnimations.
    rewrite createAnimationsLoop_traced_result.
    destruct (forEachInPlace _ (mAnimations (pScene data)) data) as [[d|e] anims]; done. }
  split; [|split; [exact Hres|]].
  - unfold createAnimations_traced.
    pose proof (forEachInPlace_left animationLeft
                  (λ a d, createAnimation_traced dbg d a importMode)
                  (mAnimations (pScene data)) animationLeft_refl
                  (λ x s, proj1 (createAnimation_traced_spec dbg s x importMode)) data) as Hl.
    destruct (forEachInPlace _ (mAnimations (pScene data)) data) as [r anims].
    cbn [fst snd] in *. by repeat split.
  - intros data' Hok. pose proof Hok as Hok'. rewrite Hres in Hok'.
    apply createAnimations_frame in Hok'. split; [exact Hok'|].
    unfold createAnimations_traced in *.
    pose proof (createAnimationsLoop_traced_result dbg importMode
                  (mAnimations (pScene data)) data) as Hloop.
    destruct (forEachInPlace _ (mAnimations (pScene data)) data) as [[d|e] anims];
      cbn [fst snd mbind result_bind] in *; [|done].
    apply createAnimationsLoop_frame in Hloop as [-> _]. done.
Qed.


(** On a scene without materials, cameras and lights the import with every
    stage gives what [import] gives: the stages [import] leaves out have
    nothing to do there. *)
Lemma import_traced_import
    (metallicRoughnessTexture : aiTextureType * nat)
    (pathAppend : string → string → string) (fsqrt : float → float)
    (splitString : string → string → list string)
    (StandardMaterial_create : string → ShadingModel → StandardMaterial)
    (useSpecGloss useMetalRough : bool)
    (normalize : float3 → float3) (vlength : float3 → float)
    (getCol : nat → mat4 → float * float * float * float)
    (setCol : nat → float * float * float * float → mat4 → mat4)
    (Camera_create : Camera) (getViewMatrix : Camera → mat4)
    (fovYToFocalLength : float → float → float)
    (isNodeAnimated : SceneBuilder → NodeID → bool)
    (dbg : bool) (schedule : list nat) (s : aiScene) (b : SceneBuilder)
    (instances : list mat4) (searchPath : string) (mode : ImportMode) :
  mNumMaterials s = 0 → scene_mCameras s = [] → scene_mLights s = [] →
  (import_traced metallicRoughnessTexture pathAppend fsqrt splitString
     StandardMaterial_create useSpecGloss useMetalRough normalize vlength getCol setCol
     Camera_create getViewMatrix fovYToFocalLength isNodeAnimated
     dbg schedule s b instances searchPath mode).1
  = (data ← import dbg schedule s b instances mode;
     Ok {| imp_data := data; imp_materials := []; imp_cameras := [];
           imp_interpolated := []; imp_lights := [] |}).
Proof.
  intros Hmat Hcam Hlight. unfold import_traced, import, reading.
  destruct (validateScene (ImporterData_new s b instances)) as [d0|e] eqn:E0;
    cbn [mbind result_bind]; [|done].
  apply validateScene_pScene in E0. cbn [pScene ImporterData_new] in E0.
  unfold createAllMaterials_decoded, createAllMaterials. rewrite E0, Hmat.
  cbn [seq forEach foldl].
  replace (set_materialMap (materialMap d0) d0) with d0 by (by destruct d0).
  destruct (createSceneGraph dbg d0) as [d2|e] eqn:E2; cbn [mbind result_bind]; [|done].
  apply createSceneGraph_pScene in E2.
  destruct (createMeshes dbg schedule d2) as [d3|e] eqn:E3; cbn [mbind result_bind]; [|done].
  apply createMeshes_pScene in E3.
  destruct (addMeshInstances (mRootNode (pScene d3)) d3) as [d4|e] eqn:E4;
    cbn [mbind result_bind]; [|done].
  apply addMeshInstances_pScene in E4.
  assert (Hs : pScene d4 = s) by congruence.
  destruct (createAnimations_traced_spec dbg d4 mode) as (_ & Hres & Hok).
  rewrite <- Hres.
  destruct (createAnimations_traced dbg d4 mode) as [[d5|e] scene]; cbn [fst snd] in *;
    cbn [mbind result_bind]; [|done].
  destruct (Hok d5 eq_refl) as [Hd5 _]. rewrite Hs in Hd5.
  unfold createCameras, createLights. rewrite Hd5.
  cbn [clampScene scene_mCameras scene_mLights set_mAnimations].
  rewrite Hcam. cbn [foldl]. rewrite Hd5.
  cbn [clampScene scene_mCameras scene_mLights set_mAnimations].
  rewrite Hlight. done.
Qed.

(** *** C8 *)


